(** * FlowGraph editor: graph-node reconciliation

    A shallow embedding of [UFlowGraphNode] (FlowGraphNode.cpp): the pin
    matching helpers, the reconstruction orchestrator ([ReconstructNode],
    [AllocateDefaultPins], [RewireOldPinsToNewPins]) and the sub-node
    (add-on) hierarchy ([SetParentNodeForSubNode], [IsAncestorNode],
    [CanAcceptSubNodeAsChild], [RebuildRuntimeAddOnsFromEditorSubNodes]).

    Objects that the C++ code reaches through pointers (pins, graph nodes,
    runtime node instances) live in stores indexed by their address, so that
    aliasing is visible; a null pointer is [None]. A call that does not
    return in the source -- a null pointer followed, a checked cast or a
    range check failed -- is [None] in the functions that return an
    [option]. *)

From Stdlib Require Import DecimalString.
From stdpp Require Import gmap strings list fin_maps.

(** ** Names and pointers *)

Abbreviation FName := string (only parsing).
Abbreviation FString := string (only parsing).
Abbreviation pin_ptr := nat (only parsing).
Abbreviation node_ptr := nat (only parsing).
Abbreviation inst_ptr := nat (only parsing).

Definition NAME_None : FName := "None"%string.

Definition FName_IsNone (n : FName) : bool := bool_decide (n = NAME_None).

(** ** Pin descriptors ([FFlowPin]) *)

(** Modelled from the spec: the declaration of [EFlowPinType] is not part of
    the sources at hand; the data model lists the categories
    Exec | Data(Bool | Int | Float | Name | String | Text | Object). *)
Inductive EFlowPinType :=
| PinType_Exec | PinType_Bool | PinType_Int | PinType_Float
| PinType_Name | PinType_String | PinType_Text | PinType_Object.

#[global] Instance EFlowPinType_eq_dec : EqDecision EFlowPinType.
Proof. solve_decision. Defined.

Record FFlowPin := mkFlowPin {
  FlowPin_PinName : FName;
  FlowPin_PinFriendlyName : FString;
  FlowPin_PinToolTip : FString;
  FlowPin_PinType : EFlowPinType;
}.

Definition GetPinType (p : FFlowPin) : EFlowPinType := FlowPin_PinType p.

(** Modelled from the spec: [FFlowPin::IsValid] is declared outside the
    sources at hand; a descriptor is identified by its name, and
    [CreateInputPin]/[CreateOutputPin] refuse exactly the descriptors whose
    name is [NAME_None]. *)
Definition FlowPin_IsValid (p : FFlowPin) : bool := negb (FName_IsNone (FlowPin_PinName p)).

(** ** Pin matching (free functions [CheckPinsMatch]) *)

Definition ContainsByPredicate {A : Type} (P : A → bool) (l : list A) : bool :=
  existsb P l.

(** The lambda [PinsAreEqualPredicate] of the first overload. *)
Definition PinsAreEqualPredicate (Left Right : FFlowPin) : bool :=
  let bNameMatch := bool_decide (FlowPin_PinName Left = FlowPin_PinName Right) in
  let bTypeMatch := bool_decide (GetPinType Left = GetPinType Right) in
  bNameMatch && bTypeMatch.

(** [CheckPinsMatch(const TArray<FFlowPin>&, const TArray<FFlowPin>&)]. *)
Definition CheckPinsMatch (LeftPins RightPins : list FFlowPin) : bool :=
  if negb (length LeftPins =? length RightPins) then false
  else forallb (λ Left, ContainsByPredicate (PinsAreEqualPredicate Left) RightPins) LeftPins.

(** The name-and-type identity of a descriptor, as the predicate compares it. *)
Definition FlowPin_key (p : FFlowPin) : FName * EFlowPinType :=
  (FlowPin_PinName p, GetPinType p).

(** The spec's reading of the contract: a full, symmetric set-equality test
    on name-and-type keys (each descriptor of either sequence has a
    counterpart in the other). *)
Definition SymmetricSetEqualityTest (A B : list FFlowPin) : bool :=
  forallb (λ a, ContainsByPredicate (PinsAreEqualPredicate a) B) A
  && forallb (λ b, ContainsByPredicate (PinsAreEqualPredicate b) A) B.

(** The second overload,
    [CheckPinsMatch(const TArray<UEdGraphPin*>&, const TArray<FFlowPin>&)],
    sees the graph pins through their names only. *)
Definition CheckPinsMatch_Graph (GraphPinNames : list FName) (NodePins : list FFlowPin) : bool :=
  if negb (length GraphPinNames =? length NodePins) then false
  else forallb (λ FlowNodePin,
         ContainsByPredicate (λ GraphNodePinName,
           bool_decide (GraphNodePinName = FlowPin_PinName FlowNodePin)) GraphPinNames)
       NodePins.

(** [TArray::RemoveAtSwap(i)]: the last element takes the place of the
    removed one. *)
Definition RemoveAtSwap {A : Type} (i : nat) (l : list A) : list A :=
  match last l with
  | Some x => take (length l - 1) (<[i := x]> l)
  | None => l
  end.

(** The loop of both [CleanInvalidPins] overloads: indices [i-1], ..., [0]
    are visited in that order and the elements that are not [keep] are
    removed by swapping. *)
Fixpoint CleanInvalidPins_from {A : Type} (keep : A → bool) (i : nat) (Array : list A) : list A :=
  match i with
  | 0 => Array
  | S i' =>
      match Array !! i' with
      | Some x =>
          if keep x then CleanInvalidPins_from keep i' Array
          else CleanInvalidPins_from keep i' (RemoveAtSwap i' Array)
      | None => CleanInvalidPins_from keep i' Array
      end
  end.

Definition CleanInvalidPins {A : Type} (keep : A → bool) (Array : list A) : list A :=
  CleanInvalidPins_from keep (length Array) Array.

(** ** Graph pins ([UEdGraphPin]) and the pin heap *)

Inductive EEdGraphPinDirection := EGPD_Input | EGPD_Output | EGPD_MAX.

#[global] Instance EEdGraphPinDirection_eq_dec : EqDecision EEdGraphPinDirection.
Proof. solve_decision. Defined.

Record UEdGraphPin := mkPin {
  PinName : FName;
  Direction : EEdGraphPinDirection;
  PinCategory : EFlowPinType;
  PinFriendlyName : FString;
  bAllowFriendlyName : bool;
  PinToolTip : FString;
  LinkedTo : list pin_ptr;
  ParentPin : option pin_ptr;
  bHidden : bool;
  bOrphanedPin : bool;
  bNotConnectable : bool;
  bSavePinIfOrphaned : bool;
  bWasTrashed : bool;
}.

Definition set_LinkedTo (f : list pin_ptr → list pin_ptr) (p : UEdGraphPin) : UEdGraphPin :=
  mkPin (PinName p) (Direction p) (PinCategory p) (PinFriendlyName p) (bAllowFriendlyName p)
        (PinToolTip p) (f (LinkedTo p)) (ParentPin p) (bHidden p) (bOrphanedPin p)
        (bNotConnectable p) (bSavePinIfOrphaned p) (bWasTrashed p).

Definition set_Orphaned (p : UEdGraphPin) : UEdGraphPin :=
  mkPin (PinName p) (Direction p) (PinCategory p) (PinFriendlyName p) (bAllowFriendlyName p)
        (PinToolTip p) (LinkedTo p) (ParentPin p) (bHidden p) true
        true (bSavePinIfOrphaned p) (bWasTrashed p).

Definition set_Trashed (p : UEdGraphPin) : UEdGraphPin :=
  mkPin (PinName p) (Direction p) (PinCategory p) (PinFriendlyName p) (bAllowFriendlyName p)
        (PinToolTip p) (LinkedTo p) (ParentPin p) (bHidden p) (bOrphanedPin p)
        (bNotConnectable p) (bSavePinIfOrphaned p) true.

(** The pin objects, by address, and the next free address. *)
Record PinHeap := mkHeap {
  heap_pins : gmap pin_ptr UEdGraphPin;
  heap_next : pin_ptr;
}.

Definition heap_alter (f : UEdGraphPin → UEdGraphPin) (p : pin_ptr) (h : PinHeap) : PinHeap :=
  mkHeap (alter f p (heap_pins h)) (heap_next h).

(** [UEdGraphPin::ShouldSavePinIfOrphaned]. *)
Definition ShouldSavePinIfOrphaned (p : UEdGraphPin) : bool := bSavePinIfOrphaned p.

(** *** Engine pin operations

    These four belong to the host editor, not to FlowGraphNode.cpp. *)

(** Modelled from the spec: [UEdGraphNode::CreatePin] is engine code; a pin
    is "created during pin-array (re)allocation" as a fresh object with no
    connection and no flag set. *)
Definition NewPinObject (Dir : EEdGraphPinDirection) (Cat : EFlowPinType) (Name : FName)
    : UEdGraphPin :=
  mkPin Name Dir Cat EmptyString false EmptyString [] None false false false true false.

Definition heap_alloc (pin : UEdGraphPin) (h : PinHeap) : PinHeap * pin_ptr :=
  (mkHeap (<[heap_next h := pin]> (heap_pins h)) (S (heap_next h)), heap_next h).

(** [TArray::Find], [TArray::Insert] and [TArray::Remove] (all instances).
    [Insert] is the array after an insertion at an index that [TArray::Insert]
    accepts, one up to the length; its callers test the index first. *)
Fixpoint Find (x : pin_ptr) (l : list pin_ptr) : option nat :=
  match l with
  | [] => None
  | y :: l' => if decide (y = x) then Some 0 else S <$> Find x l'
  end.

Definition Insert {A : Type} (x : A) (i : nat) (l : list A) : list A :=
  take i l ++ x :: drop i l.

Definition Remove (x : pin_ptr) (l : list pin_ptr) : list pin_ptr :=
  filter (λ y, y ≠ x) l.

(** Modelled from the spec: [UEdGraphPin::MovePersistentDataFromOldPin] is
    engine code; the rewire pass "rewires old connections onto matching new
    pins". Every pin the old pin is linked to becomes linked to the new pin,
    and the new pin enters the other side's list at the old pin's position
    (at the end when the other side does not list the old pin). The old
    pin's own list is read once, before the loop. *)
Definition MoveLink (NewPin OldPin : pin_ptr) (h : PinHeap) (OtherPin : pin_ptr) : PinHeap :=
  let h1 := heap_alter (set_LinkedTo (λ l, l ++ [OtherPin])) NewPin h in
  heap_alter (set_LinkedTo (λ l,
    match Find OldPin l with
    | Some Index => Insert NewPin Index l
    | None => l ++ [NewPin]
    end)) OtherPin h1.

Definition MovePersistentDataFromOldPin (NewPin OldPin : pin_ptr) (h : PinHeap) : PinHeap :=
  match heap_pins h !! OldPin with
  | Some old => foldl (MoveLink NewPin OldPin) h (LinkedTo old)
  | None => h
  end.

(** Modelled from the spec: [UEdGraphPin::BreakLinkTo] and
    [BreakAllPinLinks] are engine code; "severing must be mirrored on both
    sides". *)
Definition BreakLinkTo (This : pin_ptr) (h : PinHeap) (ToPin : pin_ptr) : PinHeap :=
  match heap_pins h !! This with
  | Some this =>
      if decide (ToPin ∈ LinkedTo this) then
        heap_alter (set_LinkedTo (Remove This)) ToPin
          (heap_alter (set_LinkedTo (Remove ToPin)) This h)
      else h
  | None => h
  end.

Definition BreakAllPinLinks (This : pin_ptr) (h : PinHeap) : PinHeap :=
  match heap_pins h !! This with
  | Some this => foldl (BreakLinkTo This) h (reverse (LinkedTo this))
  | None => h
  end.

(** Modelled from the spec: [UEdGraphNode::DestroyPin] is engine code; the
    pin is "released". *)
Definition DestroyPin (Pin : pin_ptr) (h : PinHeap) : PinHeap :=
  heap_alter set_Trashed Pin h.

(** ** Runtime node instances ([UFlowNodeBase]) *)

(** What [Cast<UFlowNode>] and [Cast<UFlowNodeAddOn>] can tell apart. *)
Inductive InstanceClass := Class_FlowNode | Class_FlowNodeAddOn | Class_FlowNodeBase.

#[global] Instance InstanceClass_eq_dec : EqDecision InstanceClass.
Proof. solve_decision. Defined.

(** The members of the runtime object that the editor node reads or writes.
    The virtual queries ([GetContextInputs], [SupportsContextPins], ...) and
    the pins of the class default object are held as the values they return
    for this object. *)
Record UFlowNodeBase := mkInst {
  Inst_Class : InstanceClass;
  Inst_IsGarbage : bool;
  Inst_HasFlowAsset : bool;
  Inst_InputPins : list FFlowPin;
  Inst_OutputPins : list FFlowPin;
  Inst_AddOns : list inst_ptr;
  CDO_InputPins : list FFlowPin;
  CDO_OutputPins : list FFlowPin;
  ContextInputs : list FFlowPin;
  ContextOutputs : list FFlowPin;
  bSupportsContextPins : bool;
  bCanRefreshContextPinsOnLoad : bool;
  bCanUserAddInput : bool;
  bCanUserAddOutput : bool;
}.

Definition set_Inst_InputPins (l : list FFlowPin) (i : UFlowNodeBase) : UFlowNodeBase :=
  mkInst (Inst_Class i) (Inst_IsGarbage i) (Inst_HasFlowAsset i) l (Inst_OutputPins i)
         (Inst_AddOns i) (CDO_InputPins i) (CDO_OutputPins i) (ContextInputs i)
         (ContextOutputs i) (bSupportsContextPins i) (bCanRefreshContextPinsOnLoad i)
         (bCanUserAddInput i) (bCanUserAddOutput i).

Definition set_Inst_OutputPins (l : list FFlowPin) (i : UFlowNodeBase) : UFlowNodeBase :=
  mkInst (Inst_Class i) (Inst_IsGarbage i) (Inst_HasFlowAsset i) (Inst_InputPins i) l
         (Inst_AddOns i) (CDO_InputPins i) (CDO_OutputPins i) (ContextInputs i)
         (ContextOutputs i) (bSupportsContextPins i) (bCanRefreshContextPinsOnLoad i)
         (bCanUserAddInput i) (bCanUserAddOutput i).

Definition set_Inst_AddOns (l : list inst_ptr) (i : UFlowNodeBase) : UFlowNodeBase :=
  mkInst (Inst_Class i) (Inst_IsGarbage i) (Inst_HasFlowAsset i) (Inst_InputPins i)
         (Inst_OutputPins i) l (CDO_InputPins i) (CDO_OutputPins i) (ContextInputs i)
         (ContextOutputs i) (bSupportsContextPins i) (bCanRefreshContextPinsOnLoad i)
         (bCanUserAddInput i) (bCanUserAddOutput i).

(** ** The owning graph ([UFlowGraph]) and the graph node ([UFlowGraphNode]) *)

Record UFlowGraph := mkGraph {
  Graph_IsGarbage : bool;
  bIsSavingGraph : bool;
  bIsLocked : bool;
  bIsLoadingGraph : bool;
  Graph_HasFlowAsset : bool;
}.

Inductive ESaveOrphanPinMode := SaveNone | SaveAll | SaveAllButExec.

#[global] Instance ESaveOrphanPinMode_eq_dec : EqDecision ESaveOrphanPinMode.
Proof. solve_decision. Defined.

Record UFlowGraphNode := mkNode {
  NodeInstance : option inst_ptr;
  Graph : option UFlowGraph;
  Node_IsGarbage : bool;
  Pins : list pin_ptr;
  InputPins : list pin_ptr;
  OutputPins : list pin_ptr;
  ParentNode : option node_ptr;
  SubNodes : list (option node_ptr);
  bIsSubNode : bool;
  bIsReconstructingNode : bool;
  bIsDestroyingNode : bool;
  bNeedsFullReconstruction : bool;
  bDisableOrphanPinSaving : bool;
  OrphanedPinSaveMode : ESaveOrphanPinMode;
}.

Definition set_PinArrays (Ps Is Os : list pin_ptr) (N : UFlowGraphNode) : UFlowGraphNode :=
  mkNode (NodeInstance N) (Graph N) (Node_IsGarbage N) Ps Is Os (ParentNode N) (SubNodes N)
         (bIsSubNode N) (bIsReconstructingNode N) (bIsDestroyingNode N)
         (bNeedsFullReconstruction N) (bDisableOrphanPinSaving N) (OrphanedPinSaveMode N).

Definition set_bIsReconstructingNode (b : bool) (N : UFlowGraphNode) : UFlowGraphNode :=
  mkNode (NodeInstance N) (Graph N) (Node_IsGarbage N) (Pins N) (InputPins N) (OutputPins N)
         (ParentNode N) (SubNodes N) (bIsSubNode N) b (bIsDestroyingNode N)
         (bNeedsFullReconstruction N) (bDisableOrphanPinSaving N) (OrphanedPinSaveMode N).

Definition set_bNeedsFullReconstruction (b : bool) (N : UFlowGraphNode) : UFlowGraphNode :=
  mkNode (NodeInstance N) (Graph N) (Node_IsGarbage N) (Pins N) (InputPins N) (OutputPins N)
         (ParentNode N) (SubNodes N) (bIsSubNode N) (bIsReconstructingNode N)
         (bIsDestroyingNode N) b (bDisableOrphanPinSaving N) (OrphanedPinSaveMode N).

Definition set_Parent (P : option node_ptr) (sub : bool) (N : UFlowGraphNode) : UFlowGraphNode :=
  mkNode (NodeInstance N) (Graph N) (Node_IsGarbage N) (Pins N) (InputPins N) (OutputPins N)
         P (SubNodes N) sub (bIsReconstructingNode N) (bIsDestroyingNode N)
         (bNeedsFullReconstruction N) (bDisableOrphanPinSaving N) (OrphanedPinSaveMode N).

Definition set_SubNodes (l : list (option node_ptr)) (N : UFlowGraphNode) : UFlowGraphNode :=
  mkNode (NodeInstance N) (Graph N) (Node_IsGarbage N) (Pins N) (InputPins N) (OutputPins N)
         (ParentNode N) l (bIsSubNode N) (bIsReconstructingNode N) (bIsDestroyingNode N)
         (bNeedsFullReconstruction N) (bDisableOrphanPinSaving N) (OrphanedPinSaveMode N).

(** ** The editor world *)

(** What the node makes observable to its collaborators: the execution of
    the [OnReconstructNodeCompleted] delegate and the messages handed to the
    asset's error log. *)
Inductive Event :=
| Ev_OnReconstructNodeCompleted (Node : node_ptr)
| Ev_LogError (Node : node_ptr) (Message : FString).

#[global] Instance Event_eq_dec : EqDecision Event.
Proof. solve_decision. Defined.

Record World := mkWorld {
  PinObjects : PinHeap;
  GraphNodes : gmap node_ptr UFlowGraphNode;
  NodeInstances : gmap inst_ptr UFlowNodeBase;
  GIsTransacting : bool;
  bOrphanPinsEnabled : bool;
  Trace : list Event;
}.

Definition set_PinObjects (h : PinHeap) (w : World) : World :=
  mkWorld h (GraphNodes w) (NodeInstances w) (GIsTransacting w) (bOrphanPinsEnabled w) (Trace w).

Definition set_GraphNode (n : node_ptr) (N : UFlowGraphNode) (w : World) : World :=
  mkWorld (PinObjects w) (<[n := N]> (GraphNodes w)) (NodeInstances w) (GIsTransacting w)
          (bOrphanPinsEnabled w) (Trace w).

Definition set_NodeInstance (i : inst_ptr) (X : UFlowNodeBase) (w : World) : World :=
  mkWorld (PinObjects w) (GraphNodes w) (<[i := X]> (NodeInstances w)) (GIsTransacting w)
          (bOrphanPinsEnabled w) (Trace w).

Definition emit (e : Event) (w : World) : World :=
  mkWorld (PinObjects w) (GraphNodes w) (NodeInstances w) (GIsTransacting w)
          (bOrphanPinsEnabled w) (Trace w ++ [e]).

(** [if (NodeInstance)] follows the pointer; [IsValid(NodeInstance)] also
    refuses an object that is being destroyed. *)
Definition deref_Instance (w : World) (o : option inst_ptr) : option UFlowNodeBase :=
  o ≫= λ i, NodeInstances w !! i.

Definition IsValid_Instance (w : World) (o : option inst_ptr) : bool :=
  match deref_Instance w o with
  | Some X => negb (Inst_IsGarbage X)
  | None => false
  end.

Definition Cast_UFlowNode (w : World) (o : option inst_ptr) : option UFlowNodeBase :=
  match deref_Instance w o with
  | Some X => if decide (Inst_Class X = Class_FlowNode) then Some X else None
  | None => None
  end.

Definition Cast_UFlowNodeAddOn (w : World) (o : option inst_ptr) : option inst_ptr :=
  match o, deref_Instance w o with
  | Some i, Some X => if decide (Inst_Class X = Class_FlowNodeAddOn) then Some i else None
  | _, _ => None
  end.

Definition IsValid_Graph (g : option UFlowGraph) : bool :=
  match g with
  | Some G => negb (Graph_IsGarbage G)
  | None => false
  end.

Definition IsValid_Node (w : World) (o : option node_ptr) : bool :=
  match o ≫= λ n, GraphNodes w !! n with
  | Some N => negb (Node_IsGarbage N)
  | None => false
  end.

Definition pin_name (h : PinHeap) (p : pin_ptr) : FName :=
  from_option PinName NAME_None (heap_pins h !! p).

Definition pin_orphaned (h : PinHeap) (p : pin_ptr) : bool :=
  from_option bOrphanedPin false (heap_pins h !! p).

(** ** Pin creation *)

(** [UEdGraphNode::CreatePin] adds the new pin to [Pins], at [Index] when it
    is a valid index and at the end otherwise ([None] is [INDEX_NONE]). *)
Definition CreatePin (Dir : EEdGraphPinDirection) (Cat : EFlowPinType) (Name : FName)
    (Index : option nat) (st : UFlowGraphNode * PinHeap) : UFlowGraphNode * PinHeap * pin_ptr :=
  let '(N, h) := st in
  let '(h', NewPin) := heap_alloc (NewPinObject Dir Cat Name) h in
  let Pins' :=
    match Index with
    | Some i => if decide (i < length (Pins N)) then Insert NewPin i (Pins N) else Pins N ++ [NewPin]
    | None => Pins N ++ [NewPin]
    end in
  (set_PinArrays Pins' (InputPins N) (OutputPins N) N, h', NewPin).

Definition set_FriendlyName_ToolTip (FlowPin : FFlowPin) (p : UEdGraphPin) : UEdGraphPin :=
  let named := negb (bool_decide (FlowPin_PinFriendlyName FlowPin = EmptyString)) in
  mkPin (PinName p) (Direction p) (PinCategory p)
        (if named then FlowPin_PinFriendlyName FlowPin else PinFriendlyName p)
        (if named then true else bAllowFriendlyName p)
        (FlowPin_PinToolTip FlowPin) (LinkedTo p) (ParentPin p) (bHidden p) (bOrphanedPin p)
        (bNotConnectable p) (bSavePinIfOrphaned p) (bWasTrashed p).

Definition CreateInputPin (FlowPin : FFlowPin) (Index : option nat)
    (st : UFlowGraphNode * PinHeap) : UFlowGraphNode * PinHeap :=
  if FName_IsNone (FlowPin_PinName FlowPin) then st
  else
    let '(N, h, NewPin) :=
      CreatePin EGPD_Input (GetPinType FlowPin) (FlowPin_PinName FlowPin) Index st in
    (set_PinArrays (Pins N) (InputPins N ++ [NewPin]) (OutputPins N) N,
     heap_alter (set_FriendlyName_ToolTip FlowPin) NewPin h).

Definition CreateOutputPin (FlowPin : FFlowPin) (Index : option nat)
    (st : UFlowGraphNode * PinHeap) : UFlowGraphNode * PinHeap :=
  if FName_IsNone (FlowPin_PinName FlowPin) then st
  else
    let '(N, h, NewPin) :=
      CreatePin EGPD_Output (GetPinType FlowPin) (FlowPin_PinName FlowPin) Index st in
    (set_PinArrays (Pins N) (InputPins N) (OutputPins N ++ [NewPin]) N,
     heap_alter (set_FriendlyName_ToolTip FlowPin) NewPin h).

(** [AllocateDefaultPins]; [FlowNode] is [Cast<UFlowNode>(NodeInstance)]. *)
Definition AllocateDefaultPins (FlowNode : option UFlowNodeBase)
    (st : UFlowGraphNode * PinHeap) : UFlowGraphNode * PinHeap :=
  match FlowNode with
  | Some X =>
      let st1 := foldl (λ st InputPin, CreateInputPin InputPin None st) st (Inst_InputPins X) in
      foldl (λ st OutputPin, CreateOutputPin OutputPin None st) st1 (Inst_OutputPins X)
  | None => st
  end.

(** ** The rewire pass *)

(** The locals of [RewireOldPinsToNewPins] together with the pin heap and the
    caller's [InOldPins] array, which the pass shrinks. *)
Record RewireState := mkRewire {
  rw_heap : PinHeap;
  rw_InOldPins : list pin_ptr;
  rw_NewPinMatched : list bool;
  rw_OrphanedOldPins : list pin_ptr;
  rw_MatchedPins : list (pin_ptr * pin_ptr);
}.

(** The inner [for] loop: [NewPinCount] more new pins are examined, starting
    at [NewPinIndex] and wrapping around; the index of the first unclaimed
    new pin with the old pin's name is returned. *)
Fixpoint FindNewPin (h : PinHeap) (NewPins : list pin_ptr) (NewPinMatched : list bool)
    (OldName : FName) (NewPinIndex NewPinCount : nat) : option nat :=
  match NewPinCount with
  | 0 => None
  | S NewPinCount' =>
      if negb (default true (NewPinMatched !! NewPinIndex))
         && bool_decide ((pin_name h <$> NewPins !! NewPinIndex) = Some OldName)
      then Some NewPinIndex
      else FindNewPin h NewPins NewPinMatched OldName
             ((NewPinIndex + 1) `mod` length NewPins) NewPinCount'
  end.

(** [ReconstructSinglePin]. *)
Definition ReconstructSinglePin (NewPin OldPin : pin_ptr) (h : PinHeap) : PinHeap :=
  MovePersistentDataFromOldPin NewPin OldPin h.

(** The test that decides whether an old pin is kept as an orphan. *)
Definition ShouldKeepOrphan (OrphanPinsEnabled : bool) (N : UFlowGraphNode)
    (bMatched : bool) (OldPin : UEdGraphPin) : bool :=
  OrphanPinsEnabled && negb (bDisableOrphanPinSaving N)
  && bool_decide (OrphanedPinSaveMode N = SaveAll)
  && negb bMatched && negb (bHidden OldPin) && ShouldSavePinIfOrphaned OldPin
  && bool_decide (0 < length (LinkedTo OldPin)).

(** One iteration of the outer loop, for [OldPinIndex]. [N] is the node
    after [AllocateDefaultPins], so [Pins N] are the new pins. *)
Definition RewireStep (OrphanPinsEnabled : bool) (N : UFlowGraphNode) (OldPinIndex : nat)
    (st : RewireState) : RewireState :=
  match rw_InOldPins st !! OldPinIndex with
  | None => st
  | Some OldPin =>
      let NumNewPins := length (Pins N) in
      let Start := if decide (NumNewPins = 0) then 0 else OldPinIndex `mod` NumNewPins in
      let found :=
        FindNewPin (rw_heap st) (Pins N) (rw_NewPinMatched st)
          (pin_name (rw_heap st) OldPin) Start NumNewPins in
      let st1 :=
        match found, found ≫= λ j, Pins N !! j with
        | Some NewPinIndex, Some NewPin =>
            mkRewire (ReconstructSinglePin NewPin OldPin (rw_heap st))
                     (rw_InOldPins st)
                     (<[NewPinIndex := true]> (rw_NewPinMatched st))
                     (rw_OrphanedOldPins st)
                     (rw_MatchedPins st ++ [(OldPin, NewPin)])
        | _, _ => st
        end in
      let bMatched := bool_decide (is_Some found) in
      match heap_pins (rw_heap st1) !! OldPin with
      | Some old =>
          if ShouldKeepOrphan OrphanPinsEnabled N bMatched old then
            mkRewire (heap_alter set_Orphaned OldPin (rw_heap st1))
                     (delete OldPinIndex (rw_InOldPins st1))
                     (rw_NewPinMatched st1)
                     (rw_OrphanedOldPins st1 ++ [OldPin])
                     (rw_MatchedPins st1)
          else st1
      | None => st1
      end
  end.

(** The outer loop visits [OldPinIndex = i-1], ..., [0]. *)
Fixpoint RewireLoop (OrphanPinsEnabled : bool) (N : UFlowGraphNode) (i : nat)
    (st : RewireState) : RewireState :=
  match i with
  | 0 => st
  | S i' => RewireLoop OrphanPinsEnabled N i' (RewireStep OrphanPinsEnabled N i' st)
  end.

(** The second loop: the orphans without a parent pin are appended, last
    collected first. *)
Definition AppendOrphan (h : PinHeap) (N : UFlowGraphNode) (OrphanedPin : pin_ptr)
    : UFlowGraphNode :=
  match heap_pins h !! OrphanedPin with
  | Some orphan =>
      match ParentPin orphan with
      | None =>
          match Direction orphan with
          | EGPD_Input =>
              set_PinArrays (Pins N ++ [OrphanedPin]) (InputPins N ++ [OrphanedPin]) (OutputPins N) N
          | EGPD_Output =>
              set_PinArrays (Pins N ++ [OrphanedPin]) (InputPins N) (OutputPins N ++ [OrphanedPin]) N
          | EGPD_MAX =>
              set_PinArrays (Pins N ++ [OrphanedPin]) (InputPins N) (OutputPins N) N
          end
      | Some _ => N
      end
  | None => N
  end.

Definition RewireOldPinsToNewPins (OrphanPinsEnabled : bool) (InOldPins : list pin_ptr)
    (st : UFlowGraphNode * PinHeap) : UFlowGraphNode * RewireState :=
  let '(N, h) := st in
  let st0 := mkRewire h InOldPins (replicate (length (Pins N)) false) [] [] in
  let st1 := RewireLoop OrphanPinsEnabled N (length InOldPins) st0 in
  (foldl (AppendOrphan (rw_heap st1)) N (reverse (rw_OrphanedOldPins st1)), st1).

(** The body of [if (bGraphNodeRequiresReconstruction)] up to the end of the
    loop that destroys the old pins. *)
Definition DestroyOldPin (h : PinHeap) (OldPin : pin_ptr) : PinHeap :=
  DestroyPin OldPin (BreakAllPinLinks OldPin h).

Definition RebuildPinArrays (OrphanPinsEnabled : bool) (FlowNode : option UFlowNodeBase)
    (st : UFlowGraphNode * PinHeap) : UFlowGraphNode * PinHeap * RewireState :=
  let '(N, h) := st in
  let OldPins := Pins N in
  let st1 := AllocateDefaultPins FlowNode (set_PinArrays [] [] [] N, h) in
  let '(N2, rw) := RewireOldPinsToNewPins OrphanPinsEnabled OldPins st1 in
  (N2, foldl DestroyOldPin (rw_heap rw) (rw_InOldPins rw), rw).

(** ** Reconstruction *)

(** [GetFlowGraph] is [CastChecked<UFlowGraph>(GetGraph())]: [None] on a
    node without graph, where the checked cast fails fatally. *)
Definition GetFlowGraph (N : UFlowGraphNode) : option UFlowGraph := Graph N.

(** [GetFlowAsset]: whether the graph of the node has an asset (the
    returned pointer is not null); [None] where [GetFlowGraph] fails. *)
Definition GetFlowAsset (N : UFlowGraphNode) : option bool :=
  FlowGraph ← GetFlowGraph N; Some (Graph_HasFlowAsset FlowGraph).

(** [CanReconstructNode], line by line. The first [ensureMsgf] evaluates
    its message when its condition fails, and the message is
    [*GetFlowAsset()->GetName()]: the call does not return ([None]) when
    the node instance is invalid and the node has no graph or its graph has
    no asset. The message of the second, [*NodeInstance->GetName()], is
    evaluated behind the first test. *)
Definition CanReconstructNode_call (w : World) (N : UFlowGraphNode) : option bool :=
  if GIsTransacting w || bIsReconstructingNode N || bIsDestroyingNode N then Some false
  else if negb (IsValid_Instance w (NodeInstance N)) then
    FlowAsset ← GetFlowAsset N;
    if FlowAsset : bool then Some false else None
  else if negb (IsValid_Graph (Graph N)) then Some false
  else
    FlowGraph ← GetFlowGraph N;
    if bIsSavingGraph FlowGraph then Some false
    else if bIsLocked FlowGraph then Some false
    else Some true.

(** [CanReconstructNode w N = true]: the guard returns and lets the call
    through. *)
Definition CanReconstructNode (w : World) (N : UFlowGraphNode) : bool :=
  bool_decide (CanReconstructNode_call w N = Some true).

(** The guard conditions, as the caller sees them. *)
Definition GuardHolds (w : World) (N : UFlowGraphNode) : Prop :=
  GIsTransacting w = true
  ∨ bIsReconstructingNode N = true
  ∨ bIsDestroyingNode N = true
  ∨ IsValid_Instance w (NodeInstance N) = false
  ∨ IsValid_Graph (Graph N) = false
  ∨ ∃ G, Graph N = Some G ∧ (bIsSavingGraph G = true ∨ bIsLocked G = true).

Definition SupportsContextPins (w : World) (N : UFlowGraphNode) : bool :=
  match deref_Instance w (NodeInstance N) with
  | Some X => bSupportsContextPins X
  | None => false
  end.

Inductive EFlowAddOnAcceptResult := Undetermined | Reject | TentativeAccept.

#[global] Instance EFlowAddOnAcceptResult_eq_dec : EqDecision EFlowAddOnAcceptResult.
Proof. solve_decision. Defined.

(** The reason written to [OutReasonString]:
    "Editor node is missing a runtime AddOn instance",
    "Cannot be a AddOn of one of our own AddOns", and
    "<this class> cannot accept AddOn type <other class>". *)
Inductive RejectReason :=
| Reason_MissingAddOnInstance
| Reason_OwnAddOn
| Reason_CannotAcceptType (ThisClass OtherClass : option InstanceClass).

Section Collaborators.

(** [UFlowAsset::TryUpdateManagedFlowPinsForNode], of the owning asset:
    [Some X'] when the managed pins of the node changed, leaving the node as
    [X'], and [None] when nothing changed. *)
Variable TryUpdateManagedFlowPinsForNode : UFlowNodeBase → option UFlowNodeBase.

(** [UFlowNodeBase::CheckAcceptFlowNodeAddOnChild], the accept policy of the
    runtime node, asked about the candidate add-on and the other add-ons of
    the same paste. *)
Variable CheckAcceptFlowNodeAddOnChild :
  option UFlowNodeBase → option inst_ptr → list inst_ptr → EFlowAddOnAcceptResult.

Definition TryUpdateAutoDataPins (N : UFlowGraphNode) (w : World) : World * bool :=
  match NodeInstance N, deref_Instance w (NodeInstance N) with
  | Some i, Some X =>
      if Inst_HasFlowAsset X && bool_decide (Inst_Class X = Class_FlowNode) then
        match TryUpdateManagedFlowPinsForNode X with
        | Some X' => (set_NodeInstance i X' w, true)
        | None => (w, false)
        end
      else (w, false)
  | _, _ => (w, false)
  end.

(** [TryUpdateNodePins]. [InputPins.Empty] followed by [AddInputPins]
    replaces the stored descriptors wholesale. *)
Definition TryUpdateNodePins (N : UFlowGraphNode) (w : World) : World * bool :=
  match NodeInstance N, Cast_UFlowNode w (NodeInstance N) with
  | Some i, Some FlowNodeInstance =>
      if Inst_IsGarbage FlowNodeInstance then (w, true)
      else
        let bIsLoad :=
          match GetFlowGraph N with
          | Some FlowGraph => bIsLoadingGraph FlowGraph
          | None => false
          end in
        let bIsAllowedToRefreshPins :=
          negb bIsLoad || bCanRefreshContextPinsOnLoad FlowNodeInstance in
        let bShouldConsiderRefreshingContextPins :=
          bIsAllowedToRefreshPins && SupportsContextPins w N in
        let bShouldRefreshContextPins :=
          bShouldConsiderRefreshingContextPins || bNeedsFullReconstruction N in
        if negb bShouldRefreshContextPins then (w, false)
        else
          let RequiredNodeInputPins :=
            CleanInvalidPins FlowPin_IsValid
              (CDO_InputPins FlowNodeInstance ++ ContextInputs FlowNodeInstance) in
          let RequiredNodeOutputPins :=
            CleanInvalidPins FlowPin_IsValid
              (CDO_OutputPins FlowNodeInstance ++ ContextOutputs FlowNodeInstance) in
          let ExistingNodeInputPins :=
            CleanInvalidPins FlowPin_IsValid (Inst_InputPins FlowNodeInstance) in
          let ExistingNodeOutputPins :=
            CleanInvalidPins FlowPin_IsValid (Inst_OutputPins FlowNodeInstance) in
          let bInputs := negb (CheckPinsMatch RequiredNodeInputPins ExistingNodeInputPins) in
          let bOutputs := negb (CheckPinsMatch RequiredNodeOutputPins ExistingNodeOutputPins) in
          let X1 :=
            if bInputs then set_Inst_InputPins RequiredNodeInputPins FlowNodeInstance
            else FlowNodeInstance in
          let X2 := if bOutputs then set_Inst_OutputPins RequiredNodeOutputPins X1 else X1 in
          if bInputs || bOutputs then (set_NodeInstance i X2 w, true) else (w, false)
  | _, _ => (w, true)
  end.

Definition CheckGraphPinsMatchNodePins (N : UFlowGraphNode) (w : World) : bool :=
  match Cast_UFlowNode w (NodeInstance N) with
  | Some FlowNodeInstance =>
      if Inst_IsGarbage FlowNodeInstance then false
      else
        let ExistingNodePins :=
          CleanInvalidPins FlowPin_IsValid
            (Inst_InputPins FlowNodeInstance ++ Inst_OutputPins FlowNodeInstance) in
        let AllGraphNodePins :=
          CleanInvalidPins (λ p, negb (pin_orphaned (PinObjects w) p)) (Pins N) in
        CheckPinsMatch_Graph (pin_name (PinObjects w) <$> AllGraphNodePins) ExistingNodePins
  | None => false
  end.

(** [ReconstructNode], called on the graph node at address [This]: the
    world that the call leaves. A call that the guard does not let through
    leaves the world as it is; whether the guard returns at all is the
    matter of [ReconstructNode_call] below. *)
Definition ReconstructNode (This : node_ptr) (w : World) : World :=
  match GraphNodes w !! This with
  | None => w
  | Some N =>
      if negb (CanReconstructNode w N) then w
      else
        let N1 := set_bIsReconstructingNode true N in
        let '(w1, bNodeDataPinsUpdated) := TryUpdateAutoDataPins N1 w in
        let '(w2, bNodeExecPinsUpdated) := TryUpdateNodePins N1 w1 in
        let bAreGraphPinsMismatched := negb (CheckGraphPinsMatchNodePins N1 w2) in
        let bGraphNodeRequiresReconstruction :=
          bNeedsFullReconstruction N1 || bNodeDataPinsUpdated || bNodeExecPinsUpdated
          || bAreGraphPinsMismatched in
        let '(N2, h2) :=
          if bGraphNodeRequiresReconstruction then
            let '(N', h', _) :=
              RebuildPinArrays (bOrphanPinsEnabled w2) (Cast_UFlowNode w2 (NodeInstance N1))
                (N1, PinObjects w2) in
            (set_bNeedsFullReconstruction false N', h')
          else (N1, PinObjects w2) in
        let w3 := emit (Ev_OnReconstructNodeCompleted This) (set_PinObjects h2 w2) in
        set_GraphNode This (set_bIsReconstructingNode false N2) w3
  end.

(** The call of [ReconstructNode] with its guard evaluated as the source
    does: [None] when [This] is no graph node of the world or the guard
    does not return. *)
Definition ReconstructNode_call (This : node_ptr) (w : World) : option World :=
  N ← GraphNodes w !! This;
  _ ← CanReconstructNode_call w N;
  Some (ReconstructNode This w).

(** ** Sub-nodes *)

Definition IsSubNode (N : UFlowGraphNode) : bool :=
  bIsSubNode N || bool_decide (ParentNode N ≠ None).

Definition SetParentNodeForSubNode (InParentNode : option node_ptr) (N : UFlowGraphNode)
    : UFlowGraphNode :=
  set_Parent InParentNode (match InParentNode with Some _ => true | None => bIsSubNode N end) N.

(** The [while] loop of [IsAncestorNode], [fuel] bounding the number of
    parent links followed; [None] when the bound is reached or a parent
    pointer leads nowhere. *)
Fixpoint IsAncestorNode_from (fuel : nat) (w : World) (CurParentNode : option node_ptr)
    (OtherNode : node_ptr) : option bool :=
  match CurParentNode with
  | None => Some false
  | Some Cur =>
      if decide (Cur = OtherNode) then Some true
      else
        match fuel with
        | 0 => None
        | S fuel' =>
            match GraphNodes w !! Cur with
            | Some C => IsAncestorNode_from fuel' w (ParentNode C) OtherNode
            | None => None
            end
        end
  end.

Definition IsAncestorNode (fuel : nat) (w : World) (N : UFlowGraphNode) (OtherNode : node_ptr)
    : option bool :=
  IsAncestorNode_from fuel w (ParentNode N) OtherNode.

(** The add-ons of the other nodes pasted in the same operation. *)
Definition OtherAddOnsToPaste (w : World) (AllRootSubNodesToPaste : list node_ptr)
    (AddOnToConsider : option inst_ptr) : list inst_ptr :=
  omap (λ NodeToPaste,
    match GraphNodes w !! NodeToPaste with
    | Some P =>
        match Cast_UFlowNodeAddOn w (NodeInstance P) with
        | Some AddOnToPaste =>
            if IsValid_Instance w (Some AddOnToPaste)
               && negb (bool_decide (Some AddOnToPaste = AddOnToConsider))
            then Some AddOnToPaste else None
        | None => None
        end
    | None => None
    end) AllRootSubNodesToPaste.

(** [CanAcceptSubNodeAsChild]: the returned flag and what is written to
    [OutReasonString]. [None] when a node is not an object of the world,
    when [IsAncestorNode] gives no answer within [fuel], or when the call
    reaches [ThisFlowNodeBase->CheckAcceptFlowNodeAddOnChild] on a node
    without node instance, which the source follows untested. *)
Definition CanAcceptSubNodeAsChild (fuel : nat) (w : World) (This OtherSubNode : node_ptr)
    (AllRootSubNodesToPaste : list node_ptr) : option (bool * option RejectReason) :=
  N ← GraphNodes w !! This;
  Other ← GraphNodes w !! OtherSubNode;
  match NodeInstance Other with
  | None => Some (false, Some Reason_MissingAddOnInstance)
  | Some _ =>
      bAncestor ← IsAncestorNode fuel w N OtherSubNode;
      if bAncestor : bool then Some (false, Some Reason_OwnAddOn)
      else
        let AddOnToConsider := Cast_UFlowNodeAddOn w (NodeInstance Other) in
        let Others := OtherAddOnsToPaste w AllRootSubNodesToPaste AddOnToConsider in
        ThisFlowNodeBase ← deref_Instance w (NodeInstance N);
        let AcceptResult :=
          CheckAcceptFlowNodeAddOnChild (Some ThisFlowNodeBase) AddOnToConsider Others in
        if decide (AcceptResult = TentativeAccept) then Some (true, None)
        else Some (false, Some (Reason_CannotAcceptType
               (Some (Inst_Class ThisFlowNodeBase))
               (Inst_Class <$> deref_Instance w (NodeInstance Other))))
  end.

(** [GetFlowAsset() != nullptr] on a node with a graph. *)
Definition HasFlowAsset (N : UFlowGraphNode) : bool :=
  match GetFlowGraph N with
  | Some FlowGraph => Graph_HasFlowAsset FlowGraph
  | None => false
  end.

(** [LogError]: the message reaches the asset's log when the node's graph
    has an asset. [None] on a node without graph, where [GetFlowAsset]
    fails in [GetFlowGraph]. *)
Definition LogError (This : node_ptr) (N : UFlowGraphNode) (Message : FString) (w : World)
    : option World :=
  FlowAsset ← GetFlowAsset N;
  Some (if FlowAsset : bool then emit (Ev_LogError This Message) w else w).

(** [TArray::AddUnique]. *)
Definition AddUnique (l : list inst_ptr) (x : inst_ptr) : list inst_ptr :=
  if decide (x ∈ l) then l else l ++ [x].

(** One iteration of the first loop of
    [RebuildRuntimeAddOnsFromEditorSubNodes]; the add-on array under
    construction is threaded with the world, and [None] is passed on once
    [LogError] has failed. *)
Definition MirrorSubNode (This : node_ptr) (N : UFlowGraphNode)
    (acc : option (list inst_ptr * World)) (SubNode : option node_ptr)
    : option (list inst_ptr * World) :=
  '(NodeInstanceAddOns, w) ← acc;
  if negb (IsValid_Node w SubNode) then
    w' ← LogError This N "Has unexpectedly null SubNode" w;
    Some (NodeInstanceAddOns, w')
  else
    let SubInstance := (SubNode ≫= λ s, GraphNodes w !! s) ≫= NodeInstance in
    match Cast_UFlowNodeAddOn w SubInstance with
    | Some AddOnSubNodeInstance =>
        if IsValid_Instance w (Some AddOnSubNodeInstance) then
          Some (AddUnique NodeInstanceAddOns AddOnSubNodeInstance, w)
        else
          w' ← LogError This N "SubNode is missing an AddOn NodeInstance" w;
          Some (NodeInstanceAddOns, w')
    | None =>
        w' ← LogError This N "SubNode is missing an AddOn NodeInstance" w;
        Some (NodeInstanceAddOns, w')
    end.

Definition MirrorSubNodes (This : node_ptr) (N : UFlowGraphNode) (w : World)
    : option World :=
  match NodeInstance N, deref_Instance w (NodeInstance N) with
  | Some i, Some X =>
      if Inst_IsGarbage X then Some w
      else
        '(NodeInstanceAddOns, w1) ← foldl (MirrorSubNode This N) (Some ([], w)) (SubNodes N);
        match NodeInstances w1 !! i with
        | Some X1 => Some (set_NodeInstance i (set_Inst_AddOns NodeInstanceAddOns X1) w1)
        | None => Some w1
        end
  | _, _ => Some w
  end.

(** One iteration of the second loop of
    [RebuildRuntimeAddOnsFromEditorSubNodes]: the recursive call on a valid
    sub-node. *)
Definition RebuildSubNode (Rebuild : node_ptr → World → option World)
    (ow : option World) (SubNode : option node_ptr) : option World :=
  w' ← ow;
  if IsValid_Node w' SubNode then
    match SubNode with
    | Some s => Rebuild s w'
    | None => Some w'
    end
  else Some w'.

(** [RebuildRuntimeAddOnsFromEditorSubNodes]; [fuel] bounds the depth of the
    recursion into the sub-nodes. [None] means that the bound was reached or
    that a diagnostic failed on a node without graph. The closing
    [ReconstructNode] stands behind [IsValid(NodeInstance)], so that its
    guard returns. *)
Fixpoint RebuildRuntimeAddOnsFromEditorSubNodes (fuel : nat) (This : node_ptr) (w : World)
    : option World :=
  match fuel with
  | 0 => None
  | S fuel' =>
      match GraphNodes w !! This with
      | None => Some w
      | Some N =>
          w1 ← MirrorSubNodes This N w;
          w2 ← foldl (RebuildSubNode (RebuildRuntimeAddOnsFromEditorSubNodes fuel'))
                 (Some w1) (SubNodes N);
          if IsValid_Instance w2 (NodeInstance N)
             && bool_decide (Inst_Class <$> deref_Instance w2 (NodeInstance N) = Some Class_FlowNode)
          then Some (ReconstructNode This w2)
          else Some w2
      end
  end.

(** ** User-added pins *)

Definition CanUserAddInput (w : World) (N : UFlowGraphNode) : bool :=
  match Cast_UFlowNode w (NodeInstance N) with
  | Some FlowNode => bCanUserAddInput FlowNode && bool_decide (length (InputPins N) < 256)
  | None => false
  end.

Definition CanUserAddOutput (w : World) (N : UFlowGraphNode) : bool :=
  match Cast_UFlowNode w (NodeInstance N) with
  | Some FlowNode => bCanUserAddOutput FlowNode && bool_decide (length (OutputPins N) < 256)
  | None => false
  end.

End Collaborators.

Arguments RebuildPinArrays : simpl never.
Arguments RewireOldPinsToNewPins : simpl never.
Arguments AllocateDefaultPins : simpl never.
Arguments TryUpdateAutoDataPins : simpl never.
Arguments TryUpdateNodePins : simpl never.
Arguments CheckGraphPinsMatchNodePins : simpl never.
Arguments ReconstructNode : simpl never.
Arguments CanReconstructNode : simpl never.

(** ** Operations on a node of the world *)

Definition PostPasteNode (N : UFlowGraphNode) : UFlowGraphNode :=
  set_bNeedsFullReconstruction true N.

(** [TArray::RemoveSingle]: the first occurrence goes. *)
Fixpoint RemoveSingle (x : option node_ptr) (l : list (option node_ptr))
    : list (option node_ptr) :=
  match l with
  | [] => []
  | y :: l' => if decide (y = x) then l' else y :: RemoveSingle x l'
  end.

(** The calls a client can make on the graph node at some address; those
    that mirror the sub-nodes carry the bound on the recursion depth. *)
Inductive NodeOperation :=
| Op_SetParentNodeForSubNode (InParentNode : option node_ptr)
| Op_PostPasteNode
| Op_ReconstructNode
| Op_RebuildRuntimeAddOnsFromEditorSubNodes (fuel : nat)
| Op_RemoveSubNode (SubNode : option node_ptr) (fuel : nat)
| Op_RemoveAllSubNodes (fuel : nat)
| Op_InsertSubNodeAt (SubNode : option node_ptr) (DropIndex : Z) (fuel : nat).

Section Operations.

Variable TryUpdateManagedFlowPinsForNode : UFlowNodeBase → option UFlowNodeBase.

Definition update_node (This : node_ptr) (f : UFlowGraphNode → UFlowGraphNode) (w : World)
    : option World :=
  N ← GraphNodes w !! This; Some (set_GraphNode This (f N) w).

(** [RemoveSubNode], [RemoveAllSubNodes] and [InsertSubNodeAt] change the
    [SubNodes] array and mirror it. [TArray::Insert] checks its index:
    [InsertSubNodeAt] fails ([None]) on a drop index beyond the end of the
    array. *)
Definition RemoveSubNode (fuel : nat) (This : node_ptr) (SubNode : option node_ptr) (w : World)
    : option World :=
  w1 ← update_node This (λ N, set_SubNodes (RemoveSingle SubNode (SubNodes N)) N) w;
  RebuildRuntimeAddOnsFromEditorSubNodes TryUpdateManagedFlowPinsForNode fuel This w1.

Definition RemoveAllSubNodes (fuel : nat) (This : node_ptr) (w : World) : option World :=
  w1 ← update_node This (set_SubNodes []) w;
  RebuildRuntimeAddOnsFromEditorSubNodes TryUpdateManagedFlowPinsForNode fuel This w1.

Definition InsertSubNodeAt (fuel : nat) (This : node_ptr) (SubNode : option node_ptr)
    (DropIndex : Z) (w : World) : option World :=
  N ← GraphNodes w !! This;
  if decide (-1 < DropIndex)%Z
  then
    if decide (Z.to_nat DropIndex ≤ length (SubNodes N))
    then
      RebuildRuntimeAddOnsFromEditorSubNodes TryUpdateManagedFlowPinsForNode fuel This
        (set_GraphNode This
           (set_SubNodes (Insert SubNode (Z.to_nat DropIndex) (SubNodes N)) N) w)
    else None
  else
    RebuildRuntimeAddOnsFromEditorSubNodes TryUpdateManagedFlowPinsForNode fuel This
      (set_GraphNode This (set_SubNodes (SubNodes N ++ [SubNode]) N) w).

Definition run_operation (This : node_ptr) (op : NodeOperation) (w : World) : option World :=
  match op with
  | Op_SetParentNodeForSubNode InParentNode =>
      update_node This (SetParentNodeForSubNode InParentNode) w
  | Op_PostPasteNode => update_node This PostPasteNode w
  | Op_ReconstructNode => ReconstructNode_call TryUpdateManagedFlowPinsForNode This w
  | Op_RebuildRuntimeAddOnsFromEditorSubNodes fuel =>
      RebuildRuntimeAddOnsFromEditorSubNodes TryUpdateManagedFlowPinsForNode fuel This w
  | Op_RemoveSubNode SubNode fuel => RemoveSubNode fuel This SubNode w
  | Op_RemoveAllSubNodes fuel => RemoveAllSubNodes fuel This w
  | Op_InsertSubNodeAt SubNode DropIndex fuel => InsertSubNodeAt fuel This SubNode DropIndex w
  end.

(** A sequence of calls, each on some node of the world. *)
Fixpoint run_operations (ops : list (node_ptr * NodeOperation)) (w : World) : option World :=
  match ops with
  | [] => Some w
  | (This, op) :: ops' => w' ← run_operation This op w; run_operations ops' w'
  end.

End Operations.

(** ** Relations used in the statements *)

(** [Ancestor w X n]: following parent pointers from [n] reaches [X]. *)
Inductive Ancestor (w : World) (X : node_ptr) : node_ptr → Prop :=
| Ancestor_parent n N :
    GraphNodes w !! n = Some N → ParentNode N = Some X → Ancestor w X n
| Ancestor_step n N P :
    GraphNodes w !! n = Some N → ParentNode N = Some P → Ancestor w X P → Ancestor w X n.

(** What a reconstruction leaves alone in a graph node: everything but the
    pin arrays and the two reconstruction flags. *)
Definition same_hierarchy (N N' : UFlowGraphNode) : Prop :=
  NodeInstance N' = NodeInstance N ∧ Graph N' = Graph N
  ∧ Node_IsGarbage N' = Node_IsGarbage N ∧ ParentNode N' = ParentNode N
  ∧ SubNodes N' = SubNodes N ∧ bIsSubNode N' = bIsSubNode N
  ∧ bIsDestroyingNode N' = bIsDestroyingNode N
  ∧ bDisableOrphanPinSaving N' = bDisableOrphanPinSaving N
  ∧ OrphanedPinSaveMode N' = OrphanedPinSaveMode N.

(** The runtime add-on that a sub-node entry contributes to the mirror, if
    any: the entry must be a valid node whose instance is a valid add-on. *)
Definition SubNodeAddOn (w : World) (SubNode : option node_ptr) : option inst_ptr :=
  if IsValid_Node w SubNode then
    match Cast_UFlowNodeAddOn w ((SubNode ≫= λ s, GraphNodes w !! s) ≫= NodeInstance) with
    | Some AddOn => if IsValid_Instance w (Some AddOn) then Some AddOn else None
    | None => None
    end
  else None.

(** The diagnostic that a sub-node entry causes, if any. *)
Definition SubNodeDiagnostic (w : World) (This : node_ptr) (SubNode : option node_ptr)
    : option Event :=
  if negb (IsValid_Node w SubNode) then Some (Ev_LogError This "Has unexpectedly null SubNode")
  else if SubNodeAddOn w SubNode is Some _ then None
  else Some (Ev_LogError This "SubNode is missing an AddOn NodeInstance").

(** [nodes_extend w w']: every graph node of [w] is still there in [w'],
    with the same place in the hierarchy, and no node has appeared. *)
Definition nodes_extend (w w' : World) : Prop :=
  (∀ n N, GraphNodes w !! n = Some N →
          ∃ N', GraphNodes w' !! n = Some N' ∧ same_hierarchy N N')
  ∧ (∀ n, GraphNodes w !! n = None → GraphNodes w' !! n = None).

(** The class and liveness of the runtime object at an address, and its
    add-on list. *)
Definition inst_kind (w : World) (i : inst_ptr) : option (InstanceClass * bool) :=
  (λ X, (Inst_Class X, Inst_IsGarbage X)) <$> NodeInstances w !! i.

Definition AddOns_at (w : World) (i : inst_ptr) : option (list inst_ptr) :=
  Inst_AddOns <$> NodeInstances w !! i.

(** [world_extends w w']: the graph nodes keep their place in the
    hierarchy, the runtime objects keep their class and liveness, and the
    trace has only grown. *)
Definition world_extends (w w' : World) : Prop :=
  nodes_extend w w'
  ∧ (∀ i, inst_kind w' i = inst_kind w i)
  ∧ ∃ t, Trace w' = Trace w ++ t.

(** The world with more events in its trace. *)
Definition emit_all (t : list Event) (w : World) : World :=
  mkWorld (PinObjects w) (GraphNodes w) (NodeInstances w) (GIsTransacting w)
          (bOrphanPinsEnabled w) (Trace w ++ t).

(** The managed-pin refresh of the asset concerns pins: it leaves the
    class, the liveness and the add-ons of the runtime node alone. *)
Definition refresh_keeps_identity (T : UFlowNodeBase → option UFlowNodeBase) : Prop :=
  ∀ X X', T X = Some X' →
    Inst_Class X' = Inst_Class X ∧ Inst_IsGarbage X' = Inst_IsGarbage X
    ∧ Inst_AddOns X' = Inst_AddOns X.

(** The sub-node arrays form a forest: [rank] decreases along them. *)
Definition SubNodes_ranked (rank : node_ptr → nat) (w : World) : Prop :=
  ∀ m M s, GraphNodes w !! m = Some M → Some s ∈ SubNodes M → rank s < rank m.

(** Every graph node has an owning graph. *)
Definition nodes_in_graph (w : World) : Prop :=
  ∀ m M, GraphNodes w !! m = Some M → is_Some (Graph M).

(** No graph node of rank below [R] has the runtime object [j] as its node
    instance. *)
Definition unshared_below (rank : node_ptr → nat) (R : nat) (j : inst_ptr) (w : World) : Prop :=
  ∀ m M, GraphNodes w !! m = Some M → rank m < R → NodeInstance M ≠ Some j.

(** ** The shape of a rebuilt pin array *)

(** The pin object that [CreateInputPin]/[CreateOutputPin] leave in the heap
    for a descriptor. *)
Definition fresh_pin (Dir : EEdGraphPinDirection) (FlowPin : FFlowPin) : UEdGraphPin :=
  set_FriendlyName_ToolTip FlowPin
    (NewPinObject Dir (GetPinType FlowPin) (FlowPin_PinName FlowPin)).

(** The pin objects that [AllocateDefaultPins] creates for a flow node, in
    the order of their creation. *)
Definition declared_pins (X : UFlowNodeBase) : list UEdGraphPin :=
  (fresh_pin EGPD_Input <$> filter (λ p, FlowPin_IsValid p) (Inst_InputPins X))
  ++ (fresh_pin EGPD_Output <$> filter (λ p, FlowPin_IsValid p) (Inst_OutputPins X)).

Definition alloc_list (pins : list UEdGraphPin) (h : PinHeap) : PinHeap :=
  foldl (λ h r, (heap_alloc r h).1) h pins.

(** The pins of a node are distinct live objects, and they are linked to
    live pins of other nodes only; no object lies beyond the next free
    address. *)
Definition node_pins_wf (N : UFlowGraphNode) (h : PinHeap) : Prop :=
  NoDup (Pins N)
  ∧ (∀ p r, heap_pins h !! p = Some r → p < heap_next h)
  ∧ (∀ p, p ∈ Pins N →
       ∃ r, heap_pins h !! p = Some r
            ∧ ∀ q, q ∈ LinkedTo r → (q ∉ Pins N) ∧ is_Some (heap_pins h !! q)).

(** The pin objects that [AllocateDefaultPins] creates, whatever the node
    instance. *)
Definition new_pin_objects (FlowNode : option UFlowNodeBase) : list UEdGraphPin :=
  match FlowNode with
  | Some X => declared_pins X
  | None => []
  end.

(** The test of the inner loop of the rewire pass at new-pin index [j]. *)
Definition good_new_pin (h : PinHeap) (NewPins : list pin_ptr) (M : list bool) (Name : FName)
    (j : nat) : bool :=
  negb (default true (M !! j)) && bool_decide (pin_name h <$> NewPins !! j = Some Name).

(** The orphan test for a pin that found no match. *)
Definition OrphanCondition (OrphanPinsEnabled : bool) (N : UFlowGraphNode) (r : UEdGraphPin)
    : bool :=
  ShouldKeepOrphan OrphanPinsEnabled N false r.

Definition has_no_parent (h : PinHeap) (p : pin_ptr) : bool :=
  match heap_pins h !! p with
  | Some r => bool_decide (ParentPin r = None)
  | None => false
  end.

(** The invariant of the outer loop of [RewireOldPinsToNewPins] when the old
    pins [old] are well-formed in the heap [h0] and the new pins [D] were
    allocated from [heap_next h0] on: what holds once the old pins of index
    [i] and above have been visited. *)
Record RewireInv (b : bool) (N1 : UFlowGraphNode) (old : list pin_ptr) (h0 : PinHeap)
    (D : list UEdGraphPin) (i : nat) (st : RewireState) : Prop := mkRewireInv {
  inv_InOldPins :
    rw_InOldPins st
    = take i old ++ filter (λ o, o ∉ rw_OrphanedOldPins st) (drop i old);
  inv_next : heap_next (rw_heap st) = heap_next h0 + length D;
  inv_old : ∀ o, o ∈ old →
    ∃ r0, heap_pins h0 !! o = Some r0
          ∧ heap_pins (rw_heap st) !! o
            = Some (if decide (o ∈ rw_OrphanedOldPins st) then set_Orphaned r0 else r0);
  inv_matched_len : length (rw_NewPinMatched st) = length D;
  inv_unmatched_new : ∀ j d, D !! j = Some d → rw_NewPinMatched st !! j = Some false →
    heap_pins (rw_heap st) !! (heap_next h0 + j) = Some d;
  inv_matched : ∀ O Np, (O, Np) ∈ rw_MatchedPins st →
    ∃ j d r0, Np = heap_next h0 + j ∧ D !! j = Some d
              ∧ rw_NewPinMatched st !! j = Some true
              ∧ O ∈ drop i old ∧ heap_pins h0 !! O = Some r0
              ∧ PinName d = PinName r0
              ∧ heap_pins (rw_heap st) !! Np = Some (set_LinkedTo (λ _, LinkedTo r0) d);
  inv_orphans : ∀ o, o ∈ rw_OrphanedOldPins st ↔
    o ∈ drop i old ∧ (o ∉ (rw_MatchedPins st).*1)
    ∧ ∃ r0, heap_pins h0 !! o = Some r0 ∧ OrphanCondition b N1 r0 = true;
  inv_external : ∀ q r, q ∉ old → heap_pins h0 !! q = Some r →
    ∃ r', heap_pins (rw_heap st) !! q = Some r'
          ∧ set_LinkedTo (λ _, []) r' = set_LinkedTo (λ _, []) r
          ∧ (∀ y, y ∈ LinkedTo r → y ∈ LinkedTo r')
          ∧ (∀ O Np r0, (O, Np) ∈ rw_MatchedPins st → heap_pins h0 !! O = Some r0 →
                        q ∈ LinkedTo r0 → Np ∈ LinkedTo r');
  inv_new_static : ∀ j d, D !! j = Some d →
    ∃ r', heap_pins (rw_heap st) !! (heap_next h0 + j) = Some r'
          ∧ set_LinkedTo (λ _, []) r' = set_LinkedTo (λ _, []) d;
  inv_orphan_order :
    rw_OrphanedOldPins st
    = reverse (filter (λ o, o ∈ rw_OrphanedOldPins st) (drop i old));
  inv_claimed : ∀ j, rw_NewPinMatched st !! j = Some true →
    ∃ O, (O, heap_next h0 + j) ∈ rw_MatchedPins st;
  inv_complete : ∀ o r0 j d, o ∈ drop i old → heap_pins h0 !! o = Some r0 →
    o ∉ (rw_MatchedPins st).*1 → D !! j = Some d → PinName d = PinName r0 →
    rw_NewPinMatched st !! j = Some true;
}.

(** The six conditions under which an unmatched old pin is kept. *)
Definition RetentionConditions (OrphanPinsEnabled : bool) (N : UFlowGraphNode)
    (r : UEdGraphPin) : Prop :=
  OrphanPinsEnabled = true
  ∧ bDisableOrphanPinSaving N = false
  ∧ OrphanedPinSaveMode N = SaveAll
  ∧ bHidden r = false
  ∧ ShouldSavePinIfOrphaned r = true
  ∧ 0 < length (LinkedTo r).

(** A test that establishes [node_pins_wf] on a concrete node and heap. *)
Definition node_pins_wf_b (N : UFlowGraphNode) (h : PinHeap) : bool :=
  bool_decide (NoDup (Pins N))
  && bool_decide (map_Forall (λ p _, p < heap_next h) (heap_pins h))
  && forallb (λ p,
       match heap_pins h !! p with
       | Some r =>
           forallb (λ q, bool_decide (q ∉ Pins N) && bool_decide (is_Some (heap_pins h !! q)))
                   (LinkedTo r)
       | None => false
       end) (Pins N).

(** The world in which [ReconstructNode] decides whether to rebuild the pin
    array: the node instance may have been refreshed, nothing else has
    changed. *)
Definition refreshed_world (T : UFlowNodeBase → option UFlowNodeBase) (N : UFlowGraphNode)
    (w : World) : World :=
  (TryUpdateNodePins (set_bIsReconstructingNode true N)
     (TryUpdateAutoDataPins T (set_bIsReconstructingNode true N) w).1).1.

(** The test of [ReconstructNode] for a rebuild of the pin array. *)
Definition needs_rebuild (T : UFlowNodeBase → option UFlowNodeBase) (N : UFlowGraphNode)
    (w : World) : bool :=
  let N1 := set_bIsReconstructingNode true N in
  let r1 := TryUpdateAutoDataPins T N1 w in
  let r2 := TryUpdateNodePins N1 r1.1 in
  bNeedsFullReconstruction N1 || r1.2 || r2.2 || negb (CheckGraphPinsMatchNodePins N1 r2.1).

(** The pins of node [This] in world [w], with their objects. *)
Definition node_pin (w : World) (This : node_ptr) (p : pin_ptr) (r : UEdGraphPin) : Prop :=
  ∃ N, GraphNodes w !! This = Some N ∧ p ∈ Pins N
       ∧ heap_pins (PinObjects w) !! p = Some r.

(** Pin [p] is the only pin of node [This] with the name [Name]. *)
Definition only_pin_named (w : World) (This : node_ptr) (Name : FName) (p : pin_ptr) : Prop :=
  ∀ p' r', node_pin w This p' r' → PinName r' = Name → p' = p.

Definition only_pin_named_b (w : World) (This : node_ptr) (Name : FName) (p : pin_ptr)
    : bool :=
  match GraphNodes w !! This with
  | Some N =>
      forallb (λ p', match heap_pins (PinObjects w) !! p' with
                     | Some r' => implb (bool_decide (PinName r' = Name))
                                        (bool_decide (p' = p))
                     | None => true
                     end) (Pins N)
  | None => true
  end.

(** No pin object lies at or beyond the next free address. *)
Definition heap_bounded (h : PinHeap) : Prop :=
  ∀ p r, heap_pins h !! p = Some r → p < heap_next h.

(** The pin sequence of node [This] as the idempotence property observes
    it: the names and the orphan flags of its pins, in the order of [Pins]. *)
Definition pin_sequence (w : World) (This : node_ptr) : option (list (FName * bool)) :=
  (λ N, (λ p, (pin_name (PinObjects w) p, pin_orphaned (PinObjects w) p)) <$> Pins N)
    <$> GraphNodes w !! This.

(** [TArray::IndexOfByKey]: the index of the first entry equal to the key,
    [INDEX_NONE] (-1) when there is none. *)
Fixpoint IndexOfByKey {A : Type} `{EqDecision A} (x : A) (l : list A) : Z :=
  match l with
  | [] => -1
  | y :: l' =>
      if decide (y = x) then 0%Z
      else let i := IndexOfByKey x l' in if decide (i = -1)%Z then (-1)%Z else (i + 1)%Z
  end.

(** [FindSubNodeDropIndex]. *)
Definition FindSubNodeDropIndex (N : UFlowGraphNode) (SubNode : option node_ptr) : Z :=
  IndexOfByKey SubNode (SubNodes N).

(** ** Pin arrays on load and pin look-up *)

(** [Pin->Direction], for a pin that is an object of the heap. *)
Definition pin_direction (h : PinHeap) (p : pin_ptr) : option EEdGraphPinDirection :=
  Direction <$> heap_pins h !! p.

(** One iteration of the loop of [RebuildPinArraysOnLoad]. The second
    component collects the pins that the [default] branch reports
    ("Encountered Pin with invalid direction!"). [None] when the pin is not
    an object of the heap. *)
Definition RebuildPinArraysOnLoad_step (h : PinHeap)
    (acc : option (UFlowGraphNode * list pin_ptr)) (Pin : pin_ptr)
    : option (UFlowGraphNode * list pin_ptr) :=
  '(N, errs) ← acc;
  r ← heap_pins h !! Pin;
  Some (match Direction r with
        | EGPD_Input =>
            (set_PinArrays (Pins N) (InputPins N ++ [Pin]) (OutputPins N) N, errs)
        | EGPD_Output =>
            (set_PinArrays (Pins N) (InputPins N) (OutputPins N ++ [Pin]) N, errs)
        | EGPD_MAX => (N, errs ++ [Pin])
        end).

(** [RebuildPinArraysOnLoad]. The loop ranges over [Pins], which it does
    not change. *)
Definition RebuildPinArraysOnLoad (h : PinHeap) (N : UFlowGraphNode)
    : option (UFlowGraphNode * list pin_ptr) :=
  foldl (RebuildPinArraysOnLoad_step h) (Some (N, [])) (Pins N).

(** The loop of [GetInputPin] and [GetOutputPin] over the pins from
    [PinIndex] on, [FoundInputs] pins of the direction having been passed.
    The outer [option] is [None] when a pin met by the loop is not an object
    of the heap, the inner one is the returned pointer ([None] for
    [nullptr]). *)
Fixpoint GetPin_from (Dir : EEdGraphPinDirection) (h : PinHeap) (InputIndex : Z)
    (pins : list pin_ptr) (FoundInputs : Z) : option (option pin_ptr) :=
  match pins with
  | [] => Some None
  | Pin :: pins' =>
      r ← heap_pins h !! Pin;
      if decide (Direction r = Dir) then
        if decide (InputIndex = FoundInputs) then Some (Some Pin)
        else GetPin_from Dir h InputIndex pins' (FoundInputs + 1)
      else GetPin_from Dir h InputIndex pins' FoundInputs
  end.

(** [GetInputPin] and [GetOutputPin]; [check(InputIndex >= 0)] fails on a
    negative index. *)
Definition GetInputPin (h : PinHeap) (N : UFlowGraphNode) (InputIndex : Z)
    : option (option pin_ptr) :=
  if decide (0 ≤ InputIndex)%Z then GetPin_from EGPD_Input h InputIndex (Pins N) 0 else None.

Definition GetOutputPin (h : PinHeap) (N : UFlowGraphNode) (InputIndex : Z)
    : option (option pin_ptr) :=
  if decide (0 ≤ InputIndex)%Z then GetPin_from EGPD_Output h InputIndex (Pins N) 0 else None.

(** The pin arrays agree: [InputPins] holds the input pins of [Pins] and
    [OutputPins] its output pins, in the order of [Pins]. *)
Definition arrays_by_direction (N : UFlowGraphNode) (h : PinHeap) : Prop :=
  InputPins N = filter (λ p, pin_direction h p = Some EGPD_Input) (Pins N)
  ∧ OutputPins N = filter (λ p, pin_direction h p = Some EGPD_Output) (Pins N).

(** ** External changes *)

(** [OnExternalChange], bound to the runtime node's request for a
    reconstruction. The closing [GetGraph()->NotifyNodeChanged(this)]
    follows the graph pointer untested: the call does not return ([None])
    on a node without graph, nor when the guard of [ReconstructNode] does
    not return. [Modify] and the notification itself belong to the host
    editor and leave the modelled state alone. [OnGraphRefresh] is
    [ReconstructNode] itself. *)
Definition OnExternalChange (T : UFlowNodeBase → option UFlowNodeBase) (This : node_ptr)
    (w : World) : option World :=
  N ← GraphNodes w !! This;
  if bIsReconstructingNode N then Some w
  else
    w' ← ReconstructNode_call T This
           (set_GraphNode This (set_bNeedsFullReconstruction true N) w);
    _ ← Graph N;
    Some w'.

(** ** Pins added on the instance *)

(** [uint8], the type of the number that [AddInstancePin] takes. *)
Record uint8 := mk_uint8 {
  uint8_val : nat;
  uint8_range : bool_decide (uint8_val < 256);
}.

Section InstancePins.

(** [FFlowPin(FString::FromInt(n))]: the descriptor that [AddInstancePin]
    builds for the number [n]; the constructor of [FFlowPin] is declared
    outside the sources at hand. *)
Variable FlowPin_FromInt : nat → FFlowPin.

(** [AddInstancePin], called on the graph node at address [This] by
    [AddUserInput] and [AddUserOutput] with the number of numbered pins of
    the direction. The descriptor enters the runtime node's array at
    [NumberedPinsAmount] when that is a valid index and at the end
    otherwise; the graph pin is created at that index for an input and
    behind the inputs for an output. [None] when the node or its flow node
    is missing, where the source follows a null pointer, and on a node
    without graph, where the closing [GetGraph()->NotifyNodeChanged(this)]
    does. The transaction, [Modify] and the notification itself belong to
    the host editor. *)
Definition AddInstancePin (Dir : EEdGraphPinDirection) (NumberedPinsAmount : uint8)
    (This : node_ptr) (w : World) : option World :=
  N ← GraphNodes w !! This;
  i ← NodeInstance N;
  FlowNode ← Cast_UFlowNode w (NodeInstance N);
  let Index := uint8_val NumberedPinsAmount in
  let PinName := FlowPin_FromInt Index in
  let w' :=
    if decide (Dir = EGPD_Input) then
      let Inputs :=
        if decide (Index < length (Inst_InputPins FlowNode))
        then Insert PinName Index (Inst_InputPins FlowNode)
        else Inst_InputPins FlowNode ++ [PinName] in
      let w1 := set_NodeInstance i (set_Inst_InputPins Inputs FlowNode) w in
      let '(N', h') := CreateInputPin PinName (Some Index) (N, PinObjects w1) in
      set_GraphNode This N' (set_PinObjects h' w1)
    else
      let Outputs :=
        if decide (Index < length (Inst_OutputPins FlowNode))
        then Insert PinName Index (Inst_OutputPins FlowNode)
        else Inst_OutputPins FlowNode ++ [PinName] in
      let w1 := set_NodeInstance i (set_Inst_OutputPins Outputs FlowNode) w in
      let '(N', h') :=
        CreateOutputPin PinName
          (Some (length (Inst_InputPins FlowNode) + Index)) (N, PinObjects w1) in
      set_GraphNode This N' (set_PinObjects h' w1) in
  _ ← Graph N;
  Some w'.

End InstancePins.

(** The graph pins mirror the descriptors of the runtime node in order: the
    names of [Pins] are the names of the input descriptors followed by
    those of the output descriptors. *)
Definition pins_mirror_descriptors (N : UFlowGraphNode) (h : PinHeap) (X : UFlowNodeBase)
    : Prop :=
  pin_name h <$> Pins N = FlowPin_PinName <$> (Inst_InputPins X ++ Inst_OutputPins X).

(** ** Example data

    Concrete descriptors, pins, nodes and worlds on which the operations are
    run. *)

Definition pinA : FFlowPin := mkFlowPin "A" EmptyString EmptyString PinType_Exec.
Definition pinB : FFlowPin := mkFlowPin "B" EmptyString EmptyString PinType_Exec.

(** An asset with nothing to refresh and a policy that accepts every add-on. *)
Definition NoManagedPins : UFlowNodeBase → option UFlowNodeBase := λ _, None.
Definition AcceptAll : option UFlowNodeBase → option inst_ptr → list inst_ptr
                       → EFlowAddOnAcceptResult := λ _ _ _, TentativeAccept.

Definition ex_graph : UFlowGraph := mkGraph false false false false true.

Definition ex_pin (Name : FName) (Dir : EEdGraphPinDirection) (Links : list pin_ptr)
    : UEdGraphPin :=
  mkPin Name Dir PinType_Exec EmptyString false EmptyString Links None false false false true false.

Definition ex_flow_node (Ins Outs : list FFlowPin) : UFlowNodeBase :=
  mkInst Class_FlowNode false true Ins Outs [] Ins Outs [] [] false false true true.

Definition ex_addon : UFlowNodeBase :=
  mkInst Class_FlowNodeAddOn false true [] [] [] [] [] [] [] false false false false.

Definition ex_node (Inst : option inst_ptr) (P Is Os : list pin_ptr) : UFlowGraphNode :=
  mkNode Inst (Some ex_graph) false P Is Os None [] false false false false false SaveAll.

Definition ex_full_node : UFlowGraphNode :=
  ex_node (Some 0) (seq 0 256) (seq 0 256) [].

Definition ex_full_world : World :=
  mkWorld (mkHeap ∅ 256) {[ 0 := ex_full_node ]} {[ 0 := ex_flow_node [] [] ]} false true [].

(** The scenario of the spec: inputs [In], outputs [Out; True; False], wires
    [Out -> X.In] and [True -> Y.In], and the declared outputs reduced to
    [Out; True]. Pins 0..3 belong to the node, pins 10..12 to other nodes;
    [FalseLinks] are the connections of [False]. *)
Definition pinIn : FFlowPin := mkFlowPin "In" EmptyString EmptyString PinType_Exec.
Definition pinOut : FFlowPin := mkFlowPin "Out" EmptyString EmptyString PinType_Exec.
Definition pinTrue : FFlowPin := mkFlowPin "True" EmptyString EmptyString PinType_Exec.

Definition ex_scenario_heap (FalseLinks : list pin_ptr) : PinHeap :=
  mkHeap (list_to_map
    [(0, ex_pin "In" EGPD_Input []);
     (1, ex_pin "Out" EGPD_Output [10]);
     (2, ex_pin "True" EGPD_Output [11]);
     (3, ex_pin "False" EGPD_Output FalseLinks);
     (10, ex_pin "In" EGPD_Input [1]);
     (11, ex_pin "In" EGPD_Input [2]);
     (12, ex_pin "In" EGPD_Input (if decide (FalseLinks = []) then [] else [3]))]) 20.

Definition ex_scenario_node : UFlowGraphNode :=
  ex_node (Some 0) [0; 1; 2; 3] [0] [1; 2; 3].

Definition ex_scenario_world (FalseLinks : list pin_ptr) (Transacting : bool) : World :=
  mkWorld (ex_scenario_heap FalseLinks) {[ 0 := ex_scenario_node ]}
          {[ 0 := ex_flow_node [pinIn] [pinOut; pinTrue] ]} Transacting true [].

(** A graph node whose runtime node could not be loaded (no node
    instance), in a graph that belongs to no asset. *)
Definition ex_detached_graph : UFlowGraph := mkGraph false false false false false.

Definition ex_detached_node : UFlowGraphNode :=
  mkNode None (Some ex_detached_graph) false [] [] [] None [] false false false false false
         SaveAll.

Definition ex_detached_world : World :=
  mkWorld (mkHeap ∅ 0) {[ 0 := ex_detached_node ]} ∅ false true [].

(** A parent [Node1] (address 0, a flow node) with the add-on sub-node [A]
    (address 1). *)
Definition ex_parent_node : UFlowGraphNode :=
  mkNode (Some 0) (Some ex_graph) false [] [] [] None [Some 1] false false false false false
         SaveAll.

Definition ex_child_node : UFlowGraphNode :=
  mkNode (Some 1) (Some ex_graph) false [] [] [] (Some 0) [] true false false false false
         SaveAll.

Definition ex_family_world : World :=
  mkWorld (mkHeap ∅ 0) (<[1 := ex_child_node]> {[ 0 := ex_parent_node ]})
          (<[1 := ex_addon]> {[ 0 := ex_flow_node [] [] ]}) false true [].

(** The same family when the class of the parent's runtime node could not be
    loaded, so that the parent has no node instance. *)
Definition ex_orphaned_parent : UFlowGraphNode :=
  mkNode None (Some ex_graph) false [] [] [] None [Some 1] false false false false false
         SaveAll.

Definition ex_family_world_no_instance : World :=
  mkWorld (mkHeap ∅ 0) (<[1 := ex_child_node]> {[ 0 := ex_orphaned_parent ]})
          {[ 1 := ex_addon ]} false true [].

(** A flow node (address 0) and two add-on sub-nodes (addresses 1 and 2)
    that refer to the same runtime add-on (address 1). *)
Definition ex_mirror_parent (Subs : list (option node_ptr)) : UFlowGraphNode :=
  mkNode (Some 0) (Some ex_graph) false [] [] [] None Subs false false false false false
         SaveAll.

Definition ex_mirror_world (Subs : list (option node_ptr)) : World :=
  mkWorld (mkHeap ∅ 0)
          (<[2 := ex_child_node]> (<[1 := ex_child_node]> {[ 0 := ex_mirror_parent Subs ]}))
          (<[1 := ex_addon]> {[ 0 := ex_flow_node [] [] ]}) false true [].

Definition ex_rank (n : node_ptr) : nat := match n with 0 => 1 | _ => 0 end.

(** The scenario again, with [False] (pin 3) a sub-pin of [True] (pin 2). *)
Definition ex_split_heap : PinHeap :=
  mkHeap (<[3 := mkPin "False" EGPD_Output PinType_Exec EmptyString false EmptyString [12] (Some 2)
                       false false false true false]>
            (heap_pins (ex_scenario_heap [12]))) 20.

(** A node with an input [A], an input [B] and an output [A], wired to two
    pins of other nodes, whose instance now declares the input [A] and the
    output [A] only. *)
Definition ex_cross_heap : PinHeap :=
  mkHeap (list_to_map
    [(0, ex_pin "A" EGPD_Input [11]);
     (1, ex_pin "B" EGPD_Input []);
     (2, ex_pin "A" EGPD_Output [10]);
     (10, ex_pin "In" EGPD_Input [2]);
     (11, ex_pin "Out" EGPD_Output [0])]) 20.

Definition ex_cross_node : UFlowGraphNode := ex_node (Some 0) [0; 1; 2] [0; 1] [2].

Definition ex_cross_world : World :=
  mkWorld ex_cross_heap {[ 0 := ex_cross_node ]} {[ 0 := ex_flow_node [pinA] [pinA] ]}
          false true [].

(** A flow node that supports context pins: the class default object
    declares [In] and [Out], the node supplies the context output [True],
    and the stored descriptors are still those of the class. *)
Definition ex_context_instance : UFlowNodeBase :=
  mkInst Class_FlowNode false true [pinIn] [pinOut] [] [pinIn] [pinOut] [] [pinTrue]
         true false true true.

Definition ex_context_world : World :=
  mkWorld (ex_scenario_heap [12]) {[ 0 := ex_scenario_node ]} {[ 0 := ex_context_instance ]}
          false true [].

(** Descriptors named by a decimal number, and a flow node with the inputs
    [In] and [0] and the output [Out], with graph pins to match. *)
Definition ex_FromInt (n : nat) : FFlowPin :=
  mkFlowPin (NilZero.string_of_uint (Nat.to_uint n)) EmptyString EmptyString PinType_Exec.

Definition ex_numbered_heap : PinHeap :=
  mkHeap (list_to_map
    [(0, ex_pin "In" EGPD_Input []);
     (1, ex_pin "0" EGPD_Input []);
     (2, ex_pin "Out" EGPD_Output [])]) 3.

Definition ex_numbered_node : UFlowGraphNode := ex_node (Some 0) [0; 1; 2] [0; 1] [2].

Definition ex_numbered_world : World :=
  mkWorld ex_numbered_heap {[ 0 := ex_numbered_node ]}
          {[ 0 := ex_flow_node [pinIn; ex_FromInt 0] [pinOut] ]} false true [].

(** * Properties *)

(** ** Pin matching *)

Lemma PinsAreEqualPredicate_true (l r : FFlowPin) :
  PinsAreEqualPredicate l r = true ↔ FlowPin_key l = FlowPin_key r.
Proof.
  unfold PinsAreEqualPredicate, FlowPin_key.
  rewrite andb_true_iff, !bool_decide_eq_true. split.
  - intros [-> ->]. reflexivity.
  - intros [= -> ->]. done.
Qed.

Lemma ContainsByPredicate_key (l : FFlowPin) (R : list FFlowPin) :
  ContainsByPredicate (PinsAreEqualPredicate l) R = true
  ↔ FlowPin_key l ∈ FlowPin_key <$> R.
Proof.
  unfold ContainsByPredicate. rewrite existsb_exists, list_elem_of_fmap. split.
  - intros (r & Hin & Heq). exists r. split.
    + by apply PinsAreEqualPredicate_true.
    + by apply list_elem_of_In.
  - intros (r & Heq & Hin). exists r. split.
    + by apply list_elem_of_In.
    + by apply PinsAreEqualPredicate_true.
Qed.

Lemma forallb_contains_keys (L R : list FFlowPin) :
  forallb (λ l, ContainsByPredicate (PinsAreEqualPredicate l) R) L = true
  ↔ ∀ k, k ∈ FlowPin_key <$> L → k ∈ FlowPin_key <$> R.
Proof.
  rewrite forallb_forall. split.
  - intros H k (l & -> & Hl)%list_elem_of_fmap.
    apply ContainsByPredicate_key, H. by apply list_elem_of_In.
  - intros H l Hl. apply ContainsByPredicate_key, H.
    apply list_elem_of_fmap. exists l. split; [done|]. by apply list_elem_of_In.
Qed.

Lemma CheckPinsMatch_spec (L R : list FFlowPin) :
  CheckPinsMatch L R = true
  ↔ length L = length R ∧ ∀ k, k ∈ FlowPin_key <$> L → k ∈ FlowPin_key <$> R.
Proof.
  unfold CheckPinsMatch. destruct (Nat.eqb_spec (length L) (length R)) as [He|Hne]; simpl.
  - rewrite forallb_contains_keys. tauto.
  - split; [done | tauto].
Qed.

Lemma SymmetricSetEqualityTest_spec (A B : list FFlowPin) :
  SymmetricSetEqualityTest A B = true
  ↔ ∀ k, k ∈ FlowPin_key <$> A ↔ k ∈ FlowPin_key <$> B.
Proof.
  unfold SymmetricSetEqualityTest.
  rewrite andb_true_iff, !forallb_contains_keys. split.
  - intros [H1 H2] k. split; [apply H1 | apply H2].
  - intros H. split; intros k; apply H.
Qed.

(** Pigeonhole: a duplicate-free key list included in a list of the same
    length covers it. *)
Lemma keys_cover_of_NoDup {K : Type} (ks ks' : list K) :
  NoDup ks → length ks = length ks' → (∀ k, k ∈ ks → k ∈ ks') → ∀ k, k ∈ ks' → k ∈ ks.
Proof.
  intros Hnd Hlen Hsub k Hk.
  assert (ks ⊆+ ks') as Hms by (by apply NoDup_submseteq).
  assert (ks ≡ₚ ks') as Hp by (apply submseteq_length_Permutation; [done | lia]).
  by rewrite Hp.
Qed.

Lemma keys_elem_of (L : list FFlowPin) (a : FFlowPin) :
  a ∈ L → FlowPin_key a ∈ FlowPin_key <$> L.
Proof. intros Ha. apply list_elem_of_fmap. by exists a. Qed.

(** C6 (amended). [CheckPinsMatch] answers true exactly when the two
    descriptor sequences have the same length and every descriptor of the
    first has a counterpart of the same name and type in the second. When
    the first sequence holds no two descriptors of the same name and type,
    this is the same as equal lengths together with the full symmetric
    set-equality test. The function is pure: both sequences are only read. *)
Theorem CheckPinsMatch_contract (A B : list FFlowPin) :
  (CheckPinsMatch A B = true ↔
     length A = length B ∧
     ∀ a, a ∈ A → ∃ b, b ∈ B ∧ FlowPin_PinName a = FlowPin_PinName b
                        ∧ GetPinType a = GetPinType b)
  ∧ (NoDup (FlowPin_key <$> A) →
     (CheckPinsMatch A B = true ↔
        length A = length B ∧ SymmetricSetEqualityTest A B = true)).
Proof.
  split.
  - rewrite CheckPinsMatch_spec. split; intros [Hlen H]; (split; [done|]).
    + intros a Ha. pose proof (H _ (keys_elem_of _ _ Ha)) as Hk.
      apply list_elem_of_fmap in Hk as (b & Hk & Hb).
      exists b. injection Hk as Hn Ht. done.
    + intros k (a & -> & Ha)%list_elem_of_fmap.
      destruct (H a Ha) as (b & Hb & Hn & Ht).
      apply list_elem_of_fmap. exists b. split; [|done].
      unfold FlowPin_key. by rewrite Hn, Ht.
  - intros Hnd. rewrite CheckPinsMatch_spec, SymmetricSetEqualityTest_spec.
    split; intros [Hlen H]; (split; [done|]).
    + intros k. split; [apply H|].
      apply keys_cover_of_NoDup; [done | by rewrite !length_fmap | done].
    + intros k. apply H.
Qed.

Lemma CheckPinsMatch_contract_witness :
  NoDup (FlowPin_key <$> [pinA; pinB])
  ∧ (CheckPinsMatch [pinA; pinB] [pinB; pinA] = true ↔
       length [pinA; pinB] = length [pinB; pinA]
       ∧ SymmetricSetEqualityTest [pinA; pinB] [pinB; pinA] = true).
Proof.
  assert (NoDup (FlowPin_key <$> [pinA; pinB])) as Hnd.
  { apply (bool_decide_unpack _). vm_compute. exact I. }
  split; [exact Hnd|].
  exact (proj2 (CheckPinsMatch_contract [pinA; pinB] [pinB; pinA]) Hnd).
Defined.

(** C6, as stated, fails when the first sequence repeats a descriptor:
    [A; A] against [A; B] has the same length and every descriptor of the
    first is found in the second, so the function answers true, yet [B] has
    no counterpart in the first sequence. *)
Lemma CheckPinsMatch_not_symmetric :
  CheckPinsMatch [pinA; pinA] [pinA; pinB] = true
  ∧ SymmetricSetEqualityTest [pinA; pinA] [pinA; pinB] = false
  ∧ CheckPinsMatch [pinA; pinB] [pinA; pinA] = false.
Proof. vm_compute. done. Qed.

(** ** User-added pins *)

(** C10. [CanUserAddInput] answers true exactly when the node instance is a
    flow node that allows user-added inputs and the node has fewer than 256
    input pins, and [CanUserAddOutput] likewise for outputs; with 256 pins
    or more in the direction the answer is false. *)
Theorem CanUserAdd_cap (w : World) (N : UFlowGraphNode) :
  (CanUserAddInput w N = true ↔
     ∃ FlowNode, Cast_UFlowNode w (NodeInstance N) = Some FlowNode
                 ∧ bCanUserAddInput FlowNode = true ∧ length (InputPins N) < 256)
  ∧ (CanUserAddOutput w N = true ↔
     ∃ FlowNode, Cast_UFlowNode w (NodeInstance N) = Some FlowNode
                 ∧ bCanUserAddOutput FlowNode = true ∧ length (OutputPins N) < 256)
  ∧ (256 ≤ length (InputPins N) → CanUserAddInput w N = false)
  ∧ (256 ≤ length (OutputPins N) → CanUserAddOutput w N = false).
Proof.
  unfold CanUserAddInput, CanUserAddOutput.
  destruct (Cast_UFlowNode w (NodeInstance N)) as [X|].
  - rewrite !andb_true_iff, !bool_decide_eq_true. split; [|split; [|split]].
    + split.
      * intros [? ?]. by exists X.
      * intros (Y & HY & ? & ?). injection HY as ->. done.
    + split.
      * intros [? ?]. by exists X.
      * intros (Y & HY & ? & ?). injection HY as ->. done.
    + intros ?. apply andb_false_iff. right. apply bool_decide_eq_false. lia.
    + intros ?. apply andb_false_iff. right. apply bool_decide_eq_false. lia.
  - split; [|split; [|split]]; try done.
    + split; [done|]. by intros (Y & HY & _).
    + split; [done|]. by intros (Y & HY & _).
Qed.

Lemma CanUserAdd_cap_witness :
  256 ≤ length (InputPins ex_full_node)
  ∧ CanUserAddInput ex_full_world ex_full_node = false
  ∧ CanUserAddOutput ex_full_world ex_full_node = true.
Proof.
  assert (256 ≤ length (InputPins ex_full_node)) as H by (vm_compute; lia).
  split; [exact H|]. split.
  - exact (proj1 (proj2 (proj2 (CanUserAdd_cap ex_full_world ex_full_node))) H).
  - vm_compute. reflexivity.
Defined.

(** ** The guard and the completion event of [ReconstructNode] *)

(** The guard lets the call through exactly when none of its tests stops
    it; where it does not return, it does not let the call through. *)
Lemma CanReconstructNode_eq (w : World) (N : UFlowGraphNode) :
  CanReconstructNode w N =
    if GIsTransacting w || bIsReconstructingNode N || bIsDestroyingNode N then false
    else if negb (IsValid_Instance w (NodeInstance N)) then false
    else if negb (IsValid_Graph (Graph N)) then false
    else
      match GetFlowGraph N with
      | Some FlowGraph =>
          if bIsSavingGraph FlowGraph then false
          else if bIsLocked FlowGraph then false
          else true
      | None => true
      end.
Proof.
  unfold CanReconstructNode, CanReconstructNode_call, GetFlowAsset, GetFlowGraph, IsValid_Graph.
  destruct (_ || _ || _); [done|].
  destruct (IsValid_Instance w (NodeInstance N)); simpl.
  - destruct (Graph N) as [G|]; simpl; [|done].
    destruct (Graph_IsGarbage G); simpl; [done|].
    by destruct (bIsSavingGraph G), (bIsLocked G).
  - destruct (Graph N) as [G|]; simpl; [|done]. by destruct (Graph_HasFlowAsset G).
Qed.

Lemma CanReconstructNode_call_true (w : World) (N : UFlowGraphNode) :
  CanReconstructNode_call w N = Some true ↔ CanReconstructNode w N = true.
Proof. unfold CanReconstructNode. by rewrite bool_decide_eq_true. Qed.

(** The guard returns unless it finds an invalid node instance on a node
    that has no graph, or whose graph has no asset. *)
Lemma CanReconstructNode_call_returns (w : World) (N : UFlowGraphNode) :
  GIsTransacting w || bIsReconstructingNode N || bIsDestroyingNode N
  || IsValid_Instance w (NodeInstance N) || HasFlowAsset N = true →
  CanReconstructNode_call w N = Some (CanReconstructNode w N).
Proof.
  intros Hr. rewrite CanReconstructNode_eq.
  unfold CanReconstructNode_call, GetFlowAsset, HasFlowAsset, GetFlowGraph, IsValid_Graph in *.
  destruct (GIsTransacting w), (bIsReconstructingNode N), (bIsDestroyingNode N);
    simpl in *; try done.
  destruct (IsValid_Instance w (NodeInstance N)); simpl in *.
  - destruct (Graph N) as [G|]; simpl; [|done].
    destruct (Graph_IsGarbage G); simpl; [done|].
    by destruct (bIsSavingGraph G), (bIsLocked G).
  - destruct (Graph N) as [G|]; simpl in *; [|done]. by rewrite Hr.
Qed.

Lemma CanReconstructNode_call_fails (w : World) (N : UFlowGraphNode) :
  CanReconstructNode_call w N = None ↔
  GIsTransacting w || bIsReconstructingNode N || bIsDestroyingNode N
  || IsValid_Instance w (NodeInstance N) || HasFlowAsset N = false.
Proof.
  unfold CanReconstructNode_call, GetFlowAsset, HasFlowAsset, GetFlowGraph, IsValid_Graph.
  destruct (GIsTransacting w), (bIsReconstructingNode N), (bIsDestroyingNode N);
    simpl; try done.
  destruct (IsValid_Instance w (NodeInstance N)); simpl.
  - destruct (Graph N) as [G|]; simpl; [|done].
    destruct (Graph_IsGarbage G); simpl; [done|].
    by destruct (bIsSavingGraph G), (bIsLocked G).
  - destruct (Graph N) as [G|]; simpl; [|done]. by destruct (Graph_HasFlowAsset G).
Qed.

Lemma ReconstructNode_call_Some (T : UFlowNodeBase → option UFlowNodeBase)
    (This : node_ptr) (w w' : World) :
  ReconstructNode_call T This w = Some w' ↔
  w' = ReconstructNode T This w
  ∧ ∃ N, GraphNodes w !! This = Some N ∧ is_Some (CanReconstructNode_call w N).
Proof.
  unfold ReconstructNode_call. split.
  - intros (N & HN & (b & Hb & [= <-])%bind_Some)%bind_Some. split; [done|]. by exists N.
  - intros [-> (N & HN & [b Hb])]. rewrite HN. simpl. by rewrite Hb.
Qed.

Section Reconstruct_guard.

Variable T : UFlowNodeBase → option UFlowNodeBase.

Lemma Trace_TryUpdateAutoDataPins (N : UFlowGraphNode) (w : World) :
  Trace (TryUpdateAutoDataPins T N w).1 = Trace w.
Proof.
  unfold TryUpdateAutoDataPins.
  repeat (case_match; simpl; try done).
Qed.

Lemma Trace_TryUpdateNodePins (N : UFlowGraphNode) (w : World) :
  Trace (TryUpdateNodePins N w).1 = Trace w.
Proof.
  unfold TryUpdateNodePins.
  repeat (case_match; simpl; try done).
Qed.

Lemma CanReconstructNode_false (w : World) (N : UFlowGraphNode) :
  CanReconstructNode w N = false ↔ GuardHolds w N.
Proof.
  rewrite CanReconstructNode_eq. unfold GuardHolds, GetFlowGraph, IsValid_Graph.
  destruct (GIsTransacting w), (bIsReconstructingNode N), (bIsDestroyingNode N),
    (IsValid_Instance w (NodeInstance N)); simpl; try tauto.
  destruct (Graph N) as [G|]; simpl; [|tauto].
  destruct (Graph_IsGarbage G), (bIsSavingGraph G) eqn:Hs, (bIsLocked G) eqn:Hl; simpl;
    try tauto; try (split; [intros _|done]; do 5 right; exists G; tauto).
  split; [done|].
  intros [?|[?|[?|[?|[?|(G' & [= <-] & [?|?])]]]]]; congruence.
Qed.

(** The guarded call, where the guard returns. When a guard condition
    holds at the call -- a transaction is in progress, the node is being
    reconstructed or destroyed, the node instance or the owning graph is
    not valid, or the graph is being saved or is locked -- and the guard
    returns, [ReconstructNode] returns the world it was given: pins, flags,
    descriptors and everything else are unchanged. The guard returns unless
    it finds an invalid node instance on a node without graph or in a graph
    without asset. *)
Lemma ReconstructNode_guarded (This : node_ptr) (w : World) (N : UFlowGraphNode) :
  GraphNodes w !! This = Some N →
  GuardHolds w N →
  GIsTransacting w || bIsReconstructingNode N || bIsDestroyingNode N
  || IsValid_Instance w (NodeInstance N) || HasFlowAsset N = true →
  CanReconstructNode_call w N = Some false
  ∧ ReconstructNode_call T This w = Some w.
Proof.
  intros HN Hg Hret. apply CanReconstructNode_false in Hg.
  pose proof (CanReconstructNode_call_returns w N Hret) as Hcall. rewrite Hg in Hcall.
  split; [done|]. unfold ReconstructNode_call. rewrite HN. simpl. rewrite Hcall. simpl.
  unfold ReconstructNode. by rewrite HN, Hg.
Qed.

(** C5 (amended). A call that passes the guard executes the
    [OnReconstructNodeCompleted] delegate exactly once, as the last event of
    the call, whether or not the pins were rebuilt; a call stopped by the
    guard executes nothing. *)
Theorem ReconstructNode_completed_event (This : node_ptr) (w : World) (N : UFlowGraphNode) :
  GraphNodes w !! This = Some N →
  Trace (ReconstructNode T This w) =
    Trace w ++ (if CanReconstructNode w N then [Ev_OnReconstructNodeCompleted This] else []).
Proof.
  intros HN. unfold ReconstructNode. rewrite HN.
  destruct (CanReconstructNode w N); simpl; [|by rewrite app_nil_r].
  pose proof (Trace_TryUpdateAutoDataPins (set_bIsReconstructingNode true N) w) as H1.
  destruct (TryUpdateAutoDataPins T (set_bIsReconstructingNode true N) w) as [w1 b1].
  pose proof (Trace_TryUpdateNodePins (set_bIsReconstructingNode true N) w1) as H2.
  destruct (TryUpdateNodePins (set_bIsReconstructingNode true N) w1) as [w2 b2].
  simpl in *.
  repeat (case_match; simpl); congruence.
Qed.

End Reconstruct_guard.

Lemma ReconstructNode_guarded_witness :
  GraphNodes (ex_scenario_world [12] true) !! 0 = Some ex_scenario_node
  ∧ GuardHolds (ex_scenario_world [12] true) ex_scenario_node
  ∧ CanReconstructNode_call (ex_scenario_world [12] true) ex_scenario_node = Some false
  ∧ ReconstructNode_call NoManagedPins 0 (ex_scenario_world [12] true)
    = Some (ex_scenario_world [12] true).
Proof.
  assert (GraphNodes (ex_scenario_world [12] true) !! 0 = Some ex_scenario_node) as H0
    by reflexivity.
  assert (GuardHolds (ex_scenario_world [12] true) ex_scenario_node) as Hg
    by (left; reflexivity).
  split; [exact H0|]. split; [exact Hg|].
  exact (ReconstructNode_guarded NoManagedPins 0 _ _ H0 Hg eq_refl).
Defined.

(** C4. The code breaks the claim on a node whose node instance is not
    valid while its graph has no asset: the guard condition "invalid node
    instance" holds, and the guard, which means to report it and return
    false, evaluates [*GetFlowAsset()->GetName()] for its message and
    follows the null asset, so that neither [CanReconstructNode] nor
    [ReconstructNode] returns. [LogError] tests the same pointer before it
    uses it. *)
Theorem ReconstructNode_guard_diagnostic_fails :
  GraphNodes ex_detached_world !! 0 = Some ex_detached_node
  ∧ GuardHolds ex_detached_world ex_detached_node
  ∧ IsValid_Instance ex_detached_world (NodeInstance ex_detached_node) = false
  ∧ GetFlowAsset ex_detached_node = Some false
  ∧ CanReconstructNode_call ex_detached_world ex_detached_node = None
  ∧ ReconstructNode_call NoManagedPins 0 ex_detached_world = None
  ∧ LogError 0 ex_detached_node "message" ex_detached_world = Some ex_detached_world.
Proof.
  split; [reflexivity|]. split; [do 3 right; left; reflexivity|].
  repeat split; vm_compute; reflexivity.
Qed.

Lemma ReconstructNode_completed_event_witness :
  GraphNodes (ex_scenario_world [12] false) !! 0 = Some ex_scenario_node
  ∧ Trace (ReconstructNode NoManagedPins 0 (ex_scenario_world [12] false))
    = [Ev_OnReconstructNodeCompleted 0].
Proof.
  assert (GraphNodes (ex_scenario_world [12] false) !! 0 = Some ex_scenario_node) as H0
    by reflexivity.
  split; [exact H0|].
  exact (ReconstructNode_completed_event NoManagedPins 0 _ _ H0).
Defined.

(** C5, as stated, fails for a call stopped by the guard: while a
    transaction is in progress [ReconstructNode] returns before the delegate
    is executed, and the trace holds no completion event. *)
Lemma ReconstructNode_guarded_fires_nothing :
  GraphNodes (ex_scenario_world [12] true) !! 0 = Some ex_scenario_node
  ∧ filter (λ e, e = Ev_OnReconstructNodeCompleted 0)
      (Trace (ReconstructNode NoManagedPins 0 (ex_scenario_world [12] true))) = [].
Proof. split; vm_compute; reflexivity. Qed.

(** ** What reconstruction leaves alone *)

Lemma foldl_invariant {A B : Type} (P : A → Prop) (f : A → B → A) (l : list B) (a : A) :
  P a → (∀ a b, P a → P (f a b)) → P (foldl f a l).
Proof.
  intros Ha Hf. revert a Ha. induction l as [|b l IH]; intros a Ha; simpl; [done|].
  apply IH, Hf, Ha.
Qed.

Lemma same_hierarchy_refl (N : UFlowGraphNode) : same_hierarchy N N.
Proof. by repeat split. Qed.

Lemma same_hierarchy_trans (N1 N2 N3 : UFlowGraphNode) :
  same_hierarchy N1 N2 → same_hierarchy N2 N3 → same_hierarchy N1 N3.
Proof.
  unfold same_hierarchy. intros H1 H2.
  destruct H1 as (?&?&?&?&?&?&?&?&?), H2 as (?&?&?&?&?&?&?&?&?).
  repeat split; congruence.
Qed.

Lemma same_hierarchy_set_PinArrays (Ps Is Os : list pin_ptr) (N : UFlowGraphNode) :
  same_hierarchy N (set_PinArrays Ps Is Os N).
Proof. by repeat split. Qed.

Lemma CreatePin_hierarchy Dir Cat Name Index (st : UFlowGraphNode * PinHeap) :
  same_hierarchy st.1 (CreatePin Dir Cat Name Index st).1.1.
Proof. destruct st as [N h]. simpl. apply same_hierarchy_set_PinArrays. Qed.

Lemma CreateInputPin_hierarchy FlowPin Index (st : UFlowGraphNode * PinHeap) :
  same_hierarchy st.1 (CreateInputPin FlowPin Index st).1.
Proof.
  unfold CreateInputPin. case_match; [apply same_hierarchy_refl|].
  pose proof (CreatePin_hierarchy EGPD_Input (GetPinType FlowPin) (FlowPin_PinName FlowPin)
                Index st) as Hc.
  destruct (CreatePin _ _ _ _ st) as [[N h] q]. simpl in *.
  eapply same_hierarchy_trans; [exact Hc|]. apply same_hierarchy_set_PinArrays.
Qed.

Lemma CreateOutputPin_hierarchy FlowPin Index (st : UFlowGraphNode * PinHeap) :
  same_hierarchy st.1 (CreateOutputPin FlowPin Index st).1.
Proof.
  unfold CreateOutputPin. case_match; [apply same_hierarchy_refl|].
  pose proof (CreatePin_hierarchy EGPD_Output (GetPinType FlowPin) (FlowPin_PinName FlowPin)
                Index st) as Hc.
  destruct (CreatePin _ _ _ _ st) as [[N h] q]. simpl in *.
  eapply same_hierarchy_trans; [exact Hc|]. apply same_hierarchy_set_PinArrays.
Qed.

Lemma AllocateDefaultPins_hierarchy FlowNode (st : UFlowGraphNode * PinHeap) :
  same_hierarchy st.1 (AllocateDefaultPins FlowNode st).1.
Proof.
  unfold AllocateDefaultPins. destruct FlowNode as [X|]; [|apply same_hierarchy_refl].
  apply (foldl_invariant (λ st', same_hierarchy st.1 st'.1)).
  - apply (foldl_invariant (λ st', same_hierarchy st.1 st'.1)).
    + apply same_hierarchy_refl.
    + intros a b Ha. eapply same_hierarchy_trans; [exact Ha|]. apply CreateInputPin_hierarchy.
  - intros a b Ha. eapply same_hierarchy_trans; [exact Ha|]. apply CreateOutputPin_hierarchy.
Qed.

Lemma AppendOrphan_hierarchy (h : PinHeap) (N : UFlowGraphNode) (p : pin_ptr) :
  same_hierarchy N (AppendOrphan h N p).
Proof.
  unfold AppendOrphan. repeat case_match;
    first [apply same_hierarchy_refl | apply same_hierarchy_set_PinArrays].
Qed.

Lemma RewireOldPinsToNewPins_hierarchy b InOldPins (st : UFlowGraphNode * PinHeap) :
  same_hierarchy st.1 (RewireOldPinsToNewPins b InOldPins st).1.
Proof.
  destruct st as [N h]. simpl.
  apply (foldl_invariant (λ N', same_hierarchy N N')); [apply same_hierarchy_refl|].
  intros a p Ha. eapply same_hierarchy_trans; [exact Ha|]. apply AppendOrphan_hierarchy.
Qed.

Lemma RebuildPinArrays_hierarchy b FlowNode (st : UFlowGraphNode * PinHeap) :
  same_hierarchy st.1 (RebuildPinArrays b FlowNode st).1.1.
Proof.
  destruct st as [N h]. unfold RebuildPinArrays.
  pose proof (AllocateDefaultPins_hierarchy FlowNode (set_PinArrays [] [] [] N, h)) as H1.
  pose proof (RewireOldPinsToNewPins_hierarchy b (Pins N)
                (AllocateDefaultPins FlowNode (set_PinArrays [] [] [] N, h))) as H2.
  destruct (RewireOldPinsToNewPins b (Pins N) _) as [N2 rw]. simpl in *.
  eapply same_hierarchy_trans; [|exact H2].
  eapply same_hierarchy_trans; [|exact H1]. apply same_hierarchy_set_PinArrays.
Qed.

Section Reconstruct_frame.

Variable T : UFlowNodeBase → option UFlowNodeBase.

Lemma GraphNodes_TryUpdateAutoDataPins (N : UFlowGraphNode) (w : World) :
  GraphNodes (TryUpdateAutoDataPins T N w).1 = GraphNodes w.
Proof. unfold TryUpdateAutoDataPins. repeat (case_match; simpl; try done). Qed.

Lemma GraphNodes_TryUpdateNodePins (N : UFlowGraphNode) (w : World) :
  GraphNodes (TryUpdateNodePins N w).1 = GraphNodes w.
Proof. unfold TryUpdateNodePins. repeat (case_match; simpl; try done). Qed.

(** The node that [ReconstructNode] stores back differs from the one it
    read in its pin arrays and reconstruction flags only, and no other node
    is written. *)
Lemma ReconstructNode_GraphNodes (This : node_ptr) (w : World) :
  GraphNodes (ReconstructNode T This w) = GraphNodes w
  ∨ ∃ N N', GraphNodes w !! This = Some N ∧ same_hierarchy N N'
            ∧ GraphNodes (ReconstructNode T This w) = <[This := N']> (GraphNodes w).
Proof.
  unfold ReconstructNode. destruct (GraphNodes w !! This) as [N|] eqn:HN; [|by left].
  destruct (CanReconstructNode w N); simpl; [|by left].
  right. exists N.
  pose proof (GraphNodes_TryUpdateAutoDataPins (set_bIsReconstructingNode true N) w) as H1.
  destruct (TryUpdateAutoDataPins T (set_bIsReconstructingNode true N) w) as [w1 b1].
  pose proof (GraphNodes_TryUpdateNodePins (set_bIsReconstructingNode true N) w1) as H2.
  destruct (TryUpdateNodePins (set_bIsReconstructingNode true N) w1) as [w2 b2].
  simpl in *.
  pose proof (RebuildPinArrays_hierarchy (bOrphanPinsEnabled w2)
    (Cast_UFlowNode w2 (NodeInstance (set_bIsReconstructingNode true N)))
    (set_bIsReconstructingNode true N, PinObjects w2)) as H3.
  destruct (RebuildPinArrays _ _ _) as [[N' h'] rw]. simpl in H3.
  destruct (_ || _ || _ || _); simpl; eexists; (split; [done|]); rewrite H2, H1;
    (split; [|reflexivity]).
  - destruct H3 as (?&?&?&?&?&?&?&?&?). by repeat split.
  - by repeat split.
Qed.

Lemma ReconstructNode_lookup (This : node_ptr) (w : World) (n : node_ptr) (N : UFlowGraphNode) :
  GraphNodes w !! n = Some N →
  ∃ N', GraphNodes (ReconstructNode T This w) !! n = Some N' ∧ same_hierarchy N N'.
Proof.
  intros HN. destruct (ReconstructNode_GraphNodes This w) as [->|(N0 & N' & H0 & Hs & ->)].
  - exists N. split; [done|apply same_hierarchy_refl].
  - destruct (decide (This = n)) as [->|Hne].
    + rewrite lookup_insert_eq. exists N'. split; [done|]. congruence.
    + rewrite lookup_insert_ne by done. exists N. split; [done|apply same_hierarchy_refl].
Qed.

Lemma ReconstructNode_lookup_None (This : node_ptr) (w : World) (n : node_ptr) :
  GraphNodes w !! n = None → GraphNodes (ReconstructNode T This w) !! n = None.
Proof.
  intros HN. destruct (ReconstructNode_GraphNodes This w) as [->|(N0 & N' & H0 & Hs & ->)]; [done|].
  rewrite lookup_insert_ne; [done|]. congruence.
Qed.

End Reconstruct_frame.

(** ** The sub-node hierarchy *)

Section Hierarchy.

Variable T : UFlowNodeBase → option UFlowNodeBase.
Variable CheckAccept :
  option UFlowNodeBase → option inst_ptr → list inst_ptr → EFlowAddOnAcceptResult.

(** The loop of [IsAncestorNode] finds an ancestor after finitely many
    parent links, whatever else the parent chain does. *)
Lemma IsAncestorNode_from_finds (w : World) (X n : node_ptr) :
  Ancestor w X n →
  ∃ k, ∀ N fuel, GraphNodes w !! n = Some N → k ≤ fuel →
       IsAncestorNode_from fuel w (ParentNode N) X = Some true.
Proof.
  induction 1 as [n N HN HP | n N P HN HP HA IH].
  - exists 0. intros N' fuel HN' _. rewrite HN in HN'. injection HN' as <-.
    rewrite HP. destruct fuel; simpl; by rewrite decide_True.
  - destruct IH as [k IH]. exists (S k). intros N' fuel HN' Hk.
    rewrite HN in HN'. injection HN' as <-. rewrite HP.
    destruct fuel as [|fuel]; [lia|]. simpl.
    destruct (decide (P = X)) as [|Hne]; [done|].
    assert (∃ NP, GraphNodes w !! P = Some NP) as [NP HNP] by (inversion HA; eauto).
    rewrite HNP. apply IH; [done | lia].
Qed.

(** C8 (amended). When [X] is an ancestor of [N] in the parent chain,
    [CanAcceptSubNodeAsChild] called on [N] with candidate [X] returns
    false, for every bound on the loop from some bound on. The reason given
    is the cycle rejection when [X] has a node instance; a candidate
    without a node instance is rejected before the ancestor test, with the
    missing-instance reason. *)
Theorem CanAcceptSubNodeAsChild_rejects_ancestor (w : World) (n X : node_ptr)
    (Other : UFlowGraphNode) (Paste : list node_ptr) :
  Ancestor w X n →
  GraphNodes w !! X = Some Other →
  ∃ k, ∀ fuel, k ≤ fuel →
    CanAcceptSubNodeAsChild CheckAccept fuel w n X Paste =
      Some (false, Some (match NodeInstance Other with
                         | Some _ => Reason_OwnAddOn
                         | None => Reason_MissingAddOnInstance
                         end)).
Proof.
  intros HA HX. destruct (IsAncestorNode_from_finds w X n HA) as [k Hk].
  exists k. intros fuel Hf. unfold CanAcceptSubNodeAsChild, IsAncestorNode.
  assert (∃ N, GraphNodes w !! n = Some N) as [N HN] by (inversion HA; eauto).
  rewrite HN, HX. simpl. destruct (NodeInstance Other); [|done].
  rewrite (Hk N fuel HN Hf). done.
Qed.

Lemma nodes_extend_refl (w : World) : nodes_extend w w.
Proof. split; [|done]. intros n N HN. exists N. split; [done|apply same_hierarchy_refl]. Qed.

Lemma nodes_extend_trans (w1 w2 w3 : World) :
  nodes_extend w1 w2 → nodes_extend w2 w3 → nodes_extend w1 w3.
Proof.
  intros [H1 H1'] [H2 H2']. split.
  - intros n N HN. destruct (H1 n N HN) as (N' & HN' & Hs).
    destruct (H2 n N' HN') as (N'' & HN'' & Hs'). exists N''. split; [done|].
    by eapply same_hierarchy_trans.
  - intros n HN. by apply H2', H1'.
Qed.

Lemma nodes_extend_eq (w w' : World) : GraphNodes w' = GraphNodes w → nodes_extend w w'.
Proof.
  intros He. split; rewrite He; [|done].
  intros n N HN. exists N. split; [done|apply same_hierarchy_refl].
Qed.

Lemma ReconstructNode_nodes_extend (This : node_ptr) (w : World) :
  nodes_extend w (ReconstructNode T This w).
Proof.
  split; [apply ReconstructNode_lookup | apply ReconstructNode_lookup_None].
Qed.

Lemma LogError_Some This N Message (w w' : World) :
  LogError This N Message w = Some w' →
  is_Some (Graph N) ∧ w' = if HasFlowAsset N then emit (Ev_LogError This Message) w else w.
Proof.
  unfold LogError, GetFlowAsset, HasFlowAsset, GetFlowGraph.
  destruct (Graph N) as [G|]; simpl; [|done]. intros [= <-]. split; [by eexists|done].
Qed.

Lemma LogError_graph This N Message (w : World) :
  is_Some (Graph N) →
  LogError This N Message w
  = Some (if HasFlowAsset N then emit (Ev_LogError This Message) w else w).
Proof.
  unfold LogError, GetFlowAsset, HasFlowAsset, GetFlowGraph. by intros [G ->].
Qed.

Lemma foldl_MirrorSubNode_None This N (subs : list (option node_ptr)) :
  foldl (MirrorSubNode This N) None subs = None.
Proof. induction subs as [|s subs IH]; [done|]. exact IH. Qed.

Lemma GraphNodes_MirrorSubNode This N l (w : World) SubNode l' (w' : World) :
  MirrorSubNode This N (Some (l, w)) SubNode = Some (l', w') → GraphNodes w' = GraphNodes w.
Proof.
  unfold MirrorSubNode. simpl. intros H.
  repeat case_match; simplify_eq; try done;
    match goal with
    | H : LogError _ _ _ _ ≫= _ = Some _ |- _ =>
        apply bind_Some in H as (w1 & [_ ->]%LogError_Some & [= <- <-]); by case_match
    end.
Qed.

Lemma GraphNodes_MirrorSubNodes This N (w w1 : World) :
  MirrorSubNodes This N w = Some w1 → GraphNodes w1 = GraphNodes w.
Proof.
  unfold MirrorSubNodes.
  assert (∀ subs l v r, foldl (MirrorSubNode This N) (Some (l, v)) subs = Some r →
                        GraphNodes r.2 = GraphNodes v) as Hfold.
  { induction subs as [|x subs IH]; intros l v r Hr; simpl in Hr.
    - by injection Hr as <-.
    - change (foldl (MirrorSubNode This N) (MirrorSubNode This N (Some (l, v)) x) subs
              = Some r) in Hr.
      destruct (MirrorSubNode This N (Some (l, v)) x) as [[l1 v1]|] eqn:Hx;
        [|by rewrite foldl_MirrorSubNode_None in Hr].
      rewrite (IH _ _ _ Hr). by eapply GraphNodes_MirrorSubNode. }
  intros H. repeat case_match; simplify_eq; try done;
    match goal with
    | H : _ ≫= _ = Some _ |- _ =>
        apply bind_Some in H as ([l v] & Hf%Hfold & H); simpl in Hf;
        repeat case_match; simplify_eq; simpl; done
    end.
Qed.

Lemma RebuildRuntimeAddOns_nodes_extend (fuel : nat) :
  ∀ (This : node_ptr) (w w' : World),
    RebuildRuntimeAddOnsFromEditorSubNodes T fuel This w = Some w' → nodes_extend w w'.
Proof.
  induction fuel as [|fuel IH]; intros This w w' Hr; simpl in Hr; [done|].
  destruct (GraphNodes w !! This) as [N|]; [|injection Hr as <-; apply nodes_extend_refl].
  apply bind_Some in Hr as (w1 & Hm & Hr).
  apply bind_Some in Hr as (w2 & Hfold & Hr).
  assert (nodes_extend w w2) as H2.
  { assert (nodes_extend w w1) as H1
      by (eapply nodes_extend_eq, GraphNodes_MirrorSubNodes; exact Hm).
    clear Hm. revert Hfold H1. generalize w1. generalize (SubNodes N).
    intros l. induction l as [|s l IHl]; intros v Hfold H1; simpl in Hfold.
    - by injection Hfold as <-.
    - destruct (IsValid_Node v s); simpl in Hfold; [|by eapply IHl].
      destruct s as [s|]; [|by eapply IHl].
      destruct (RebuildRuntimeAddOnsFromEditorSubNodes T fuel s v) as [v'|] eqn:Hs.
      + eapply IHl; [exact Hfold|]. eapply nodes_extend_trans; [exact H1|]. by eapply IH.
      + exfalso. clear -Hfold. induction l as [|x l IHl]; simpl in Hfold; [done|]. auto. }
  case_match; injection Hr as <-; [|done].
  eapply nodes_extend_trans; [exact H2|]. apply ReconstructNode_nodes_extend.
Qed.

Lemma update_node_bIsSubNode This f (w w' : World) (n : node_ptr) (N : UFlowGraphNode) :
  (∀ M, bIsSubNode M = true → bIsSubNode (f M) = true) →
  update_node This f w = Some w' →
  GraphNodes w !! n = Some N → bIsSubNode N = true →
  ∃ N', GraphNodes w' !! n = Some N' ∧ bIsSubNode N' = true.
Proof.
  intros Hf Hu HN Hb. unfold update_node in Hu.
  apply bind_Some in Hu as (M & HM & [= <-]). simpl.
  destruct (decide (This = n)) as [->|Hne].
  - rewrite lookup_insert_eq. eexists. split; [done|]. apply Hf. congruence.
  - rewrite lookup_insert_ne by done. eauto.
Qed.

Lemma nodes_extend_bIsSubNode (w w' : World) (n : node_ptr) (N : UFlowGraphNode) :
  nodes_extend w w' → GraphNodes w !! n = Some N → bIsSubNode N = true →
  ∃ N', GraphNodes w' !! n = Some N' ∧ bIsSubNode N' = true.
Proof.
  intros [He _] HN Hb. destruct (He n N HN) as (N' & HN' & Hs).
  exists N'. split; [done|]. destruct Hs as (?&?&?&?&?&?&?). congruence.
Qed.

Lemma run_operation_bIsSubNode This op (w w' : World) (n : node_ptr) (N : UFlowGraphNode) :
  run_operation T This op w = Some w' →
  GraphNodes w !! n = Some N → bIsSubNode N = true →
  ∃ N', GraphNodes w' !! n = Some N' ∧ bIsSubNode N' = true.
Proof.
  intros Hr HN Hb. destruct op; simpl in Hr.
  - eapply update_node_bIsSubNode; [|exact Hr|exact HN|exact Hb].
    intros M HM. unfold SetParentNodeForSubNode. simpl. by destruct InParentNode.
  - eapply update_node_bIsSubNode; [|exact Hr|exact HN|exact Hb]. done.
  - apply ReconstructNode_call_Some in Hr as [-> _].
    eapply nodes_extend_bIsSubNode; [|done..]. apply ReconstructNode_nodes_extend.
  - eapply nodes_extend_bIsSubNode; [|done..]. by eapply RebuildRuntimeAddOns_nodes_extend.
  - unfold RemoveSubNode in Hr. apply bind_Some in Hr as (w1 & Hu & Hr).
    edestruct update_node_bIsSubNode as (N1 & HN1 & Hb1); [|exact Hu|exact HN|exact Hb|];
      [intros M HM; exact HM|].
    eapply nodes_extend_bIsSubNode; [|done..]. by eapply RebuildRuntimeAddOns_nodes_extend.
  - unfold RemoveAllSubNodes in Hr. apply bind_Some in Hr as (w1 & Hu & Hr).
    edestruct update_node_bIsSubNode as (N1 & HN1 & Hb1); [|exact Hu|exact HN|exact Hb|];
      [intros M HM; exact HM|].
    eapply nodes_extend_bIsSubNode; [|done..]. by eapply RebuildRuntimeAddOns_nodes_extend.
  - unfold InsertSubNodeAt in Hr. apply bind_Some in Hr as (M & HM & Hr).
    assert (∃ l, RebuildRuntimeAddOnsFromEditorSubNodes T fuel This
                   (set_GraphNode This (set_SubNodes l M) w) = Some w') as [l Hl].
    { repeat case_match; try done; eauto. }
    edestruct (update_node_bIsSubNode This (set_SubNodes l) w) as (N1 & HN1 & Hb1);
      [|unfold update_node; rewrite HM; reflexivity|exact HN|exact Hb|];
      [intros M' HM'; exact HM'|].
    eapply nodes_extend_bIsSubNode; [|done..]. by eapply RebuildRuntimeAddOns_nodes_extend.
Qed.

Lemma run_operations_bIsSubNode ops (w w' : World) (n : node_ptr) (N : UFlowGraphNode) :
  run_operations T ops w = Some w' →
  GraphNodes w !! n = Some N → bIsSubNode N = true →
  ∃ N', GraphNodes w' !! n = Some N' ∧ bIsSubNode N' = true.
Proof.
  revert w N. induction ops as [|[This op] ops IH]; intros w N Hr HN Hb; simpl in Hr.
  - injection Hr as <-. eauto.
  - apply bind_Some in Hr as (w1 & Hop & Hr).
    destruct (run_operation_bIsSubNode _ _ _ _ _ _ Hop HN Hb) as (N1 & HN1 & Hb1).
    by eapply IH.
Qed.

(** C9 (amended). Once [SetParentNodeForSubNode] has given a node a
    non-null parent, the node answers [IsSubNode] with true after every
    further sequence of operations on any node: the flag [bIsSubNode] is
    never cleared. The parent reference itself is not so protected. *)
Theorem once_a_SubNode_always_a_SubNode (n Parent : node_ptr)
    (ops : list (node_ptr * NodeOperation)) (w w' : World) :
  is_Some (GraphNodes w !! n) →
  run_operations T ((n, Op_SetParentNodeForSubNode (Some Parent)) :: ops) w = Some w' →
  ∃ N', GraphNodes w' !! n = Some N' ∧ IsSubNode N' = true.
Proof.
  intros [N HN] Hr. simpl in Hr. unfold update_node in Hr. rewrite HN in Hr. simpl in Hr.
  destruct (run_operations_bIsSubNode ops _ w' n (SetParentNodeForSubNode (Some Parent) N) Hr)
    as (N' & HN' & Hb).
  - simpl. apply lookup_insert_eq.
  - reflexivity.
  - exists N'. split; [done|]. unfold IsSubNode. by rewrite Hb.
Qed.

End Hierarchy.

Lemma CanAcceptSubNodeAsChild_rejects_ancestor_witness :
  Ancestor ex_family_world 0 1
  ∧ GraphNodes ex_family_world !! 0 = Some ex_parent_node
  ∧ ∃ k, ∀ fuel, k ≤ fuel →
      CanAcceptSubNodeAsChild AcceptAll fuel ex_family_world 1 0 [] =
        Some (false, Some Reason_OwnAddOn).
Proof.
  assert (Ancestor ex_family_world 0 1) as HA.
  { apply (Ancestor_parent _ _ 1 ex_child_node); reflexivity. }
  assert (GraphNodes ex_family_world !! 0 = Some ex_parent_node) as H0 by reflexivity.
  split; [exact HA|]. split; [exact H0|].
  exact (CanAcceptSubNodeAsChild_rejects_ancestor AcceptAll ex_family_world 1 0
           ex_parent_node [] HA H0).
Defined.

(** The ancestor test starts at the parent of the node: a node offered to
    itself as a sub-node is not an ancestor of itself, and the code leaves
    the decision to the accept policy. *)
Lemma CanAcceptSubNodeAsChild_offered_itself :
  ¬ Ancestor ex_family_world 1 1
  ∧ CanAcceptSubNodeAsChild AcceptAll 5 ex_family_world 1 1 [] = Some (true, None).
Proof.
  split; [|vm_compute; reflexivity].
  intros HA. inversion HA as [n N HN HP|n N P HN HP HA']; subst.
  - vm_compute in HN. injection HN as <-. discriminate HP.
  - vm_compute in HN. injection HN as <-. injection HP as <-.
    inversion HA' as [n N HN HP|n N P HN HP HA'']; subst;
      vm_compute in HN; injection HN as <-; discriminate HP.
Qed.

(** C8, as stated, fails in the reason it gives when the ancestor has no
    node instance: the candidate is rejected by the first test, with the
    missing-instance reason and not the cycle reason. *)
Lemma CanAcceptSubNodeAsChild_ancestor_other_reason :
  Ancestor ex_family_world_no_instance 0 1
  ∧ CanAcceptSubNodeAsChild AcceptAll 5 ex_family_world_no_instance 1 0 [] =
      Some (false, Some Reason_MissingAddOnInstance).
Proof.
  split; [|vm_compute; reflexivity].
  apply (Ancestor_parent _ _ 1 ex_child_node); reflexivity.
Qed.

Lemma once_a_SubNode_always_a_SubNode_witness :
  is_Some (GraphNodes ex_family_world !! 1)
  ∧ run_operations NoManagedPins
      [(1, Op_SetParentNodeForSubNode (Some 0)); (1, Op_SetParentNodeForSubNode None);
       (1, Op_ReconstructNode)] ex_family_world
    = Some (ReconstructNode NoManagedPins 1
              (set_GraphNode 1 (set_Parent None true ex_child_node) ex_family_world))
  ∧ ∃ N', GraphNodes (ReconstructNode NoManagedPins 1
              (set_GraphNode 1 (set_Parent None true ex_child_node) ex_family_world)) !! 1
          = Some N' ∧ IsSubNode N' = true.
Proof.
  assert (is_Some (GraphNodes ex_family_world !! 1)) as H1 by (eexists; reflexivity).
  assert (run_operations NoManagedPins
      [(1, Op_SetParentNodeForSubNode (Some 0)); (1, Op_SetParentNodeForSubNode None);
       (1, Op_ReconstructNode)] ex_family_world
    = Some (ReconstructNode NoManagedPins 1
              (set_GraphNode 1 (set_Parent None true ex_child_node) ex_family_world))) as H2
    by (vm_compute; reflexivity).
  split; [exact H1|]. split; [exact H2|].
  exact (once_a_SubNode_always_a_SubNode NoManagedPins 1 0 _ _ _ H1 H2).
Defined.

(** C9, as stated, fails: [SetParentNodeForSubNode] stores a null parent as
    readily as any other, so the parent reference of a sub-node can return
    to null (while [IsSubNode] stays true). *)
Lemma parent_reference_can_be_reset :
  (run_operations NoManagedPins [(1, Op_SetParentNodeForSubNode (Some 0))] ex_family_world
     ≫= λ w, GraphNodes w !! 1 ≫= λ N, Some (ParentNode N)) = Some (Some 0)
  ∧ (run_operations NoManagedPins
       [(1, Op_SetParentNodeForSubNode (Some 0)); (1, Op_SetParentNodeForSubNode None)]
       ex_family_world
     ≫= λ w, GraphNodes w !! 1 ≫= λ N, Some (ParentNode N)) = Some None.
Proof. split; vm_compute; reflexivity. Qed.

(** ** Mirroring the sub-nodes into the runtime add-ons *)

Lemma AddUnique_fold_app (acc L : list inst_ptr) :
  ∃ r, foldl AddUnique acc L = acc ++ r ∧ sublist r L
       ∧ (∀ a, a ∈ r ↔ a ∈ L ∧ a ∉ acc) ∧ (NoDup acc → NoDup (acc ++ r)).
Proof.
  revert acc. induction L as [|x L IH]; intros acc; simpl.
  - exists []. rewrite app_nil_r. split; [done|]. split; [done|]. split; [|done].
    intros a. rewrite elem_of_nil. tauto.
  - unfold AddUnique at 2. destruct (decide (x ∈ acc)) as [Hin|Hnin].
    + destruct (IH acc) as (r & -> & Hs & He & Hn). exists r.
      split; [done|]. split; [by apply sublist_cons|]. split; [|done].
      intros a. rewrite He, elem_of_cons. split; [tauto|].
      intros [[->|?] ?]; [done|tauto].
    + destruct (IH (acc ++ [x])) as (r & -> & Hs & He & Hn). exists (x :: r).
      split; [by rewrite <- app_assoc|]. split; [by apply sublist_skip|]. split.
      * intros a. rewrite !elem_of_cons, He, elem_of_app, list_elem_of_singleton.
        split.
        -- intros [->|[? ?]]; [tauto|]. tauto.
        -- intros [[->|?] ?]; [tauto|].
           destruct (decide (a = x)) as [->|]; [tauto|]. right. tauto.
      * intros Hnd. replace (acc ++ x :: r) with ((acc ++ [x]) ++ r)
          by (by rewrite <- app_assoc).
        apply Hn. apply NoDup_app. split; [done|]. split.
        -- intros y Hy ->%list_elem_of_singleton. done.
        -- apply NoDup_singleton.
Qed.

Lemma AddUnique_fold_NoDup_input (acc L : list inst_ptr) :
  NoDup (acc ++ L) → foldl AddUnique acc L = acc ++ L.
Proof.
  revert acc. induction L as [|x L IH]; intros acc Hnd; simpl.
  - by rewrite app_nil_r.
  - unfold AddUnique at 2. apply NoDup_app in Hnd as (Ha & Hd & HL).
    rewrite decide_False.
    + rewrite IH; [by rewrite <- app_assoc|].
      rewrite <- app_assoc. simpl. apply NoDup_app. done.
    + intros Hx. apply (Hd x Hx). left.
Qed.

Lemma emit_emit_all (e : Event) (t : list Event) (w : World) :
  emit e (emit_all t w) = emit_all (t ++ [e]) w.
Proof. unfold emit, emit_all. simpl. by rewrite app_assoc. Qed.

Lemma SubNodeAddOn_emit_all (t : list Event) (w : World) (s : option node_ptr) :
  SubNodeAddOn (emit_all t w) s = SubNodeAddOn w s.
Proof. reflexivity. Qed.

(** One entry of the first loop: what it adds to the mirror and to the log
    when it returns, which it does when the node has a graph or the entry
    needs no diagnostic. *)
Lemma MirrorSubNode_step (This : node_ptr) (N : UFlowGraphNode) (w : World)
    (s : option node_ptr) (acc : list inst_ptr) (t : list Event) :
  let r := (match SubNodeAddOn w s with Some a => AddUnique acc a | None => acc end,
            emit_all (t ++ if HasFlowAsset N
                           then match SubNodeDiagnostic w This s with
                                | Some e => [e] | None => [] end
                           else []) w) in
  (is_Some (Graph N) ∨ SubNodeDiagnostic w This s = None →
   MirrorSubNode This N (Some (acc, emit_all t w)) s = Some r)
  ∧ (∀ r', MirrorSubNode This N (Some (acc, emit_all t w)) s = Some r' → r' = r).
Proof.
  unfold MirrorSubNode, SubNodeDiagnostic, SubNodeAddOn. simpl.
  change (IsValid_Node (emit_all t w) s) with (IsValid_Node w s).
  change (GraphNodes (emit_all t w)) with (GraphNodes w).
  change (Cast_UFlowNodeAddOn (emit_all t w)) with (Cast_UFlowNodeAddOn w).
  change (IsValid_Instance (emit_all t w)) with (IsValid_Instance w).
  assert (∀ m, (is_Some (Graph N) →
                 LogError This N m (emit_all t w)
                 = Some (emit_all (t ++ if HasFlowAsset N then [Ev_LogError This m] else []) w))
               ∧ ∀ v, LogError This N m (emit_all t w) = Some v →
                   v = emit_all (t ++ if HasFlowAsset N then [Ev_LogError This m] else []) w)
    as Hlog.
  { intros m. split.
    - intros Hg. rewrite LogError_graph by done.
      destruct (HasFlowAsset N); by rewrite ?emit_emit_all, ?app_nil_r.
    - intros v [_ ->]%LogError_Some.
      destruct (HasFlowAsset N); by rewrite ?emit_emit_all, ?app_nil_r. }
  assert (emit_all (t ++ (if HasFlowAsset N then [] else [])) w = emit_all t w) as Hnil
    by (destruct (HasFlowAsset N); by rewrite app_nil_r).
  destruct (IsValid_Node w s); simpl.
  - destruct (Cast_UFlowNodeAddOn w _) as [a|]; simpl.
    + destruct (IsValid_Instance w (Some a)); simpl.
      * rewrite Hnil. split; [done|]. by intros r' [= <-].
      * split.
        -- intros [Hg|?]; [|done]. by rewrite (proj1 (Hlog _) Hg).
        -- intros r' (v & Hv & [= <-])%bind_Some. by rewrite (proj2 (Hlog _) v Hv).
    + split.
      * intros [Hg|?]; [|done]. by rewrite (proj1 (Hlog _) Hg).
      * intros r' (v & Hv & [= <-])%bind_Some. by rewrite (proj2 (Hlog _) v Hv).
  - split.
    + intros [Hg|?]; [|done]. by rewrite (proj1 (Hlog _) Hg).
    + intros r' (v & Hv & [= <-])%bind_Some. by rewrite (proj2 (Hlog _) v Hv).
Qed.

Lemma MirrorSubNode_fold (This : node_ptr) (N : UFlowGraphNode) (w : World)
    (subs : list (option node_ptr)) (acc : list inst_ptr) (t : list Event) :
  let r := (foldl AddUnique acc (omap (SubNodeAddOn w) subs),
            emit_all (t ++ if HasFlowAsset N
                           then omap (SubNodeDiagnostic w This) subs else []) w) in
  (is_Some (Graph N) ∨ omap (SubNodeDiagnostic w This) subs = [] →
   foldl (MirrorSubNode This N) (Some (acc, emit_all t w)) subs = Some r)
  ∧ (∀ r', foldl (MirrorSubNode This N) (Some (acc, emit_all t w)) subs = Some r' → r' = r).
Proof.
  revert acc t. induction subs as [|s subs IH]; intros acc t.
  - simpl. assert (emit_all (t ++ (if HasFlowAsset N then [] else [])) w = emit_all t w) as ->
      by (destruct (HasFlowAsset N); by rewrite app_nil_r).
    split; [done|]. by intros r' [= <-].
  - change (foldl ?f ?a (s :: subs)) with (foldl f (f a s) subs).
    destruct (MirrorSubNode_step This N w s acc t) as [Hto Hfrom]. cbv zeta in *.
    assert ((match SubNodeAddOn w s with Some a => AddUnique acc a | None => acc end,
             emit_all (t ++ if HasFlowAsset N
                            then match SubNodeDiagnostic w This s with
                                 | Some e => [e] | None => [] end
                            else []) w)
            = (match SubNodeAddOn w s with Some a => AddUnique acc a | None => acc end,
               emit_all (t ++ if HasFlowAsset N
                              then match SubNodeDiagnostic w This s with
                                   | Some e => [e] | None => [] end
                              else []) w)) as _ by done.
    assert (∀ acc' t',
      (foldl AddUnique acc' (omap (SubNodeAddOn w) subs),
       emit_all ((t ++ t') ++ (if HasFlowAsset N
                               then omap (SubNodeDiagnostic w This) subs else [])) w)
      = (foldl AddUnique acc' (omap (SubNodeAddOn w) subs),
         emit_all (t ++ t' ++ (if HasFlowAsset N
                               then omap (SubNodeDiagnostic w This) subs else [])) w)) as Hassoc
      by (intros; by rewrite <- app_assoc).
    assert ((foldl AddUnique
               (match SubNodeAddOn w s with Some a => AddUnique acc a | None => acc end)
               (omap (SubNodeAddOn w) subs),
             emit_all ((t ++ (if HasFlowAsset N
                              then match SubNodeDiagnostic w This s with
                                   | Some e => [e] | None => [] end
                              else []))
                       ++ (if HasFlowAsset N
                           then omap (SubNodeDiagnostic w This) subs else [])) w)
            = (foldl AddUnique acc (omap (SubNodeAddOn w) (s :: subs)),
               emit_all (t ++ (if HasFlowAsset N
                               then omap (SubNodeDiagnostic w This) (s :: subs)
                               else [])) w)) as Heq.
    { simpl. destruct (SubNodeAddOn w s) as [a|], (SubNodeDiagnostic w This s) as [e|],
        (HasFlowAsset N); simpl; by rewrite <- ?app_assoc, ?app_nil_r. }
    split.
    + intros Hg. rewrite Hto.
      * rewrite (proj1 (IH _ _)); [by rewrite Heq|].
        destruct Hg as [Hg|Hg]; [by left|right].
        simpl in Hg. by destruct (SubNodeDiagnostic w This s).
      * destruct Hg as [Hg|Hg]; [by left|right].
        simpl in Hg. by destruct (SubNodeDiagnostic w This s).
    + intros r' Hr'.
      destruct (MirrorSubNode This N (Some (acc, emit_all t w)) s) as [r1|] eqn:H1;
        [|by rewrite foldl_MirrorSubNode_None in Hr'].
      rewrite (Hfrom r1 eq_refl) in Hr'.
      rewrite (proj2 (IH _ _) r' Hr'). exact Heq.
Qed.

Lemma emit_all_nil (w : World) : emit_all [] w = w.
Proof. destruct w. unfold emit_all. simpl. by rewrite app_nil_r. Qed.

(** The first loop of the mirror rebuild, for a node with a valid instance. *)
Lemma MirrorSubNodes_valid (This : node_ptr) (N : UFlowGraphNode) (w : World)
    (i : inst_ptr) (X : UFlowNodeBase) :
  NodeInstance N = Some i → NodeInstances w !! i = Some X → Inst_IsGarbage X = false →
  let w1 :=
    set_NodeInstance i
      (set_Inst_AddOns (foldl AddUnique [] (omap (SubNodeAddOn w) (SubNodes N))) X)
      (emit_all (if HasFlowAsset N then omap (SubNodeDiagnostic w This) (SubNodes N) else [])
         w) in
  (is_Some (Graph N) ∨ omap (SubNodeDiagnostic w This) (SubNodes N) = [] →
   MirrorSubNodes This N w = Some w1)
  ∧ (∀ w', MirrorSubNodes This N w = Some w' → w' = w1).
Proof.
  intros Hi HX Hg. unfold MirrorSubNodes, deref_Instance. rewrite Hi. simpl. rewrite HX, Hg.
  destruct (MirrorSubNode_fold This N w (SubNodes N) [] []) as [Hto Hfrom].
  rewrite (emit_all_nil w) in Hto, Hfrom. simpl in *.
  split.
  - intros Hgr. rewrite (Hto Hgr). simpl.
    change (NodeInstances (emit_all _ w)) with (NodeInstances w). by rewrite HX.
  - intros w' ([l v] & Hf & Hw')%bind_Some. apply Hfrom in Hf. injection Hf as -> ->.
    change (NodeInstances (emit_all _ w)) with (NodeInstances w) in Hw'. rewrite HX in Hw'.
    by injection Hw' as <-.
Qed.

Section Mirror.

Variable T : UFlowNodeBase → option UFlowNodeBase.
Hypothesis T_identity : refresh_keeps_identity T.

Lemma set_NodeInstance_identity (w : World) (i : inst_ptr) (X X' : UFlowNodeBase) :
  NodeInstances w !! i = Some X →
  Inst_Class X' = Inst_Class X → Inst_IsGarbage X' = Inst_IsGarbage X →
  Inst_AddOns X' = Inst_AddOns X →
  ∀ j, inst_kind (set_NodeInstance i X' w) j = inst_kind w j
       ∧ AddOns_at (set_NodeInstance i X' w) j = AddOns_at w j.
Proof.
  intros HX Hc Hg Ha j. unfold inst_kind, AddOns_at. simpl.
  destruct (decide (i = j)) as [->|Hne].
  - rewrite lookup_insert_eq, HX. simpl. by rewrite Hc, Hg, Ha.
  - by rewrite lookup_insert_ne.
Qed.

Lemma TryUpdateAutoDataPins_identity (N : UFlowGraphNode) (w : World) (j : inst_ptr) :
  inst_kind (TryUpdateAutoDataPins T N w).1 j = inst_kind w j
  ∧ AddOns_at (TryUpdateAutoDataPins T N w).1 j = AddOns_at w j.
Proof.
  unfold TryUpdateAutoDataPins, deref_Instance.
  destruct (NodeInstance N) as [i|]; simpl; [|done].
  destruct (NodeInstances w !! i) as [X|] eqn:HX; simpl; [|done].
  destruct (_ && _); simpl; [|done].
  destruct (T X) as [X'|] eqn:HT; simpl; [|done].
  destruct (T_identity X X' HT) as (Hc & Hg & Ha).
  by apply (set_NodeInstance_identity w i X X').
Qed.

Lemma TryUpdateNodePins_identity (N : UFlowGraphNode) (w : World) (j : inst_ptr) :
  inst_kind (TryUpdateNodePins N w).1 j = inst_kind w j
  ∧ AddOns_at (TryUpdateNodePins N w).1 j = AddOns_at w j.
Proof.
  unfold TryUpdateNodePins, Cast_UFlowNode, deref_Instance.
  destruct (NodeInstance N) as [i|]; simpl; [|done].
  destruct (NodeInstances w !! i) as [X|] eqn:HX; simpl; [|done].
  destruct (decide (Inst_Class X = Class_FlowNode)); [|done].
  destruct (Inst_IsGarbage X); [done|].
  destruct (negb _); [done|].
  destruct (negb (CheckPinsMatch _ _)), (negb (CheckPinsMatch _ _)); simpl; try done;
    by apply (set_NodeInstance_identity w i X).
Qed.

Lemma NodeInstances_ReconstructNode (This : node_ptr) (w : World) (j : inst_ptr) :
  inst_kind (ReconstructNode T This w) j = inst_kind w j
  ∧ AddOns_at (ReconstructNode T This w) j = AddOns_at w j.
Proof.
  unfold ReconstructNode. destruct (GraphNodes w !! This) as [N|]; [|done].
  destruct (CanReconstructNode w N); simpl; [|done].
  pose proof (TryUpdateAutoDataPins_identity (set_bIsReconstructingNode true N) w j) as H1.
  destruct (TryUpdateAutoDataPins T (set_bIsReconstructingNode true N) w) as [w1 b1].
  pose proof (TryUpdateNodePins_identity (set_bIsReconstructingNode true N) w1 j) as H2.
  destruct (TryUpdateNodePins (set_bIsReconstructingNode true N) w1) as [w2 b2].
  simpl in *.
  destruct (RebuildPinArrays _ _ _) as [[N' h'] rw].
  destruct (_ || _ || _ || _); simpl; unfold inst_kind, AddOns_at in *; simpl;
    split; etrans; (try apply H2); apply H1.
Qed.

Lemma Trace_ReconstructNode (This : node_ptr) (w : World) :
  ∃ t, Trace (ReconstructNode T This w) = Trace w ++ t.
Proof.
  destruct (GraphNodes w !! This) as [N|] eqn:HN.
  - eexists. by apply ReconstructNode_completed_event.
  - exists []. unfold ReconstructNode. rewrite HN. by rewrite app_nil_r.
Qed.

Lemma world_extends_refl (w : World) : world_extends w w.
Proof.
  split; [apply nodes_extend_refl|]. split; [done|]. exists []. by rewrite app_nil_r.
Qed.

Lemma world_extends_trans (w1 w2 w3 : World) :
  world_extends w1 w2 → world_extends w2 w3 → world_extends w1 w3.
Proof.
  intros (Hn1 & Hi1 & t1 & Ht1) (Hn2 & Hi2 & t2 & Ht2). split; [|split].
  - by eapply nodes_extend_trans.
  - intros i. by rewrite Hi2.
  - exists (t1 ++ t2). by rewrite Ht2, Ht1, app_assoc.
Qed.

Lemma ReconstructNode_world_extends (This : node_ptr) (w : World) :
  world_extends w (ReconstructNode T This w).
Proof.
  split; [apply ReconstructNode_nodes_extend|]. split.
  - intros i. apply NodeInstances_ReconstructNode.
  - apply Trace_ReconstructNode.
Qed.

Variable rank : node_ptr → nat.

Lemma nodes_extend_lookup_inv (w w' : World) (m : node_ptr) (M' : UFlowGraphNode) :
  nodes_extend w w' → GraphNodes w' !! m = Some M' →
  ∃ M, GraphNodes w !! m = Some M ∧ same_hierarchy M M'.
Proof.
  intros [He Hn] HM'. destruct (GraphNodes w !! m) as [M|] eqn:HM.
  - destruct (He m M HM) as (M'' & HM'' & Hs). exists M. split; [done|]. congruence.
  - rewrite (Hn m HM) in HM'. done.
Qed.

Lemma SubNodes_ranked_extends (w w' : World) :
  nodes_extend w w' → SubNodes_ranked rank w → SubNodes_ranked rank w'.
Proof.
  intros He Hr m M' s HM' Hs.
  destruct (nodes_extend_lookup_inv w w' m M' He HM') as (M & HM & Hh).
  apply (Hr m M s HM). destruct Hh as (?&?&?&?&HS&?). by rewrite <- HS.
Qed.

Lemma unshared_below_extends (R : nat) (j : inst_ptr) (w w' : World) :
  nodes_extend w w' → unshared_below rank R j w → unshared_below rank R j w'.
Proof.
  intros He Hu m M' HM' Hlt.
  destruct (nodes_extend_lookup_inv w w' m M' He HM') as (M & HM & Hh).
  destruct Hh as (HI&?). rewrite HI. by apply (Hu m M).
Qed.

Lemma unshared_below_mono (R R' : nat) (j : inst_ptr) (w : World) :
  R' ≤ R → unshared_below rank R j w → unshared_below rank R' j w.
Proof. intros Hle Hu m M HM Hlt. apply (Hu m M HM). lia. Qed.

Lemma nodes_in_graph_extends (w w' : World) :
  nodes_extend w w' → nodes_in_graph w → nodes_in_graph w'.
Proof.
  intros He Hg m M' HM'.
  destruct (nodes_extend_lookup_inv w w' m M' He HM') as (M & HM & Hh).
  destruct Hh as (_ & HG & _). rewrite HG. by apply (Hg m M).
Qed.

Lemma MirrorSubNodes_returns (This : node_ptr) (N : UFlowGraphNode) (w : World) :
  is_Some (Graph N) → is_Some (MirrorSubNodes This N w).
Proof.
  intros Hgr. destruct (NodeInstance N) as [i|] eqn:Hi;
    [|unfold MirrorSubNodes; rewrite Hi; by eexists].
  destruct (NodeInstances w !! i) as [X|] eqn:HX;
    [|unfold MirrorSubNodes, deref_Instance; rewrite Hi; simpl; rewrite HX; by eexists].
  destruct (Inst_IsGarbage X) eqn:Hg;
    [unfold MirrorSubNodes, deref_Instance; rewrite Hi; simpl; rewrite HX, Hg; by eexists|].
  destruct (MirrorSubNodes_valid This N w i X Hi HX Hg) as [Hto _].
  rewrite Hto by (by left). by eexists.
Qed.

Lemma MirrorSubNodes_extends (This : node_ptr) (N : UFlowGraphNode) (w w1 : World) :
  MirrorSubNodes This N w = Some w1 →
  world_extends w w1
  ∧ ∀ j, NodeInstance N ≠ Some j → AddOns_at w1 j = AddOns_at w j.
Proof.
  intros Hm. destruct (NodeInstance N) as [i|] eqn:Hi;
    [|unfold MirrorSubNodes in Hm; rewrite Hi in Hm; injection Hm as <-;
      split; [apply world_extends_refl|done]].
  destruct (NodeInstances w !! i) as [X|] eqn:HX;
    [|unfold MirrorSubNodes, deref_Instance in Hm; rewrite Hi in Hm; simpl in Hm;
      rewrite HX in Hm; injection Hm as <-; split; [apply world_extends_refl|done]].
  destruct (Inst_IsGarbage X) eqn:Hg;
    [unfold MirrorSubNodes, deref_Instance in Hm; rewrite Hi in Hm; simpl in Hm;
      rewrite HX, Hg in Hm; injection Hm as <-; split; [apply world_extends_refl|done]|].
  destruct (MirrorSubNodes_valid This N w i X Hi HX Hg) as [_ Hfrom].
  rewrite (Hfrom w1 Hm). split; [split; [|split]|].
  - by apply nodes_extend_eq.
  - intros j. unfold inst_kind. simpl. destruct (decide (i = j)) as [->|Hne].
    + by rewrite lookup_insert_eq, HX.
    + by rewrite lookup_insert_ne.
  - eexists. reflexivity.
  - intros j Hj. unfold AddOns_at. simpl. rewrite lookup_insert_ne; [done|congruence].
Qed.

(** On a forest of sub-nodes that all lie in a graph, the mirror rebuild
    returns as soon as the bound exceeds the rank of the node, and it writes
    the add-on list of no runtime object other than those of the nodes it
    visits. *)
Lemma RebuildRuntimeAddOns_total (fuel : nat) :
  ∀ (m : node_ptr) (w : World),
    SubNodes_ranked rank w → nodes_in_graph w → rank m < fuel →
    ∃ w', RebuildRuntimeAddOnsFromEditorSubNodes T fuel m w = Some w'
          ∧ world_extends w w'
          ∧ ∀ j, unshared_below rank (S (rank m)) j w → AddOns_at w' j = AddOns_at w j.
Proof.
  induction fuel as [|fuel IH]; intros m w Hr Hgr Hlt; [lia|]. simpl.
  destruct (GraphNodes w !! m) as [M|] eqn:HM.
  2:{ exists w. split; [done|]. split; [apply world_extends_refl|done]. }
  destruct (MirrorSubNodes_returns m M w (Hgr m M HM)) as [w1 Hw1]. rewrite Hw1. simpl.
  destruct (MirrorSubNodes_extends m M w w1 Hw1) as [He1 Hf1].
  assert (∀ l v, SubNodes_ranked rank v → nodes_in_graph v →
            (∀ s, Some s ∈ l → rank s < rank m) →
            ∃ w2, foldl (RebuildSubNode (RebuildRuntimeAddOnsFromEditorSubNodes T fuel))
                    (Some v) l = Some w2
                  ∧ world_extends v w2
                  ∧ ∀ j, unshared_below rank (rank m) j v → AddOns_at w2 j = AddOns_at v j)
    as Hfold.
  { induction l as [|s l IHl]; intros v Hr1 Hg1 Hl; simpl.
    - exists v. split; [done|]. split; [apply world_extends_refl|done].
    - assert (∀ s', Some s' ∈ l → rank s' < rank m) as Hl'
        by (intros s' Hs'; apply Hl; by right).
      destruct (IsValid_Node v s); [|by apply IHl].
      destruct s as [s|]; [|by apply IHl].
      assert (rank s < rank m) as Hs by (apply Hl; left).
      destruct (IH s v Hr1 Hg1 ltac:(lia)) as (v' & -> & He & Hf).
      destruct (IHl v') as (w2 & Hw2 & He2 & Hf2); [..|done|].
      { eapply SubNodes_ranked_extends; [apply He|done]. }
      { eapply nodes_in_graph_extends; [apply He|done]. }
      exists w2. split; [done|]. split; [by eapply world_extends_trans|].
      intros j Hj. rewrite Hf2.
      + apply Hf. eapply unshared_below_mono; [|exact Hj]. lia.
      + eapply unshared_below_extends; [apply He|done]. }
  destruct (Hfold (SubNodes M) w1) as (w2 & -> & He2 & Hf2).
  { eapply SubNodes_ranked_extends; [apply He1|done]. }
  { eapply nodes_in_graph_extends; [apply He1|done]. }
  { intros s Hs. by apply (Hr m M s). }
  simpl.
  assert (world_extends w w2) as He by (by eapply world_extends_trans).
  assert (∀ j, unshared_below rank (S (rank m)) j w → AddOns_at w2 j = AddOns_at w j) as Hf.
  { intros j Hj. rewrite Hf2.
    - apply Hf1. apply (Hj m M HM). lia.
    - eapply unshared_below_extends; [apply He1|].
      eapply unshared_below_mono; [|exact Hj]. lia. }
  destruct (_ && _).
  - eexists. split; [done|]. split.
    + eapply world_extends_trans; [exact He|]. by apply ReconstructNode_world_extends.
    + intros j Hj. rewrite <- (Hf j Hj). by apply NodeInstances_ReconstructNode.
  - exists w2. done.
Qed.

(** C7 (amended). On a forest of sub-nodes that all lie in a graph, where
    no node below [n] has the runtime object of [n] as its node instance,
    the mirror rebuild of [n], a node with a valid node instance, returns,
    and the add-on list of that instance then holds the valid add-on
    instances of the sub-nodes, each once, in the order of their first
    occurrence in the sub-node sequence. It has no duplicates, and when the
    valid add-on instances of the sub-nodes are pairwise distinct it is
    exactly their sequence, so that its length is their count. An entry
    that is not a valid node, or whose instance is not a valid add-on,
    contributes nothing; when the node's graph has an asset, it causes one
    diagnostic in the asset's log, and the entries after it are still
    mirrored. *)
Theorem mirror_fidelity (n : node_ptr) (N : UFlowGraphNode) (i : inst_ptr)
    (X : UFlowNodeBase) (w : World) :
  SubNodes_ranked rank w →
  nodes_in_graph w →
  unshared_below rank (rank n) i w →
  GraphNodes w !! n = Some N → NodeInstance N = Some i →
  NodeInstances w !! i = Some X → Inst_IsGarbage X = false →
  let L := omap (SubNodeAddOn w) (SubNodes N) in
  ∃ w' AddOns,
    RebuildRuntimeAddOnsFromEditorSubNodes T (S (rank n)) n w = Some w'
    ∧ AddOns_at w' i = Some AddOns
    ∧ AddOns = foldl AddUnique [] L
    ∧ NoDup AddOns
    ∧ (∀ a, a ∈ AddOns ↔ a ∈ L)
    ∧ sublist AddOns L
    ∧ (NoDup L → AddOns = L ∧ length AddOns = length L)
    ∧ (HasFlowAsset N = true →
       ∃ rest, Trace w' = Trace w ++ omap (SubNodeDiagnostic w n) (SubNodes N) ++ rest).
Proof.
  intros Hr Hgr Hu HN Hi HX Hg L. simpl. rewrite HN.
  destruct (MirrorSubNodes_valid n N w i X Hi HX Hg) as [Hm _]. fold L in Hm.
  rewrite Hm by (left; by apply (Hgr n N)). simpl.
  set (w1 := set_NodeInstance i _ _) in *.
  destruct (MirrorSubNodes_extends n N w w1 (Hm (or_introl (Hgr n N HN)))) as [He1 _].
  assert (∃ w2, foldl (RebuildSubNode (RebuildRuntimeAddOnsFromEditorSubNodes T (rank n)))
                  (Some w1) (SubNodes N) = Some w2
                ∧ world_extends w1 w2 ∧ AddOns_at w2 i = AddOns_at w1 i)
    as (w2 & -> & He2 & Hf2).
  { assert (∀ l w1, SubNodes_ranked rank w1 → nodes_in_graph w1 →
              unshared_below rank (rank n) i w1 →
              (∀ s, Some s ∈ l → rank s < rank n) →
              ∃ w2, foldl (RebuildSubNode (RebuildRuntimeAddOnsFromEditorSubNodes T (rank n)))
                      (Some w1) l = Some w2
                    ∧ world_extends w1 w2 ∧ AddOns_at w2 i = AddOns_at w1 i) as Hfold.
    { induction l as [|s l IHl]; intros v Hr1 Hg1 Hu1 Hl; simpl.
      - exists v. split; [done|]. split; [apply world_extends_refl|done].
      - assert (∀ s', Some s' ∈ l → rank s' < rank n) as Hl'
          by (intros s' Hs'; apply Hl; by right).
        destruct (IsValid_Node v s); [|by apply IHl].
        destruct s as [s|]; [|by apply IHl].
        assert (rank s < rank n) as Hs by (apply Hl; left).
        destruct (RebuildRuntimeAddOns_total (rank n) s v Hr1 Hg1 Hs) as (v' & -> & He & Hf).
        destruct (IHl v') as (v2 & Hv2 & He2 & Hf2); [..|done|].
        { eapply SubNodes_ranked_extends; [apply He|done]. }
        { eapply nodes_in_graph_extends; [apply He|done]. }
        { eapply unshared_below_extends; [apply He|done]. }
        exists v2. split; [done|]. split; [by eapply world_extends_trans|].
        rewrite Hf2. apply Hf. eapply unshared_below_mono; [|exact Hu1]. lia. }
    apply Hfold.
    - eapply SubNodes_ranked_extends; [apply He1|done].
    - eapply nodes_in_graph_extends; [apply He1|done].
    - eapply unshared_below_extends; [apply He1|done].
    - intros s Hs. by apply (Hr n N s). }
  simpl.
  assert (AddOns_at w2 i = Some (foldl AddUnique [] L)) as Ha.
  { rewrite Hf2. unfold AddOns_at, w1. simpl. by rewrite lookup_insert_eq. }
  assert (∃ t, Trace w2 = Trace w1 ++ t) as [t2 Ht2] by apply He2.
  assert (HasFlowAsset N = true →
          Trace w1 = Trace w ++ omap (SubNodeDiagnostic w n) (SubNodes N)) as Ht1.
  { intros Hfa. unfold w1. simpl. by rewrite Hfa. }
  destruct (AddUnique_fold_app [] L) as (r & Hr' & Hsub & Hel & Hnd).
  simpl in Hr'.
  assert (∃ w', (if IsValid_Instance w2 (NodeInstance N)
                    && bool_decide (Inst_Class <$> deref_Instance w2 (NodeInstance N)
                                    = Some Class_FlowNode)
                 then Some (ReconstructNode T n w2) else Some w2) = Some w'
                ∧ AddOns_at w' i = Some (foldl AddUnique [] L)
                ∧ ∃ t, Trace w' = Trace w2 ++ t) as (w' & -> & Ha' & t3 & Ht3).
  { destruct (_ && _).
    - eexists. split; [done|]. split.
      + rewrite <- Ha. by apply NodeInstances_ReconstructNode.
      + apply Trace_ReconstructNode.
    - exists w2. split; [done|]. split; [done|]. exists []. by rewrite app_nil_r. }
  exists w', (foldl AddUnique [] L). split; [done|]. split; [done|]. split; [done|].
  rewrite Hr'. split; [|split; [|split; [|split]]].
  - apply (Hnd (NoDup_nil_2)).
  - intros a. rewrite Hel, elem_of_nil. tauto.
  - done.
  - intros HL. rewrite <- Hr'. rewrite (AddUnique_fold_NoDup_input [] L HL). done.
  - intros Hfa. exists (t2 ++ t3). rewrite Ht3, Ht2, (Ht1 Hfa). by rewrite <- !app_assoc.
Qed.

End Mirror.

Lemma NoManagedPins_keeps_identity : refresh_keeps_identity NoManagedPins.
Proof. intros X X' H. discriminate H. Qed.

Lemma ex_mirror_world_ranked (Subs : list (option node_ptr)) :
  (∀ s, Some s ∈ Subs → s ≠ 0) → SubNodes_ranked ex_rank (ex_mirror_world Subs).
Proof.
  intros HS m M s HM Hs. simpl in HM.
  apply lookup_insert_Some in HM as [[<- <-]|[Hne HM]]; [by apply elem_of_nil in Hs|].
  apply lookup_insert_Some in HM as [[<- <-]|[Hne' HM]]; [by apply elem_of_nil in Hs|].
  apply lookup_singleton_Some in HM as [<- <-].
  simpl in Hs. specialize (HS s Hs). destruct s; [done|]. simpl. lia.
Qed.

Lemma ex_mirror_world_unshared (Subs : list (option node_ptr)) :
  unshared_below ex_rank (ex_rank 0) 0 (ex_mirror_world Subs).
Proof.
  intros m M HM Hlt. simpl in HM.
  apply lookup_insert_Some in HM as [[<- <-]|[Hne HM]]; [done|].
  apply lookup_insert_Some in HM as [[<- <-]|[Hne' HM]]; [done|].
  apply lookup_singleton_Some in HM as [<- <-]. simpl in Hlt. lia.
Qed.

Lemma ex_mirror_world_in_graph (Subs : list (option node_ptr)) :
  nodes_in_graph (ex_mirror_world Subs).
Proof.
  intros m M HM. simpl in HM.
  apply lookup_insert_Some in HM as [[<- <-]|[Hne HM]]; [by eexists|].
  apply lookup_insert_Some in HM as [[<- <-]|[Hne' HM]]; [by eexists|].
  apply lookup_singleton_Some in HM as [<- <-]. by eexists.
Qed.

Lemma mirror_fidelity_witness :
  let w := ex_mirror_world [Some 1; None; Some 2] in
  let L := omap (SubNodeAddOn w) [Some 1; None; Some 2] in
  ∃ w' AddOns,
    RebuildRuntimeAddOnsFromEditorSubNodes NoManagedPins 2 0 w = Some w'
    ∧ AddOns_at w' 0 = Some AddOns
    ∧ AddOns = foldl AddUnique [] L
    ∧ NoDup AddOns
    ∧ (∀ a, a ∈ AddOns ↔ a ∈ L)
    ∧ sublist AddOns L
    ∧ (NoDup L → AddOns = L ∧ length AddOns = length L)
    ∧ (HasFlowAsset (ex_mirror_parent [Some 1; None; Some 2]) = true →
       ∃ rest, Trace w' = Trace w ++ omap (SubNodeDiagnostic w 0) [Some 1; None; Some 2] ++ rest).
Proof.
  apply (mirror_fidelity NoManagedPins NoManagedPins_keeps_identity ex_rank 0
           (ex_mirror_parent [Some 1; None; Some 2]) 0 (ex_flow_node [] [])
           (ex_mirror_world [Some 1; None; Some 2])).
  - apply ex_mirror_world_ranked. intros s Hs.
    apply elem_of_cons in Hs as [[= ->]|Hs]; [done|].
    apply elem_of_cons in Hs as [[=]|Hs].
    apply elem_of_cons in Hs as [[= ->]|Hs]; [done|].
    by apply elem_of_nil in Hs.
  - apply ex_mirror_world_in_graph.
  - apply ex_mirror_world_unshared.
  - reflexivity.
  - reflexivity.
  - reflexivity.
  - reflexivity.
Defined.

(** C7, as stated, fails in its count when two sub-nodes refer to the same
    add-on instance: both sub-nodes have a valid add-on instance, and the
    mirror, which adds each instance once, has one entry. *)
Lemma mirror_collapses_shared_addon :
  length (omap (SubNodeAddOn (ex_mirror_world [Some 1; None; Some 2]))
            [Some 1; None; Some 2]) = 2
  ∧ (RebuildRuntimeAddOnsFromEditorSubNodes NoManagedPins 2 0
       (ex_mirror_world [Some 1; None; Some 2]) ≫= λ w', AddOns_at w' 0) = Some [1].
Proof. split; vm_compute; reflexivity. Qed.

(** ** Allocation of the new pins *)

Lemma set_PinArrays_id (N : UFlowGraphNode) :
  set_PinArrays (Pins N) (InputPins N) (OutputPins N) N = N.
Proof. by destruct N. Qed.

Lemma alloc_list_app (pins pins' : list UEdGraphPin) (h : PinHeap) :
  alloc_list (pins ++ pins') h = alloc_list pins' (alloc_list pins h).
Proof. unfold alloc_list. by rewrite foldl_app. Qed.

Lemma alloc_list_spec (pins : list UEdGraphPin) (h : PinHeap) :
  heap_next (alloc_list pins h) = heap_next h + length pins
  ∧ (∀ p, p < heap_next h → heap_pins (alloc_list pins h) !! p = heap_pins h !! p)
  ∧ (∀ j r, pins !! j = Some r → heap_pins (alloc_list pins h) !! (heap_next h + j) = Some r).
Proof.
  revert h. induction pins as [|r0 pins IH]; intros h.
  - simpl. split; [lia|]. split; [done|]. intros j r Hj. done.
  - change (alloc_list (r0 :: pins) h) with (alloc_list pins (heap_alloc r0 h).1).
    destruct (IH (heap_alloc r0 h).1) as (Hn & Hold & Hnew). simpl in *.
    split; [lia|]. split.
    + intros p Hp. rewrite Hold by lia. apply lookup_insert_ne. lia.
    + intros [|j] r Hj; simpl in Hj.
      * injection Hj as <-. rewrite Nat.add_0_r, Hold by lia. apply lookup_insert_eq.
      * replace (heap_next h + S j) with (S (heap_next h) + j) by lia. by apply Hnew.
Qed.

Lemma CreateInputPin_valid (FlowPin : FFlowPin) (N : UFlowGraphNode) (h : PinHeap) :
  FlowPin_IsValid FlowPin = true →
  CreateInputPin FlowPin None (N, h) =
    (set_PinArrays (Pins N ++ [heap_next h]) (InputPins N ++ [heap_next h]) (OutputPins N) N,
     (heap_alloc (fresh_pin EGPD_Input FlowPin) h).1).
Proof.
  unfold FlowPin_IsValid, CreateInputPin. intros Hv. apply negb_true_iff in Hv. rewrite Hv.
  simpl. unfold heap_alter, fresh_pin. simpl. by rewrite alter_insert_eq.
Qed.

Lemma CreateOutputPin_valid (FlowPin : FFlowPin) (N : UFlowGraphNode) (h : PinHeap) :
  FlowPin_IsValid FlowPin = true →
  CreateOutputPin FlowPin None (N, h) =
    (set_PinArrays (Pins N ++ [heap_next h]) (InputPins N) (OutputPins N ++ [heap_next h]) N,
     (heap_alloc (fresh_pin EGPD_Output FlowPin) h).1).
Proof.
  unfold FlowPin_IsValid, CreateOutputPin. intros Hv. apply negb_true_iff in Hv. rewrite Hv.
  simpl. unfold heap_alter, fresh_pin. simpl. by rewrite alter_insert_eq.
Qed.

Lemma CreateInputPin_invalid (FlowPin : FFlowPin) (st : UFlowGraphNode * PinHeap) :
  FlowPin_IsValid FlowPin = false → CreateInputPin FlowPin None st = st.
Proof.
  unfold FlowPin_IsValid, CreateInputPin. intros Hv. apply negb_false_iff in Hv. by rewrite Hv.
Qed.

Lemma CreateOutputPin_invalid (FlowPin : FFlowPin) (st : UFlowGraphNode * PinHeap) :
  FlowPin_IsValid FlowPin = false → CreateOutputPin FlowPin None st = st.
Proof.
  unfold FlowPin_IsValid, CreateOutputPin. intros Hv. apply negb_false_iff in Hv. by rewrite Hv.
Qed.

Lemma CreateInputPins_fold (l : list FFlowPin) (N : UFlowGraphNode) (h : PinHeap) :
  let valid := filter (λ p, FlowPin_IsValid p) l in
  foldl (λ st InputPin, CreateInputPin InputPin None st) (N, h) l =
    (set_PinArrays (Pins N ++ seq (heap_next h) (length valid))
                   (InputPins N ++ seq (heap_next h) (length valid)) (OutputPins N) N,
     alloc_list (fresh_pin EGPD_Input <$> valid) h).
Proof.
  revert N h. induction l as [|fp l IH]; intros N h; cbn [foldl].
  - simpl. rewrite !app_nil_r. by rewrite set_PinArrays_id.
  - rewrite filter_cons. destruct (FlowPin_IsValid fp) eqn:Hv.
    + rewrite decide_True by done. rewrite CreateInputPin_valid by done.
      rewrite IH. simpl. rewrite <- !app_assoc. reflexivity.
    + rewrite decide_False by (intros []). rewrite CreateInputPin_invalid by done.
      apply IH.
Qed.

Lemma CreateOutputPins_fold (l : list FFlowPin) (N : UFlowGraphNode) (h : PinHeap) :
  let valid := filter (λ p, FlowPin_IsValid p) l in
  foldl (λ st OutputPin, CreateOutputPin OutputPin None st) (N, h) l =
    (set_PinArrays (Pins N ++ seq (heap_next h) (length valid)) (InputPins N)
                   (OutputPins N ++ seq (heap_next h) (length valid)) N,
     alloc_list (fresh_pin EGPD_Output <$> valid) h).
Proof.
  revert N h. induction l as [|fp l IH]; intros N h; cbn [foldl].
  - simpl. rewrite !app_nil_r. by rewrite set_PinArrays_id.
  - rewrite filter_cons. destruct (FlowPin_IsValid fp) eqn:Hv.
    + rewrite decide_True by done. rewrite CreateOutputPin_valid by done.
      rewrite IH. simpl. rewrite <- !app_assoc. reflexivity.
    + rewrite decide_False by (intros []). rewrite CreateOutputPin_invalid by done.
      apply IH.
Qed.

(** [AllocateDefaultPins] on emptied pin arrays: the new pins take the next
    free addresses, inputs first. *)
Lemma AllocateDefaultPins_flow_node (X : UFlowNodeBase) (N : UFlowGraphNode) (h : PinHeap) :
  let ins := filter (λ p, FlowPin_IsValid p) (Inst_InputPins X) in
  let outs := filter (λ p, FlowPin_IsValid p) (Inst_OutputPins X) in
  AllocateDefaultPins (Some X) (set_PinArrays [] [] [] N, h) =
    (set_PinArrays (seq (heap_next h) (length (declared_pins X)))
                   (seq (heap_next h) (length ins))
                   (seq (heap_next h + length ins) (length outs)) N,
     alloc_list (declared_pins X) h).
Proof.
  intros ins outs. unfold AllocateDefaultPins. rewrite CreateInputPins_fold. fold ins.
  rewrite CreateOutputPins_fold. fold outs. simpl.
  destruct (alloc_list_spec (fresh_pin EGPD_Input <$> ins) h) as (Hn & _).
  rewrite Hn, length_fmap. unfold declared_pins. fold ins outs.
  rewrite alloc_list_app, length_app, !length_fmap, seq_app. done.
Qed.

(** ** The engine operations on the pin heap *)

Lemma lookup_heap_alter (f : UEdGraphPin → UEdGraphPin) (p x : pin_ptr) (h : PinHeap) :
  heap_pins (heap_alter f p h) !! x
  = if decide (p = x) then f <$> heap_pins h !! x else heap_pins h !! x.
Proof.
  unfold heap_alter. simpl. destruct (decide (p = x)) as [->|Hne].
  - apply lookup_alter_eq.
  - by apply lookup_alter_ne.
Qed.

Lemma set_LinkedTo_id (g : list pin_ptr → list pin_ptr) (o : option UEdGraphPin) :
  (∀ l, g l = l) → set_LinkedTo g <$> o = o.
Proof. intros Hg. destruct o as [[]|]; simpl; [|done]. unfold set_LinkedTo. simpl. by rewrite Hg. Qed.

Lemma set_LinkedTo_ext (g g' : list pin_ptr → list pin_ptr) (o : option UEdGraphPin) :
  (∀ l, g l = g' l) → set_LinkedTo g <$> o = set_LinkedTo g' <$> o.
Proof. intros Hg. destruct o as [[]|]; simpl; [|done]. unfold set_LinkedTo. simpl. by rewrite Hg. Qed.

Lemma set_LinkedTo_compose (g g' : list pin_ptr → list pin_ptr) (o : option UEdGraphPin) :
  set_LinkedTo g <$> (set_LinkedTo g' <$> o) = set_LinkedTo (g ∘ g') <$> o.
Proof. by destruct o. Qed.

Lemma elem_of_Insert {A : Type} (x y : A) (i : nat) (l : list A) :
  y ∈ Insert x i l ↔ y = x ∨ y ∈ l.
Proof.
  unfold Insert. rewrite <- (take_drop i l) at 3.
  rewrite !elem_of_app, elem_of_cons. tauto.
Qed.

Lemma elem_of_Remove (x y : pin_ptr) (l : list pin_ptr) :
  y ∈ Remove x l ↔ y ≠ x ∧ y ∈ l.
Proof. unfold Remove. by rewrite list_elem_of_filter. Qed.

Lemma Remove_notin (x : pin_ptr) (l : list pin_ptr) : x ∉ l → Remove x l = l.
Proof.
  intros Hx. unfold Remove. induction l as [|y l IH]; [done|].
  rewrite filter_cons. apply not_elem_of_cons in Hx as [Hne Hx].
  rewrite decide_True by done. by rewrite IH.
Qed.

(** [MovePersistentDataFromOldPin], link by link. *)
Lemma MoveLinks_lookup (NewPin OldPin : pin_ptr) (L : list pin_ptr) :
  ∀ h, NewPin ∉ L →
    heap_next (foldl (MoveLink NewPin OldPin) h L) = heap_next h
    ∧ heap_pins (foldl (MoveLink NewPin OldPin) h L) !! NewPin
      = set_LinkedTo (λ l, l ++ L) <$> heap_pins h !! NewPin
    ∧ ∀ x, x ≠ NewPin →
        ∃ g, heap_pins (foldl (MoveLink NewPin OldPin) h L) !! x
             = set_LinkedTo g <$> heap_pins h !! x
             ∧ (∀ l y, y ∈ g l ↔ (x ∈ L ∧ y = NewPin) ∨ y ∈ l)
             ∧ (x ∉ L → ∀ l, g l = l).
Proof.
  induction L as [|q L IH]; intros h HN.
  - simpl. split; [done|]. split.
    + symmetry. apply set_LinkedTo_id. intros l. apply app_nil_r.
    + intros x Hx. exists id. split; [symmetry; by apply set_LinkedTo_id|].
      split; [|done]. intros l y. rewrite elem_of_nil. unfold id. tauto.
  - apply not_elem_of_cons in HN as [Hq HN]. cbn [foldl].
    destruct (IH (MoveLink NewPin OldPin h q) HN) as (Hn & HNew & Hx).
    split; [by rewrite Hn|]. split.
    + rewrite HNew. unfold MoveLink. rewrite !lookup_heap_alter.
      rewrite decide_False by done. rewrite decide_True by done.
      rewrite set_LinkedTo_compose. apply set_LinkedTo_ext. intros l. simpl.
      by rewrite <- app_assoc.
    + intros x Hne. destruct (Hx x Hne) as (g & Hg & Hmem & Hid).
      unfold MoveLink in Hg. rewrite !lookup_heap_alter in Hg.
      rewrite (decide_False (P := NewPin = x)) in Hg by done.
      destruct (decide (q = x)) as [->|Hqx].
      * rewrite set_LinkedTo_compose in Hg. eexists. split; [exact Hg|]. split.
        -- intros l y. simpl. rewrite Hmem. rewrite elem_of_cons.
           destruct (Find OldPin l); rewrite ?elem_of_Insert, ?elem_of_app,
             ?list_elem_of_singleton; tauto.
        -- intros Hnot. exfalso. apply Hnot. left.
      * exists g. split; [done|]. split.
        -- intros l y. rewrite Hmem, elem_of_cons. split; [tauto|].
           intros [[[->|?] ?]|?]; [done|tauto|tauto].
        -- intros Hnot. apply Hid. intros ?. apply Hnot. by right.
Qed.

Lemma filter_Remove (M : list pin_ptr) (q : pin_ptr) (l : list pin_ptr) :
  filter (λ y, y ∉ M) (Remove q l) = filter (λ y, y ∉ q :: M) l.
Proof.
  unfold Remove. induction l as [|y l IH]; [done|].
  rewrite !filter_cons. destruct (decide (y = q)) as [->|Hne].
  - rewrite decide_False by (intros H; by apply H).
    rewrite decide_False by (intros H; apply H; left). done.
  - rewrite decide_True by done. rewrite filter_cons.
    destruct (decide (y ∈ M)) as [Hin|Hnin].
    + rewrite decide_False by (intros H; by apply H).
      rewrite decide_False by (intros H; apply H; by right). done.
    + rewrite decide_True by done.
      rewrite decide_True by (intros [?|?]%elem_of_cons; done). by rewrite IH.
Qed.

(** [BreakAllPinLinks], link by link. *)
Lemma BreakLinks_lookup (This : pin_ptr) (M : list pin_ptr) :
  ∀ h, This ∉ M →
    heap_next (foldl (BreakLinkTo This) h M) = heap_next h
    ∧ heap_pins (foldl (BreakLinkTo This) h M) !! This
      = set_LinkedTo (λ l, filter (λ y, y ∉ M) l) <$> heap_pins h !! This
    ∧ ∀ x, x ≠ This →
        ∃ g, heap_pins (foldl (BreakLinkTo This) h M) !! x
             = set_LinkedTo g <$> heap_pins h !! x
             ∧ (∀ l y, y ≠ This → (y ∈ g l ↔ y ∈ l))
             ∧ (∀ l y, y ∈ g l → y ∈ l)
             ∧ (x ∉ M → ∀ l, g l = l).
Proof.
  induction M as [|q M IH]; intros h HN.
  - simpl. split; [done|]. split.
    + symmetry. apply set_LinkedTo_id. intros l.
      induction l as [|y l IHl]; [done|]. rewrite filter_cons.
      rewrite decide_True by apply not_elem_of_nil. by rewrite IHl.
    + intros x Hx. exists id. split; [symmetry; by apply set_LinkedTo_id|]. done.
  - apply not_elem_of_cons in HN as [Hq HN]. cbn [foldl].
    destruct (IH (BreakLinkTo This h q) HN) as (Hn & HThis & Hx).
    assert (heap_next (BreakLinkTo This h q) = heap_next h
            ∧ heap_pins (BreakLinkTo This h q) !! This
              = set_LinkedTo (Remove q) <$> heap_pins h !! This
            ∧ ∀ x, x ≠ This →
                ∃ g, heap_pins (BreakLinkTo This h q) !! x
                     = set_LinkedTo g <$> heap_pins h !! x
                     ∧ (∀ l y, y ≠ This → (y ∈ g l ↔ y ∈ l))
                     ∧ (∀ l y, y ∈ g l → y ∈ l)
                     ∧ (x ≠ q → ∀ l, g l = l)) as (Hn1 & HThis1 & Hx1).
    { unfold BreakLinkTo. destruct (heap_pins h !! This) as [this|] eqn:Hthis.
      - destruct (decide (q ∈ LinkedTo this)) as [Hin|Hnin].
        + split; [done|]. split.
          * rewrite !lookup_heap_alter. rewrite decide_False by done.
            rewrite decide_True by done. by rewrite Hthis.
          * intros x Hne. rewrite !lookup_heap_alter.
            rewrite (decide_False (P := This = x)) by done.
            destruct (decide (q = x)) as [->|Hqx].
            -- exists (Remove This). split; [done|]. split; [|split].
               ++ intros l y Hy. rewrite elem_of_Remove. tauto.
               ++ intros l y. rewrite elem_of_Remove. tauto.
               ++ done.
            -- exists id. split; [symmetry; by apply set_LinkedTo_id|]. done.
        + split; [done|]. split.
          * rewrite Hthis. simpl. f_equal. destruct this. unfold set_LinkedTo. simpl in *.
            by rewrite Remove_notin.
          * intros x Hne. exists id. split; [symmetry; by apply set_LinkedTo_id|]. done.
      - split; [done|]. split; [by rewrite Hthis|].
        intros x Hne. exists id. split; [symmetry; by apply set_LinkedTo_id|]. done. }
    split; [by rewrite Hn|]. split.
    + rewrite HThis, HThis1, set_LinkedTo_compose. apply set_LinkedTo_ext.
      intros l. simpl. apply filter_Remove.
    + intros x Hne. destruct (Hx x Hne) as (g & Hg & Hm & Hs & Hid).
      destruct (Hx1 x Hne) as (g1 & Hg1 & Hm1 & Hs1 & Hid1).
      exists (g ∘ g1). rewrite Hg, Hg1, set_LinkedTo_compose. split; [done|].
      split; [|split].
      * intros l y Hy. simpl. by rewrite Hm, Hm1.
      * intros l y Hy. simpl in Hy. by apply Hs1, Hs.
      * intros Hnot l. apply not_elem_of_cons in Hnot as [? ?]. simpl.
        rewrite Hid1 by done. by apply Hid.
Qed.

(** ** The rewire pass *)

Lemma FindNewPin_Some (h : PinHeap) (NewPins : list pin_ptr) (M : list bool) (Name : FName) :
  ∀ count start j,
    FindNewPin h NewPins M Name start count = Some j →
    M !! j = Some false ∧ pin_name h <$> NewPins !! j = Some Name.
Proof.
  induction count as [|count IH]; intros start j Hf; simpl in Hf; [done|].
  destruct (negb (default true (M !! start))
            && bool_decide (pin_name h <$> NewPins !! start = Some Name)) eqn:Hc.
  - injection Hf as <-. apply andb_true_iff in Hc as [Hm Hn].
    apply bool_decide_eq_true in Hn. split; [|done].
    destruct (M !! start) as [[]|]; simpl in Hm; done.
  - by eapply IH.
Qed.

Lemma FindNewPin_scan (h : PinHeap) (NewPins : list pin_ptr) (M : list bool) (Name : FName) :
  ∀ count start t,
    t < count →
    good_new_pin h NewPins M Name ((start + t) `mod` length NewPins) = true →
    start < length NewPins →
    is_Some (FindNewPin h NewPins M Name start count).
Proof.
  induction count as [|count IH]; intros start t Ht Hgood Hs; [lia|].
  simpl. fold (good_new_pin h NewPins M Name start).
  destruct (good_new_pin h NewPins M Name start) eqn:Hg; [by eexists|].
  destruct t as [|t].
  - rewrite Nat.add_0_r, Nat.mod_small in Hgood by done. congruence.
  - apply (IH _ t); [lia| |apply Nat.mod_upper_bound; lia].
    rewrite Nat.Div0.add_mod_idemp_l.
    by replace (start + 1 + t) with (start + S t) by lia.
Qed.

Lemma FindNewPin_complete (h : PinHeap) (NewPins : list pin_ptr) (M : list bool) (Name : FName)
    (start j : nat) :
  start < length NewPins → j < length NewPins →
  good_new_pin h NewPins M Name j = true →
  is_Some (FindNewPin h NewPins M Name start (length NewPins)).
Proof.
  intros Hs Hj Hg.
  destruct (decide (start ≤ j)) as [Hle|Hgt].
  - apply (FindNewPin_scan _ _ _ _ _ _ (j - start)); [lia| |done].
    replace (start + (j - start)) with j by lia. by rewrite Nat.mod_small.
  - apply (FindNewPin_scan _ _ _ _ _ _ (j + length NewPins - start)); [lia| |done].
    replace (start + (j + length NewPins - start)) with (j + 1 * length NewPins) by lia.
    by rewrite Nat.Div0.mod_add, Nat.mod_small.
Qed.

Lemma ShouldKeepOrphan_matched (b : bool) (N : UFlowGraphNode) (r : UEdGraphPin) :
  ShouldKeepOrphan b N true r = false.
Proof.
  unfold ShouldKeepOrphan. simpl.
  by rewrite !andb_false_r.
Qed.

Lemma filter_ext_elem {A : Type} (P Q : A → Prop) `{!∀ x, Decision (P x)}
    `{!∀ x, Decision (Q x)} (l : list A) :
  (∀ x, x ∈ l → (P x ↔ Q x)) → filter P l = filter Q l.
Proof.
  induction l as [|x l IH]; intros Hext; [done|].
  rewrite !filter_cons. rewrite IH by (intros y Hy; apply Hext; by right).
  destruct (decide (P x)) as [HP|HP].
  - rewrite decide_True; [done|]. apply Hext; [left|done].
  - rewrite decide_False; [done|]. intros HQ. apply HP, Hext; [left|done].
Qed.

Section Rewire.

Variables (b : bool) (N1 : UFlowGraphNode) (old : list pin_ptr) (h0 : PinHeap)
          (D : list UEdGraphPin).

Hypothesis Hold_nodup : NoDup old.
Hypothesis Hbounded : ∀ p r, heap_pins h0 !! p = Some r → p < heap_next h0.
Hypothesis Hold_wf : ∀ p, p ∈ old →
  ∃ r, heap_pins h0 !! p = Some r
       ∧ ∀ q, q ∈ LinkedTo r → (q ∉ old) ∧ is_Some (heap_pins h0 !! q).
Hypothesis HD_fresh : ∀ d, d ∈ D → LinkedTo d = [].
Hypothesis HPins : Pins N1 = seq (heap_next h0) (length D).

Lemma old_below_next (o : pin_ptr) : o ∈ old → o < heap_next h0.
Proof. intros Ho. destruct (Hold_wf o Ho) as (r & Hr & _). by eapply Hbounded. Qed.

Lemma rewire_inv_init :
  RewireInv b N1 old h0 D (length old)
    (mkRewire (alloc_list D h0) old (replicate (length (Pins N1)) false) [] []).
Proof.
  destruct (alloc_list_spec D h0) as (Hn & Hlow & Hnew).
  constructor;
    cbn [rw_heap rw_InOldPins rw_NewPinMatched rw_OrphanedOldPins rw_MatchedPins].
  - rewrite firstn_all, drop_all. simpl. by rewrite app_nil_r.
  - done.
  - intros o Ho. destruct (Hold_wf o Ho) as (r & Hr & _). exists r. split; [done|].
    rewrite decide_False by apply not_elem_of_nil. rewrite Hlow; [done|by eapply Hbounded].
  - by rewrite length_replicate, HPins, length_seq.
  - intros j d Hd _. by apply Hnew.
  - intros O Np H. by apply elem_of_nil in H.
  - intros o. rewrite elem_of_nil, drop_all, elem_of_nil. tauto.
  - intros q r Hq Hr. exists r. rewrite Hlow by (by eapply Hbounded).
    split; [done|]. split; [done|]. split; [done|].
    intros O Np r0 H. by apply elem_of_nil in H.
  - intros j d Hd. exists d. split; [by apply Hnew|done].
  - by rewrite drop_all.
  - intros j Hj. apply lookup_replicate in Hj as [? _]. done.
  - intros o r0 j d Ho. rewrite drop_all in Ho. by apply elem_of_nil in Ho.
Qed.


(** What the loop meets at index [i]. *)
Lemma rewire_at_index (i : nat) (st : RewireState) :
  i < length old → RewireInv b N1 old h0 D (S i) st →
  ∃ o r0, old !! i = Some o ∧ rw_InOldPins st !! i = Some o
          ∧ take (S i) old = take i old ++ [o] ∧ drop i old = o :: drop (S i) old
          ∧ (o ∉ drop (S i) old) ∧ (o ∉ rw_OrphanedOldPins st)
          ∧ (o ∉ (rw_MatchedPins st).*1)
          ∧ heap_pins h0 !! o = Some r0 ∧ heap_pins (rw_heap st) !! o = Some r0
          ∧ o < heap_next h0
          ∧ ∀ q, q ∈ LinkedTo r0 → (q ∉ old) ∧ q < heap_next h0.
Proof.
  intros Hi Hinv. destruct (lookup_lt_is_Some_2 old i Hi) as [o Ho].
  assert (o ∈ old) as Hin by (by eapply list_elem_of_lookup_2).
  assert (take (S i) old = take i old ++ [o]) as Ht by (by apply take_S_r).
  assert (drop i old = o :: drop (S i) old) as Hd by (by apply drop_S).
  assert (o ∉ drop (S i) old) as Hnd.
  { pose proof Hold_nodup as Hnd. rewrite <- (take_drop i old), Hd in Hnd.
    apply NoDup_app in Hnd as (_ & _ & Hnd). by apply NoDup_cons in Hnd as [? _]. }
  assert (o ∉ rw_OrphanedOldPins st) as Hno.
  { intros Hc. apply (inv_orphans _ _ _ _ _ _ _ Hinv) in Hc as [Hc _]. done. }
  assert (o ∉ (rw_MatchedPins st).*1) as Hnm.
  { intros Hc. apply list_elem_of_fmap in Hc as ([O Np] & -> & Hc).
    destruct (inv_matched _ _ _ _ _ _ _ Hinv O Np Hc) as (j & d & r & _ & _ & _ & HO & _).
    done. }
  destruct (inv_old _ _ _ _ _ _ _ Hinv o Hin) as (r0 & Hr0 & Hr).
  rewrite decide_False in Hr by done.
  exists o, r0. split; [done|]. split.
  { rewrite (inv_InOldPins _ _ _ _ _ _ _ Hinv), Ht.
    rewrite lookup_app_l by (rewrite length_app, length_take; simpl; lia).
    rewrite lookup_app_r by (rewrite length_take; lia).
    rewrite length_take. by replace (i - i `min` length old) with 0 by lia. }
  do 8 (split; [done || by eapply Hbounded|]).
  intros q Hq. destruct (Hold_wf o Hin) as (r & Hr' & Hl).
  rewrite Hr0 in Hr'. injection Hr' as <-. destruct (Hl q Hq) as [? [rq Hrq]].
  split; [done|]. by eapply Hbounded.
Qed.


Lemma rewire_step_inv (i : nat) (st : RewireState) :
  i < length old → RewireInv b N1 old h0 D (S i) st →
  RewireInv b N1 old h0 D i (RewireStep b N1 i st).
Proof.
  intros Hi Hinv.
  destruct (rewire_at_index i st Hi Hinv)
    as (o & r0 & Ho & HIn & Ht & Hd & Hnd & Hno & Hnm & Hr0 & Hr & Hlt & Hlinks).
  assert (o ∈ old) as Hoin by (by eapply list_elem_of_lookup_2).
  pose proof Hinv as [Ia Ib Ic Id Ie1 Ie2 If Ig Ie0 Io Icl Ico].
  unfold RewireStep. rewrite HIn.
  assert (pin_name (rw_heap st) o = PinName r0) as Hname
    by (unfold pin_name; by rewrite Hr).
  rewrite Hname.
  set (Start := if decide (length (Pins N1) = 0) then 0 else i `mod` length (Pins N1)).
  destruct (FindNewPin (rw_heap st) (Pins N1) (rw_NewPinMatched st) (PinName r0) Start
              (length (Pins N1))) as [j|] eqn:Hfind.
  - (* a new pin of the same name is still free *)
    destruct (FindNewPin_Some _ _ _ _ _ _ _ Hfind) as [Hm Hn].
    rewrite HPins in Hn.
    destruct (seq (heap_next h0) (length D) !! j) as [Np|] eqn:HNp; [|done].
    apply lookup_seq in HNp as [-> Hj].
    destruct (lookup_lt_is_Some_2 D j Hj) as [d Hdj].
    pose proof (Ie1 j d Hdj Hm) as HdNp.
    assert (PinName d = PinName r0) as Hdname.
    { simpl in Hn. unfold pin_name in Hn. rewrite HdNp in Hn. simpl in Hn. congruence. }
    simpl. rewrite HPins, (lookup_seq_lt _ _ _ Hj).
    set (Np := heap_next h0 + j) in *.
    assert (Np ∉ LinkedTo r0) as HNpL.
    { intros Hc. apply Hlinks in Hc as [_ Hc]. unfold Np in Hc. lia. }
    unfold ReconstructSinglePin, MovePersistentDataFromOldPin. rewrite Hr.
    destruct (MoveLinks_lookup Np o (LinkedTo r0) (rw_heap st) HNpL) as (Mn & MNew & Mx).
    set (h' := foldl (MoveLink Np o) (rw_heap st) (LinkedTo r0)) in *.
    assert (∀ x, x ≠ Np → x ∉ LinkedTo r0 → heap_pins h' !! x = heap_pins (rw_heap st) !! x)
      as Msame.
    { intros x Hx HxL. destruct (Mx x Hx) as (g & -> & _ & Hid).
      apply set_LinkedTo_id. by apply Hid. }
    assert (∀ x, x ∈ old → heap_pins h' !! x = heap_pins (rw_heap st) !! x) as Mold.
    { intros x Hx. apply Msame.
      - pose proof (old_below_next x Hx). unfold Np. lia.
      - intros Hc. by apply Hlinks in Hc as [Hc _]. }
    assert (heap_pins h' !! o = Some r0) as Hr' by (by rewrite Mold).
    cbn [rw_heap rw_InOldPins rw_NewPinMatched rw_OrphanedOldPins rw_MatchedPins].
    rewrite Hr', ShouldKeepOrphan_matched.
    constructor;
      cbn [rw_heap rw_InOldPins rw_NewPinMatched rw_OrphanedOldPins rw_MatchedPins].
    + rewrite Ia, Ht, Hd, filter_cons, decide_True by done. by rewrite <- app_assoc.
    + by rewrite Mn.
    + intros x Hx. destruct (Ic x Hx) as (rx & Hrx & Hrx'). exists rx. split; [done|].
      by rewrite Mold.
    + by rewrite length_insert.
    + intros j' d' Hd' Hm'. destruct (decide (j = j')) as [<-|Hne].
      * rewrite list_lookup_insert_eq in Hm' by (by apply lookup_lt_Some in Hm). done.
      * rewrite list_lookup_insert_ne in Hm' by done.
        rewrite Msame; [by apply Ie1| unfold Np; lia |].
        intros Hc. apply Hlinks in Hc as [_ Hc]. lia.
    + intros O Np' HM. apply elem_of_app in HM as [HM|HM].
      * destruct (Ie2 O Np' HM) as (j' & d' & r' & -> & Hd' & Hm' & HO & Hr0' & Hn' & Hh').
        exists j', d', r'. split; [done|]. split; [done|].
        assert (j ≠ j') as Hne by (intros ->; congruence).
        split; [by rewrite list_lookup_insert_ne|].
        split; [rewrite Hd; by right|]. split; [done|]. split; [done|].
        rewrite Msame; [done| unfold Np; lia |].
        intros Hc. apply Hlinks in Hc as [_ Hc]. lia.
      * apply list_elem_of_singleton in HM. injection HM as -> ->.
        exists j, d, r0. split; [done|]. split; [done|].
        split; [apply list_lookup_insert_eq; by apply lookup_lt_Some in Hm|].
        split; [rewrite Hd; left|]. split; [done|]. split; [done|].
        rewrite MNew, HdNp. simpl. f_equal.
        assert (LinkedTo d = []) as HLd by (apply HD_fresh; by eapply list_elem_of_lookup_2).
        destruct d. unfold set_LinkedTo. simpl in *. by rewrite HLd.
    + intros x. rewrite If, Hd, fmap_app, elem_of_cons, elem_of_app. simpl.
      rewrite list_elem_of_singleton. split.
      * intros (Hx & Hxm & Hc). split; [by right|]. split; [|done].
        intros [?| ->]; done.
      * intros ([->|Hx] & Hxm & Hc); [exfalso; apply Hxm; by right|].
        split; [done|]. split; [|done]. intros ?. apply Hxm. by left.
    + intros q r Hq Hrq. destruct (Ig q r Hq Hrq) as (r' & Hr'q & Hf & Hgrow & Hpairs).
      assert (q ≠ Np) as HqNp.
      { pose proof (Hbounded q r Hrq). unfold Np. lia. }
      destruct (Mx q HqNp) as (g & Hg & Hmem & _). rewrite Hr'q in Hg. simpl in Hg.
      eexists. split; [exact Hg|]. split; [by destruct r'|]. split.
      * intros y Hy. simpl. apply Hmem. right. by apply Hgrow.
      * intros O Np' rO HM HrO HqO. simpl. apply Hmem.
        apply elem_of_app in HM as [HM|HM].
        -- right. by eapply Hpairs.
        -- apply list_elem_of_singleton in HM. injection HM as -> ->.
           left. split; [|done]. congruence.
    + intros j' d' Hd'. destruct (decide (j = j')) as [<-|Hne].
      * rewrite Hdj in Hd'. injection Hd' as <-. fold Np. rewrite MNew, HdNp. simpl.
        eexists. split; [done|]. by destruct d.
      * rewrite Msame; [by apply Ie0| unfold Np; lia |].
        intros Hc. apply Hlinks in Hc as [_ Hc]. lia.
    + rewrite Hd, filter_cons, decide_False by done. exact Io.
    + intros j' Hj'. destruct (decide (j = j')) as [<-|Hne].
      * exists o. apply elem_of_app. right. left.
      * rewrite list_lookup_insert_ne in Hj' by done.
        destruct (Icl j' Hj') as [O HO]. exists O. apply elem_of_app. by left.
    + intros o' r' j' d' Ho' Hr'' Hun Hd' Hn'. rewrite Hd in Ho'.
      rewrite fmap_app, elem_of_app in Hun. simpl in Hun.
      apply elem_of_cons in Ho' as [->|Ho']; [exfalso; apply Hun; right; left|].
      assert (rw_NewPinMatched st !! j' = Some true) as Hcl.
      { apply (Ico o' r' j' d'); try done. intros ?. apply Hun. by left. }
      destruct (decide (j = j')) as [<-|Hne].
      * apply list_lookup_insert_eq. by apply lookup_lt_Some in Hcl.
      * by rewrite list_lookup_insert_ne.
  - (* no match *)
    assert (∀ j d, D !! j = Some d → PinName d = PinName r0 →
                   rw_NewPinMatched st !! j = Some true) as Hall.
    { intros j d Hdj Hdn.
      assert (j < length (rw_NewPinMatched st)) as Hj
        by (rewrite Id; by apply lookup_lt_Some in Hdj).
      destruct (lookup_lt_is_Some_2 _ _ Hj) as [[] Hm]; [done|]. exfalso.
      assert (j < length (Pins N1)) as Hj' by (rewrite HPins, length_seq; lia).
      destruct (FindNewPin_complete (rw_heap st) (Pins N1) (rw_NewPinMatched st)
                  (PinName r0) Start j) as [j' Hj'']; [| done | | congruence].
      - unfold Start. rewrite decide_False by lia. apply Nat.mod_upper_bound. lia.
      - unfold good_new_pin. rewrite Hm. simpl. apply bool_decide_eq_true.
        rewrite HPins, lookup_seq_lt by (by apply lookup_lt_Some in Hdj). simpl.
        destruct (Ie0 j d Hdj) as (r' & Hr' & Hf). unfold pin_name. rewrite Hr'. simpl.
        f_equal. rewrite <- Hdn. by injection Hf. }
    assert (∀ o' r' j d, o' ∈ drop i old → heap_pins h0 !! o' = Some r' →
              o' ∉ (rw_MatchedPins st).*1 → D !! j = Some d → PinName d = PinName r' →
              rw_NewPinMatched st !! j = Some true) as Hco.
    { intros o' r' j d Ho' Hr'' Hun Hd' Hn'. rewrite Hd in Ho'.
      apply elem_of_cons in Ho' as [->|Ho']; [|by eapply Ico].
      rewrite Hr0 in Hr''. injection Hr'' as <-. by eapply Hall. }
    simpl. rewrite Hr.
    change (ShouldKeepOrphan b N1 false r0) with (OrphanCondition b N1 r0).
    destruct (OrphanCondition b N1 r0) eqn:Hcond.
    + (* kept as an orphan *)
      constructor;
        cbn [rw_heap rw_InOldPins rw_NewPinMatched rw_OrphanedOldPins rw_MatchedPins].
      * rewrite Ia, Ht, Hd, filter_cons.
        rewrite decide_False by (intros Hc; apply Hc, elem_of_app; right; left).
        rewrite <- app_assoc. simpl.
        replace i with (length (take i old)) at 1 by (rewrite length_take; lia).
        rewrite delete_middle. f_equal. apply filter_ext_elem.
        intros x Hx. rewrite elem_of_app, list_elem_of_singleton. split; [|tauto].
        intros Hn [?| ->]; done.
      * done.
      * intros x Hx. destruct (Ic x Hx) as (rx & Hrx & Hrx'). exists rx. split; [done|].
        rewrite lookup_heap_alter. destruct (decide (o = x)) as [<-|Hne].
        -- rewrite Hr. rewrite Hr0 in Hrx. injection Hrx as <-.
           rewrite decide_True by (apply elem_of_app; right; left). done.
        -- rewrite Hrx'. destruct (decide (x ∈ rw_OrphanedOldPins st)) as [Hxo|Hxo].
           ++ rewrite decide_True by (apply elem_of_app; by left). done.
           ++ rewrite decide_False; [done|].
              intros [?| ->%list_elem_of_singleton]%elem_of_app; done.
      * done.
      * intros j d Hd' Hm. rewrite lookup_heap_alter, decide_False by lia. by apply Ie1.
      * intros O Np HM.
        destruct (Ie2 O Np HM) as (j' & d' & r' & -> & Hd' & Hm' & HO & Hr0' & Hn' & Hh').
        exists j', d', r'. split; [done|]. split; [done|]. split; [done|].
        split; [rewrite Hd; by right|]. split; [done|]. split; [done|].
        rewrite lookup_heap_alter, decide_False by lia. done.
      * intros x. rewrite elem_of_app, list_elem_of_singleton, If, Hd, elem_of_cons. split.
        -- intros [(Hx & Hxm & Hc)| ->]; [tauto|]. split; [by left|]. split; [done|].
           by exists r0.
        -- intros ([->|Hx] & Hxm & Hc); [by right|]. left. tauto.
      * intros q r Hq Hrq. destruct (Ig q r Hq Hrq) as (r' & Hr'q & Hrest).
        exists r'. rewrite lookup_heap_alter, decide_False by (intros <-; done). done.
      * intros j d Hd'. rewrite lookup_heap_alter, decide_False by lia. by apply Ie0.
      * rewrite Hd, filter_cons.
        rewrite decide_True by (apply elem_of_app; right; left).
        rewrite reverse_cons. f_equal. rewrite Io at 1. f_equal.
        apply filter_ext_elem. intros x Hx. rewrite elem_of_app, list_elem_of_singleton.
        split; [tauto|]. intros [?| ->]; done.
      * done.
      * done.
    + (* left to be destroyed *)
      constructor;
        cbn [rw_heap rw_InOldPins rw_NewPinMatched rw_OrphanedOldPins rw_MatchedPins];
        try done.
      * rewrite Ia, Ht, Hd, filter_cons, decide_True by done. by rewrite <- app_assoc.
      * intros O Np HM.
        destruct (Ie2 O Np HM) as (j' & d' & r' & -> & Hd' & Hm' & HO & Hrest).
        exists j', d', r'. split; [done|]. split; [done|]. split; [done|].
        split; [rewrite Hd; by right|]. done.
      * intros x. rewrite If, Hd, elem_of_cons. split.
        -- intros (Hx & Hxm & Hc). tauto.
        -- intros ([->|Hx] & Hxm & (rx & Hrx & Hc)); [|eauto].
           rewrite Hr0 in Hrx. injection Hrx as <-. congruence.
      * rewrite Hd, filter_cons, decide_False by done. exact Io.
Qed.

Lemma rewire_loop_inv (i : nat) (st : RewireState) :
  i ≤ length old → RewireInv b N1 old h0 D i st →
  RewireInv b N1 old h0 D 0 (RewireLoop b N1 i st).
Proof.
  revert st. induction i as [|i IH]; intros st Hi Hinv; [done|].
  simpl. apply IH; [lia|]. apply rewire_step_inv; [lia|done].
Qed.

End Rewire.

Lemma AppendOrphans_Pins (h : PinHeap) (l : list pin_ptr) :
  ∀ N, Pins (foldl (AppendOrphan h) N l) = Pins N ++ filter (λ p, has_no_parent h p) l.
Proof.
  induction l as [|p l IH]; intros N; cbn [foldl].
  - by rewrite app_nil_r.
  - rewrite IH, filter_cons. unfold AppendOrphan, has_no_parent.
    destruct (heap_pins h !! p) as [r|]; [|by rewrite decide_False by (intros [])].
    destruct (ParentPin r).
    + rewrite bool_decide_eq_false_2 by done. by rewrite decide_False by (intros []).
    + rewrite bool_decide_eq_true_2 by done. rewrite decide_True by done.
      destruct (Direction r); simpl; by rewrite <- app_assoc.
Qed.

Lemma filter_all_out (L : list pin_ptr) : filter (λ y, y ∉ reverse L) L = [].
Proof.
  assert (∀ M, (∀ y, y ∈ M → y ∈ L) → filter (λ y, y ∉ reverse L) M = []) as H.
  { induction M as [|y M IH]; intros HM; [done|]. rewrite filter_cons.
    rewrite decide_False.
    - apply IH. intros z Hz. apply HM. by right.
    - intros Hc. apply Hc. apply elem_of_reverse, HM. left. }
  by apply H.
Qed.

(** The loop that destroys the old pins, when none of them is linked to
    another of them. *)
Lemma destroy_fold (DL : list pin_ptr) :
  ∀ h, NoDup DL →
    (∀ p, p ∈ DL → ∃ r, heap_pins h !! p = Some r ∧ ∀ q, q ∈ LinkedTo r → q ∉ DL) →
    heap_next (foldl DestroyOldPin h DL) = heap_next h
    ∧ (∀ p, p ∈ DL →
         ∃ r, heap_pins h !! p = Some r
              ∧ heap_pins (foldl DestroyOldPin h DL) !! p
                = Some (set_Trashed (set_LinkedTo (λ _, []) r)))
    ∧ (∀ x, x ∉ DL →
         ∃ g, heap_pins (foldl DestroyOldPin h DL) !! x = set_LinkedTo g <$> heap_pins h !! x
              ∧ (∀ l y, y ∉ DL → (y ∈ g l ↔ y ∈ l))
              ∧ (∀ l y, y ∈ g l → y ∈ l)
              ∧ ((∀ p r, p ∈ DL → heap_pins h !! p = Some r → x ∉ LinkedTo r) →
                 ∀ l, g l = l)).
Proof.
  induction DL as [|p DL IH]; intros h Hnd Hwf.
  - simpl. split; [done|]. split; [by intros p ?%elem_of_nil|].
    intros x _. exists id. split; [symmetry; by apply set_LinkedTo_id|]. done.
  - cbn [foldl]. apply NoDup_cons in Hnd as [HpDL Hnd].
    destruct (Hwf p ltac:(left)) as (r & Hr & HL).
    assert (p ∉ reverse (LinkedTo r)) as HpL.
    { rewrite elem_of_reverse. intros Hc. apply (HL p Hc). left. }
    destruct (BreakLinks_lookup p (reverse (LinkedTo r)) h HpL) as (Bn & Bp & Bx).
    set (h1 := DestroyOldPin h p).
    assert (heap_next h1 = heap_next h) as Hn1.
    { unfold h1, DestroyOldPin, DestroyPin, BreakAllPinLinks. rewrite Hr. by simpl. }
    assert (heap_pins h1 !! p = Some (set_Trashed (set_LinkedTo (λ _, []) r))) as Hp1.
    { unfold h1, DestroyOldPin, DestroyPin, BreakAllPinLinks. rewrite Hr.
      rewrite lookup_heap_alter, decide_True by done. rewrite Bp, Hr. simpl. do 2 f_equal.
      destruct r. unfold set_LinkedTo. simpl. by rewrite filter_all_out. }
    assert (∀ x, x ≠ p →
              ∃ g, heap_pins h1 !! x = set_LinkedTo g <$> heap_pins h !! x
                   ∧ (∀ l y, y ≠ p → (y ∈ g l ↔ y ∈ l))
                   ∧ (∀ l y, y ∈ g l → y ∈ l)
                   ∧ (x ∉ LinkedTo r → ∀ l, g l = l)) as Hx1.
    { intros x Hx. unfold h1, DestroyOldPin, DestroyPin, BreakAllPinLinks. rewrite Hr.
      rewrite lookup_heap_alter, decide_False by done.
      destruct (Bx x Hx) as (g & Hg & Hm & Hs & Hid). exists g.
      split; [done|]. split; [done|]. split; [done|].
      intros Hnot. apply Hid. by rewrite elem_of_reverse. }
    assert (∀ x, x ≠ p → x ∉ LinkedTo r → heap_pins h1 !! x = heap_pins h !! x) as Hsame1.
    { intros x Hx HxL. destruct (Hx1 x Hx) as (g & -> & _ & _ & Hid).
      apply set_LinkedTo_id. by apply Hid. }
    assert (∀ p', p' ∈ DL → heap_pins h1 !! p' = heap_pins h !! p') as HDL1.
    { intros p' Hp'. apply Hsame1; [by intros ->|].
      intros Hc. apply (HL p' Hc). by right. }
    destruct (IH h1 Hnd) as (In & Ip & Ix).
    { intros p' Hp'. destruct (Hwf p' ltac:(by right)) as (r' & Hr' & HL').
      exists r'. rewrite HDL1 by done. split; [done|].
      intros q Hq Hc. apply (HL' q Hq). by right. }
    split; [by rewrite In|]. split.
    + intros p' [->|Hp']%elem_of_cons.
      * exists r. split; [done|]. destruct (Ix p HpDL) as (g & -> & _ & _ & Hid).
        rewrite Hp1. simpl. f_equal.
        assert (∀ l, g l = l) as Hg.
        { apply Hid. intros p' r' Hp' Hr' Hc. rewrite HDL1 in Hr' by done.
          destruct (Hwf p' ltac:(by right)) as (r'' & Hr'' & HL''). rewrite Hr' in Hr''.
          injection Hr'' as <-. apply (HL'' p Hc). left. }
        unfold set_LinkedTo, set_Trashed. simpl. by rewrite Hg.
      * destruct (Ip p' Hp') as (r' & Hr' & Hfin). exists r'. by rewrite <- HDL1.
    + intros x Hx. apply not_elem_of_cons in Hx as [Hxp Hx].
      destruct (Ix x Hx) as (g & Hg & Hm & Hs & Hid).
      destruct (Hx1 x Hxp) as (g1 & Hg1 & Hm1 & Hs1 & Hid1).
      exists (g ∘ g1). rewrite Hg, Hg1, set_LinkedTo_compose. split; [done|].
      split; [|split].
      * intros l y Hy. apply not_elem_of_cons in Hy as [? ?]. simpl. by rewrite Hm, Hm1.
      * intros l y Hy. simpl in Hy. by apply Hs1, Hs.
      * intros Hnot l. simpl. rewrite Hid1.
        -- apply Hid. intros p' r' Hp' Hr'. rewrite HDL1 in Hr' by done.
           apply (Hnot p' r'); [by right|done].
        -- apply (Hnot p r); [left|done].
Qed.

Lemma new_pin_objects_fresh (FlowNode : option UFlowNodeBase) (d : UEdGraphPin) :
  d ∈ new_pin_objects FlowNode →
  LinkedTo d = [] ∧ bOrphanedPin d = false ∧ ParentPin d = None ∧ bWasTrashed d = false
  ∧ PinName d ≠ NAME_None.
Proof.
  destruct FlowNode as [X|]; simpl; [|by intros ?%elem_of_nil].
  unfold declared_pins. rewrite elem_of_app, !list_elem_of_fmap.
  intros [(fp & -> & Hfp)|(fp & -> & Hfp)]; apply list_elem_of_filter in Hfp as [Hv _];
    (repeat split; [done..|]); simpl; unfold FlowPin_IsValid, FName_IsNone in Hv;
    apply Is_true_true, negb_true_iff, bool_decide_eq_false in Hv; done.
Qed.

Lemma AllocateDefaultPins_spec (FlowNode : option UFlowNodeBase) (N : UFlowGraphNode)
    (h : PinHeap) :
  ∃ Is Os,
    AllocateDefaultPins FlowNode (set_PinArrays [] [] [] N, h) =
      (set_PinArrays (seq (heap_next h) (length (new_pin_objects FlowNode))) Is Os N,
       alloc_list (new_pin_objects FlowNode) h).
Proof.
  destruct FlowNode as [X|].
  - do 2 eexists. apply AllocateDefaultPins_flow_node.
  - exists [], []. reflexivity.
Qed.

Lemma RebuildPinArrays_inv (b : bool) (FlowNode : option UFlowNodeBase)
    (N N' : UFlowGraphNode) (h h' : PinHeap) (rw : RewireState) :
  node_pins_wf N h →
  RebuildPinArrays b FlowNode (N, h) = (N', h', rw) →
  ∃ Is Os,
    let N1 := set_PinArrays (seq (heap_next h) (length (new_pin_objects FlowNode))) Is Os N in
    RewireInv b N1 (Pins N) h (new_pin_objects FlowNode) 0 rw
    ∧ N' = foldl (AppendOrphan (rw_heap rw)) N1 (reverse (rw_OrphanedOldPins rw))
    ∧ h' = foldl DestroyOldPin (rw_heap rw) (rw_InOldPins rw).
Proof.
  intros (Hnd & Hbd & Hwf) Heq.
  unfold RebuildPinArrays in Heq.
  destruct (AllocateDefaultPins_spec FlowNode N h) as (Is & Os & Halloc).
  rewrite Halloc in Heq. exists Is, Os. intros N1. fold N1 in Heq.
  unfold RewireOldPinsToNewPins in Heq.
  set (st := RewireLoop b N1 (length (Pins N)) _) in Heq.
  injection Heq as <- <- <-. split; [|done].
  apply rewire_loop_inv; try done.
  - intros d Hd. by apply (new_pin_objects_fresh FlowNode).
  - apply rewire_inv_init; done.
Qed.

(** A pin that found no match left no new pin of its name unclaimed. *)
Lemma RebuildPinArrays_complete (b : bool) (FlowNode : option UFlowNodeBase)
    (N N' : UFlowGraphNode) (h h' : PinHeap) (rw : RewireState) (o : pin_ptr)
    (r0 d : UEdGraphPin) (j : nat) :
  node_pins_wf N h →
  RebuildPinArrays b FlowNode (N, h) = (N', h', rw) →
  o ∈ Pins N → heap_pins h !! o = Some r0 → o ∉ (rw_MatchedPins rw).*1 →
  new_pin_objects FlowNode !! j = Some d → PinName d = PinName r0 →
  ∃ O, (O, heap_next h + j) ∈ rw_MatchedPins rw.
Proof.
  intros Hwf Heq Ho Hr0 Hun Hd Hn.
  destruct (RebuildPinArrays_inv b FlowNode N N' h h' rw Hwf Heq) as (Is & Os & Hinv & _).
  apply (inv_claimed _ _ _ _ _ _ _ Hinv).
  apply (inv_complete _ _ _ _ _ _ _ Hinv o r0 j d); try done.
Qed.

Lemma RebuildPinArrays_spec (b : bool) (FlowNode : option UFlowNodeBase)
    (N N' : UFlowGraphNode) (h h' : PinHeap) (rw : RewireState) :
  node_pins_wf N h →
  RebuildPinArrays b FlowNode (N, h) = (N', h', rw) →
  let D := new_pin_objects FlowNode in
  let orph := rw_OrphanedOldPins rw in
  Pins N' = seq (heap_next h) (length D)
            ++ filter (λ p, has_no_parent h p) (filter (λ o, o ∈ orph) (Pins N))
  ∧ heap_next h' = heap_next h + length D
  ∧ (∀ o, o ∈ orph ↔
       o ∈ Pins N ∧ (o ∉ (rw_MatchedPins rw).*1)
       ∧ ∃ r0, heap_pins h !! o = Some r0 ∧ OrphanCondition b N r0 = true)
  ∧ (∀ o r0, o ∈ Pins N → heap_pins h !! o = Some r0 →
       heap_pins h' !! o
       = Some (if decide (o ∈ orph) then set_Orphaned r0
               else set_Trashed (set_LinkedTo (λ _, []) r0)))
  ∧ (∀ j d, D !! j = Some d →
       ∃ r', heap_pins h' !! (heap_next h + j) = Some r'
             ∧ set_LinkedTo (λ _, []) r' = set_LinkedTo (λ _, []) d)
  ∧ (∀ O Np, (O, Np) ∈ rw_MatchedPins rw →
       ∃ j d r0, Np = heap_next h + j ∧ D !! j = Some d ∧ O ∈ Pins N
                 ∧ heap_pins h !! O = Some r0 ∧ PinName d = PinName r0
                 ∧ heap_pins h' !! Np = Some (set_LinkedTo (λ _, LinkedTo r0) d)
                 ∧ ∀ q, q ∈ LinkedTo r0 →
                     ∃ rq, heap_pins h' !! q = Some rq ∧ Np ∈ LinkedTo rq)
  ∧ (∀ q r, q ∉ Pins N → heap_pins h !! q = Some r →
       ∃ r', heap_pins h' !! q = Some r'
             ∧ set_LinkedTo (λ _, []) r' = set_LinkedTo (λ _, []) r
             ∧ ∀ y, y ∈ LinkedTo r → (y ∉ Pins N) ∨ y ∈ orph → y ∈ LinkedTo r').
Proof.
  intros Hwf0 Heq D orph.
  destruct (RebuildPinArrays_inv b FlowNode N N' h h' rw Hwf0 Heq)
    as (Is & Os & Hinv & -> & ->).
  destruct Hwf0 as (Hnd & Hbd & Hwf). fold D in Hinv.
  set (N1 := set_PinArrays (seq (heap_next h) (length D)) Is Os N) in *.
  set (st := rw) in *.
  destruct Hinv as [Ia Ib Ic Id Ie1 Ie2 If Ig Ie0 Io Icl Ico].
  rewrite take_0, drop_0 in Ia. simpl in Ia. rewrite drop_0 in Io.
  assert (∀ o, o ∈ Pins N → o < heap_next h) as Hlow.
  { intros o Ho. destruct (Hwf o Ho) as (r & Hr & _). by eapply Hbd. }
  set (DL := filter (λ o, o ∉ rw_OrphanedOldPins st) (Pins N)) in *.
  assert (∀ p, p ∈ DL ↔ p ∈ Pins N ∧ p ∉ rw_OrphanedOldPins st) as HDL.
  { intros p. unfold DL. rewrite list_elem_of_filter. tauto. }
  destruct (destroy_fold DL (rw_heap st)) as (Dn & Dp & Dx).
  { by apply NoDup_filter. }
  { intros p Hp. apply HDL in Hp as [Hp Hpo].
    destruct (Ic p Hp) as (r0 & Hr0 & Hr). rewrite decide_False in Hr by done.
    exists r0. split; [done|]. intros q Hq Hc. apply HDL in Hc as [Hc _].
    destruct (Hwf p Hp) as (r & Hr' & HL). rewrite Hr0 in Hr'. injection Hr' as <-.
    by apply (HL q Hq). }
  assert (∀ x, (x ∈ Pins N → x ∈ rw_OrphanedOldPins st) →
               (∀ p r0, p ∈ Pins N → heap_pins h !! p = Some r0 → x ∉ LinkedTo r0) →
               heap_pins (foldl DestroyOldPin (rw_heap st) DL) !! x
               = heap_pins (rw_heap st) !! x) as Dsame.
  { intros x Hx Hnl. destruct (Dx x) as (g & -> & _ & _ & Hid).
    - intros Hc. apply HDL in Hc as [? ?]. tauto.
    - apply set_LinkedTo_id. apply Hid. intros p r Hp Hr. apply HDL in Hp as [Hp Hpo].
      destruct (Ic p Hp) as (r0 & Hr0 & Hr'). rewrite decide_False in Hr' by done.
      rewrite Hr in Hr'. injection Hr' as ->. by apply (Hnl p r0). }
  assert (∀ p r0 x, p ∈ Pins N → heap_pins h !! p = Some r0 → x ∈ LinkedTo r0 →
                    (x ∉ Pins N) ∧ x < heap_next h) as Hext.
  { intros p r0 x Hp Hr0 Hx. destruct (Hwf p Hp) as (r & Hr & HL).
    rewrite Hr0 in Hr. injection Hr as <-. destruct (HL x Hx) as [? [rx Hrx]].
    split; [done|]. by eapply Hbd. }
  assert (∀ j, heap_pins (foldl DestroyOldPin (rw_heap st) DL) !! (heap_next h + j)
               = heap_pins (rw_heap st) !! (heap_next h + j)) as Dnew.
  { intros j. apply Dsame.
    - intros Hc. apply Hlow in Hc. lia.
    - intros p r0 Hp Hr0 Hc. destruct (Hext p r0 _ Hp Hr0 Hc). lia. }
  rewrite Ia.
  split; [|split; [|split; [|split; [|split; [|split]]]]].
  - rewrite AppendOrphans_Pins. simpl. f_equal. rewrite Io at 1. rewrite reverse_involutive.
    apply filter_ext_elem.
    intros p Hp. apply list_elem_of_filter in Hp as [Hp _].
    apply If in Hp as (Hp & _). rewrite drop_0 in Hp.
    destruct (Ic p Hp) as (r0 & Hr0 & Hr). unfold has_no_parent. rewrite Hr0, Hr.
    by destruct (decide _).
  - by rewrite Dn, Ib.
  - intros o. unfold orph. rewrite If, drop_0. reflexivity.
  - intros o r0 Ho Hr0. destruct (Ic o Ho) as (r & Hr & Hst). rewrite Hr0 in Hr.
    injection Hr as <-. fold orph in Hst. destruct (decide (o ∈ orph)) as [Hoo|Hoo].
    + rewrite Dsame; [done..|]. intros p r Hp Hr Hc.
      by destruct (Hext p r _ Hp Hr Hc).
    + destruct (Dp o) as (r & Hr & ->); [by apply HDL|]. congruence.
  - intros j d Hd. rewrite Dnew. by apply Ie0.
  - intros O Np HM.
    destruct (Ie2 O Np HM) as (j & d & r0 & -> & Hd & Hm & HO & Hr0 & Hn & Hh).
    rewrite drop_0 in HO. exists j, d, r0. do 5 (split; [done|]).
    split; [by rewrite Dnew|].
    intros q Hq. destruct (Hwf O HO) as (r & Hr & HL). rewrite Hr0 in Hr.
    injection Hr as <-. destruct (HL q Hq) as [HqN [rq Hrq]].
    destruct (Ig q rq HqN Hrq) as (r' & Hr' & _ & _ & Hpairs).
    destruct (Dx q) as (g & Hg & Hmem & _).
    { intros Hc. apply HDL in Hc as [? _]. done. }
    rewrite Hr' in Hg. simpl in Hg. eexists. split; [exact Hg|]. simpl.
    apply Hmem.
    + intros Hc. apply HDL in Hc as [Hc _]. apply Hlow in Hc. lia.
    + by eapply Hpairs.
  - intros q r HqN Hr. destruct (Ig q r HqN Hr) as (r' & Hr' & Hf & Hgrow & _).
    destruct (Dx q) as (g & Hg & Hmem & _).
    { intros Hc. apply HDL in Hc as [? _]. done. }
    rewrite Hr' in Hg. simpl in Hg. eexists. split; [exact Hg|].
    split; [by destruct r'|]. intros y Hy Hcase. simpl. apply Hmem.
    + intros Hc. apply HDL in Hc as [? ?]. unfold orph in Hcase. tauto.
    + by apply Hgrow.
Qed.

(** ** Orphan retention and connection preservation *)

Lemma node_pins_wf_b_sound (N : UFlowGraphNode) (h : PinHeap) :
  node_pins_wf_b N h = true → node_pins_wf N h.
Proof.
  unfold node_pins_wf_b. rewrite !andb_true_iff, !bool_decide_eq_true, forallb_forall.
  intros [[Hnd Hb] Hl]. split; [done|]. split.
  - intros p r Hr. by apply (Hb p r).
  - intros p Hp. apply list_elem_of_In, Hl in Hp.
    destruct (heap_pins h !! p) as [r|]; [|done]. exists r. split; [done|].
    intros q Hq. rewrite forallb_forall in Hp. apply list_elem_of_In, Hp in Hq.
    apply andb_true_iff in Hq as [H1 H2].
    by apply bool_decide_eq_true in H1, H2.
Qed.

Lemma OrphanCondition_true (b : bool) (N : UFlowGraphNode) (r : UEdGraphPin) :
  OrphanCondition b N r = true ↔ RetentionConditions b N r.
Proof.
  unfold OrphanCondition, ShouldKeepOrphan, RetentionConditions.
  rewrite !andb_true_iff, !bool_decide_eq_true, !negb_true_iff. simpl. tauto.
Qed.

(** An old pin whose name no new pin carries finds no match. *)
Lemma unmatched_when_name_absent (b : bool) (FlowNode : option UFlowNodeBase)
    (N N' : UFlowGraphNode) (h h' : PinHeap) (rw : RewireState) (o : pin_ptr)
    (r0 : UEdGraphPin) :
  node_pins_wf N h →
  RebuildPinArrays b FlowNode (N, h) = (N', h', rw) →
  heap_pins h !! o = Some r0 →
  (∀ d, d ∈ new_pin_objects FlowNode → PinName d ≠ PinName r0) →
  o ∉ (rw_MatchedPins rw).*1.
Proof.
  intros Hwf Heq Hr0 Hnames Hc.
  apply list_elem_of_fmap in Hc as ([O Np] & -> & HM).
  destruct (RebuildPinArrays_spec b FlowNode N N' h h' rw Hwf Heq)
    as (_ & _ & _ & _ & _ & Hm & _).
  destruct (Hm O Np HM) as (j & d & r & _ & Hd & _ & Hr & Hn & _).
  simpl in Hr0. rewrite Hr0 in Hr. injection Hr as <-.
  apply (Hnames d); [by eapply list_elem_of_lookup_2|done].
Qed.

(** C3 (amended). In a full pin-array rebuild of a node whose pins are
    distinct live objects linked to pins of other nodes only, the rebuilt
    pin sequence is the freshly allocated pins followed by the retained old
    pins. An old pin that found no match is in it exactly when the six
    conditions hold -- orphan retention is enabled globally, the node has
    not disabled orphan saving, its orphan-save mode is SaveAll, the pin is
    not hidden, it is worth saving when orphaned and it has a connection --
    and the pin has no parent pin. When the six conditions hold the pin is
    flagged orphaned and not connectable and keeps its connections (with a
    parent pin it is kept alive but left out of the sequence); when one of
    them fails the pin is destroyed with its connections severed, and is not
    in the sequence. *)
Theorem orphan_retention (b : bool) (FlowNode : option UFlowNodeBase)
    (N N' : UFlowGraphNode) (h h' : PinHeap) (rw : RewireState) (o : pin_ptr)
    (r0 : UEdGraphPin) :
  node_pins_wf N h →
  RebuildPinArrays b FlowNode (N, h) = (N', h', rw) →
  o ∈ Pins N → heap_pins h !! o = Some r0 →
  o ∉ (rw_MatchedPins rw).*1 →
  (∃ kept, Pins N' = seq (heap_next h) (length (new_pin_objects FlowNode)) ++ kept
           ∧ (o ∈ Pins N' ↔ o ∈ kept)
           ∧ (o ∈ kept ↔ RetentionConditions b N r0 ∧ ParentPin r0 = None))
  ∧ (RetentionConditions b N r0 → heap_pins h' !! o = Some (set_Orphaned r0))
  ∧ (¬ RetentionConditions b N r0 →
     heap_pins h' !! o = Some (set_Trashed (set_LinkedTo (λ _, []) r0)) ∧ o ∉ Pins N').
Proof.
  intros Hwf Heq Ho Hr0 Hun.
  destruct (RebuildPinArrays_spec b FlowNode N N' h h' rw Hwf Heq)
    as (HP & _ & Horph & Hold & _).
  assert (o < heap_next h) as Hlt.
  { destruct Hwf as (_ & Hb & _). by eapply Hb. }
  assert (o ∈ rw_OrphanedOldPins rw ↔ RetentionConditions b N r0) as Hiff.
  { rewrite Horph, <- OrphanCondition_true. split.
    - intros (_ & _ & r & Hr & Hc). congruence.
    - intros Hc. split; [done|]. split; [done|]. by exists r0. }
  assert (o ∈ filter (λ p, has_no_parent h p)
            (filter (λ o, o ∈ rw_OrphanedOldPins rw) (Pins N))
          ↔ RetentionConditions b N r0 ∧ ParentPin r0 = None) as Hkept.
  { rewrite !list_elem_of_filter, Hiff. unfold has_no_parent. rewrite Hr0.
    rewrite bool_decide_spec. tauto. }
  assert (o ∈ Pins N' ↔ o ∈ filter (λ p, has_no_parent h p)
            (filter (λ o, o ∈ rw_OrphanedOldPins rw) (Pins N))) as Hin.
  { rewrite HP, elem_of_app, elem_of_seq. split; [|tauto]. intros [?|?]; [lia|done]. }
  split; [|split].
  - eexists. split; [exact HP|]. split; [exact Hin | exact Hkept].
  - intros Hc. rewrite (Hold o r0 Ho Hr0). by rewrite decide_True by (by apply Hiff).
  - intros Hc. rewrite (Hold o r0 Ho Hr0).
    rewrite decide_False by (by rewrite Hiff). split; [done|].
    rewrite Hin, Hkept. tauto.
Qed.

Lemma orphan_retention_witness :
  let st := RebuildPinArrays true (Some (ex_flow_node [pinIn] [pinOut; pinTrue]))
              (ex_scenario_node, ex_scenario_heap [12]) in
  (∃ kept, Pins st.1.1 = seq 20 3 ++ kept
           ∧ (3 ∈ Pins st.1.1 ↔ 3 ∈ kept)
           ∧ (3 ∈ kept ↔ RetentionConditions true ex_scenario_node
                            (ex_pin "False" EGPD_Output [12])
                          ∧ ParentPin (ex_pin "False" EGPD_Output [12]) = None))
  ∧ (RetentionConditions true ex_scenario_node (ex_pin "False" EGPD_Output [12]) →
     heap_pins st.1.2 !! 3 = Some (set_Orphaned (ex_pin "False" EGPD_Output [12])))
  ∧ (¬ RetentionConditions true ex_scenario_node (ex_pin "False" EGPD_Output [12]) →
     heap_pins st.1.2 !! 3
     = Some (set_Trashed (set_LinkedTo (λ _, []) (ex_pin "False" EGPD_Output [12])))
     ∧ 3 ∉ Pins st.1.1).
Proof.
  intros st.
  apply (orphan_retention true (Some (ex_flow_node [pinIn] [pinOut; pinTrue]))
           ex_scenario_node st.1.1 (ex_scenario_heap [12]) st.1.2 st.2 3
           (ex_pin "False" EGPD_Output [12])).
  - apply node_pins_wf_b_sound. vm_compute. reflexivity.
  - unfold st. by destruct (RebuildPinArrays _ _ _) as [[? ?] ?].
  - apply (bool_decide_unpack _). vm_compute. exact I.
  - vm_compute. reflexivity.
  - apply (bool_decide_unpack _). vm_compute. exact I.
Defined.

(** C3, as stated, fails for an unmatched pin that has a parent pin: the six
    conditions hold and the pin is flagged, yet the second loop of the
    rewire pass leaves it out of the pin sequence. *)
Lemma orphan_with_parent_not_appended :
  let st := RebuildPinArrays true (Some (ex_flow_node [pinIn] [pinOut; pinTrue]))
              (ex_scenario_node, ex_split_heap) in
  (OrphanCondition true ex_scenario_node <$> heap_pins ex_split_heap !! 3) = Some true
  ∧ rw_MatchedPins st.2 = [(2, 22); (1, 21); (0, 20)]
  ∧ Pins st.1.1 = [20; 21; 22]
  ∧ (bOrphanedPin <$> heap_pins st.1.2 !! 3) = Some true.
Proof. vm_compute. done. Qed.

(** ** [ReconstructNode], unfolded *)

Lemma TryUpdateAutoDataPins_instances (T : UFlowNodeBase → option UFlowNodeBase)
    (N : UFlowGraphNode) (w : World) :
  (TryUpdateAutoDataPins T N w).1 = w
  ∨ ∃ i X, (TryUpdateAutoDataPins T N w).1 = set_NodeInstance i X w.
Proof. unfold TryUpdateAutoDataPins. repeat case_match; simpl; eauto. Qed.

Lemma TryUpdateNodePins_instances (N : UFlowGraphNode) (w : World) :
  (TryUpdateNodePins N w).1 = w
  ∨ ∃ i X, (TryUpdateNodePins N w).1 = set_NodeInstance i X w.
Proof. unfold TryUpdateNodePins. repeat case_match; simpl; eauto. Qed.

Lemma refreshed_world_same (T : UFlowNodeBase → option UFlowNodeBase)
    (N : UFlowGraphNode) (w : World) :
  PinObjects (refreshed_world T N w) = PinObjects w
  ∧ GraphNodes (refreshed_world T N w) = GraphNodes w
  ∧ GIsTransacting (refreshed_world T N w) = GIsTransacting w
  ∧ bOrphanPinsEnabled (refreshed_world T N w) = bOrphanPinsEnabled w
  ∧ Trace (refreshed_world T N w) = Trace w.
Proof.
  unfold refreshed_world.
  destruct (TryUpdateAutoDataPins_instances T (set_bIsReconstructingNode true N) w)
    as [->|(i & X & ->)].
  - destruct (TryUpdateNodePins_instances (set_bIsReconstructingNode true N) w)
      as [->|(i' & X' & ->)]; done.
  - destruct (TryUpdateNodePins_instances (set_bIsReconstructingNode true N)
                (set_NodeInstance i X w)) as [->|(i' & X' & ->)]; done.
Qed.

Lemma ReconstructNode_unfold (T : UFlowNodeBase → option UFlowNodeBase) (This : node_ptr)
    (w : World) (N : UFlowGraphNode) :
  GraphNodes w !! This = Some N → CanReconstructNode w N = true →
  let N1 := set_bIsReconstructingNode true N in
  let w2 := refreshed_world T N w in
  ReconstructNode T This w =
    if needs_rebuild T N w then
      let st := RebuildPinArrays (bOrphanPinsEnabled w2) (Cast_UFlowNode w2 (NodeInstance N1))
                  (N1, PinObjects w2) in
      set_GraphNode This
        (set_bIsReconstructingNode false (set_bNeedsFullReconstruction false st.1.1))
        (emit (Ev_OnReconstructNodeCompleted This) (set_PinObjects st.1.2 w2))
    else
      set_GraphNode This (set_bIsReconstructingNode false N1)
        (emit (Ev_OnReconstructNodeCompleted This) (set_PinObjects (PinObjects w2) w2)).
Proof.
  intros HN Hc N1 w2. unfold ReconstructNode, needs_rebuild, w2, refreshed_world.
  rewrite HN, Hc. simpl. fold N1.
  destruct (TryUpdateAutoDataPins T N1 w) as [w1 b1]. simpl.
  destruct (TryUpdateNodePins N1 w1) as [w2' b2]. simpl.
  destruct (_ || _ || _ || _); [|done].
  by destruct (RebuildPinArrays _ _ _) as [[? ?] ?].
Qed.

Lemma node_pins_wf_reconstructing (b : bool) (N : UFlowGraphNode) (h : PinHeap) :
  node_pins_wf N h → node_pins_wf (set_bIsReconstructingNode b N) h.
Proof. by destruct N. Qed.

(** What a call of [ReconstructNode] does to the pins of its node: either
    it leaves the pin array and the pin objects alone, or it rebuilds the
    pin array from the refreshed node instance. *)
Lemma ReconstructNode_pins (T : UFlowNodeBase → option UFlowNodeBase) (This : node_ptr)
    (w : World) (N : UFlowGraphNode) :
  GraphNodes w !! This = Some N →
  let w' := ReconstructNode T This w in
  (∃ N', GraphNodes w' !! This = Some N' ∧ Pins N' = Pins N
         ∧ PinObjects w' = PinObjects w)
  ∨ (∃ N1 h' rw,
       CanReconstructNode w N = true ∧ needs_rebuild T N w = true
       ∧ RebuildPinArrays (bOrphanPinsEnabled w)
           (Cast_UFlowNode (refreshed_world T N w) (NodeInstance N))
           (set_bIsReconstructingNode true N, PinObjects w) = (N1, h', rw)
       ∧ GraphNodes w' !! This
         = Some (set_bIsReconstructingNode false (set_bNeedsFullReconstruction false N1))
       ∧ PinObjects w' = h').
Proof.
  intros HN w'. destruct (CanReconstructNode w N) eqn:Hc.
  - unfold w'. rewrite (ReconstructNode_unfold T This w N HN Hc).
    destruct (refreshed_world_same T N w) as (Hp & Hg & _ & Ho & _).
    destruct (needs_rebuild T N w) eqn:Hneed.
    + right. rewrite Hp, Ho.
      destruct (RebuildPinArrays _ _ _) as [[N1 h'] rw] eqn:Heq.
      exists N1, h', rw. split; [done|]. split; [done|]. split.
      { rewrite <- Heq. by destruct N. }
      simpl. by rewrite lookup_insert_eq.
    + left. eexists. simpl. rewrite lookup_insert_eq. split; [done|].
      split; [by destruct N | done].
  - left. exists N. unfold w', ReconstructNode. by rewrite HN, Hc.
Qed.

Lemma only_pin_named_b_sound (w : World) (This : node_ptr) (Name : FName) (p : pin_ptr) :
  only_pin_named_b w This Name p = true → only_pin_named w This Name p.
Proof.
  unfold only_pin_named_b. intros Hb p' r' (N & HN & Hp & Hr) Hname.
  rewrite HN in Hb. rewrite forallb_forall in Hb.
  apply list_elem_of_In, Hb in Hp. rewrite Hr in Hp.
  rewrite bool_decide_true in Hp by done. by apply bool_decide_eq_true in Hp.
Qed.

(** Connection preservation for a pin whose name is unique (C2 holds on
    such pins). Let the pins of a node be
    distinct live objects that are linked to pins of other nodes only. If a
    pin [O] of the node before a call of [ReconstructNode] and a pin [Np] of
    the node after the call have the same name, and no other pin of the
    node carries that name before the call and none after it, then [Np]
    carries the connections of [O] unchanged, and every pin that was linked
    back to [O] is linked to [Np]. The directions of the two pins play no
    part: the rewire pass compares names only. *)
Theorem connections_preserved (T : UFlowNodeBase → option UFlowNodeBase)
    (This : node_ptr) (w : World) (N : UFlowGraphNode)
    (O Np : pin_ptr) (r0 rn : UEdGraphPin) :
  GraphNodes w !! This = Some N →
  node_pins_wf N (PinObjects w) →
  let w' := ReconstructNode T This w in
  node_pin w This O r0 →
  node_pin w' This Np rn →
  PinName rn = PinName r0 →
  only_pin_named w This (PinName r0) O →
  only_pin_named w' This (PinName r0) Np →
  LinkedTo rn = LinkedTo r0
  ∧ ∀ q rq, q ∈ LinkedTo r0 → heap_pins (PinObjects w) !! q = Some rq → O ∈ LinkedTo rq →
      ∃ rq', heap_pins (PinObjects w') !! q = Some rq' ∧ Np ∈ LinkedTo rq'.
Proof.
  intros HN Hwf w' (N0 & HN0 & HO & Hr0) (N' & HN' & HNp & Hrn) Hname Huo Hun.
  assert (N0 = N) as -> by congruence.
  destruct (ReconstructNode_pins T This w N HN)
    as [(N1 & HN1 & HP & Hh)|(N1 & h' & rw & Hc & Hneed & Heq & HN1 & Hh)];
    fold w' in HN1, Hh; rewrite HN1 in HN'; injection HN' as <-.
  - (* the pin array was left alone *)
    rewrite HP in HNp. rewrite Hh in Hrn.
    assert (Np = O) as ->.
    { apply (Huo Np rn); [|done]. by exists N. }
    assert (rn = r0) as -> by congruence.
    split; [done|]. intros q rq Hq Hrq HOq. exists rq. by rewrite Hh.
  - (* the pin array was rebuilt *)
    rewrite Hh in Hrn. simpl in HNp.
    pose proof (node_pins_wf_reconstructing true N _ Hwf) as Hwf1.
    destruct (RebuildPinArrays_spec _ _ _ _ _ _ _ Hwf1 Heq)
      as (HP & Hnext & Horph & Hold & Hnew & Hmatched & Hext).
    replace (Pins (set_bIsReconstructingNode true N)) with (Pins N) in * by by destruct N.
    set (D := new_pin_objects (Cast_UFlowNode (refreshed_world T N w) (NodeInstance N))) in *.
    assert (∀ p r, p ∈ Pins N1 → heap_pins h' !! p = Some r →
                   node_pin w' This p r) as Hafter.
    { intros p r Hp Hr. eexists. split; [exact HN1|]. split; [done|]. by rewrite Hh. }
    assert (∀ o, o ∈ Pins N → o < heap_next (PinObjects w)) as Hlow.
    { intros o Ho. destruct Hwf as (_ & Hb & Hl).
      destruct (Hl o Ho) as (r & Hr & _). by eapply Hb. }
    rewrite HP, elem_of_app in HNp. destruct HNp as [HNp|HNp].
    + (* [Np] is a freshly allocated pin *)
      apply elem_of_seq in HNp.
      destruct (lookup_lt_is_Some_2 D (Np - heap_next (PinObjects w))) as [d Hd]; [lia|].
      destruct (Hnew _ _ Hd) as (r' & Hr' & Hforget).
      replace (heap_next (PinObjects w) + (Np - heap_next (PinObjects w))) with Np in Hr'
        by lia.
      assert (r' = rn) as -> by congruence.
      assert (PinName d = PinName r0) as Hdname.
      { rewrite <- Hname. by apply (f_equal PinName) in Hforget. }
      assert (O ∈ (rw_MatchedPins rw).*1) as HOm.
      { destruct (decide (O ∈ (rw_MatchedPins rw).*1)) as [|Hno]; [done|]. exfalso.
        destruct (RebuildPinArrays_complete _ _ _ _ _ _ _ O r0 d
                    (Np - heap_next (PinObjects w)) Hwf1 Heq)
          as (O' & HO'); [by destruct N|done|done|exact Hd|done|].
        destruct (Hmatched _ _ HO') as (j & d' & r1 & Hj & Hd' & HO'in & Hr1 & Hn1 & _).
        assert (j = Np - heap_next (PinObjects w)) as -> by lia.
        assert (d' = d) as -> by congruence.
        assert (O' = O) as ->.
        { apply (Huo O' r1); [by exists N | congruence]. }
        apply Hno. apply list_elem_of_fmap. by exists (O, heap_next (PinObjects w)
                                                      + (Np - heap_next (PinObjects w))). }
      apply list_elem_of_fmap in HOm as ([O1 Np1] & -> & HOm). simpl in *.
      destruct (Hmatched _ _ HOm) as (j & d1 & r1 & -> & Hd1 & _ & Hr1 & Hn1 & Hr1' & Hback).
      assert (r1 = r0) as -> by congruence.
      assert (heap_next (PinObjects w) + j = Np) as HNpj.
      { apply (Hun _ (set_LinkedTo (λ _, LinkedTo r0) d1)); [|by destruct d1].
        apply Hafter; [|done]. rewrite HP, elem_of_app, elem_of_seq. left.
        apply lookup_lt_Some in Hd1. fold D in Hd1. lia. }
      rewrite HNpj in *. rewrite Hrn in Hr1'. injection Hr1' as ->.
      split; [by destruct d1|]. intros q rq Hq _ _.
      destruct (Hback q Hq) as (rq' & Hrq' & Hin). exists rq'. by rewrite Hh.
    + (* [Np] is a retained orphan *)
      apply list_elem_of_filter in HNp as [_ HNp].
      apply list_elem_of_filter in HNp as [HNpo HNp].
      destruct Hwf as (Hnd & Hb & Hl). destruct (Hl Np HNp) as (rp & Hrp & _).
      pose proof (Hold Np rp HNp Hrp) as Hrp'.
      rewrite decide_True in Hrp' by done.
      assert (rn = set_Orphaned rp) as -> by congruence.
      assert (Np = O) as ->.
      { apply (Huo Np rp); [by exists N|]. rewrite <- Hname. by destruct rp. }
      assert (rp = r0) as -> by congruence.
      split; [by destruct r0|]. intros q rq Hq Hrq HOq.
      destruct (Hl O HO) as (r0' & Hr0' & Hlinks).
      assert (r0' = r0) as -> by congruence.
      destruct (Hlinks q Hq) as [Hqext _].
      destruct (Hext q rq Hqext Hrq) as (rq' & Hrq' & _ & Hkeep).
      exists rq'. rewrite Hh. split; [done|]. apply Hkeep; [done|]. by right.
Qed.

Lemma connections_preserved_witness :
  let w := ex_scenario_world [12] false in
  let w' := ReconstructNode NoManagedPins 0 w in
  ∃ rn, heap_pins (PinObjects w') !! 21 = Some rn
        ∧ LinkedTo rn = LinkedTo (ex_pin "Out" EGPD_Output [10])
        ∧ ∀ q rq, q ∈ LinkedTo (ex_pin "Out" EGPD_Output [10]) →
            heap_pins (PinObjects w) !! q = Some rq → 1 ∈ LinkedTo rq →
            ∃ rq', heap_pins (PinObjects w') !! q = Some rq' ∧ 21 ∈ LinkedTo rq'.
Proof.
  intros w w'. eexists. split; [vm_compute; reflexivity|].
  apply (connections_preserved NoManagedPins 0 w ex_scenario_node 1 21).
  - reflexivity.
  - apply node_pins_wf_b_sound. vm_compute. reflexivity.
  - exists ex_scenario_node. split; [reflexivity|]. split; [|reflexivity].
    apply (bool_decide_unpack _). vm_compute. exact I.
  - eexists. split; [vm_compute; reflexivity|]. split; [|vm_compute; reflexivity].
    apply (bool_decide_unpack _). vm_compute. exact I.
  - reflexivity.
  - apply only_pin_named_b_sound. vm_compute. reflexivity.
  - apply only_pin_named_b_sound. vm_compute. reflexivity.
Defined.

(** C2. The code breaks the claim when a name is used by an input and by
    an output: the rewire pass compares names only, where the claim (and
    the connection check of [ValidateGraphNode]) goes by direction too.
    Here the node has the inputs [A], [B] and the output [A], and its
    instance now declares the input [A] and the output [A]: the search for
    the old output [A] starts at index 2 mod 2 = 0 and takes the new input
    [A], so that the connection of the old output ends on the new input,
    and that of the old input [A] on the new output [A]. *)
Theorem connections_cross_directions :
  let w := ex_cross_world in
  let w' := ReconstructNode NoManagedPins 0 w in
  (Pins <$> GraphNodes w !! 0) = Some [0; 1; 2]
  ∧ heap_pins (PinObjects w) !! 2 = Some (ex_pin "A" EGPD_Output [10])
  ∧ (Pins <$> GraphNodes w' !! 0) = Some [20; 21]
  ∧ heap_pins (PinObjects w') !! 20 = Some (ex_pin "A" EGPD_Input [10])
  ∧ heap_pins (PinObjects w') !! 21 = Some (ex_pin "A" EGPD_Output [11])
  ∧ (LinkedTo <$> heap_pins (PinObjects w') !! 10) = Some [20].
Proof. vm_compute. done. Qed.

(** ** [CleanInvalidPins] *)

Lemma RemoveAtSwap_last {A : Type} (l : list A) (x : A) :
  RemoveAtSwap (length l) (l ++ [x]) = l.
Proof.
  unfold RemoveAtSwap. rewrite last_snoc, length_app. simpl.
  rewrite insert_app_r_alt, Nat.sub_diag by done. simpl.
  replace (length l + 1 - 1) with (length l) by lia. by rewrite take_app_length.
Qed.

Lemma RemoveAtSwap_inner {A : Type} (i : nat) (l : list A) (x : A) :
  i < length l → RemoveAtSwap i (l ++ [x]) = <[i := x]> l.
Proof.
  intros Hi. unfold RemoveAtSwap. rewrite last_snoc, length_app. simpl.
  rewrite insert_app_l by done.
  replace (length l + 1 - 1) with (length (<[i := x]> l)) by (rewrite length_insert; lia).
  by rewrite take_app_length.
Qed.

Lemma CleanInvalidPins_from_keep {A : Type} (keep : A → bool) (i : nat) (l : list A) :
  (∀ k x, k < i → l !! k = Some x → keep x = true) →
  CleanInvalidPins_from keep i l = l.
Proof.
  induction i as [|i IH]; intros Hk; [done|]. simpl.
  destruct (l !! i) as [x|] eqn:Hx.
  - rewrite (Hk i x) by (done || lia). apply IH. intros k y ? ?. apply (Hk k); [lia|done].
  - apply IH. intros k y ? ?. apply (Hk k); [lia|done].
Qed.

Lemma CleanInvalidPins_all_keep {A : Type} (keep : A → bool) (l : list A) :
  Forall (λ x, keep x = true) l → CleanInvalidPins keep l = l.
Proof.
  intros Hall. apply CleanInvalidPins_from_keep. intros k x _ Hx.
  rewrite Forall_lookup in Hall. by eapply Hall.
Qed.

Lemma CleanInvalidPins_from_filter {A : Type} (keep : A → bool) (i : nat) (l : list A) :
  i ≤ length l →
  (∀ k x, i ≤ k → l !! k = Some x → keep x = true) →
  CleanInvalidPins_from keep i l ≡ₚ filter (λ x, keep x = true) l
  ∧ Forall (λ x, keep x = true) (CleanInvalidPins_from keep i l).
Proof.
  revert l. induction i as [|i IH]; intros l Hi Hk.
  - simpl. assert (Forall (λ x, keep x = true) l) as Hall.
    { rewrite Forall_lookup. intros k x Hx. apply (Hk k); [lia|done]. }
    split; [|done]. clear Hk Hi. induction Hall as [|x l Hx _ IHl]; [done|].
    rewrite filter_cons_True by done. by f_equiv.
  - simpl. destruct (l !! i) as [x|] eqn:Hx.
    2:{ apply lookup_ge_None in Hx. lia. }
    destruct (keep x) eqn:Hkx.
    + apply IH; [lia|]. intros k y Hik Hy.
      destruct (decide (k = i)) as [->|]; [congruence|]. apply (Hk k); [lia|done].
    + destruct l as [|y l0 _] using rev_ind; [done|].
      rewrite length_app in Hi. simpl in Hi.
      destruct (decide (i = length l0)) as [->|Hne].
      * rewrite RemoveAtSwap_last.
        rewrite lookup_app_r, Nat.sub_diag in Hx by done. injection Hx as ->.
        rewrite filter_app, filter_cons_False by congruence. simpl. rewrite app_nil_r.
        apply IH; [done|]. intros k z Hik Hz. apply lookup_lt_Some in Hz. lia.
      * assert (i < length l0) as Hlt by lia.
        rewrite (RemoveAtSwap_inner i l0 y Hlt).
        rewrite (lookup_app_l l0 [y] i Hlt) in Hx.
        assert (keep y = true) as Hy.
        { apply (Hk (length l0)); [lia|]. by rewrite lookup_app_r, Nat.sub_diag. }
        destruct (IH (<[i := y]> l0)) as [HP HF].
        { rewrite length_insert. lia. }
        { intros k z Hik Hz. destruct (decide (k = i)) as [->|].
          - rewrite list_lookup_insert_eq in Hz by lia. congruence.
          - rewrite list_lookup_insert_ne in Hz by done.
            apply (Hk k); [lia|]. apply lookup_app_l_Some. done. }
        split; [|done]. rewrite HP.
        rewrite <- (take_drop_middle l0 i x Hx) at 2.
        rewrite insert_take_drop by lia.
        rewrite !filter_app, !filter_cons_True by done.
        rewrite filter_cons_False by congruence. simpl.
        rewrite <- app_assoc. f_equiv.
        rewrite filter_cons_True by done. simpl.
        apply Permutation_cons_append.
Qed.

Lemma CleanInvalidPins_filter {A : Type} (keep : A → bool) (l : list A) :
  CleanInvalidPins keep l ≡ₚ filter (λ x, keep x = true) l
  ∧ Forall (λ x, keep x = true) (CleanInvalidPins keep l).
Proof.
  apply CleanInvalidPins_from_filter; [done|]. intros k x Hk Hx.
  apply lookup_lt_Some in Hx. lia.
Qed.

Lemma CleanInvalidPins_drop_tail {A : Type} (keep : A → bool) (l1 l2 : list A) :
  Forall (λ x, keep x = true) l1 → Forall (λ x, keep x = false) l2 →
  CleanInvalidPins keep (l1 ++ l2) = l1.
Proof.
  intros H1. induction l2 as [|x l2 IH] using rev_ind; intros H2.
  - rewrite app_nil_r. by apply CleanInvalidPins_all_keep.
  - apply Forall_app in H2 as [H2 Hx]. rewrite Forall_singleton in Hx.
    unfold CleanInvalidPins. rewrite (assoc_L (++)), (length_app (l1 ++ l2) [x]). simpl.
    replace (length (l1 ++ l2) + 1) with (S (length (l1 ++ l2))) by lia. simpl.
    rewrite lookup_app_r, Nat.sub_diag by done. simpl. rewrite Hx.
    rewrite RemoveAtSwap_last. by apply IH.
Qed.

(** ** No pin object lies beyond the next free address *)

Lemma heap_alter_bounded (f : UEdGraphPin → UEdGraphPin) (p : pin_ptr) (h : PinHeap) :
  heap_bounded h → heap_bounded (heap_alter f p h).
Proof.
  intros Hb x r. rewrite lookup_heap_alter. simpl.
  destruct (decide (p = x)); [|apply Hb].
  destruct (heap_pins h !! x) as [r'|] eqn:Hx; [|done]. intros _. by eapply Hb.
Qed.

Lemma heap_alloc_bounded (r : UEdGraphPin) (h : PinHeap) :
  heap_bounded h → heap_bounded (heap_alloc r h).1.
Proof.
  intros Hb x r'. simpl. destruct (decide (x = heap_next h)) as [->|Hne].
  - lia.
  - rewrite lookup_insert_ne by done. intros Hx. apply Hb in Hx. lia.
Qed.

Lemma alloc_list_bounded (pins : list UEdGraphPin) (h : PinHeap) :
  heap_bounded h → heap_bounded (alloc_list pins h).
Proof.
  intros Hb. apply (foldl_invariant heap_bounded); [done|].
  intros a r. apply heap_alloc_bounded.
Qed.

Lemma MovePersistentDataFromOldPin_bounded (NewPin OldPin : pin_ptr) (h : PinHeap) :
  heap_bounded h → heap_bounded (MovePersistentDataFromOldPin NewPin OldPin h).
Proof.
  intros Hb. unfold MovePersistentDataFromOldPin. destruct (heap_pins h !! OldPin); [|done].
  apply (foldl_invariant heap_bounded); [done|]. intros a q Ha. unfold MoveLink.
  by do 2 apply heap_alter_bounded.
Qed.

Lemma DestroyOldPin_bounded (h : PinHeap) (OldPin : pin_ptr) :
  heap_bounded h → heap_bounded (DestroyOldPin h OldPin).
Proof.
  intros Hb. unfold DestroyOldPin, DestroyPin. apply heap_alter_bounded.
  unfold BreakAllPinLinks. destruct (heap_pins h !! OldPin); [|done].
  apply (foldl_invariant heap_bounded); [done|]. intros a q Ha. unfold BreakLinkTo.
  destruct (heap_pins a !! OldPin); [|done]. case_decide; [|done].
  by do 2 apply heap_alter_bounded.
Qed.

Lemma RewireStep_bounded (b : bool) (N : UFlowGraphNode) (i : nat) (st : RewireState) :
  heap_bounded (rw_heap st) → heap_bounded (rw_heap (RewireStep b N i st)).
Proof.
  intros Hb. unfold RewireStep. destruct (rw_InOldPins st !! i) as [OldPin|]; [|done].
  cbv zeta. destruct (FindNewPin _ _ _ _ _ _) as [j|]; simpl.
  - destruct (Pins N !! j) as [NewPin|]; simpl.
    + pose proof (MovePersistentDataFromOldPin_bounded NewPin OldPin _ Hb) as Hb1.
      unfold ReconstructSinglePin.
      destruct (heap_pins _ !! OldPin); [|done].
      destruct (ShouldKeepOrphan _ _ _ _); [|done]. simpl. by apply heap_alter_bounded.
    + destruct (heap_pins _ !! OldPin); [|done].
      destruct (ShouldKeepOrphan _ _ _ _); [|done]. simpl. by apply heap_alter_bounded.
  - destruct (heap_pins _ !! OldPin); [|done].
    destruct (ShouldKeepOrphan _ _ _ _); [|done]. simpl. by apply heap_alter_bounded.
Qed.

Lemma RewireLoop_bounded (b : bool) (N : UFlowGraphNode) (i : nat) (st : RewireState) :
  heap_bounded (rw_heap st) → heap_bounded (rw_heap (RewireLoop b N i st)).
Proof.
  revert st. induction i as [|i IH]; intros st Hb; [done|].
  simpl. by apply IH, RewireStep_bounded.
Qed.

Lemma RebuildPinArrays_bounded (b : bool) (FlowNode : option UFlowNodeBase)
    (N N' : UFlowGraphNode) (h h' : PinHeap) (rw : RewireState) :
  heap_bounded h → RebuildPinArrays b FlowNode (N, h) = (N', h', rw) → heap_bounded h'.
Proof.
  intros Hb Heq. unfold RebuildPinArrays in Heq.
  destruct (AllocateDefaultPins_spec FlowNode N h) as (Is & Os & Halloc).
  rewrite Halloc in Heq. unfold RewireOldPinsToNewPins in Heq.
  injection Heq as _ <- <-.
  apply (foldl_invariant heap_bounded); [|intros a q; apply DestroyOldPin_bounded].
  apply RewireLoop_bounded. simpl. by apply alloc_list_bounded.
Qed.

(** ** The refresh of the node instance, repeated *)

Lemma CheckPinsMatch_refl (L : list FFlowPin) : CheckPinsMatch L L = true.
Proof. by apply CheckPinsMatch_spec. Qed.

Lemma CleanInvalidPins_twice {A : Type} (keep : A → bool) (l : list A) :
  CleanInvalidPins keep (CleanInvalidPins keep l) = CleanInvalidPins keep l.
Proof. apply CleanInvalidPins_all_keep, CleanInvalidPins_filter. Qed.

(** What [TryUpdateNodePins] does and returns depends on the node instances
    only. *)
Lemma TryUpdateNodePins_instances_only (N : UFlowGraphNode) (w wa : World) :
  NodeInstances wa = NodeInstances w →
  (TryUpdateNodePins N wa).2 = (TryUpdateNodePins N w).2
  ∧ NodeInstances (TryUpdateNodePins N wa).1 = NodeInstances (TryUpdateNodePins N w).1.
Proof.
  intros Hi. unfold TryUpdateNodePins, Cast_UFlowNode, SupportsContextPins, deref_Instance.
  rewrite Hi. repeat case_match; simpl; by rewrite ?Hi.
Qed.

Lemma TryUpdateAutoDataPins_instances_only (T : UFlowNodeBase → option UFlowNodeBase)
    (N : UFlowGraphNode) (w wa : World) :
  NodeInstances wa = NodeInstances w →
  (TryUpdateAutoDataPins T N wa).2 = (TryUpdateAutoDataPins T N w).2
  ∧ NodeInstances (TryUpdateAutoDataPins T N wa).1
    = NodeInstances (TryUpdateAutoDataPins T N w).1.
Proof.
  intros Hi. unfold TryUpdateAutoDataPins, deref_Instance.
  rewrite Hi. repeat case_match; simpl; by rewrite ?Hi.
Qed.

Lemma CheckGraphPinsMatchNodePins_reads (N : UFlowGraphNode) (w wa : World) :
  NodeInstances wa = NodeInstances w → PinObjects wa = PinObjects w →
  CheckGraphPinsMatchNodePins N wa = CheckGraphPinsMatchNodePins N w.
Proof.
  intros Hi Hp. unfold CheckGraphPinsMatchNodePins, Cast_UFlowNode, deref_Instance.
  by rewrite Hi, Hp.
Qed.

Lemma TryUpdateAutoDataPins_unchanged (T : UFlowNodeBase → option UFlowNodeBase)
    (N : UFlowGraphNode) (w : World) :
  (TryUpdateAutoDataPins T N w).2 = false → (TryUpdateAutoDataPins T N w).1 = w.
Proof. unfold TryUpdateAutoDataPins. by repeat case_match. Qed.

Lemma TryUpdateNodePins_unchanged (N : UFlowGraphNode) (w : World) :
  (TryUpdateNodePins N w).2 = false → (TryUpdateNodePins N w).1 = w.
Proof. unfold TryUpdateNodePins. by repeat case_match. Qed.

Lemma refreshed_world_PinObjects_1 (N : UFlowGraphNode) (w : World) :
  PinObjects (TryUpdateNodePins N w).1 = PinObjects w.
Proof. by destruct (TryUpdateNodePins_instances N w) as [->|(i & X & ->)]. Qed.

Lemma refreshed_world_PinObjects_2 (T : UFlowNodeBase → option UFlowNodeBase)
    (N : UFlowGraphNode) (w : World) :
  PinObjects (TryUpdateAutoDataPins T N w).1 = PinObjects w.
Proof. by destruct (TryUpdateAutoDataPins_instances T N w) as [->|(i & X & ->)]. Qed.

Lemma needs_rebuild_reads (T : UFlowNodeBase → option UFlowNodeBase) (N : UFlowGraphNode)
    (w wa : World) :
  NodeInstances wa = NodeInstances w → PinObjects wa = PinObjects w →
  needs_rebuild T N wa = needs_rebuild T N w.
Proof.
  intros Hi Hp. unfold needs_rebuild. cbv zeta.
  set (N1 := set_bIsReconstructingNode true N).
  destruct (TryUpdateAutoDataPins_instances_only T N1 w wa Hi) as [-> Hi1].
  destruct (TryUpdateNodePins_instances_only N1 _ _ Hi1) as [-> Hi2].
  rewrite (CheckGraphPinsMatchNodePins_reads N1 _ _ Hi2); [done|].
  by rewrite !refreshed_world_PinObjects_1, !refreshed_world_PinObjects_2.
Qed.

(** A second [TryUpdateNodePins] finds the descriptors that the first one
    left as required, and changes nothing. *)
Lemma TryUpdateNodePins_settled (N Na : UFlowGraphNode) (w wa : World) (i : inst_ptr)
    (Xa : UFlowNodeBase) :
  NodeInstance N = Some i → NodeInstance Na = Some i → Graph Na = Graph N →
  bNeedsFullReconstruction Na = false →
  NodeInstances wa = NodeInstances (TryUpdateNodePins N w).1 →
  NodeInstances wa !! i = Some Xa → Inst_Class Xa = Class_FlowNode →
  Inst_IsGarbage Xa = false →
  TryUpdateNodePins Na wa = (wa, false).
Proof.
  intros HN HNa HG Hfull Hi HXa Hclass Hgarb.
  unfold TryUpdateNodePins at 1.
  unfold Cast_UFlowNode, SupportsContextPins, deref_Instance, GetFlowGraph.
  rewrite HNa, HG, Hfull. simpl. rewrite HXa. rewrite decide_True by done. rewrite Hgarb.
  rewrite orb_false_r.
  set (bLoad := match Graph N with Some G => bIsLoadingGraph G | None => false end).
  destruct ((negb bLoad || bCanRefreshContextPinsOnLoad Xa) && bSupportsContextPins Xa)
    eqn:Hconsider; [|done]. simpl.
  (* the first call compared the descriptors as well *)
  revert Hi. unfold TryUpdateNodePins.
  unfold Cast_UFlowNode, SupportsContextPins, deref_Instance, GetFlowGraph.
  rewrite HN. simpl. fold bLoad.
  destruct (NodeInstances w !! i) as [X|] eqn:HX; simpl.
  2:{ intros Hi. simpl in Hi. rewrite Hi, HX in HXa. done. }
  destruct (decide (Inst_Class X = Class_FlowNode)) as [HcX|HcX].
  2:{ intros Hi. simpl in Hi. rewrite Hi, HX in HXa. congruence. }
  destruct (Inst_IsGarbage X) eqn:HgX.
  { intros Hi. simpl in Hi. rewrite Hi, HX in HXa. congruence. }
  set (ReqI := CleanInvalidPins FlowPin_IsValid (CDO_InputPins X ++ ContextInputs X)).
  set (ReqO := CleanInvalidPins FlowPin_IsValid (CDO_OutputPins X ++ ContextOutputs X)).
  destruct (negb (((negb bLoad || bCanRefreshContextPinsOnLoad X) && bSupportsContextPins X)
                  || bNeedsFullReconstruction N)) eqn:Hrefresh; simpl.
  - intros Hi. simpl in Hi. rewrite Hi, HX in HXa. injection HXa as <-.
    apply negb_true_iff, orb_false_iff in Hrefresh as [Hrefresh _]. congruence.
  - destruct (CheckPinsMatch ReqI (CleanInvalidPins FlowPin_IsValid (Inst_InputPins X)))
      eqn:HmI;
    destruct (CheckPinsMatch ReqO (CleanInvalidPins FlowPin_IsValid (Inst_OutputPins X)))
      eqn:HmO; simpl; intros Hi; simpl in Hi; rewrite Hi in HXa;
      rewrite ?lookup_insert_eq in HXa; rewrite ?HX in HXa; injection HXa as <-; simpl;
      fold ReqI ReqO; unfold ReqI at 2, ReqO at 2;
      rewrite ?CleanInvalidPins_twice; fold ReqI ReqO;
      rewrite ?CheckPinsMatch_refl, ?HmI, ?HmO; done.
Qed.

Lemma declared_pins_names (X : UFlowNodeBase) :
  PinName <$> declared_pins X
  = FlowPin_PinName <$> filter (λ p, FlowPin_IsValid p = true)
                          (Inst_InputPins X ++ Inst_OutputPins X).
Proof.
  unfold declared_pins. rewrite filter_app, !fmap_app, <- !list_fmap_compose.
  rewrite !(list_filter_iff (λ p, FlowPin_IsValid p = true) (λ p, FlowPin_IsValid p))
    by (intros p; symmetry; apply Is_true_true).
  done.
Qed.

(** After a rebuild from a flow node, the pins that are not orphaned are the
    freshly allocated ones, and they carry the names of the valid
    descriptors: the graph pins match the node pins. *)
Lemma CheckGraphPinsMatchNodePins_rebuilt (b : bool) (X : UFlowNodeBase)
    (N N' Na : UFlowGraphNode) (h h' : PinHeap) (rw : RewireState) (wa : World)
    (i : inst_ptr) :
  node_pins_wf N h → RebuildPinArrays b (Some X) (N, h) = (N', h', rw) →
  Pins Na = Pins N' → NodeInstance Na = Some i → NodeInstances wa !! i = Some X →
  Inst_Class X = Class_FlowNode → Inst_IsGarbage X = false → PinObjects wa = h' →
  CheckGraphPinsMatchNodePins Na wa = true.
Proof.
  intros Hwf Heq HP Hinst HX Hclass Hgarb Hh.
  destruct (RebuildPinArrays_spec _ _ _ _ _ _ _ Hwf Heq)
    as (HPins & _ & Horph & Hold & Hnew & _).
  simpl in HPins, Hnew.
  unfold CheckGraphPinsMatchNodePins, Cast_UFlowNode, deref_Instance.
  rewrite Hinst. simpl. rewrite HX, decide_True by done. rewrite Hgarb, Hh, HP, HPins.
  rewrite CleanInvalidPins_drop_tail.
  - assert (pin_name h' <$> seq (heap_next h) (length (declared_pins X))
            = PinName <$> declared_pins X) as ->.
    { apply list_eq. intros j. rewrite !list_lookup_fmap.
      destruct (declared_pins X !! j) as [d|] eqn:Hd.
      - rewrite lookup_seq_lt by (by eapply lookup_lt_Some). simpl.
        destruct (Hnew j d Hd) as (r' & Hr' & Hforget). unfold pin_name. rewrite Hr'. simpl.
        f_equal. by apply (f_equal PinName) in Hforget.
      - rewrite lookup_seq_ge; [done|]. by apply lookup_ge_None. }
    rewrite declared_pins_names.
    destruct (CleanInvalidPins_filter FlowPin_IsValid
                (Inst_InputPins X ++ Inst_OutputPins X)) as [Hperm _].
    unfold CheckPinsMatch_Graph. rewrite length_fmap, <- (Permutation_length Hperm).
    rewrite Nat.eqb_refl. simpl. apply forallb_forall. intros fp Hfp.
    apply list_elem_of_In in Hfp. rewrite Hperm in Hfp.
    unfold ContainsByPredicate. apply existsb_exists. exists (FlowPin_PinName fp).
    split; [|by apply bool_decide_eq_true].
    apply list_elem_of_In, list_elem_of_fmap. by exists fp.
  - apply Forall_forall. intros p Hp. apply elem_of_seq in Hp.
    destruct (lookup_lt_is_Some_2 (declared_pins X) (p - heap_next h)) as [d Hd]; [lia|].
    destruct (Hnew _ _ Hd) as (r' & Hr' & Hforget).
    replace (heap_next h + (p - heap_next h)) with p in Hr' by lia.
    unfold pin_orphaned. rewrite Hr'. simpl.
    apply (f_equal bOrphanedPin) in Hforget. simpl in Hforget. rewrite Hforget.
    destruct (new_pin_objects_fresh (Some X) d) as (_ & -> & _); [|done].
    by eapply list_elem_of_lookup_2.
  - apply Forall_forall. intros p Hp.
    apply list_elem_of_filter in Hp as [_ Hp]. apply list_elem_of_filter in Hp as [Hpo Hp].
    destruct Hwf as (_ & _ & Hl). destruct (Hl p Hp) as (r0 & Hr0 & _).
    unfold pin_orphaned. rewrite (Hold p r0 Hp Hr0), decide_True by done. done.
Qed.

Lemma filter_all_in {A : Type} (P : A → Prop) `{∀ x, Decision (P x)} (l : list A) :
  (∀ x, x ∈ l → P x) → filter P l = l.
Proof.
  induction l as [|x l IH]; intros Hl; [done|].
  rewrite filter_cons_True by (apply Hl; left). f_equal. apply IH. intros y Hy. apply Hl. by right.
Qed.

Lemma AppendOrphans_members (h : PinHeap) (l : list pin_ptr) :
  ∀ N, ∃ Ps Is Os, foldl (AppendOrphan h) N l = set_PinArrays Ps Is Os N.
Proof.
  induction l as [|p l IH]; intros N; cbn [foldl].
  - exists (Pins N), (InputPins N), (OutputPins N). by destruct N.
  - destruct (IH (AppendOrphan h N p)) as (Ps & Is & Os & ->).
    unfold AppendOrphan. repeat case_match; eauto.
Qed.

(** A rebuild changes the pin arrays of the node and no other member. *)
Lemma RebuildPinArrays_members (b : bool) (FlowNode : option UFlowNodeBase)
    (N N' : UFlowGraphNode) (h h' : PinHeap) (rw : RewireState) :
  RebuildPinArrays b FlowNode (N, h) = (N', h', rw) →
  ∃ Ps Is Os, N' = set_PinArrays Ps Is Os N.
Proof.
  intros Heq. unfold RebuildPinArrays in Heq.
  destruct (AllocateDefaultPins_spec FlowNode N h) as (Is & Os & Halloc).
  rewrite Halloc in Heq. unfold RewireOldPinsToNewPins in Heq.
  injection Heq as <- _ _.
  edestruct AppendOrphans_members as (Ps' & Is' & Os' & ->). eauto.
Qed.

(** A rebuild that allocates no pin, run a second time, keeps the orphans
    of the first run, in their order. *)
Lemma RebuildPinArrays_orphans_again (b : bool) (N N' Na N2 : UFlowGraphNode)
    (h h' h2 : PinHeap) (rw rw2 : RewireState) :
  node_pins_wf N h →
  RebuildPinArrays b None (N, h) = (N', h', rw) →
  Pins Na = Pins N' →
  bDisableOrphanPinSaving Na = bDisableOrphanPinSaving N →
  OrphanedPinSaveMode Na = OrphanedPinSaveMode N →
  RebuildPinArrays b None (Na, h') = (N2, h2, rw2) →
  Pins N2 = Pins N'
  ∧ ∀ p, p ∈ Pins N' →
      pin_name h2 p = pin_name h' p ∧ pin_orphaned h2 p = pin_orphaned h' p.
Proof.
  intros Hwf Heq HP Hdis Hmode Heq2.
  destruct (RebuildPinArrays_spec _ _ _ _ _ _ _ Hwf Heq)
    as (HPins & _ & Horph & Hold & _ & _ & Hext).
  simpl in HPins.
  set (kept := filter (λ p, has_no_parent h p)
                 (filter (λ o, o ∈ rw_OrphanedOldPins rw) (Pins N))) in *.
  assert (∀ o, o ∈ kept →
            ∃ r0, o ∈ Pins N ∧ heap_pins h !! o = Some r0
                  ∧ heap_pins h' !! o = Some (set_Orphaned r0)
                  ∧ OrphanCondition b N r0 = true ∧ ParentPin r0 = None) as Hkept.
  { intros o Ho. apply list_elem_of_filter in Ho as [Hnp Ho].
    apply list_elem_of_filter in Ho as [Hoo Ho].
    destruct (proj1 (Horph o) Hoo) as (_ & _ & r0 & Hr0 & Hc).
    exists r0. split; [done|]. split; [done|]. split.
    - rewrite (Hold o r0 Ho Hr0). by rewrite decide_True.
    - split; [done|]. unfold has_no_parent in Hnp. rewrite Hr0 in Hnp.
      by apply bool_decide_unpack in Hnp. }
  assert (node_pins_wf Na h') as Hwf2.
  { destruct Hwf as (Hnd & Hb & Hl). split; [|split].
    - rewrite HP, HPins. simpl. unfold kept. by do 2 apply NoDup_filter.
    - by apply (RebuildPinArrays_bounded b None N N' h h' rw).
    - intros p Hp. rewrite HP, HPins in Hp. simpl in Hp.
      destruct (Hkept p Hp) as (r0 & HpN & Hr0 & Hr0' & _).
      exists (set_Orphaned r0). split; [done|]. simpl. intros q Hq.
      destruct (Hl p HpN) as (r & Hr & Hlinks).
      assert (r = r0) as -> by congruence.
      destruct (Hlinks q Hq) as [Hqext [rq Hrq]].
      split.
      + rewrite HP, HPins. simpl. intros Hqk.
        by destruct (Hkept q Hqk) as (_ & HqN & _).
      + destruct (Hext q rq Hqext Hrq) as (rq' & -> & _). by eexists. }
  destruct (RebuildPinArrays_spec _ _ _ _ _ _ _ Hwf2 Heq2)
    as (HPins2 & _ & Horph2 & Hold2 & _ & Hmatched2 & _).
  simpl in HPins2. rewrite HP, HPins in HPins2, Horph2, Hold2. simpl in HPins2, Horph2, Hold2.
  assert (∀ o, o ∈ kept → o ∈ rw_OrphanedOldPins rw2) as Hall.
  { intros o Ho. destruct (Hkept o Ho) as (r0 & _ & _ & Hr0' & Hc & _).
    apply Horph2. split; [done|]. split.
    - intros ((O & Np) & -> & Hm)%list_elem_of_fmap.
      destruct (Hmatched2 _ _ Hm) as (j & d & _ & _ & Hd & _). done.
    - exists (set_Orphaned r0). split; [done|]. revert Hc.
      unfold OrphanCondition, ShouldKeepOrphan, ShouldSavePinIfOrphaned.
      simpl. by rewrite Hdis, Hmode. }
  assert (Pins N2 = kept) as HN2.
  { rewrite HPins2. rewrite (filter_all_in _ kept) by done.
    apply filter_all_in. intros o Ho. unfold has_no_parent.
    destruct (Hkept o Ho) as (r0 & _ & _ & -> & _ & Hpar). simpl.
    by rewrite bool_decide_eq_true_2. }
  split; [by rewrite HN2, HPins|]. intros p Hp. rewrite HPins in Hp. simpl in Hp.
  destruct (Hkept p Hp) as (r0 & _ & _ & Hr0' & _).
  unfold pin_name, pin_orphaned.
  rewrite (Hold2 p _ Hp Hr0'), decide_True by (by apply Hall). by rewrite Hr0'.
Qed.

Lemma needs_rebuild_flag (T : UFlowNodeBase → option UFlowNodeBase) (b : bool)
    (N : UFlowGraphNode) (w : World) :
  needs_rebuild T (set_bIsReconstructingNode b N) w = needs_rebuild T N w.
Proof. unfold needs_rebuild. by destruct N. Qed.

Lemma refreshed_world_unchanged (T : UFlowNodeBase → option UFlowNodeBase)
    (N : UFlowGraphNode) (w : World) :
  needs_rebuild T N w = false → refreshed_world T N w = w.
Proof.
  unfold needs_rebuild, refreshed_world. cbv zeta.
  intros Hn. apply orb_false_iff in Hn as [Hn _]. apply orb_false_iff in Hn as [Hn H2].
  apply orb_false_iff in Hn as [_ H1].
  apply TryUpdateNodePins_unchanged in H2. rewrite H2.
  by apply TryUpdateAutoDataPins_unchanged.
Qed.

Lemma TryUpdateAutoDataPins_stable (T : UFlowNodeBase → option UFlowNodeBase)
    (N : UFlowGraphNode) (w : World) (i : inst_ptr) (X : UFlowNodeBase) :
  NodeInstance N = Some i → NodeInstances w !! i = Some X → T X = None →
  TryUpdateAutoDataPins T N w = (w, false).
Proof.
  intros HN HX HT. unfold TryUpdateAutoDataPins, deref_Instance. rewrite HN. simpl.
  rewrite HX, HT. by destruct (_ && _).
Qed.

Lemma refreshed_world_not_flow_node (T : UFlowNodeBase → option UFlowNodeBase)
    (N : UFlowGraphNode) (w : World) (i : inst_ptr) (X : UFlowNodeBase) :
  NodeInstance N = Some i → NodeInstances w !! i = Some X →
  Inst_Class X ≠ Class_FlowNode → refreshed_world T N w = w.
Proof.
  intros HN HX Hc. unfold refreshed_world, TryUpdateAutoDataPins, deref_Instance. simpl.
  rewrite HN. simpl. rewrite HX. rewrite bool_decide_eq_false_2, andb_false_r by done. simpl.
  unfold TryUpdateNodePins, Cast_UFlowNode, deref_Instance. simpl. rewrite HN. simpl.
  rewrite HX. by rewrite decide_False.
Qed.

Lemma CanReconstructNode_valid_instance (w : World) (N : UFlowGraphNode) :
  CanReconstructNode w N = true →
  ∃ i X, NodeInstance N = Some i ∧ NodeInstances w !! i = Some X ∧ Inst_IsGarbage X = false.
Proof.
  rewrite CanReconstructNode_eq. unfold IsValid_Instance, deref_Instance.
  destruct (_ || _ || _); [done|].
  destruct (NodeInstance N) as [i|] eqn:Hi; simpl; [|done].
  destruct (NodeInstances w !! i) as [X|] eqn:HX; simpl; [|done].
  destruct (Inst_IsGarbage X) eqn:Hg; simpl; [done|]. intros _. by exists i, X.
Qed.

Lemma pin_sequence_same (w w' : World) (This : node_ptr) (N N' : UFlowGraphNode) :
  GraphNodes w !! This = Some N → GraphNodes w' !! This = Some N' →
  Pins N' = Pins N →
  (∀ p, p ∈ Pins N → pin_name (PinObjects w') p = pin_name (PinObjects w) p
                     ∧ pin_orphaned (PinObjects w') p = pin_orphaned (PinObjects w) p) →
  pin_sequence w' This = pin_sequence w This.
Proof.
  intros HN HN' HP Hsame. unfold pin_sequence. rewrite HN, HN'. simpl. rewrite HP. f_equal.
  apply list_fmap_ext. intros k p Hp. apply list_elem_of_lookup_2 in Hp.
  destruct (Hsame p Hp) as [-> ->]. done.
Qed.

(** C1 (idempotence). Let the pins of a node be distinct live objects that
    are linked to pins of other nodes only, and let the owning asset have
    nothing more to refresh on the node instance once [ReconstructNode] has
    run. Then a second call of [ReconstructNode], made right after the
    first, leaves the node with the pin sequence the first call produced:
    the same pin names, in the same order, with the same orphan flags. *)
Theorem reconstruct_idempotent (T : UFlowNodeBase → option UFlowNodeBase)
    (This : node_ptr) (w : World) (N : UFlowGraphNode) :
  GraphNodes w !! This = Some N →
  node_pins_wf N (PinObjects w) →
  let w1 := ReconstructNode T This w in
  (∀ i X1, NodeInstance N = Some i → NodeInstances w1 !! i = Some X1 → T X1 = None) →
  pin_sequence (ReconstructNode T This w1) This = pin_sequence w1 This.
Proof.
  intros HN Hwf w1 Hstable.
  destruct (CanReconstructNode w N) eqn:Hc.
  2:{ (* the guard stops both calls *)
    assert (w1 = w) as Hw1.
    { unfold w1, ReconstructNode. by rewrite HN, Hc. }
    rewrite Hw1. fold w1. by rewrite Hw1. }
  pose proof (ReconstructNode_unfold T This w N HN Hc) as Hw1. fold w1 in Hw1.
  cbv zeta in Hw1.
  destruct (refreshed_world_same T N w) as (Hp2 & Hg2 & Ht2 & Ho2 & _).
  set (w2 := refreshed_world T N w) in *.
  set (N1 := set_bIsReconstructingNode true N) in *.
  pose proof (node_pins_wf_reconstructing true N _ Hwf) as Hwf1. fold N1 in Hwf1.
  destruct (needs_rebuild T N w) eqn:Hneed.
  - (* the first call rebuilt the pin array *)
    destruct (RebuildPinArrays (bOrphanPinsEnabled w2) (Cast_UFlowNode w2 (NodeInstance N1))
                (N1, PinObjects w2)) as [[N' h'] rw] eqn:Heq.
    simpl in Hw1. rewrite Hp2, Ho2 in Heq.
    set (Nr := set_bIsReconstructingNode false (set_bNeedsFullReconstruction false N')) in *.
    assert (GraphNodes w1 !! This = Some Nr) as HN1.
    { rewrite Hw1. simpl. apply lookup_insert_eq. }
    assert (PinObjects w1 = h') as Hh1 by by rewrite Hw1.
    assert (NodeInstances w1 = NodeInstances w2) as Hi1 by by rewrite Hw1.
    assert (bOrphanPinsEnabled w1 = bOrphanPinsEnabled w) as Ho1 by by rewrite Hw1.
    destruct (RebuildPinArrays_members _ _ _ _ _ _ _ Heq) as (Ps & Is & Os & HN').
    destruct (ReconstructNode_pins T This w1 Nr HN1)
      as [(Nb & HNb & HPb & Hhb)|(Nb & hb & rwb & Hcb & Hneedb & Heqb & HNb & Hhb)].
    { apply (pin_sequence_same _ _ This Nr Nb); try done. intros p _. by rewrite Hhb. }
    destruct (CanReconstructNode_valid_instance _ _ Hcb) as (i & X1 & Hi & HX1 & Hgarb).
    assert (NodeInstance N = Some i) as HiN.
    { rewrite <- Hi. unfold Nr. rewrite HN'. by destruct N. }
    pose proof (Hstable i X1 HiN HX1) as HT.
    destruct (decide (Inst_Class X1 = Class_FlowNode)) as [Hclass|Hclass].
    + (* a flow node: the second call has nothing to rebuild *)
      exfalso. revert Hneedb. unfold needs_rebuild. cbv zeta.
      set (Na := set_bIsReconstructingNode true Nr).
      rewrite (TryUpdateAutoDataPins_stable T Na w1 i X1) by done. simpl.
      assert (TryUpdateNodePins Na w1 = (w1, false)) as ->.
      { apply (TryUpdateNodePins_settled N1 Na (TryUpdateAutoDataPins T N1 w).1 w1 i X1).
        - by destruct N.
        - exact Hi.
        - unfold Na, Nr. rewrite HN'. by destruct N.
        - reflexivity.
        - exact Hi1.
        - exact HX1.
        - exact Hclass.
        - exact Hgarb. }
      simpl.
      assert (CheckGraphPinsMatchNodePins Na w1 = true) as ->; [|done].
      apply (CheckGraphPinsMatchNodePins_rebuilt (bOrphanPinsEnabled w) X1 N1 N' Na
               (PinObjects w) h' rw w1 i); try done.
      rewrite <- Heq. f_equal. unfold Cast_UFlowNode, deref_Instance.
      replace (NodeInstance N1) with (Some i) by by destruct N. simpl.
      rewrite <- Hi1, HX1. by rewrite decide_True.
    + (* not a flow node: no pin is allocated, the orphans are kept again *)
      assert (Cast_UFlowNode w2 (NodeInstance N1) = None) as Hcast.
      { unfold Cast_UFlowNode, deref_Instance.
        replace (NodeInstance N1) with (Some i) by by destruct N. simpl.
        rewrite <- Hi1, HX1. by rewrite decide_False. }
      rewrite Hcast in Heq.
      rewrite (refreshed_world_not_flow_node T Nr w1 i X1) in Heqb by done.
      assert (Cast_UFlowNode w1 (NodeInstance Nr) = None) as Hcastb.
      { unfold Cast_UFlowNode, deref_Instance. rewrite Hi. simpl.
        rewrite HX1. by rewrite decide_False. }
      rewrite Hcastb, Ho1, Hh1 in Heqb.
      destruct (RebuildPinArrays_orphans_again (bOrphanPinsEnabled w) N1 N'
                  (set_bIsReconstructingNode true Nr) Nb (PinObjects w) h' hb rw rwb
                  Hwf1 Heq) as [HPb Hsame].
      { done. }
      { unfold Nr. rewrite HN'. by destruct N. }
      { unfold Nr. rewrite HN'. by destruct N. }
      { exact Heqb. }
      apply (pin_sequence_same _ _ This Nr _ HN1 HNb); [done|].
      intros p Hp. rewrite Hhb, Hh1. by apply Hsame.
  - (* the first call found nothing to rebuild *)
    set (Nk := set_bIsReconstructingNode false N1) in *.
    assert (GraphNodes w1 !! This = Some Nk) as HN1.
    { rewrite Hw1. simpl. apply lookup_insert_eq. }
    assert (PinObjects w1 = PinObjects w) as Hh1 by by rewrite Hw1.
    assert (NodeInstances w1 = NodeInstances w) as Hi1.
    { rewrite Hw1. simpl. unfold w2. by rewrite refreshed_world_unchanged. }
    destruct (ReconstructNode_pins T This w1 Nk HN1)
      as [(Nb & HNb & HPb & Hhb)|(Nb & hb & rwb & Hcb & Hneedb & _)].
    { apply (pin_sequence_same _ _ This Nk Nb); try done. intros p _. by rewrite Hhb. }
    exfalso. unfold Nk, N1 in Hneedb. rewrite !needs_rebuild_flag in Hneedb.
    rewrite (needs_rebuild_reads T N w w1) in Hneedb by done. congruence.
Qed.

Lemma reconstruct_idempotent_witness :
  let w1 := ReconstructNode NoManagedPins 0 (ex_scenario_world [12] false) in
  pin_sequence w1 0
  = Some [("In"%string, false); ("Out"%string, false); ("True"%string, false);
          ("False"%string, true)]
  ∧ pin_sequence (ReconstructNode NoManagedPins 0 w1) 0 = pin_sequence w1 0.
Proof.
  intros w1. split; [vm_compute; reflexivity|].
  apply (reconstruct_idempotent NoManagedPins 0 (ex_scenario_world [12] false)
           ex_scenario_node).
  - reflexivity.
  - apply node_pins_wf_b_sound. vm_compute. reflexivity.
  - reflexivity.
Defined.

(** * Further properties of the pin helpers *)

(** X1. Both [CleanInvalidPins] overloads leave exactly the entries that
    pass the test, each as often as before, though not always in their
    order (the last entry is swapped into a vacated place); nothing that
    fails the test remains; an array whose entries all pass is returned as
    it is, so that cleaning twice is cleaning once. *)
Theorem CleanInvalidPins_keeps_the_valid {A : Type} (keep : A → bool) (l : list A) :
  CleanInvalidPins keep l ≡ₚ filter (λ x, keep x = true) l
  ∧ Forall (λ x, keep x = true) (CleanInvalidPins keep l)
  ∧ (Forall (λ x, keep x = true) l → CleanInvalidPins keep l = l)
  ∧ CleanInvalidPins keep (CleanInvalidPins keep l) = CleanInvalidPins keep l.
Proof.
  destruct (CleanInvalidPins_filter keep l) as [Hperm Hall].
  split; [done|]. split; [done|]. split.
  - apply CleanInvalidPins_all_keep.
  - apply CleanInvalidPins_twice.
Qed.

(** X2. When the descriptors of the node carry distinct names, the second
    [CheckPinsMatch] overload answers true exactly when the names of the
    graph pins are those of the descriptors, each once, in some order. *)
Theorem CheckPinsMatch_Graph_distinct_names (GraphPinNames : list FName)
    (NodePins : list FFlowPin) :
  NoDup (FlowPin_PinName <$> NodePins) →
  (CheckPinsMatch_Graph GraphPinNames NodePins = true
   ↔ GraphPinNames ≡ₚ FlowPin_PinName <$> NodePins).
Proof.
  intros Hnd. unfold CheckPinsMatch_Graph.
  destruct (Nat.eqb_spec (length GraphPinNames) (length NodePins)) as [Hlen|Hlen]; simpl.
  - rewrite forallb_forall. split.
    + intros Hall. symmetry. apply submseteq_length_Permutation.
      * apply NoDup_submseteq; [done|]. intros x (fp & -> & Hfp)%list_elem_of_fmap.
        apply list_elem_of_In, Hall in Hfp. unfold ContainsByPredicate in Hfp.
        apply existsb_exists in Hfp as (g & Hg & Heq).
        apply bool_decide_eq_true in Heq as <-. by apply list_elem_of_In.
      * rewrite length_fmap. lia.
    + intros Hperm fp Hfp. unfold ContainsByPredicate. apply existsb_exists.
      exists (FlowPin_PinName fp). split; [|by apply bool_decide_eq_true].
      apply list_elem_of_In. rewrite Hperm. apply list_elem_of_fmap.
      exists fp. split; [done|]. by apply list_elem_of_In.
  - split; [done|]. intros Hperm. apply Permutation_length in Hperm.
    rewrite length_fmap in Hperm. done.
Qed.

Lemma CheckPinsMatch_Graph_distinct_names_witness :
  CheckPinsMatch_Graph ["Out"; "In"]%string [pinIn; pinOut] = true
  ↔ ["Out"; "In"]%string ≡ₚ FlowPin_PinName <$> [pinIn; pinOut].
Proof.
  apply (CheckPinsMatch_Graph_distinct_names ["Out"; "In"]%string [pinIn; pinOut]).
  apply (bool_decide_unpack _). vm_compute. exact I.
Defined.

(** X3. The inner loop of the rewire pass is a cyclic first fit: started at
    [start], it returns the first index in the order [start], [start+1],
    ..., wrapping around, whose new pin is unclaimed and carries the old
    pin's name; it returns nothing exactly when no new pin qualifies. *)
Theorem FindNewPin_first_fit (h : PinHeap) (NewPins : list pin_ptr) (M : list bool)
    (Name : FName) (start : nat) :
  start < length NewPins →
  let n := length NewPins in
  (∀ j, FindNewPin h NewPins M Name start n = Some j ↔
        ∃ t, t < n ∧ j = (start + t) `mod` n
             ∧ good_new_pin h NewPins M Name j = true
             ∧ ∀ t', t' < t → good_new_pin h NewPins M Name ((start + t') `mod` n) = false)
  ∧ (FindNewPin h NewPins M Name start n = None ↔
     ∀ j, j < n → good_new_pin h NewPins M Name j = false).
Proof.
  intros Hs n.
  assert (∀ count s j, s < n →
            FindNewPin h NewPins M Name s count = Some j ↔
            ∃ t, t < count ∧ j = (s + t) `mod` n
                 ∧ good_new_pin h NewPins M Name j = true
                 ∧ ∀ t', t' < t →
                     good_new_pin h NewPins M Name ((s + t') `mod` n) = false) as Hgen.
  { induction count as [|count IH]; intros s j Hsn.
    - simpl. split; [done|]. intros (t & Ht & _). lia.
    - simpl. fold (good_new_pin h NewPins M Name s). fold n.
      destruct (good_new_pin h NewPins M Name s) eqn:Hg.
      + split.
        * intros [= <-]. exists 0. split; [lia|].
          rewrite Nat.add_0_r, Nat.mod_small by done. split; [done|]. split; [done|].
          intros t' Ht'. lia.
        * intros (t & Ht & -> & Hgood & Hfirst). destruct t as [|t].
          { by rewrite Nat.add_0_r, Nat.mod_small. }
          specialize (Hfirst 0). rewrite Nat.add_0_r, Nat.mod_small in Hfirst by done.
          rewrite Hfirst in Hg by lia. done.
      + rewrite IH by (apply Nat.mod_upper_bound; lia). split.
        * intros (t & Ht & -> & Hgood & Hfirst). exists (S t). split; [lia|].
          rewrite Nat.Div0.add_mod_idemp_l in Hgood |- *.
          replace (s + S t) with (s + 1 + t) by lia. split; [done|]. split; [done|].
          intros [|t'] Ht'.
          { by rewrite Nat.add_0_r, Nat.mod_small. }
          specialize (Hfirst t'). rewrite Nat.Div0.add_mod_idemp_l in Hfirst.
          replace (s + S t') with (s + 1 + t') by lia. apply Hfirst. lia.
        * intros (t & Ht & -> & Hgood & Hfirst). destruct t as [|t].
          { rewrite Nat.add_0_r, Nat.mod_small in Hgood by done. congruence. }
          exists t. split; [lia|]. rewrite Nat.Div0.add_mod_idemp_l.
          replace (s + 1 + t) with (s + S t) by lia. split; [done|]. split; [done|].
          intros t' Ht'. rewrite Nat.Div0.add_mod_idemp_l.
          replace (s + 1 + t') with (s + S t') by lia. apply Hfirst. lia. }
  split; [intros j; by apply Hgen|].
  split.
  - intros Hnone j Hj.
    destruct (good_new_pin h NewPins M Name j) eqn:Hg; [|done].
    destruct (FindNewPin_complete h NewPins M Name start j Hs Hj Hg) as [x Hx].
    fold n in Hx. congruence.
  - intros Hall. destruct (FindNewPin h NewPins M Name start n) as [j|] eqn:Hf; [|done].
    apply Hgen in Hf as (t & Ht & -> & Hgood & _); [|done].
    rewrite Hall in Hgood; [done|]. apply Nat.mod_upper_bound. unfold n. lia.
Qed.

Lemma FindNewPin_first_fit_witness :
  let h := ex_cross_heap in
  (∀ j, FindNewPin h [0; 1; 2] [false; false; false] "A" 1 3 = Some j ↔
        ∃ t, t < 3 ∧ j = (1 + t) `mod` 3
             ∧ good_new_pin h [0; 1; 2] [false; false; false] "A" j = true
             ∧ ∀ t', t' < t →
                 good_new_pin h [0; 1; 2] [false; false; false] "A" ((1 + t') `mod` 3) = false)
  ∧ (FindNewPin h [0; 1; 2] [false; false; false] "A" 1 3 = None ↔
     ∀ j, j < 3 → good_new_pin h [0; 1; 2] [false; false; false] "A" j = false).
Proof.
  apply (FindNewPin_first_fit ex_cross_heap [0; 1; 2] [false; false; false] "A" 1).
  simpl. lia.
Defined.

(** * Further properties of the pin refresh *)

Lemma TryUpdateNodePins_cases (N : UFlowGraphNode) (w : World) (i : inst_ptr)
    (X : UFlowNodeBase) :
  NodeInstance N = Some i → NodeInstances w !! i = Some X →
  Inst_Class X = Class_FlowNode → Inst_IsGarbage X = false →
  let bIsLoad := match GetFlowGraph N with
                 | Some FlowGraph => bIsLoadingGraph FlowGraph
                 | None => false
                 end in
  let bRefresh := (negb bIsLoad || bCanRefreshContextPinsOnLoad X) && bSupportsContextPins X
                  || bNeedsFullReconstruction N in
  let ReqI := CleanInvalidPins FlowPin_IsValid (CDO_InputPins X ++ ContextInputs X) in
  let ReqO := CleanInvalidPins FlowPin_IsValid (CDO_OutputPins X ++ ContextOutputs X) in
  let bI := negb (CheckPinsMatch ReqI (CleanInvalidPins FlowPin_IsValid (Inst_InputPins X))) in
  let bO := negb (CheckPinsMatch ReqO (CleanInvalidPins FlowPin_IsValid (Inst_OutputPins X))) in
  let X1 := if bI then set_Inst_InputPins ReqI X else X in
  let X2 := if bO then set_Inst_OutputPins ReqO X1 else X1 in
  TryUpdateNodePins N w =
    if negb bRefresh then (w, false)
    else if bI || bO then (set_NodeInstance i X2 w, true) else (w, false).
Proof.
  intros HN HX Hc Hg. unfold TryUpdateNodePins, Cast_UFlowNode, SupportsContextPins,
    deref_Instance. rewrite HN. simpl. rewrite HX, decide_True by done. rewrite Hg. done.
Qed.

(** X4. On a valid flow node in a graph, [TryUpdateNodePins] replaces the
    stored input descriptors by the required ones -- those of the class
    default object followed by the context pins, cleaned -- exactly when
    the two do not match, and likewise, under their own test, the stored
    output descriptors; an array that matches is left as it is, whatever
    the other one does. It reports true exactly when it replaced an array,
    changes no other member of the runtime node and no other object, and
    afterwards the required descriptors match the stored ones. While the
    graph is loading and the node does not refresh on load, or when the
    node has no context pins, and no full reconstruction is pending, it
    does nothing and reports false. *)
Theorem TryUpdateNodePins_refreshes (N : UFlowGraphNode) (w : World) (i : inst_ptr)
    (X : UFlowNodeBase) (G : UFlowGraph) :
  NodeInstance N = Some i → NodeInstances w !! i = Some X →
  Inst_Class X = Class_FlowNode → Inst_IsGarbage X = false →
  Graph N = Some G →
  let bRefresh := (negb (bIsLoadingGraph G) || bCanRefreshContextPinsOnLoad X)
                  && bSupportsContextPins X
                  || bNeedsFullReconstruction N in
  let ReqI := CleanInvalidPins FlowPin_IsValid (CDO_InputPins X ++ ContextInputs X) in
  let ReqO := CleanInvalidPins FlowPin_IsValid (CDO_OutputPins X ++ ContextOutputs X) in
  let mI := CheckPinsMatch ReqI (CleanInvalidPins FlowPin_IsValid (Inst_InputPins X)) in
  let mO := CheckPinsMatch ReqO (CleanInvalidPins FlowPin_IsValid (Inst_OutputPins X)) in
  let w' := (TryUpdateNodePins N w).1 in
  (bRefresh = false → TryUpdateNodePins N w = (w, false))
  ∧ (bRefresh = true →
     ∃ X', NodeInstances w' !! i = Some X'
       ∧ Inst_InputPins X' = (if mI then Inst_InputPins X else ReqI)
       ∧ Inst_OutputPins X' = (if mO then Inst_OutputPins X else ReqO)
       ∧ set_Inst_InputPins [] (set_Inst_OutputPins [] X')
         = set_Inst_InputPins [] (set_Inst_OutputPins [] X)
       ∧ CheckPinsMatch ReqI (CleanInvalidPins FlowPin_IsValid (Inst_InputPins X')) = true
       ∧ CheckPinsMatch ReqO (CleanInvalidPins FlowPin_IsValid (Inst_OutputPins X')) = true
       ∧ (TryUpdateNodePins N w).2 = negb (mI && mO)
       ∧ (mI && mO = true → w' = w))
  ∧ (∀ j, j ≠ i → NodeInstances w' !! j = NodeInstances w !! j)
  ∧ PinObjects w' = PinObjects w ∧ GraphNodes w' = GraphNodes w ∧ Trace w' = Trace w.
Proof.
  intros HN HX Hc Hg HG bRefresh ReqI ReqO mI mO w'.
  pose proof (TryUpdateNodePins_cases N w i X HN HX Hc Hg) as Heq. cbv zeta in Heq.
  unfold GetFlowGraph in Heq. rewrite HG in Heq.
  fold bRefresh ReqI ReqO mI mO in Heq. unfold w'. rewrite Heq.
  assert (CheckPinsMatch ReqI (CleanInvalidPins FlowPin_IsValid ReqI) = true) as HrI.
  { unfold ReqI at 2. rewrite CleanInvalidPins_twice. apply CheckPinsMatch_refl. }
  assert (CheckPinsMatch ReqO (CleanInvalidPins FlowPin_IsValid ReqO) = true) as HrO.
  { unfold ReqO at 2. rewrite CleanInvalidPins_twice. apply CheckPinsMatch_refl. }
  split; [by intros ->|]. split.
  - intros ->. simpl.
    destruct mI eqn:HmI, mO eqn:HmO; simpl; rewrite ?lookup_insert_eq;
      eexists; (split; [done || exact HX|]); simpl;
      fold mI mO; rewrite ?HrI, ?HrO, ?HmI, ?HmO; done.
  - destruct (negb bRefresh); [done|].
    destruct (negb mI || negb mO); [|done]. simpl.
    split; [|done]. intros j Hj. by rewrite lookup_insert_ne.
Qed.

(** X5. A second [TryUpdateNodePins] on a valid flow node finds the
    descriptors that the first call left, changes nothing and reports
    false. *)
Theorem TryUpdateNodePins_twice (N : UFlowGraphNode) (w : World) (i : inst_ptr)
    (X : UFlowNodeBase) :
  NodeInstance N = Some i → NodeInstances w !! i = Some X →
  Inst_Class X = Class_FlowNode → Inst_IsGarbage X = false →
  TryUpdateNodePins N (TryUpdateNodePins N w).1 = ((TryUpdateNodePins N w).1, false).
Proof.
  intros HN HX Hc Hg.
  pose proof (TryUpdateNodePins_cases N w i X HN HX Hc Hg) as Heq. cbv zeta in Heq.
  set (ReqI := CleanInvalidPins FlowPin_IsValid (CDO_InputPins X ++ ContextInputs X)) in *.
  set (ReqO := CleanInvalidPins FlowPin_IsValid (CDO_OutputPins X ++ ContextOutputs X)) in *.
  assert (CheckPinsMatch ReqI (CleanInvalidPins FlowPin_IsValid ReqI) = true) as HrI.
  { unfold ReqI at 2. rewrite CleanInvalidPins_twice. apply CheckPinsMatch_refl. }
  assert (CheckPinsMatch ReqO (CleanInvalidPins FlowPin_IsValid ReqO) = true) as HrO.
  { unfold ReqO at 2. rewrite CleanInvalidPins_twice. apply CheckPinsMatch_refl. }
  set (bRefresh := _ || bNeedsFullReconstruction N) in Heq.
  destruct bRefresh eqn:Hrefresh; simpl in Heq.
  2:{ rewrite Heq. simpl. exact Heq. }
  destruct (CheckPinsMatch ReqI (CleanInvalidPins FlowPin_IsValid (Inst_InputPins X)))
    eqn:HmI;
  destruct (CheckPinsMatch ReqO (CleanInvalidPins FlowPin_IsValid (Inst_OutputPins X)))
    eqn:HmO; simpl in Heq; rewrite Heq; simpl; try exact Heq.
  - rewrite (TryUpdateNodePins_cases N _ i (set_Inst_OutputPins ReqO X) HN); try done.
    + cbv zeta. simpl. fold ReqI ReqO. unfold bRefresh in Hrefresh. rewrite Hrefresh.
      by rewrite HmI, HrO.
    + simpl. apply lookup_insert_eq.
  - rewrite (TryUpdateNodePins_cases N _ i (set_Inst_InputPins ReqI X) HN); try done.
    + cbv zeta. simpl. fold ReqI ReqO. unfold bRefresh in Hrefresh. rewrite Hrefresh.
      by rewrite HmO, HrI.
    + simpl. apply lookup_insert_eq.
  - rewrite (TryUpdateNodePins_cases N _ i
               (set_Inst_OutputPins ReqO (set_Inst_InputPins ReqI X)) HN); try done.
    + cbv zeta. simpl. fold ReqI ReqO. unfold bRefresh in Hrefresh. rewrite Hrefresh.
      by rewrite HrI, HrO.
    + simpl. apply lookup_insert_eq.
Qed.

Lemma TryUpdateNodePins_refreshes_witness :
  let w' := (TryUpdateNodePins ex_scenario_node ex_context_world).1 in
  ∃ X', NodeInstances w' !! 0 = Some X'
    ∧ Inst_InputPins X' = [pinIn]
    ∧ Inst_OutputPins X' = [pinOut; pinTrue]
    ∧ (TryUpdateNodePins ex_scenario_node ex_context_world).2 = true
    ∧ PinObjects w' = PinObjects ex_context_world.
Proof.
  destruct (TryUpdateNodePins_refreshes ex_scenario_node ex_context_world 0
              ex_context_instance ex_graph eq_refl eq_refl eq_refl eq_refl eq_refl)
    as (_ & H & _ & Hp & _).
  destruct (H eq_refl) as (X' & HX' & HI & HO & _ & _ & _ & Hb & _).
  exists X'. split; [exact HX'|]. split; [exact HI|]. split; [exact HO|].
  split; [exact Hb|exact Hp].
Defined.

Lemma TryUpdateNodePins_twice_witness :
  TryUpdateNodePins ex_scenario_node (TryUpdateNodePins ex_scenario_node ex_context_world).1
  = ((TryUpdateNodePins ex_scenario_node ex_context_world).1, false).
Proof.
  apply (TryUpdateNodePins_twice ex_scenario_node ex_context_world 0 ex_context_instance);
    reflexivity.
Defined.

(** * Further properties of [ReconstructNode] *)

Lemma CheckGraphPinsMatchNodePins_flag (b : bool) (N : UFlowGraphNode) (w : World) :
  CheckGraphPinsMatchNodePins (set_bIsReconstructingNode b N) w
  = CheckGraphPinsMatchNodePins N w.
Proof. by destruct N. Qed.

Lemma needs_rebuild_false (T : UFlowNodeBase → option UFlowNodeBase) (N : UFlowGraphNode)
    (w : World) :
  needs_rebuild T N w = false →
  bNeedsFullReconstruction N = false ∧ CheckGraphPinsMatchNodePins N w = true.
Proof.
  intros Hn. pose proof (refreshed_world_unchanged T N w Hn) as Hw.
  unfold needs_rebuild in Hn. cbv zeta in Hn.
  apply orb_false_iff in Hn as [Hn Hm]. apply orb_false_iff in Hn as [Hn _].
  apply orb_false_iff in Hn as [Hf _]. split; [by destruct N|].
  apply negb_false_iff in Hm. unfold refreshed_world in Hw. rewrite Hw in Hm.
  by rewrite CheckGraphPinsMatchNodePins_flag in Hm.
Qed.

(** X6. A call of [ReconstructNode] that passes the guard leaves the node
    with both reconstruction flags cleared; and when the node instance is
    then a valid flow node, the graph pins of the node match its
    descriptors ([CheckGraphPinsMatchNodePins] holds), whether the pins
    were rebuilt or found in order. *)
Theorem ReconstructNode_establishes_match (T : UFlowNodeBase → option UFlowNodeBase)
    (This : node_ptr) (w : World) (N : UFlowGraphNode) :
  GraphNodes w !! This = Some N →
  node_pins_wf N (PinObjects w) →
  CanReconstructNode w N = true →
  let w' := ReconstructNode T This w in
  ∃ N', GraphNodes w' !! This = Some N'
        ∧ bIsReconstructingNode N' = false
        ∧ bNeedsFullReconstruction N' = false
        ∧ ∀ i X', NodeInstance N = Some i → NodeInstances w' !! i = Some X' →
            Inst_Class X' = Class_FlowNode → Inst_IsGarbage X' = false →
            CheckGraphPinsMatchNodePins N' w' = true.
Proof.
  intros HN Hwf Hc w'.
  pose proof (ReconstructNode_unfold T This w N HN Hc) as Hw'. fold w' in Hw'.
  cbv zeta in Hw'.
  destruct (refreshed_world_same T N w) as (Hp2 & Hg2 & Ht2 & Ho2 & _).
  set (w2 := refreshed_world T N w) in *.
  set (N1 := set_bIsReconstructingNode true N) in *.
  pose proof (node_pins_wf_reconstructing true N _ Hwf) as Hwf1. fold N1 in Hwf1.
  destruct (needs_rebuild T N w) eqn:Hneed.
  - destruct (RebuildPinArrays (bOrphanPinsEnabled w2) (Cast_UFlowNode w2 (NodeInstance N1))
                (N1, PinObjects w2)) as [[Nb hb] rw] eqn:Heq.
    simpl in Hw'. rewrite Hp2, Ho2 in Heq.
    eexists. split; [rewrite Hw'; simpl; apply lookup_insert_eq|].
    split; [done|]. split; [done|]. intros i X' Hi HX' Hclass Hgarb.
    assert (NodeInstances w2 !! i = Some X') as HX2 by (by rewrite Hw' in HX').
    apply (CheckGraphPinsMatchNodePins_rebuilt (bOrphanPinsEnabled w) X' N1 Nb _
             (PinObjects w) hb rw w' i); try done.
    + rewrite <- Heq. f_equal. unfold Cast_UFlowNode, deref_Instance.
      replace (NodeInstance N1) with (Some i) by by destruct N. simpl.
      rewrite HX2. by rewrite decide_True.
    + simpl. destruct (RebuildPinArrays_members _ _ _ _ _ _ _ Heq) as (Ps & Is & Os & ->).
      by destruct N.
    + by rewrite Hw'.
  - destruct (needs_rebuild_false T N w Hneed) as [Hfull Hmatch].
    pose proof (refreshed_world_unchanged T N w Hneed) as Hsame. fold w2 in Hsame.
    eexists. split; [rewrite Hw'; simpl; apply lookup_insert_eq|].
    split; [done|]. split; [by destruct N|]. intros i X' Hi HX' Hclass Hgarb.
    unfold N1. rewrite !CheckGraphPinsMatchNodePins_flag.
    rewrite (CheckGraphPinsMatchNodePins_reads N w w'); [done| |].
    + rewrite Hw'. simpl. by rewrite Hsame.
    + rewrite Hw'. simpl. by rewrite Hsame.
Qed.

Lemma ReconstructNode_establishes_match_witness :
  let w' := ReconstructNode NoManagedPins 0 (ex_scenario_world [12] false) in
  ∃ N', GraphNodes w' !! 0 = Some N'
        ∧ bIsReconstructingNode N' = false
        ∧ bNeedsFullReconstruction N' = false
        ∧ ∀ i X', NodeInstance ex_scenario_node = Some i → NodeInstances w' !! i = Some X' →
            Inst_Class X' = Class_FlowNode → Inst_IsGarbage X' = false →
            CheckGraphPinsMatchNodePins N' w' = true.
Proof.
  apply (ReconstructNode_establishes_match NoManagedPins 0 (ex_scenario_world [12] false)
           ex_scenario_node).
  - reflexivity.
  - apply node_pins_wf_b_sound. vm_compute. reflexivity.
  - vm_compute. reflexivity.
Defined.

Lemma TryUpdateAutoDataPins_own_instance (T : UFlowNodeBase → option UFlowNodeBase)
    (N : UFlowGraphNode) (w : World) (j : inst_ptr) :
  NodeInstance N ≠ Some j →
  NodeInstances (TryUpdateAutoDataPins T N w).1 !! j = NodeInstances w !! j.
Proof.
  intros Hj. unfold TryUpdateAutoDataPins.
  repeat case_match; simpl; try done; apply lookup_insert_ne; congruence.
Qed.

Lemma TryUpdateNodePins_own_instance (N : UFlowGraphNode) (w : World) (j : inst_ptr) :
  NodeInstance N ≠ Some j →
  NodeInstances (TryUpdateNodePins N w).1 !! j = NodeInstances w !! j.
Proof.
  intros Hj. unfold TryUpdateNodePins.
  repeat case_match; simpl; try done; apply lookup_insert_ne; congruence.
Qed.

(** X7. [ReconstructNode] is confined to its node: every other graph node
    is left as it is, the node itself keeps its instance, graph, parent,
    sub-nodes and orphan settings (only the pin arrays and the two
    reconstruction flags can change), no runtime object other than the
    node's own instance is touched, and the global switches are not
    written. *)
Theorem ReconstructNode_frame (T : UFlowNodeBase → option UFlowNodeBase)
    (This : node_ptr) (w : World) :
  let w' := ReconstructNode T This w in
  (∀ n, n ≠ This → GraphNodes w' !! n = GraphNodes w !! n)
  ∧ (∀ N, GraphNodes w !! This = Some N →
          ∃ N', GraphNodes w' !! This = Some N' ∧ same_hierarchy N N')
  ∧ (GraphNodes w !! This = None → w' = w)
  ∧ (∀ N j, GraphNodes w !! This = Some N → NodeInstance N ≠ Some j →
            NodeInstances w' !! j = NodeInstances w !! j)
  ∧ GIsTransacting w' = GIsTransacting w
  ∧ bOrphanPinsEnabled w' = bOrphanPinsEnabled w.
Proof.
  intros w'. split; [|split; [|split; [|split]]].
  - intros n Hn. unfold w'.
    destruct (ReconstructNode_GraphNodes T This w) as [->|(N0 & N' & _ & _ & ->)]; [done|].
    by apply lookup_insert_ne.
  - intros N HN. by apply ReconstructNode_lookup.
  - intros HN. unfold w', ReconstructNode. by rewrite HN.
  - intros N j HN Hj. destruct (CanReconstructNode w N) eqn:Hc.
    + unfold w'. rewrite (ReconstructNode_unfold T This w N HN Hc). cbv zeta.
      assert (NodeInstances (refreshed_world T N w) !! j = NodeInstances w !! j) as Hr.
      { unfold refreshed_world. rewrite TryUpdateNodePins_own_instance by (by destruct N).
        apply TryUpdateAutoDataPins_own_instance. by destruct N. }
      by destruct (needs_rebuild T N w).
    + unfold w', ReconstructNode. by rewrite HN, Hc.
  - destruct (GraphNodes w !! This) as [N|] eqn:HN.
    2:{ unfold w', ReconstructNode. by rewrite HN. }
    destruct (CanReconstructNode w N) eqn:Hc.
    2:{ unfold w', ReconstructNode. by rewrite HN, Hc. }
    unfold w'. rewrite (ReconstructNode_unfold T This w N HN Hc). cbv zeta.
    destruct (refreshed_world_same T N w) as (_ & _ & Ht & Ho & _).
    by destruct (needs_rebuild T N w).
Qed.

(** X8. A reconstruction of a node whose pins are distinct live objects
    linked to pins of other nodes only never destroys, renames, retypes or
    flags a pin of another node: such a pin keeps everything but its link
    list, in which it keeps its links to pins of other nodes. No object is
    created below the next free address, which can only grow. *)
Theorem ReconstructNode_foreign_pins (T : UFlowNodeBase → option UFlowNodeBase)
    (This : node_ptr) (w : World) (N : UFlowGraphNode) :
  GraphNodes w !! This = Some N →
  node_pins_wf N (PinObjects w) →
  let w' := ReconstructNode T This w in
  (∀ q r, q ∉ Pins N → heap_pins (PinObjects w) !! q = Some r →
     ∃ r', heap_pins (PinObjects w') !! q = Some r'
           ∧ set_LinkedTo (λ _, []) r' = set_LinkedTo (λ _, []) r
           ∧ ∀ y, y ∈ LinkedTo r → y ∉ Pins N → y ∈ LinkedTo r')
  ∧ heap_next (PinObjects w) ≤ heap_next (PinObjects w')
  ∧ heap_bounded (PinObjects w').
Proof.
  intros HN Hwf w'.
  destruct (ReconstructNode_pins T This w N HN)
    as [(N1 & HN1 & HP & Hh)|(N1 & h' & rw & Hc & Hneed & Heq & HN1 & Hh)];
    fold w' in HN1, Hh; rewrite Hh.
  - split; [|split; [done|by destruct Hwf as (_ & ? & _)]].
    intros q r Hq Hr. exists r. by repeat split.
  - pose proof (node_pins_wf_reconstructing true N _ Hwf) as Hwf1.
    destruct (RebuildPinArrays_spec _ _ _ _ _ _ _ Hwf1 Heq)
      as (_ & Hnext & _ & _ & _ & _ & Hext).
    replace (Pins (set_bIsReconstructingNode true N)) with (Pins N) in * by by destruct N.
    split; [|split; [lia|]].
    + intros q r Hq Hr. destruct (Hext q r Hq Hr) as (r' & Hr' & Hforget & Hkeep).
      exists r'. split; [done|]. split; [done|]. intros y Hy Hyext. apply Hkeep; [done|].
      by left.
    + apply (RebuildPinArrays_bounded _ _ _ _ _ _ _ (proj1 (proj2 Hwf1)) Heq).
Qed.

Lemma ReconstructNode_foreign_pins_witness :
  let w := ex_scenario_world [12] false in
  let w' := ReconstructNode NoManagedPins 0 w in
  (∀ q r, q ∉ Pins ex_scenario_node → heap_pins (PinObjects w) !! q = Some r →
     ∃ r', heap_pins (PinObjects w') !! q = Some r'
           ∧ set_LinkedTo (λ _, []) r' = set_LinkedTo (λ _, []) r
           ∧ ∀ y, y ∈ LinkedTo r → y ∉ Pins ex_scenario_node → y ∈ LinkedTo r')
  ∧ heap_next (PinObjects w) ≤ heap_next (PinObjects w')
  ∧ heap_bounded (PinObjects w').
Proof.
  apply (ReconstructNode_foreign_pins NoManagedPins 0 (ex_scenario_world [12] false)
           ex_scenario_node).
  - reflexivity.
  - apply node_pins_wf_b_sound. vm_compute. reflexivity.
Defined.

(** * Further properties of the sub-node hierarchy *)

Lemma Ancestor_parent_chain (w : World) (X n : node_ptr) (N : UFlowGraphNode) :
  GraphNodes w !! n = Some N →
  Ancestor w X n ↔ ParentNode N = Some X ∨ ∃ p, ParentNode N = Some p ∧ Ancestor w X p.
Proof.
  intros HN. split.
  - intros HA. inversion HA as [n' N' HN' HP|n' N' P HN' HP HA']; subst;
      rewrite HN in HN'; injection HN' as <-; [by left|]. right. by exists P.
  - intros [HP|(p & HP & HA)].
    + by eapply Ancestor_parent.
    + by eapply Ancestor_step.
Qed.

Lemma IsAncestorNode_from_decides (w : World) (X : node_ptr) :
  ∀ fuel P b, IsAncestorNode_from fuel w P X = Some b →
    (b = true ↔ P = Some X ∨ ∃ p, P = Some p ∧ Ancestor w X p).
Proof.
  assert (∀ fuel P b, IsAncestorNode_from fuel w P X = Some b →
            P ≠ Some X →
            (b = true ↔ ∃ p, P = Some p ∧ Ancestor w X p)) as Hgen.
  { induction fuel as [|fuel IH]; intros P b Hf HP.
    - destruct P as [Cur|]; simpl in Hf.
      + destruct (decide (Cur = X)) as [->|]; [done|done].
      + injection Hf as <-. split; [done|]. by intros (p & ? & _).
    - destruct P as [Cur|]; simpl in Hf.
      + destruct (decide (Cur = X)) as [->|Hne]; [done|].
        destruct (GraphNodes w !! Cur) as [C|] eqn:HC; [|done].
        destruct (decide (ParentNode C = Some X)) as [HCX|HCX].
        * rewrite HCX in Hf. assert (b = true) as ->.
          { destruct fuel; simpl in Hf; rewrite decide_True in Hf by done; congruence. }
          split; [|done]. intros _. exists Cur. split; [done|]. by eapply Ancestor_parent.
        * rewrite (IH _ _ Hf HCX). split.
          { intros (p & HP' & HA). exists Cur. split; [done|]. by eapply Ancestor_step. }
          { intros (p & [= <-] & HA).
            apply (Ancestor_parent_chain w X Cur C HC) in HA as [?|?]; done. }
      + injection Hf as <-. split; [done|]. by intros (p & ? & _). }
  intros fuel P b Hf. destruct (decide (P = Some X)) as [->|HP].
  - assert (b = true) as ->.
    { destruct fuel; simpl in Hf; rewrite decide_True in Hf by done; congruence. }
    split; [by left|done].
  - rewrite (Hgen _ _ _ Hf HP). split; [by right|]. by intros [?|?].
Qed.

Lemma IsAncestorNode_from_returns (depth : node_ptr → nat) (w : World) (X : node_ptr) :
  (∀ m M p, GraphNodes w !! m = Some M → ParentNode M = Some p →
            is_Some (GraphNodes w !! p) ∧ depth p < depth m) →
  ∀ fuel P, (∀ p, P = Some p → is_Some (GraphNodes w !! p) ∧ depth p < fuel) →
    is_Some (IsAncestorNode_from fuel w P X).
Proof.
  intros Hrank. induction fuel as [|fuel IH]; intros [Cur|] HP; simpl; try done.
  - destruct (HP Cur eq_refl) as [_ ?]. lia.
  - destruct (decide (Cur = X)); [done|].
    destruct (HP Cur eq_refl) as [[C HC] Hd]. rewrite HC. apply IH.
    intros p Hp. destruct (Hrank Cur C p HC Hp) as [? ?]. split; [done|lia].
Qed.

(** X9. Whenever [IsAncestorNode] returns, its answer is right: true
    exactly when the other node is met on the chain of parent pointers that
    starts at this node's parent. A node without a parent has no ancestor,
    whatever the bound on the loop. In a forest -- every parent pointer
    leads to a node of smaller depth -- the loop ends within as many steps
    as the node is deep. *)
Theorem IsAncestorNode_decides (fuel : nat) (w : World) (n X : node_ptr)
    (N : UFlowGraphNode) :
  GraphNodes w !! n = Some N →
  (∀ b, IsAncestorNode fuel w N X = Some b → (b = true ↔ Ancestor w X n))
  ∧ (ParentNode N = None → IsAncestorNode fuel w N X = Some false)
  ∧ (∀ depth : node_ptr → nat,
       (∀ m M p, GraphNodes w !! m = Some M → ParentNode M = Some p →
                 is_Some (GraphNodes w !! p) ∧ depth p < depth m) →
       depth n ≤ fuel → is_Some (IsAncestorNode fuel w N X)).
Proof.
  intros HN. split; [|split].
  - intros b Hb. unfold IsAncestorNode in Hb.
    rewrite (IsAncestorNode_from_decides w X _ _ _ Hb).
    by rewrite (Ancestor_parent_chain w X n N HN).
  - intros HP. unfold IsAncestorNode. rewrite HP. by destruct fuel.
  - intros depth Hrank Hfuel. unfold IsAncestorNode.
    apply (IsAncestorNode_from_returns depth w X Hrank).
    intros p Hp. destruct (Hrank n N p HN Hp) as [? ?]. split; [done|lia].
Qed.

Lemma IsAncestorNode_decides_witness :
  (∀ b, IsAncestorNode 3 ex_family_world ex_child_node 0 = Some b →
        (b = true ↔ Ancestor ex_family_world 0 1))
  ∧ (ParentNode ex_child_node = None →
     IsAncestorNode 3 ex_family_world ex_child_node 0 = Some false)
  ∧ (∀ depth : node_ptr → nat,
       (∀ m M p, GraphNodes ex_family_world !! m = Some M → ParentNode M = Some p →
                 is_Some (GraphNodes ex_family_world !! p) ∧ depth p < depth m) →
       depth 1 ≤ 3 → is_Some (IsAncestorNode 3 ex_family_world ex_child_node 0)).
Proof.
  apply (IsAncestorNode_decides 3 ex_family_world 1 0 ex_child_node). reflexivity.
Defined.




(** * Further properties of the sub-node operations *)

Lemma IndexOfByKey_spec {A : Type} `{EqDecision A} (x : A) (l : list A) :
  ((x ∉ l) ∧ IndexOfByKey x l = (-1)%Z)
  ∨ ∃ l1 l2, l = l1 ++ x :: l2 ∧ (x ∉ l1) ∧ IndexOfByKey x l = Z.of_nat (length l1).
Proof.
  induction l as [|y l IH]; simpl.
  - left. split; [by intros ?%elem_of_nil|done].
  - destruct (decide (y = x)) as [->|Hne].
    + right. exists [], l. split; [done|]. split; [by intros ?%elem_of_nil|done].
    + destruct IH as [[Hx ->]|(l1 & l2 & -> & Hx & ->)].
      * left. rewrite decide_True by done. split; [|done].
        intros [?|?]%elem_of_cons; done.
      * right. rewrite decide_False by lia. exists (y :: l1), l2. split; [done|].
        split; [intros [?|?]%elem_of_cons; done|]. simpl. lia.
Qed.

Lemma RemoveSingle_first (x : option node_ptr) (l1 l2 : list (option node_ptr)) :
  x ∉ l1 → RemoveSingle x (l1 ++ x :: l2) = l1 ++ l2.
Proof.
  induction l1 as [|y l1 IH]; intros Hx; simpl.
  - by rewrite decide_True.
  - rewrite decide_False by (intros ->; apply Hx; left).
    f_equal. apply IH. intros ?. apply Hx. by right.
Qed.

Lemma RemoveSingle_absent (x : option node_ptr) (l : list (option node_ptr)) :
  x ∉ l → RemoveSingle x l = l.
Proof.
  induction l as [|y l IH]; intros Hx; simpl; [done|].
  rewrite decide_False by (intros ->; apply Hx; left).
  f_equal. apply IH. intros ?. apply Hx. by right.
Qed.

Section SubNodeOperations.

Variable T : UFlowNodeBase → option UFlowNodeBase.

Lemma Rebuild_SubNodes (fuel : nat) (This n : node_ptr) (w w' : World) (N : UFlowGraphNode) :
  RebuildRuntimeAddOnsFromEditorSubNodes T fuel This w = Some w' →
  GraphNodes w !! n = Some N →
  ∃ N', GraphNodes w' !! n = Some N' ∧ same_hierarchy N N'.
Proof.
  intros Hr HN. apply RebuildRuntimeAddOns_nodes_extend in Hr as [Hr _]. by apply Hr.
Qed.

(** X11. The mirror rebuild writes runtime add-on lists and pins only: it
    creates and removes no graph node, and every graph node keeps its
    instance, graph, parent, sub-node array and sub-node flag. *)
Theorem mirror_rebuild_keeps_hierarchy (fuel : nat) (This : node_ptr) (w w' : World) :
  RebuildRuntimeAddOnsFromEditorSubNodes T fuel This w = Some w' →
  (∀ n N, GraphNodes w !! n = Some N →
     ∃ N', GraphNodes w' !! n = Some N'
           ∧ NodeInstance N' = NodeInstance N ∧ Graph N' = Graph N
           ∧ ParentNode N' = ParentNode N ∧ SubNodes N' = SubNodes N
           ∧ IsSubNode N' = IsSubNode N)
  ∧ (∀ n, GraphNodes w !! n = None → GraphNodes w' !! n = None).
Proof.
  intros Hr. apply RebuildRuntimeAddOns_nodes_extend in Hr as [Hr Hnone].
  split; [|done]. intros n N HN.
  destruct (Hr n N HN) as (N' & HN' & Hi & Hg & _ & Hp & Hs & Hb & _).
  exists N'. unfold IsSubNode. by rewrite Hi, Hg, Hp, Hs, Hb.
Qed.

Variable rank : node_ptr → nat.

Lemma RemoveSingle_elem (x y : option node_ptr) (l : list (option node_ptr)) :
  y ∈ RemoveSingle x l → y ∈ l.
Proof.
  induction l as [|z l IH]; simpl; [done|].
  destruct (decide (z = x)); [by right|].
  intros [->|?]%elem_of_cons; [left|right; by apply IH].
Qed.

(** On a forest of sub-nodes that all lie in a graph the mirror rebuild
    returns as soon as the bound exceeds the rank of the node. *)
Lemma RebuildRuntimeAddOns_returns (fuel : nat) :
  ∀ (m : node_ptr) (w : World),
    SubNodes_ranked rank w → nodes_in_graph w → rank m < fuel →
    is_Some (RebuildRuntimeAddOnsFromEditorSubNodes T fuel m w).
Proof.
  induction fuel as [|fuel IH]; intros m w Hr Hgr Hlt; [lia|]. simpl.
  destruct (GraphNodes w !! m) as [M|] eqn:HM; [|by eexists].
  destruct (MirrorSubNodes_returns m M w (Hgr m M HM)) as [w1 Hw1]. rewrite Hw1. simpl.
  assert (nodes_extend w w1) as He1
    by (eapply nodes_extend_eq, GraphNodes_MirrorSubNodes; exact Hw1).
  assert (∀ l v, SubNodes_ranked rank v → nodes_in_graph v →
            (∀ s, Some s ∈ l → rank s < rank m) →
            is_Some (foldl (RebuildSubNode (RebuildRuntimeAddOnsFromEditorSubNodes T fuel))
                       (Some v) l)) as Hfold.
  { induction l as [|s l IHl]; intros v Hr1 Hg1 Hl; simpl; [by eexists|].
    assert (∀ s', Some s' ∈ l → rank s' < rank m) as Hl'
      by (intros s' Hs'; apply Hl; by right).
    destruct (IsValid_Node v s); [|by apply IHl].
    destruct s as [s|]; [|by apply IHl].
    assert (rank s < rank m) as Hs by (apply Hl; left).
    destruct (IH s v Hr1 Hg1 ltac:(lia)) as [v' Hv']. rewrite Hv'.
    apply RebuildRuntimeAddOns_nodes_extend in Hv'.
    apply IHl; [|by eapply nodes_in_graph_extends|done].
    by eapply SubNodes_ranked_extends. }
  destruct (Hfold (SubNodes M) w1) as [w2 ->].
  - by eapply SubNodes_ranked_extends.
  - by eapply nodes_in_graph_extends.
  - intros s Hs. by apply (Hr m M s).
  - simpl. by destruct (_ && _); eexists.
Qed.

(** Replacing the sub-nodes of a node by entries of no greater rank keeps
    the forest and the graphs. *)
Lemma set_SubNodes_ranked (This : node_ptr) (N : UFlowGraphNode)
    (L : list (option node_ptr)) (w : World) :
  GraphNodes w !! This = Some N →
  SubNodes_ranked rank w → nodes_in_graph w →
  (∀ s, Some s ∈ L → rank s < rank This) →
  SubNodes_ranked rank (set_GraphNode This (set_SubNodes L N) w)
  ∧ nodes_in_graph (set_GraphNode This (set_SubNodes L N) w).
Proof.
  intros HN Hr Hgr HL. split.
  - intros m M s HM Hs. simpl in HM.
    apply lookup_insert_Some in HM as [[<- <-]|[Hne HM]]; [by apply HL|by eapply Hr].
  - intros m M HM. simpl in HM.
    apply lookup_insert_Some in HM as [[<- <-]|[Hne HM]]; [by apply (Hgr This N)|by eapply Hgr].
Qed.

(** X12. In a forest of sub-nodes that all lie in a graph, inserting a
    sub-node that the node does not hold yet, at a drop index that the
    array accepts (negative, or at most its length), and removing it again
    both return, and they restore the sub-node array. A drop index beyond
    the end of the array fails the insertion. *)
Theorem InsertSubNodeAt_RemoveSubNode (fuel fuel' : nat) (This : node_ptr)
    (SubNode : option node_ptr) (DropIndex : Z) (w : World) (N : UFlowGraphNode) :
  GraphNodes w !! This = Some N →
  SubNode ∉ SubNodes N →
  SubNodes_ranked rank w → nodes_in_graph w →
  (∀ s, SubNode = Some s → rank s < rank This) →
  rank This < fuel → rank This < fuel' →
  ((DropIndex ≤ Z.of_nat (length (SubNodes N)))%Z →
   ∃ w1 w2 N1 N2,
     InsertSubNodeAt T fuel This SubNode DropIndex w = Some w1
     ∧ RemoveSubNode T fuel' This SubNode w1 = Some w2
     ∧ GraphNodes w1 !! This = Some N1 ∧ SubNode ∈ SubNodes N1
     ∧ length (SubNodes N1) = S (length (SubNodes N))
     ∧ GraphNodes w2 !! This = Some N2 ∧ SubNodes N2 = SubNodes N)
  ∧ ((Z.of_nat (length (SubNodes N)) < DropIndex)%Z →
     InsertSubNodeAt T fuel This SubNode DropIndex w = None).
Proof.
  intros HN Hnew Hr Hgr Hsub Hf Hf'. split.
  2:{ intros Hbig. unfold InsertSubNodeAt. rewrite HN. simpl.
      rewrite decide_True by lia. by rewrite decide_False by lia. }
  intros Hidx.
  set (L := if decide (-1 < DropIndex)%Z
            then Insert SubNode (Z.to_nat DropIndex) (SubNodes N)
            else SubNodes N ++ [SubNode]).
  assert (InsertSubNodeAt T fuel This SubNode DropIndex w
          = RebuildRuntimeAddOnsFromEditorSubNodes T fuel This
              (set_GraphNode This (set_SubNodes L N) w)) as Hins.
  { unfold InsertSubNodeAt, L. rewrite HN. simpl.
    destruct (decide (-1 < DropIndex)%Z); [|done]. by rewrite decide_True by lia. }
  assert (∃ l1 l2, SubNodes N = l1 ++ l2 ∧ L = l1 ++ SubNode :: l2) as (l1 & l2 & HL0 & HL).
  { unfold L. destruct (decide _).
    - exists (take (Z.to_nat DropIndex) (SubNodes N)), (drop (Z.to_nat DropIndex) (SubNodes N)).
      split; [by rewrite take_drop|done].
    - exists (SubNodes N), []. split; [by rewrite app_nil_r|done]. }
  destruct (set_SubNodes_ranked This N L w HN Hr Hgr) as [Hr0 Hg0].
  { intros s Hs. rewrite HL in Hs.
    apply elem_of_app in Hs as [Hs|[Hs|Hs]%elem_of_cons].
    - apply (Hr This N s HN). rewrite HL0, elem_of_app. by left.
    - by apply Hsub.
    - apply (Hr This N s HN). rewrite HL0, elem_of_app. by right. }
  destruct (RebuildRuntimeAddOns_returns fuel This _ Hr0 Hg0 Hf) as [w1 Hw1].
  destruct (Rebuild_SubNodes _ _ This _ _ (set_SubNodes L N) Hw1)
    as (N1 & HN1 & _ & _ & _ & _ & HS1 & _); [simpl; apply lookup_insert_eq|].
  simpl in HS1.
  pose proof (RebuildRuntimeAddOns_nodes_extend T fuel _ _ _ Hw1) as He1.
  destruct (set_SubNodes_ranked This N1 (RemoveSingle SubNode (SubNodes N1)) w1 HN1)
    as [Hr1 Hg1].
  { by eapply SubNodes_ranked_extends. }
  { by eapply nodes_in_graph_extends. }
  { intros s Hs%RemoveSingle_elem. by apply (Hr0 This (set_SubNodes L N) s);
      [simpl; apply lookup_insert_eq|simpl; rewrite <- HS1]. }
  destruct (RebuildRuntimeAddOns_returns fuel' This _ Hr1 Hg1 Hf') as [w2 Hw2].
  destruct (Rebuild_SubNodes _ _ This _ _
              (set_SubNodes (RemoveSingle SubNode (SubNodes N1)) N1) Hw2)
    as (N2 & HN2 & _ & _ & _ & _ & HS2 & _); [simpl; apply lookup_insert_eq|].
  simpl in HS2. exists w1, w2, N1, N2. split; [by rewrite Hins|]. split.
  { unfold RemoveSubNode, update_node. rewrite HN1. simpl. exact Hw2. }
  split; [done|]. rewrite HS1, HL. split.
  { rewrite elem_of_app. right. left. }
  split.
  { rewrite HL0, !length_app. simpl. lia. }
  split; [done|]. rewrite HS2, HS1, HL, HL0.
  apply RemoveSingle_first. rewrite HL0 in Hnew. intros ?. apply Hnew.
  rewrite elem_of_app. by left.
Qed.

(** X13. In a forest of sub-nodes that all lie in a graph,
    [InsertSubNodeAt] called with the drop index that
    [FindSubNodeDropIndex] gives for a target returns, and it has put the
    new sub-node right before the first occurrence of the target, or at
    the end when the target is not a sub-node of the node. *)
Theorem InsertSubNodeAt_drop_index (fuel : nat) (This : node_ptr)
    (SubNode Target : option node_ptr) (w : World) (N : UFlowGraphNode) :
  GraphNodes w !! This = Some N →
  SubNodes_ranked rank w → nodes_in_graph w →
  (∀ s, SubNode = Some s → rank s < rank This) →
  rank This < fuel →
  ∃ w1 N1,
    InsertSubNodeAt T fuel This SubNode (FindSubNodeDropIndex N Target) w = Some w1
    ∧ GraphNodes w1 !! This = Some N1
    ∧ (((Target ∉ SubNodes N) ∧ SubNodes N1 = SubNodes N ++ [SubNode])
       ∨ ∃ l1 l2, SubNodes N = l1 ++ Target :: l2 ∧ (Target ∉ l1)
                  ∧ SubNodes N1 = l1 ++ SubNode :: Target :: l2).
Proof.
  intros HN Hr Hgr Hsub Hf.
  assert (∃ L, InsertSubNodeAt T fuel This SubNode (FindSubNodeDropIndex N Target) w
               = RebuildRuntimeAddOnsFromEditorSubNodes T fuel This
                   (set_GraphNode This (set_SubNodes L N) w)
               ∧ (∀ s, Some s ∈ L → Some s ∈ SubNodes N ∨ Some s = SubNode)
               ∧ (((Target ∉ SubNodes N) ∧ L = SubNodes N ++ [SubNode])
                  ∨ ∃ l1 l2, SubNodes N = l1 ++ Target :: l2 ∧ (Target ∉ l1)
                             ∧ L = l1 ++ SubNode :: Target :: l2))
    as (L & Hins & HLsub & HL).
  { unfold InsertSubNodeAt, FindSubNodeDropIndex. rewrite HN. simpl.
    destruct (IndexOfByKey_spec Target (SubNodes N)) as [[Hx ->]|(l1 & l2 & HL & Hx & ->)].
    - rewrite decide_False by lia. eexists. split; [done|]. split; [|by left].
      intros s [?|?%list_elem_of_singleton]%elem_of_app; [by left|by right].
    - rewrite decide_True by lia. rewrite Nat2Z.id.
      rewrite decide_True by (rewrite HL, length_app; lia).
      eexists. split; [done|]. unfold Insert. rewrite HL, take_app_length, drop_app_length.
      split; [|right; by exists l1, l2].
      intros s Hs. rewrite !elem_of_app, !elem_of_cons in *. tauto. }
  destruct (set_SubNodes_ranked This N L w HN Hr Hgr) as [Hr0 Hg0].
  { intros s Hs. destruct (HLsub s Hs) as [?|?]; [by apply (Hr This N s HN)|by apply Hsub]. }
  destruct (RebuildRuntimeAddOns_returns fuel This _ Hr0 Hg0 Hf) as [w1 Hw1].
  destruct (Rebuild_SubNodes _ _ This _ _ (set_SubNodes L N) Hw1)
    as (N1 & HN1 & _ & _ & _ & _ & HS1 & _); [simpl; apply lookup_insert_eq|].
  simpl in HS1. exists w1, N1. split; [by rewrite Hins|]. split; [done|]. by rewrite HS1.
Qed.

Hypothesis T_identity : refresh_keeps_identity T.

(** X14. [RemoveAllSubNodes] on a node with a valid node instance returns
    (the bound need only be positive), leaves the node without sub-nodes
    and its runtime instance without add-ons. *)
Theorem RemoveAllSubNodes_clears_mirror (fuel : nat) (This : node_ptr) (w : World)
    (N : UFlowGraphNode) (i : inst_ptr) (X : UFlowNodeBase) :
  GraphNodes w !! This = Some N → NodeInstance N = Some i →
  NodeInstances w !! i = Some X → Inst_IsGarbage X = false →
  ∃ w' N', RemoveAllSubNodes T (S fuel) This w = Some w'
           ∧ GraphNodes w' !! This = Some N' ∧ SubNodes N' = []
           ∧ AddOns_at w' i = Some [].
Proof.
  intros HN Hi HX Hg. unfold RemoveAllSubNodes, update_node. rewrite HN. simpl.
  rewrite lookup_insert_eq. simpl.
  set (N0 := set_SubNodes [] N).
  set (w0 := set_GraphNode This N0 w).
  destruct (MirrorSubNodes_valid This N0 w0 i X Hi HX Hg) as [Hm _].
  rewrite Hm by (by right). simpl.
  set (w1 := set_NodeInstance i _ _).
  assert (GraphNodes w1 !! This = Some N0) as HN1 by apply lookup_insert_eq.
  assert (AddOns_at w1 i = Some []) as HA1.
  { unfold AddOns_at, w1. simpl. by rewrite lookup_insert_eq. }
  destruct (_ && _).
  - destruct (ReconstructNode_lookup T This w1 This N0 HN1) as (N' & HN' & Hs).
    eexists _, N'. split; [done|]. split; [done|].
    destruct Hs as (_ & _ & _ & _ & -> & _). split; [done|].
    destruct (NodeInstances_ReconstructNode T T_identity This w1 i) as [_ ->]. done.
  - by exists w1, N0.
Qed.

End SubNodeOperations.

Lemma mirror_rebuild_keeps_hierarchy_witness :
  ∃ w', RebuildRuntimeAddOnsFromEditorSubNodes NoManagedPins 2 0 ex_family_world = Some w'
    ∧ (∀ n N, GraphNodes ex_family_world !! n = Some N →
         ∃ N', GraphNodes w' !! n = Some N'
               ∧ NodeInstance N' = NodeInstance N ∧ Graph N' = Graph N
               ∧ ParentNode N' = ParentNode N ∧ SubNodes N' = SubNodes N
               ∧ IsSubNode N' = IsSubNode N)
    ∧ (∀ n, GraphNodes ex_family_world !! n = None → GraphNodes w' !! n = None).
Proof.
  eexists. split; [vm_compute; reflexivity|].
  apply (mirror_rebuild_keeps_hierarchy NoManagedPins 2 0 ex_family_world).
  vm_compute. reflexivity.
Defined.

Lemma InsertSubNodeAt_RemoveSubNode_witness :
  ∃ w1 w2 N1 N2,
    InsertSubNodeAt NoManagedPins 2 0 (Some 2) 0 (ex_mirror_world [Some 1]) = Some w1
    ∧ RemoveSubNode NoManagedPins 2 0 (Some 2) w1 = Some w2
    ∧ GraphNodes w1 !! 0 = Some N1 ∧ Some 2 ∈ SubNodes N1
    ∧ length (SubNodes N1) = S (length (SubNodes (ex_mirror_parent [Some 1])))
    ∧ GraphNodes w2 !! 0 = Some N2 ∧ SubNodes N2 = SubNodes (ex_mirror_parent [Some 1]).
Proof.
  destruct (InsertSubNodeAt_RemoveSubNode NoManagedPins ex_rank 2 2 0 (Some 2) 0
              (ex_mirror_world [Some 1]) (ex_mirror_parent [Some 1])) as [H _].
  - reflexivity.
  - apply (bool_decide_unpack _). vm_compute. exact I.
  - apply ex_mirror_world_ranked. intros s Hs.
    apply elem_of_cons in Hs as [[= ->]|Hs]; [done|]. by apply elem_of_nil in Hs.
  - apply ex_mirror_world_in_graph.
  - intros s [= <-]. simpl. lia.
  - simpl. lia.
  - simpl. lia.
  - apply H. simpl. lia.
Defined.

Lemma InsertSubNodeAt_drop_index_witness :
  ∃ w1 N1,
    InsertSubNodeAt NoManagedPins 2 0 (Some 2)
      (FindSubNodeDropIndex (ex_mirror_parent [Some 1]) (Some 1))
      (ex_mirror_world [Some 1]) = Some w1
    ∧ GraphNodes w1 !! 0 = Some N1
    ∧ (((Some 1 ∉ SubNodes (ex_mirror_parent [Some 1]))
        ∧ SubNodes N1 = SubNodes (ex_mirror_parent [Some 1]) ++ [Some 2])
       ∨ ∃ l1 l2, SubNodes (ex_mirror_parent [Some 1]) = l1 ++ Some 1 :: l2 ∧ (Some 1 ∉ l1)
                  ∧ SubNodes N1 = l1 ++ Some 2 :: Some 1 :: l2).
Proof.
  apply (InsertSubNodeAt_drop_index NoManagedPins ex_rank 2 0 (Some 2) (Some 1)
           (ex_mirror_world [Some 1]) (ex_mirror_parent [Some 1])).
  - reflexivity.
  - apply ex_mirror_world_ranked. intros s Hs.
    apply elem_of_cons in Hs as [[= ->]|Hs]; [done|]. by apply elem_of_nil in Hs.
  - apply ex_mirror_world_in_graph.
  - intros s [= <-]. simpl. lia.
  - simpl. lia.
Defined.

Lemma RemoveAllSubNodes_clears_mirror_witness :
  ∃ w' N', RemoveAllSubNodes NoManagedPins 1 0 ex_family_world = Some w'
           ∧ GraphNodes w' !! 0 = Some N' ∧ SubNodes N' = []
           ∧ AddOns_at w' 0 = Some [].
Proof.
  apply (RemoveAllSubNodes_clears_mirror NoManagedPins NoManagedPins_keeps_identity 0 0
           ex_family_world ex_parent_node 0 (ex_flow_node [] [])); reflexivity.
Defined.

(** * Further properties of the rewire pass *)

Lemma RewireStep_MatchedPins (b : bool) (N : UFlowGraphNode) (i : nat) (st : RewireState) :
  rw_MatchedPins (RewireStep b N i st) = rw_MatchedPins st
  ∨ ∃ o j p, rw_InOldPins st !! i = Some o
             ∧ rw_NewPinMatched st !! j = Some false ∧ Pins N !! j = Some p
             ∧ rw_MatchedPins (RewireStep b N i st) = rw_MatchedPins st ++ [(o, p)].
Proof.
  unfold RewireStep. destruct (rw_InOldPins st !! i) as [o|] eqn:Ho; [|by left].
  cbv zeta. destruct (FindNewPin _ _ _ _ _ _) as [j|] eqn:Hf; simpl.
  - destruct (Pins N !! j) as [p|] eqn:Hp; simpl.
    + right. exists o, j, p. split; [done|].
      split; [by apply FindNewPin_Some in Hf as [? _]|]. split; [done|].
      destruct (heap_pins _ !! o); [|done]. by destruct (ShouldKeepOrphan _ _ _ _).
    + left. destruct (heap_pins _ !! o); [|done]. by destruct (ShouldKeepOrphan _ _ _ _).
  - left. destruct (heap_pins _ !! o); [|done]. by destruct (ShouldKeepOrphan _ _ _ _).
Qed.

Section Rewire_matching.

Variables (b : bool) (N1 : UFlowGraphNode) (old : list pin_ptr) (h0 : PinHeap)
          (D : list UEdGraphPin).

Hypothesis Hold_nodup : NoDup old.
Hypothesis Hbounded : ∀ p r, heap_pins h0 !! p = Some r → p < heap_next h0.
Hypothesis Hold_wf : ∀ p, p ∈ old →
  ∃ r, heap_pins h0 !! p = Some r
       ∧ ∀ q, q ∈ LinkedTo r → (q ∉ old) ∧ is_Some (heap_pins h0 !! q).
Hypothesis HD_fresh : ∀ d, d ∈ D → LinkedTo d = [].
Hypothesis HPins : Pins N1 = seq (heap_next h0) (length D).

Lemma rewire_step_injective (i : nat) (st : RewireState) :
  i < length old → RewireInv b N1 old h0 D (S i) st →
  NoDup (rw_MatchedPins st).*1 ∧ NoDup (rw_MatchedPins st).*2 →
  NoDup (rw_MatchedPins (RewireStep b N1 i st)).*1
  ∧ NoDup (rw_MatchedPins (RewireStep b N1 i st)).*2.
Proof.
  intros Hi Hinv [H1 H2].
  destruct (RewireStep_MatchedPins b N1 i st) as [->|(o & j & p & Ho & Hj & Hp & ->)];
    [done|].
  destruct (rewire_at_index b N1 old h0 D Hold_nodup Hbounded Hold_wf i st Hi Hinv)
    as (o' & r0 & _ & Ho' & _ & _ & _ & _ & Hnm & _).
  assert (o' = o) as -> by congruence.
  rewrite !fmap_app. simpl. split.
  - apply NoDup_app. split; [done|]. split; [|apply NoDup_singleton].
    intros x Hx ->%list_elem_of_singleton. done.
  - apply NoDup_app. split; [done|]. split; [|apply NoDup_singleton].
    intros x Hx ->%list_elem_of_singleton.
    apply list_elem_of_fmap in Hx as ([O Np] & -> & Hm). simpl in Hp.
    destruct (inv_matched _ _ _ _ _ _ _ Hinv O Np Hm) as (j' & d & r & -> & _ & Hj' & _).
    rewrite HPins in Hp. apply lookup_seq in Hp as [Hp _].
    assert (j' = j) as -> by lia. congruence.
Qed.

Lemma rewire_loop_injective (i : nat) (st : RewireState) :
  i ≤ length old → RewireInv b N1 old h0 D i st →
  NoDup (rw_MatchedPins st).*1 ∧ NoDup (rw_MatchedPins st).*2 →
  NoDup (rw_MatchedPins (RewireLoop b N1 i st)).*1
  ∧ NoDup (rw_MatchedPins (RewireLoop b N1 i st)).*2.
Proof.
  revert st. induction i as [|i IH]; intros st Hi Hinv Hnd; [done|].
  simpl. apply IH; [lia| |].
  - apply (rewire_step_inv b N1 old h0 D); done || lia.
  - apply rewire_step_injective; done || lia.
Qed.

End Rewire_matching.

(** X15. The matching of the rewire pass is one to one: no old pin is
    matched to two new pins and no new pin to two old pins. A matched pair
    carries one name; its new pin is a freshly allocated pin of the node,
    its old pin is a pin of the node before the pass that is destroyed,
    stripped of its links, and is not among the pins of the node after. *)
Theorem rewire_matching_one_to_one (b : bool) (FlowNode : option UFlowNodeBase)
    (N N' : UFlowGraphNode) (h h' : PinHeap) (rw : RewireState) :
  node_pins_wf N h →
  RebuildPinArrays b FlowNode (N, h) = (N', h', rw) →
  NoDup (rw_MatchedPins rw).*1 ∧ NoDup (rw_MatchedPins rw).*2
  ∧ ∀ O Np, (O, Np) ∈ rw_MatchedPins rw →
      O ∈ Pins N ∧ (O ∉ Pins N') ∧ Np ∈ Pins N' ∧ (Np ∉ Pins N)
      ∧ pin_name h' Np = pin_name h O
      ∧ ∃ r0, heap_pins h !! O = Some r0
              ∧ heap_pins h' !! O = Some (set_Trashed (set_LinkedTo (λ _, []) r0)).
Proof.
  intros Hwf Heq.
  destruct (RebuildPinArrays_spec b FlowNode N N' h h' rw Hwf Heq)
    as (HP & _ & Horph & Hold & _ & Hmatched & _).
  assert (∀ o, o ∈ Pins N → o < heap_next h) as Hlow.
  { intros o Ho. destruct Hwf as (_ & Hb & Hl). destruct (Hl o Ho) as (r & Hr & _).
    by eapply Hb. }
  split; [|split].
  - pose proof Heq as Heq'. unfold RebuildPinArrays in Heq'.
    destruct (AllocateDefaultPins_spec FlowNode N h) as (Is & Os & Halloc).
    rewrite Halloc in Heq'. unfold RewireOldPinsToNewPins in Heq'.
    injection Heq' as _ _ <-. destruct Hwf as (Hnd & Hb & Hl).
    apply (rewire_loop_injective b _ (Pins N) h (new_pin_objects FlowNode)); try done.
    + intros d Hd. by apply (new_pin_objects_fresh FlowNode).
    + apply rewire_inv_init; try done.
    + simpl. split; apply NoDup_nil_2.
  - pose proof Heq as Heq'. unfold RebuildPinArrays in Heq'.
    destruct (AllocateDefaultPins_spec FlowNode N h) as (Is & Os & Halloc).
    rewrite Halloc in Heq'. unfold RewireOldPinsToNewPins in Heq'.
    injection Heq' as _ _ <-. destruct Hwf as (Hnd & Hb & Hl).
    apply (rewire_loop_injective b _ (Pins N) h (new_pin_objects FlowNode)); try done.
    + intros d Hd. by apply (new_pin_objects_fresh FlowNode).
    + apply rewire_inv_init; try done.
    + simpl. split; apply NoDup_nil_2.
  - intros O Np Hm.
    destruct (Hmatched O Np Hm) as (j & d & r0 & -> & Hd & HO & Hr0 & Hname & Hnew & _).
    assert (O ∉ rw_OrphanedOldPins rw) as Hno.
    { intros Hc. apply Horph in Hc as (_ & Hc & _). apply Hc.
      apply list_elem_of_fmap. by exists (O, heap_next h + j). }
    pose proof (Hold O r0 HO Hr0) as HO'. rewrite decide_False in HO' by done.
    split; [done|]. split.
    { rewrite HP, elem_of_app, elem_of_seq, !list_elem_of_filter.
      intros [?|(_ & ? & _)]; [|done]. apply Hlow in HO. lia. }
    split.
    { rewrite HP, elem_of_app, elem_of_seq. left. apply lookup_lt_Some in Hd. lia. }
    split.
    { intros Hc. apply Hlow in Hc. lia. }
    split.
    { unfold pin_name. rewrite Hnew, Hr0. simpl. by destruct d. }
    by exists r0.
Qed.

Lemma rewire_matching_one_to_one_witness :
  let st := RebuildPinArrays true (Some (ex_flow_node [pinIn] [pinOut; pinTrue]))
              (ex_scenario_node, ex_scenario_heap [12]) in
  NoDup (rw_MatchedPins st.2).*1 ∧ NoDup (rw_MatchedPins st.2).*2
  ∧ ∀ O Np, (O, Np) ∈ rw_MatchedPins st.2 →
      O ∈ Pins ex_scenario_node ∧ (O ∉ Pins st.1.1) ∧ Np ∈ Pins st.1.1
      ∧ (Np ∉ Pins ex_scenario_node)
      ∧ pin_name st.1.2 Np = pin_name (ex_scenario_heap [12]) O
      ∧ ∃ r0, heap_pins (ex_scenario_heap [12]) !! O = Some r0
              ∧ heap_pins st.1.2 !! O = Some (set_Trashed (set_LinkedTo (λ _, []) r0)).
Proof.
  intros st.
  apply (rewire_matching_one_to_one true (Some (ex_flow_node [pinIn] [pinOut; pinTrue]))
           ex_scenario_node st.1.1 (ex_scenario_heap [12]) st.1.2 st.2).
  - apply node_pins_wf_b_sound. vm_compute. reflexivity.
  - unfold st. by destruct (RebuildPinArrays _ _ _) as [[? ?] ?].
Defined.

(** * Pin arrays on load and pin look-up *)

Lemma RebuildPinArraysOnLoad_fold (h : PinHeap) (l : list pin_ptr) :
  ∀ N errs, (∀ p, p ∈ l → is_Some (heap_pins h !! p)) →
    foldl (RebuildPinArraysOnLoad_step h) (Some (N, errs)) l
    = Some (set_PinArrays (Pins N)
              (InputPins N ++ filter (λ p, pin_direction h p = Some EGPD_Input) l)
              (OutputPins N ++ filter (λ p, pin_direction h p = Some EGPD_Output) l) N,
            errs ++ filter (λ p, pin_direction h p = Some EGPD_MAX) l).
Proof.
  induction l as [|p l IH]; intros N errs Hl; cbn [foldl].
  - rewrite !app_nil_r. by destruct N.
  - destruct (Hl p) as [r Hr]; [left|].
    assert (∀ q, q ∈ l → is_Some (heap_pins h !! q)) as Hl' by (intros q ?; apply Hl; by right).
    assert (pin_direction h p = Some (Direction r)) as Hd
      by (unfold pin_direction; by rewrite Hr).
    simpl. rewrite Hr. simpl. rewrite !filter_cons, Hd.
    destruct (Direction r); rewrite IH by done; simpl; by rewrite <- ?app_assoc.
Qed.

Lemma RebuildPinArraysOnLoad_fails (h : PinHeap) (l : list pin_ptr) :
  ∀ acc, (∃ p, p ∈ l ∧ heap_pins h !! p = None) →
    foldl (RebuildPinArraysOnLoad_step h) acc l = None.
Proof.
  assert (∀ l', foldl (RebuildPinArraysOnLoad_step h) None l' = None) as Hnone.
  { induction l' as [|q l' IHl']; [done|]. simpl. apply IHl'. }
  induction l as [|q l IH]; intros acc (p & Hp & Hnone'); [by apply elem_of_nil in Hp|].
  cbn [foldl]. apply elem_of_cons in Hp as [->|Hp].
  - destruct acc as [[N errs]|]; simpl; rewrite ?Hnone'; apply Hnone.
  - apply IH. by exists p.
Qed.

Lemma filter_direction_partition (h : PinHeap) (l : list pin_ptr) :
  (∀ p, p ∈ l → is_Some (heap_pins h !! p)) →
  filter (λ p, pin_direction h p = Some EGPD_Input) l
  ++ filter (λ p, pin_direction h p = Some EGPD_Output) l
  ++ filter (λ p, pin_direction h p = Some EGPD_MAX) l ≡ₚ l.
Proof.
  induction l as [|p l IH]; intros Hl; [done|].
  destruct (Hl p) as [r Hr]; [left|].
  assert (pin_direction h p = Some (Direction r)) as Hd
    by (unfold pin_direction; by rewrite Hr).
  rewrite !filter_cons, Hd.
  assert (∀ q, q ∈ l → is_Some (heap_pins h !! q)) as Hl' by (intros q ?; apply Hl; by right).
  specialize (IH Hl').
  destruct (Direction r); simpl.
  - by f_equiv.
  - rewrite <- Permutation_middle. by f_equiv.
  - rewrite app_assoc, <- Permutation_middle, <- app_assoc. by f_equiv.
Qed.

Lemma RebuildPinArraysOnLoad_Some (h : PinHeap) (N0 N : UFlowGraphNode) (errs : list pin_ptr) :
  RebuildPinArraysOnLoad h N0 = Some (N, errs) →
  (∀ p, p ∈ Pins N0 → is_Some (heap_pins h !! p))
  ∧ Pins N = Pins N0
  ∧ InputPins N = InputPins N0 ++ filter (λ p, pin_direction h p = Some EGPD_Input) (Pins N0)
  ∧ OutputPins N
    = OutputPins N0 ++ filter (λ p, pin_direction h p = Some EGPD_Output) (Pins N0).
Proof.
  intros Hload.
  assert (∀ p, p ∈ Pins N0 → is_Some (heap_pins h !! p)) as Hl.
  { destruct (decide (Forall (λ p, is_Some (heap_pins h !! p)) (Pins N0))) as [Hl0|Hl0].
    - by rewrite Forall_forall in Hl0.
    - exfalso. unfold RebuildPinArraysOnLoad in Hload.
      rewrite RebuildPinArraysOnLoad_fails in Hload; [done|].
      apply not_Forall_Exists in Hl0; [|apply _].
      apply Exists_exists in Hl0 as (p & Hp & Hnone). exists p. split; [done|].
      by apply eq_None_not_Some. }
  split; [done|]. unfold RebuildPinArraysOnLoad in Hload.
  rewrite RebuildPinArraysOnLoad_fold in Hload by done. by injection Hload as <- <-.
Qed.

(** X16. [RebuildPinArraysOnLoad] keeps [Pins] and appends to [InputPins]
    the input pins of [Pins] and to [OutputPins] its output pins, each in
    the order of [Pins]; a pin of any other direction is reported and
    added to neither array. Starting from empty arrays, the two arrays and
    the reported pins hold every pin of [Pins] exactly once. The arrays are
    appended to, not reset: what they held before stays in front. *)
Theorem RebuildPinArraysOnLoad_partition (h : PinHeap) (N : UFlowGraphNode) :
  (∀ p, p ∈ Pins N → is_Some (heap_pins h !! p)) →
  ∃ N' errs,
    RebuildPinArraysOnLoad h N = Some (N', errs)
    ∧ Pins N' = Pins N
    ∧ InputPins N' = InputPins N ++ filter (λ p, pin_direction h p = Some EGPD_Input) (Pins N)
    ∧ OutputPins N' = OutputPins N ++ filter (λ p, pin_direction h p = Some EGPD_Output) (Pins N)
    ∧ errs = filter (λ p, pin_direction h p = Some EGPD_MAX) (Pins N)
    ∧ (InputPins N = [] → OutputPins N = [] →
       InputPins N' ++ OutputPins N' ++ errs ≡ₚ Pins N
       ∧ (NoDup (Pins N) → NoDup (InputPins N' ++ OutputPins N'))).
Proof.
  intros Hl. unfold RebuildPinArraysOnLoad. rewrite RebuildPinArraysOnLoad_fold by done.
  eexists _, _. split; [done|]. simpl. do 4 (split; [done|]).
  intros -> ->. simpl.
  pose proof (filter_direction_partition h (Pins N) Hl) as Hperm.
  split; [done|]. intros Hnd. rewrite <- Hperm in Hnd. rewrite app_assoc in Hnd.
  by apply NoDup_app in Hnd as (? & _).
Qed.

Lemma RebuildPinArraysOnLoad_partition_witness :
  ∃ N' errs,
    RebuildPinArraysOnLoad (ex_scenario_heap [12]) (ex_node (Some 0) [0; 1; 2; 3] [] [])
    = Some (N', errs)
    ∧ Pins N' = [0; 1; 2; 3]
    ∧ InputPins N' = [] ++ filter (λ p, pin_direction (ex_scenario_heap [12]) p = Some EGPD_Input)
                              [0; 1; 2; 3]
    ∧ OutputPins N' = [] ++ filter (λ p, pin_direction (ex_scenario_heap [12]) p
                                         = Some EGPD_Output) [0; 1; 2; 3]
    ∧ errs = filter (λ p, pin_direction (ex_scenario_heap [12]) p = Some EGPD_MAX) [0; 1; 2; 3]
    ∧ ((([] : list pin_ptr) = []) → (([] : list pin_ptr) = []) →
       InputPins N' ++ OutputPins N' ++ errs ≡ₚ [0; 1; 2; 3]
       ∧ (NoDup [0; 1; 2; 3] → NoDup (InputPins N' ++ OutputPins N'))).
Proof.
  apply (RebuildPinArraysOnLoad_partition (ex_scenario_heap [12])
           (ex_node (Some 0) [0; 1; 2; 3] [] [])).
  intros p Hp. simpl in Hp.
  repeat (apply elem_of_cons in Hp as [->|Hp]; [by eexists|]). by apply elem_of_nil in Hp.
Defined.

Lemma GetPin_from_spec (Dir : EEdGraphPinDirection) (h : PinHeap) (k : Z) (pins : list pin_ptr) :
  ∀ found, (∀ p, p ∈ pins → is_Some (heap_pins h !! p)) → (found ≤ k)%Z →
    GetPin_from Dir h k pins found
    = Some (filter (λ p, pin_direction h p = Some Dir) pins !! Z.to_nat (k - found)).
Proof.
  induction pins as [|p pins IH]; intros found Hl Hk; [done|].
  destruct (Hl p) as [r Hr]; [left|].
  assert (pin_direction h p = Some (Direction r)) as Hd
    by (unfold pin_direction; by rewrite Hr).
  assert (∀ q, q ∈ pins → is_Some (heap_pins h !! q)) as Hl'
    by (intros q ?; apply Hl; by right).
  simpl. rewrite Hr. simpl. rewrite filter_cons, Hd.
  destruct (decide (Direction r = Dir)) as [->|Hne].
  - rewrite (decide_True (P := Some Dir = Some Dir)) by done.
    destruct (decide (k = found)) as [->|Hkf].
    + rewrite Z.sub_diag. reflexivity.
    + rewrite IH by (done || lia).
      replace (Z.to_nat (k - found)) with (S (Z.to_nat (k - (found + 1)))) by lia. done.
  - rewrite decide_False by congruence. by apply IH.
Qed.

(** X17. [GetInputPin] returns the pin that stands at the given place among
    the input pins of [Pins], and [nullptr] when there are not that many;
    [GetOutputPin] does the same for the output pins. On a node whose
    arrays [RebuildPinArraysOnLoad] has filled from empty, they return the
    entries of [InputPins] and [OutputPins]. A negative index fails the
    [check]. *)
Theorem GetInputPin_nth (h : PinHeap) (N : UFlowGraphNode) (k : Z) :
  (∀ p, p ∈ Pins N → is_Some (heap_pins h !! p)) →
  ((0 ≤ k)%Z →
     GetInputPin h N k
     = Some (filter (λ p, pin_direction h p = Some EGPD_Input) (Pins N) !! Z.to_nat k)
     ∧ GetOutputPin h N k
       = Some (filter (λ p, pin_direction h p = Some EGPD_Output) (Pins N) !! Z.to_nat k))
  ∧ ((k < 0)%Z → GetInputPin h N k = None ∧ GetOutputPin h N k = None)
  ∧ (∀ N0 errs, (0 ≤ k)%Z → InputPins N0 = [] → OutputPins N0 = [] →
       RebuildPinArraysOnLoad h N0 = Some (N, errs) →
       GetInputPin h N k = Some (InputPins N !! Z.to_nat k)
       ∧ GetOutputPin h N k = Some (OutputPins N !! Z.to_nat k)).
Proof.
  intros Hl.
  assert ((0 ≤ k)%Z →
     GetInputPin h N k
     = Some (filter (λ p, pin_direction h p = Some EGPD_Input) (Pins N) !! Z.to_nat k)
     ∧ GetOutputPin h N k
       = Some (filter (λ p, pin_direction h p = Some EGPD_Output) (Pins N) !! Z.to_nat k))
    as Hnth.
  { intros Hk. unfold GetInputPin, GetOutputPin. rewrite !decide_True by done.
    rewrite !GetPin_from_spec by (done || lia). by rewrite Z.sub_0_r. }
  split; [done|]. split.
  - intros Hk. unfold GetInputPin, GetOutputPin. by rewrite !decide_False by lia.
  - intros N0 errs Hk HI HO Hload.
    destruct (RebuildPinArraysOnLoad_Some h N0 N errs Hload) as (_ & HP & HI1 & HO1).
    destruct (Hnth Hk) as [-> ->]. by rewrite HI1, HO1, HI, HO, HP.
Qed.

Lemma GetInputPin_nth_witness :
  let h := ex_scenario_heap [12] in
  ((0 ≤ 1)%Z →
     GetInputPin h ex_scenario_node 1
     = Some (filter (λ p, pin_direction h p = Some EGPD_Input) (Pins ex_scenario_node)
               !! Z.to_nat 1)
     ∧ GetOutputPin h ex_scenario_node 1
       = Some (filter (λ p, pin_direction h p = Some EGPD_Output) (Pins ex_scenario_node)
                 !! Z.to_nat 1))
  ∧ ((1 < 0)%Z → GetInputPin h ex_scenario_node 1 = None
                 ∧ GetOutputPin h ex_scenario_node 1 = None)
  ∧ (∀ N0 errs, (0 ≤ 1)%Z → InputPins N0 = [] → OutputPins N0 = [] →
       RebuildPinArraysOnLoad h N0 = Some (ex_scenario_node, errs) →
       GetInputPin h ex_scenario_node 1 = Some (InputPins ex_scenario_node !! Z.to_nat 1)
       ∧ GetOutputPin h ex_scenario_node 1
         = Some (OutputPins ex_scenario_node !! Z.to_nat 1)).
Proof.
  apply (GetInputPin_nth (ex_scenario_heap [12]) ex_scenario_node 1).
  intros p Hp. simpl in Hp.
  repeat (apply elem_of_cons in Hp as [->|Hp]; [by eexists|]). by apply elem_of_nil in Hp.
Defined.

(** * The shape of the pins after allocation and after a rebuild *)

(** X18. [AllocateDefaultPins] on a flow node creates one pin for every
    descriptor with a name, the inputs first and then the outputs, each in
    the order of the descriptors: [Pins] is [InputPins] followed by
    [OutputPins], the new pins are distinct fresh objects carrying the
    descriptor's name, type and tool tip, unlinked and unflagged, and no
    existing pin object is touched. Without a flow node nothing is
    created. *)
Theorem AllocateDefaultPins_layout (X : UFlowNodeBase) (N : UFlowGraphNode) (h : PinHeap) :
  let ins := filter (λ p, FlowPin_IsValid p) (Inst_InputPins X) in
  let outs := filter (λ p, FlowPin_IsValid p) (Inst_OutputPins X) in
  ∃ N' h',
    AllocateDefaultPins (Some X) (set_PinArrays [] [] [] N, h) = (N', h')
    ∧ Pins N' = InputPins N' ++ OutputPins N'
    ∧ ((λ p, heap_pins h' !! p) <$> InputPins N') = (Some ∘ fresh_pin EGPD_Input <$> ins)
    ∧ ((λ p, heap_pins h' !! p) <$> OutputPins N') = (Some ∘ fresh_pin EGPD_Output <$> outs)
    ∧ (∀ Dir fp, PinName (fresh_pin Dir fp) = FlowPin_PinName fp
                 ∧ Direction (fresh_pin Dir fp) = Dir
                 ∧ PinCategory (fresh_pin Dir fp) = GetPinType fp
                 ∧ PinToolTip (fresh_pin Dir fp) = FlowPin_PinToolTip fp
                 ∧ LinkedTo (fresh_pin Dir fp) = []
                 ∧ bOrphanedPin (fresh_pin Dir fp) = false)
    ∧ NoDup (Pins N')
    ∧ (∀ p, p ∈ Pins N' → heap_next h ≤ p < heap_next h')
    ∧ (∀ p, p < heap_next h → heap_pins h' !! p = heap_pins h !! p)
    ∧ AllocateDefaultPins None (set_PinArrays [] [] [] N, h) = (set_PinArrays [] [] [] N, h).
Proof.
  intros ins outs. eexists _, _. split; [apply AllocateDefaultPins_flow_node|].
  fold ins outs. simpl.
  destruct (alloc_list_spec (declared_pins X) h) as (Hn & Hlow & Hnew).
  assert (length (declared_pins X) = length ins + length outs) as Hlen.
  { unfold declared_pins. fold ins outs. by rewrite length_app, !length_fmap. }
  split; [by rewrite Hlen, seq_app|]. split; [|split].
  - apply list_eq. intros j. rewrite !list_lookup_fmap.
    destruct (ins !! j) as [fp|] eqn:Hj; simpl.
    + rewrite lookup_seq_lt by (by eapply lookup_lt_Some). simpl.
      f_equal. apply Hnew. unfold declared_pins. fold ins outs.
      rewrite lookup_app_l by (rewrite length_fmap; by eapply lookup_lt_Some).
      by rewrite list_lookup_fmap, Hj.
    + rewrite lookup_seq_ge; [done|]. by apply lookup_ge_None.
  - apply list_eq. intros j. rewrite !list_lookup_fmap.
    destruct (outs !! j) as [fp|] eqn:Hj; simpl.
    + rewrite lookup_seq_lt by (by eapply lookup_lt_Some). simpl.
      f_equal. rewrite <- Nat.add_assoc. apply Hnew. unfold declared_pins. fold ins outs.
      rewrite lookup_app_r by (rewrite length_fmap; lia).
      rewrite length_fmap. replace (length ins + j - length ins) with j by lia.
      by rewrite list_lookup_fmap, Hj.
    + rewrite lookup_seq_ge; [done|]. by apply lookup_ge_None.
  - split; [by intros [] fp|]. split; [apply NoDup_seq|]. split.
    + intros p Hp. apply elem_of_seq in Hp. lia.
    + split; [done|reflexivity].
Qed.

(** The loop that destroys the old pins leaves the new pins as the rewire
    pass made them. *)
Lemma RebuildPinArrays_new_pins (b : bool) (FlowNode : option UFlowNodeBase)
    (N N' : UFlowGraphNode) (h h' : PinHeap) (rw : RewireState) (j : nat) (d : UEdGraphPin) :
  node_pins_wf N h →
  RebuildPinArrays b FlowNode (N, h) = (N', h', rw) →
  new_pin_objects FlowNode !! j = Some d →
  heap_pins h' !! (heap_next h + j) = Some d
  ∨ ∃ O r0, (O, heap_next h + j) ∈ rw_MatchedPins rw ∧ O ∈ Pins N
            ∧ heap_pins h !! O = Some r0
            ∧ heap_pins h' !! (heap_next h + j) = Some (set_LinkedTo (λ _, LinkedTo r0) d).
Proof.
  intros Hwf0 Heq Hd.
  destruct (RebuildPinArrays_spec b FlowNode N N' h h' rw Hwf0 Heq)
    as (_ & _ & _ & _ & _ & Hmatched & _).
  destruct (RebuildPinArrays_inv b FlowNode N N' h h' rw Hwf0 Heq)
    as (Is & Os & Hinv & _ & ->).
  destruct Hwf0 as (Hnd & Hbd & Hwf).
  set (D := new_pin_objects FlowNode) in *.
  destruct Hinv as [Ia Ib Ic Id Ie1 Ie2 If Ig Ie0 Io Icl Ico].
  rewrite take_0, drop_0 in Ia. simpl in Ia.
  destruct (rw_NewPinMatched rw !! j) as [[]|] eqn:Hm.
  - right. destruct (Icl j Hm) as (O & HO).
    destruct (Hmatched O _ HO) as (j' & d' & r0 & Hj & Hd' & HOin & Hr0 & _ & Hnew & _).
    assert (j' = j) as -> by lia. fold D in Hd'.
    assert (d' = d) as -> by congruence.
    by exists O, r0.
  - left. assert (∀ o, o ∈ Pins N → o < heap_next h) as Hlow.
    { intros o Ho. destruct (Hwf o Ho) as (r & Hr & _). by eapply Hbd. }
    rewrite Ia.
    set (DL := filter (λ o, o ∉ rw_OrphanedOldPins rw) (Pins N)).
    assert (∀ p, p ∈ DL ↔ p ∈ Pins N ∧ p ∉ rw_OrphanedOldPins rw) as HDL.
    { intros p. unfold DL. rewrite list_elem_of_filter. tauto. }
    destruct (destroy_fold DL (rw_heap rw)) as (_ & _ & Dx).
    { by apply NoDup_filter. }
    { intros p Hp. apply HDL in Hp as [Hp Hpo].
      destruct (Ic p Hp) as (r0 & Hr0 & Hr). rewrite decide_False in Hr by done.
      exists r0. split; [done|]. intros q Hq Hc. apply HDL in Hc as [Hc _].
      destruct (Hwf p Hp) as (r & Hr' & HL). rewrite Hr0 in Hr'. injection Hr' as <-.
      by apply (HL q Hq). }
    destruct (Dx (heap_next h + j)) as (g & -> & _ & Hsub & _).
    { intros Hc. apply HDL in Hc as [Hc _]. apply Hlow in Hc. lia. }
    rewrite (Ie1 j d Hd Hm). simpl. f_equal.
    assert (LinkedTo d = []) as Hfresh.
    { apply (new_pin_objects_fresh FlowNode). by eapply list_elem_of_lookup_2. }
    assert (g (LinkedTo d) = []) as Hg.
    { destruct (g (LinkedTo d)) as [|y l] eqn:Hgl; [done|].
      assert (y ∈ LinkedTo d) as Hy by (apply Hsub; rewrite Hgl; left).
      rewrite Hfresh in Hy. by apply elem_of_nil in Hy. }
    destruct d. unfold set_LinkedTo. simpl in *. by rewrite Hg, Hfresh.
  - apply lookup_ge_None in Hm. apply lookup_lt_Some in Hd. fold D in Hd. lia.
Qed.

(** A rebuild keeps the pins of the node well formed. *)
Lemma RebuildPinArrays_keeps_wf (b : bool) (FlowNode : option UFlowNodeBase)
    (N N' : UFlowGraphNode) (h h' : PinHeap) (rw : RewireState) :
  node_pins_wf N h →
  RebuildPinArrays b FlowNode (N, h) = (N', h', rw) →
  node_pins_wf N' h'.
Proof.
  intros Hwf Heq.
  destruct (RebuildPinArrays_spec _ _ _ _ _ _ _ Hwf Heq)
    as (HP & Hnext & Horph & Hold & Hnew & Hmatched & Hext).
  pose proof (RebuildPinArrays_bounded _ _ _ _ _ _ _ (proj1 (proj2 Hwf)) Heq) as Hb'.
  set (D := new_pin_objects FlowNode) in *.
  pose proof Hwf as (Hnd & Hb & Hl).
  assert (∀ o, o ∈ Pins N → o < heap_next h) as Hlow.
  { intros o Ho. destruct (Hl o Ho) as (r & Hr & _). by eapply Hb. }
  set (kept := filter (λ p, has_no_parent h p)
                 (filter (λ o, o ∈ rw_OrphanedOldPins rw) (Pins N))) in *.
  assert (∀ o, o ∈ kept → o ∈ Pins N ∧ o ∈ rw_OrphanedOldPins rw) as Hkept.
  { intros o Ho. apply list_elem_of_filter in Ho as [_ Ho].
    apply list_elem_of_filter in Ho as [? ?]. done. }
  assert (∀ O r0 q, O ∈ Pins N → heap_pins h !! O = Some r0 → q ∈ LinkedTo r0 →
            (q ∉ Pins N') ∧ is_Some (heap_pins h' !! q)) as Hlinks.
  { intros O r0 q HO Hr0 Hq. destruct (Hl O HO) as (r & Hr & HL).
    assert (r = r0) as -> by congruence. destruct (HL q Hq) as [Hqext [rq Hrq]]. split.
    - rewrite HP, elem_of_app, elem_of_seq. intros [Hq'|Hq'].
      + apply Hb in Hrq. lia.
      + apply Hkept in Hq' as [? _]. done.
    - destruct (Hext q rq Hqext Hrq) as (rq' & -> & _). by eexists. }
  split; [|split].
  - rewrite HP. apply NoDup_app. split; [apply NoDup_seq|]. split.
    + intros x Hx Hx'. apply elem_of_seq in Hx. apply Hkept in Hx' as [Hx' _].
      apply Hlow in Hx'. lia.
    + unfold kept. by do 2 apply NoDup_filter.
  - exact Hb'.
  - intros p Hp. pose proof Hp as Hp'.
    rewrite HP, elem_of_app in Hp'. destruct Hp' as [Hp'|Hp'].
    + apply elem_of_seq in Hp'.
      destruct (lookup_lt_is_Some_2 D (p - heap_next h)) as [d Hd]; [lia|].
      destruct (RebuildPinArrays_new_pins _ _ _ _ _ _ _ _ d Hwf Heq Hd)
        as [Hr|(O & r0 & _ & HO & Hr0 & Hr)];
        replace (heap_next h + (p - heap_next h)) with p in Hr by lia.
      * exists d. split; [done|]. intros q Hq.
        destruct (new_pin_objects_fresh _ d (list_elem_of_lookup_2 _ _ _ Hd)) as (Hf & _).
        rewrite Hf in Hq. by apply elem_of_nil in Hq.
      * eexists. split; [exact Hr|]. simpl. intros q Hq. by apply (Hlinks O r0 q).
    + apply Hkept in Hp' as [HpN Hpo]. destruct (Hl p HpN) as (r0 & Hr0 & _).
      exists (set_Orphaned r0). split.
      * rewrite (Hold p r0 HpN Hr0). by rewrite decide_True.
      * simpl. intros q Hq. by apply (Hlinks p r0 q).
Qed.

(** What a call of [ReconstructNode] does to the pin arrays of its node:
    either it leaves the three arrays and the pin objects alone, or it
    rebuilds them from the refreshed node instance. *)
Lemma ReconstructNode_arrays (T : UFlowNodeBase → option UFlowNodeBase) (This : node_ptr)
    (w : World) (N : UFlowGraphNode) :
  GraphNodes w !! This = Some N →
  let w' := ReconstructNode T This w in
  (needs_rebuild T N w && CanReconstructNode w N = false
   ∧ ∃ N', GraphNodes w' !! This = Some N' ∧ Pins N' = Pins N
           ∧ InputPins N' = InputPins N ∧ OutputPins N' = OutputPins N
           ∧ PinObjects w' = PinObjects w)
  ∨ (∃ N1 h' rw,
       CanReconstructNode w N = true ∧ needs_rebuild T N w = true
       ∧ RebuildPinArrays (bOrphanPinsEnabled w)
           (Cast_UFlowNode (refreshed_world T N w) (NodeInstance N))
           (set_bIsReconstructingNode true N, PinObjects w) = (N1, h', rw)
       ∧ GraphNodes w' !! This
         = Some (set_bIsReconstructingNode false (set_bNeedsFullReconstruction false N1))
       ∧ PinObjects w' = h').
Proof.
  intros HN w'. destruct (CanReconstructNode w N) eqn:Hc.
  - unfold w'. rewrite (ReconstructNode_unfold T This w N HN Hc).
    destruct (refreshed_world_same T N w) as (Hp & Hg & _ & Ho & _).
    destruct (needs_rebuild T N w) eqn:Hneed.
    + right. rewrite Hp, Ho.
      destruct (RebuildPinArrays _ _ _) as [[N1 h'] rw] eqn:Heq.
      exists N1, h', rw. split; [done|]. split; [done|]. split.
      { rewrite <- Heq. by destruct N. }
      simpl. by rewrite lookup_insert_eq.
    + left. split; [done|]. eexists. simpl. rewrite lookup_insert_eq. split; [done|].
      by destruct N.
  - left. split; [by rewrite andb_false_r|]. exists N. unfold w', ReconstructNode.
    by rewrite HN, Hc.
Qed.

(** X19. [ReconstructNode] keeps the pins of its node well formed: after
    the call they are again distinct live objects below the next free
    address, linked to live pins of other nodes only. A reconstruction can
    therefore follow a reconstruction. *)
Theorem ReconstructNode_keeps_pins_wf (T : UFlowNodeBase → option UFlowNodeBase)
    (This : node_ptr) (w : World) (N : UFlowGraphNode) :
  GraphNodes w !! This = Some N →
  node_pins_wf N (PinObjects w) →
  ∃ N', GraphNodes (ReconstructNode T This w) !! This = Some N'
        ∧ node_pins_wf N' (PinObjects (ReconstructNode T This w)).
Proof.
  intros HN Hwf.
  destruct (ReconstructNode_arrays T This w N HN)
    as [(_ & N1 & HN1 & HP & _ & _ & Hh)|(N1 & h' & rw & Hc & Hneed & Heq & HN1 & Hh)].
  { exists N1. split; [done|]. rewrite Hh. unfold node_pins_wf. by rewrite HP. }
  eexists. split; [exact HN1|]. rewrite Hh.
  pose proof (node_pins_wf_reconstructing true N _ Hwf) as Hwf1.
  by apply (RebuildPinArrays_keeps_wf _ _ _ _ _ _ _ Hwf1 Heq).
Qed.

Lemma ReconstructNode_keeps_pins_wf_witness :
  ∃ N', GraphNodes (ReconstructNode NoManagedPins 0 (ex_scenario_world [12] false)) !! 0
        = Some N'
        ∧ node_pins_wf N'
            (PinObjects (ReconstructNode NoManagedPins 0 (ex_scenario_world [12] false))).
Proof.
  apply (ReconstructNode_keeps_pins_wf NoManagedPins 0 (ex_scenario_world [12] false)
           ex_scenario_node).
  - reflexivity.
  - apply node_pins_wf_b_sound. vm_compute. reflexivity.
Defined.

Lemma AppendOrphan_cases (h : PinHeap) (N : UFlowGraphNode) (p : pin_ptr) :
  (has_no_parent h p = false ∧ AppendOrphan h N p = N)
  ∨ (has_no_parent h p = true
     ∧ ∃ Dir, pin_direction h p = Some Dir
         ∧ AppendOrphan h N p
           = match Dir with
             | EGPD_Input =>
                 set_PinArrays (Pins N ++ [p]) (InputPins N ++ [p]) (OutputPins N) N
             | EGPD_Output =>
                 set_PinArrays (Pins N ++ [p]) (InputPins N) (OutputPins N ++ [p]) N
             | EGPD_MAX => set_PinArrays (Pins N ++ [p]) (InputPins N) (OutputPins N) N
             end).
Proof.
  unfold AppendOrphan, has_no_parent, pin_direction.
  destruct (heap_pins h !! p) as [r|]; [|by left]. simpl.
  destruct (ParentPin r); [by left|]. right. split; [done|]. by exists (Direction r).
Qed.

Lemma AppendOrphans_arrays (h : PinHeap) (l : list pin_ptr) :
  ∀ N,
    InputPins (foldl (AppendOrphan h) N l)
    = InputPins N ++ filter (λ p, pin_direction h p = Some EGPD_Input)
                       (filter (λ p, has_no_parent h p) l)
    ∧ OutputPins (foldl (AppendOrphan h) N l)
      = OutputPins N ++ filter (λ p, pin_direction h p = Some EGPD_Output)
                          (filter (λ p, has_no_parent h p) l).
Proof.
  induction l as [|p l IH]; intros N; cbn [foldl].
  - by rewrite !app_nil_r.
  - destruct (IH (AppendOrphan h N p)) as [-> ->].
    rewrite (filter_cons (λ p, has_no_parent h p)).
    destruct (AppendOrphan_cases h N p) as [[Hnp ->]|(Hnp & Dir & Hd & ->)].
    + by rewrite decide_False by (rewrite Hnp; intros []).
    + rewrite decide_True by (rewrite Hnp; exact I). rewrite !filter_cons, Hd.
      destruct Dir; simpl; by rewrite <- ?app_assoc.
Qed.

Lemma filter_none {A : Type} (P : A → Prop) `{∀ x, Decision (P x)} (l : list A) :
  (∀ x, x ∈ l → ¬ P x) → filter P l = [].
Proof.
  induction l as [|x l IH]; intros Hl; [done|].
  rewrite filter_cons_False by (apply Hl; left). apply IH. intros y Hy. apply Hl. by right.
Qed.

Lemma filter_seq_below (P : nat → Prop) `{∀ x, Decision (P x)} (start n m : nat) :
  (∀ j, j < n → P (start + j)) → (∀ j, n ≤ j → j < n + m → ¬ P (start + j)) →
  filter P (seq start (n + m)) = seq start n.
Proof.
  intros Hin Hout. rewrite seq_app, filter_app.
  rewrite (filter_all_in P (seq start n)).
  - assert (filter P (seq (start + n) m) = []) as ->; [|by rewrite app_nil_r].
    apply filter_none. intros x Hx.
    apply elem_of_seq in Hx.
    replace x with (start + (x - start)) by lia. apply Hout; lia.
  - intros x Hx. apply elem_of_seq in Hx.
    replace x with (start + (x - start)) by lia. apply Hin. lia.
Qed.

Lemma AllocateDefaultPins_arrays (FlowNode : option UFlowNodeBase) (N : UFlowGraphNode)
    (h : PinHeap) :
  ∃ nin nout,
    length (new_pin_objects FlowNode) = nin + nout
    ∧ (∀ j d, new_pin_objects FlowNode !! j = Some d →
         Direction d = if decide (j < nin) then EGPD_Input else EGPD_Output)
    ∧ AllocateDefaultPins FlowNode (set_PinArrays [] [] [] N, h)
      = (set_PinArrays (seq (heap_next h) (nin + nout)) (seq (heap_next h) nin)
           (seq (heap_next h + nin) nout) N,
         alloc_list (new_pin_objects FlowNode) h).
Proof.
  destruct FlowNode as [X|]; simpl.
  - set (ins := filter (λ p, FlowPin_IsValid p) (Inst_InputPins X)).
    set (outs := filter (λ p, FlowPin_IsValid p) (Inst_OutputPins X)).
    assert (length (declared_pins X) = length ins + length outs) as Hlen.
    { unfold declared_pins. fold ins outs. by rewrite length_app, !length_fmap. }
    exists (length ins), (length outs). split; [done|]. split.
    + intros j d Hd. unfold declared_pins in Hd. fold ins outs in Hd.
      destruct (decide (j < length ins)) as [Hj|Hj].
      * rewrite lookup_app_l in Hd by (by rewrite length_fmap).
        apply list_lookup_fmap_Some in Hd as (fp & -> & _). done.
      * rewrite lookup_app_r in Hd by (rewrite length_fmap; lia).
        apply list_lookup_fmap_Some in Hd as (fp & -> & _). done.
    + rewrite AllocateDefaultPins_flow_node. fold ins outs. by rewrite Hlen.
  - exists 0, 0. split; [done|]. split; [done|]. reflexivity.
Qed.

Lemma RebuildPinArrays_arrays (b : bool) (FlowNode : option UFlowNodeBase)
    (N N' : UFlowGraphNode) (h h' : PinHeap) (rw : RewireState) :
  node_pins_wf N h →
  RebuildPinArrays b FlowNode (N, h) = (N', h', rw) →
  arrays_by_direction N' h'.
Proof.
  intros Hwf Heq.
  destruct (RebuildPinArrays_spec b FlowNode N N' h h' rw Hwf Heq)
    as (_ & _ & Horph & Hold & Hnew & _).
  destruct (RebuildPinArrays_inv b FlowNode N N' h h' rw Hwf Heq) as (Is0 & Os0 & Hinv & _).
  destruct (AllocateDefaultPins_arrays FlowNode N h) as (nin & nout & Hlen & Hdir & Halloc).
  pose proof Heq as Heq'. unfold RebuildPinArrays in Heq'. rewrite Halloc in Heq'.
  unfold RewireOldPinsToNewPins in Heq'.
  set (st := RewireLoop _ _ _ _) in Heq'.
  injection Heq' as HN' _ Hrw. rewrite Hrw in HN'. clear st Hrw.
  set (hh := rw_heap rw) in *. set (L := reverse (rw_OrphanedOldPins rw)) in *.
  assert (∀ p, p ∈ filter (λ p, has_no_parent hh p) L →
               pin_direction h' p = pin_direction hh p) as Hsame.
  { intros p Hp. apply list_elem_of_filter in Hp as [_ Hp].
    unfold L in Hp. rewrite elem_of_reverse in Hp.
    destruct (proj1 (Horph p) Hp) as (HpN & _ & r0 & Hr0 & _).
    destruct (inv_old _ _ _ _ _ _ _ Hinv p HpN) as (r & Hr & Hhh).
    assert (r = r0) as -> by congruence. rewrite decide_True in Hhh by done.
    unfold pin_direction, hh. rewrite Hhh, (Hold p r0 HpN Hr0).
    by rewrite decide_True. }
  assert (∀ j, j < nin + nout →
            pin_direction h' (heap_next h + j)
            = Some (if decide (j < nin) then EGPD_Input else EGPD_Output)) as Hnewdir.
  { intros j Hj. destruct (lookup_lt_is_Some_2 (new_pin_objects FlowNode) j) as [d Hd];
      [lia|].
    destruct (Hnew j d Hd) as (r' & Hr' & Hforget). unfold pin_direction. rewrite Hr'.
    simpl. f_equal. rewrite <- (Hdir j d Hd). by apply (f_equal Direction) in Hforget. }
  pose proof (AppendOrphans_Pins hh L
    (set_PinArrays (seq (heap_next h) (nin + nout)) (seq (heap_next h) nin)
       (seq (heap_next h + nin) nout) N)) as HP.
  destruct (AppendOrphans_arrays hh L
    (set_PinArrays (seq (heap_next h) (nin + nout)) (seq (heap_next h) nin)
       (seq (heap_next h + nin) nout) N)) as [HI HO].
  rewrite HN' in HP, HI, HO. simpl in HP, HI, HO.
  unfold arrays_by_direction. rewrite HP, HI, HO, !filter_app. split.
  - f_equal.
    + symmetry. apply filter_seq_below.
      * intros j Hj. rewrite Hnewdir by lia. by rewrite decide_True.
      * intros j Hj1 Hj2. rewrite Hnewdir by lia. by rewrite decide_False by lia.
    + apply filter_ext_elem. intros p Hp. by rewrite Hsame.
  - f_equal.
    + symmetry. rewrite seq_app, filter_app.
      rewrite (filter_none _ (seq (heap_next h) nin)).
      * simpl. apply filter_all_in. intros x Hx. apply elem_of_seq in Hx.
        replace x with (heap_next h + (x - heap_next h)) by lia.
        rewrite Hnewdir by lia. by rewrite decide_False by lia.
      * intros x Hx. apply elem_of_seq in Hx.
        replace x with (heap_next h + (x - heap_next h)) by lia.
        rewrite Hnewdir by lia. by rewrite decide_True by lia.
    + apply filter_ext_elem. intros p Hp. by rewrite Hsame.
Qed.

(** X20. After a rebuild the three pin arrays of the node agree:
    [InputPins] holds the input pins of [Pins] and [OutputPins] its output
    pins, each in the order of [Pins] (new pins first, retained orphans
    after them). [ReconstructNode] keeps the arrays in agreement when it
    does not rebuild, and on a node whose arrays agree [GetInputPin] and
    [GetOutputPin] return the entries of the two arrays. *)
Theorem ReconstructNode_keeps_arrays (T : UFlowNodeBase → option UFlowNodeBase)
    (This : node_ptr) (w : World) (N : UFlowGraphNode) :
  GraphNodes w !! This = Some N →
  node_pins_wf N (PinObjects w) →
  let w' := ReconstructNode T This w in
  ∃ N', GraphNodes w' !! This = Some N'
    ∧ (arrays_by_direction N (PinObjects w) → arrays_by_direction N' (PinObjects w'))
    ∧ (CanReconstructNode w N = true → needs_rebuild T N w = true →
       arrays_by_direction N' (PinObjects w'))
    ∧ (arrays_by_direction N' (PinObjects w') →
       ∀ k, (0 ≤ k)%Z →
         GetInputPin (PinObjects w') N' k = Some (InputPins N' !! Z.to_nat k)
         ∧ GetOutputPin (PinObjects w') N' k = Some (OutputPins N' !! Z.to_nat k)).
Proof.
  intros HN Hwf w'.
  assert (∃ N', GraphNodes w' !! This = Some N'
            ∧ node_pins_wf N' (PinObjects w')
            ∧ (arrays_by_direction N (PinObjects w) → arrays_by_direction N' (PinObjects w'))
            ∧ (CanReconstructNode w N = true → needs_rebuild T N w = true →
               arrays_by_direction N' (PinObjects w'))) as (N' & HN' & Hwf' & Hkeep & Hest).
  { destruct (ReconstructNode_arrays T This w N HN)
      as [(Hno & N1 & HN1 & HP & HI & HO & Hh)|(N1 & h' & rw & Hc & Hneed & Heq & HN1 & Hh)];
      fold w' in HN1, Hh.
    - exists N1. split; [done|]. rewrite Hh. split; [|split].
      + unfold node_pins_wf. by rewrite HP.
      + unfold arrays_by_direction. by rewrite HP, HI, HO.
      + intros Hc Hneed. rewrite Hc, Hneed in Hno. done.
    - eexists. split; [exact HN1|]. rewrite Hh.
      pose proof (node_pins_wf_reconstructing true N _ Hwf) as Hwf1.
      pose proof (RebuildPinArrays_arrays _ _ _ _ _ _ _ Hwf1 Heq) as Harr.
      pose proof (RebuildPinArrays_keeps_wf _ _ _ _ _ _ _ Hwf1 Heq) as Hwf2.
      split; [exact Hwf2|]. split; intros; exact Harr. }
  exists N'. split; [done|]. split; [done|]. split; [done|]. intros [HI HO] k Hk.
  assert (∀ p, p ∈ Pins N' → is_Some (heap_pins (PinObjects w') !! p)) as Hlive.
  { intros p Hp. destruct Hwf' as (_ & _ & Hl). destruct (Hl p Hp) as (r & -> & _).
    by eexists. }
  unfold GetInputPin, GetOutputPin. rewrite !decide_True by done.
  rewrite !GetPin_from_spec by (done || lia). by rewrite Z.sub_0_r, HI, HO.
Qed.

Lemma ReconstructNode_keeps_arrays_witness :
  let w := ex_scenario_world [12] false in
  let w' := ReconstructNode NoManagedPins 0 w in
  ∃ N', GraphNodes w' !! 0 = Some N'
    ∧ (arrays_by_direction ex_scenario_node (PinObjects w) →
       arrays_by_direction N' (PinObjects w'))
    ∧ (CanReconstructNode w ex_scenario_node = true →
       needs_rebuild NoManagedPins ex_scenario_node w = true →
       arrays_by_direction N' (PinObjects w'))
    ∧ (arrays_by_direction N' (PinObjects w') →
       ∀ k, (0 ≤ k)%Z →
         GetInputPin (PinObjects w') N' k = Some (InputPins N' !! Z.to_nat k)
         ∧ GetOutputPin (PinObjects w') N' k = Some (OutputPins N' !! Z.to_nat k)).
Proof.
  apply (ReconstructNode_keeps_arrays NoManagedPins 0 (ex_scenario_world [12] false)
           ex_scenario_node).
  - reflexivity.
  - apply node_pins_wf_b_sound. vm_compute. reflexivity.
Defined.

(** * External changes *)

Lemma CanReconstructNode_reads (w w' : World) (N N' : UFlowGraphNode) :
  GIsTransacting w' = GIsTransacting w → NodeInstances w' = NodeInstances w →
  bIsReconstructingNode N' = bIsReconstructingNode N →
  bIsDestroyingNode N' = bIsDestroyingNode N →
  NodeInstance N' = NodeInstance N → Graph N' = Graph N →
  CanReconstructNode w' N' = CanReconstructNode w N.
Proof.
  intros Ht Hi Hr Hd Hn Hg.
  rewrite !CanReconstructNode_eq. unfold IsValid_Instance, deref_Instance, GetFlowGraph.
  by rewrite Ht, Hi, Hr, Hd, Hn, Hg.
Qed.

Lemma CanReconstructNode_call_reads (w w' : World) (N N' : UFlowGraphNode) :
  GIsTransacting w' = GIsTransacting w → NodeInstances w' = NodeInstances w →
  bIsReconstructingNode N' = bIsReconstructingNode N →
  bIsDestroyingNode N' = bIsDestroyingNode N →
  NodeInstance N' = NodeInstance N → Graph N' = Graph N →
  CanReconstructNode_call w' N' = CanReconstructNode_call w N.
Proof.
  intros Ht Hi Hr Hd Hn Hg.
  unfold CanReconstructNode_call, IsValid_Instance, deref_Instance, GetFlowAsset, GetFlowGraph.
  by rewrite Ht, Hi, Hr, Hd, Hn, Hg.
Qed.

Lemma needs_rebuild_pending (T : UFlowNodeBase → option UFlowNodeBase) (N : UFlowGraphNode)
    (w : World) :
  bNeedsFullReconstruction N = true → needs_rebuild T N w = true.
Proof. intros Hf. unfold needs_rebuild. cbv zeta. simpl. by rewrite Hf. Qed.

(** X21. [OnExternalChange] does nothing on a node that is being
    reconstructed. Otherwise it forces a full rebuild: when the guard lets
    the call through, every pin of the node that is not a retained orphan
    is a freshly allocated object afterwards, even if the descriptors have
    not changed, and the request flag is cleared. When the guard stops the
    call (a transaction, a locked or saving graph, a node being
    destroyed) on a node that has a graph, the request is kept in
    [bNeedsFullReconstruction], and the next [ReconstructNode] that passes
    the guard rebuilds. On a node without graph, and where the guard does
    not return, the call does not return. *)
Theorem OnExternalChange_forces_rebuild (T : UFlowNodeBase → option UFlowNodeBase)
    (This : node_ptr) (w : World) (N : UFlowGraphNode) :
  GraphNodes w !! This = Some N →
  node_pins_wf N (PinObjects w) →
  (bIsReconstructingNode N = true → OnExternalChange T This w = Some w)
  ∧ (bIsReconstructingNode N = false → CanReconstructNode_call w N = Some false →
     is_Some (Graph N) →
     OnExternalChange T This w
     = Some (set_GraphNode This (set_bNeedsFullReconstruction true N) w)
     ∧ ∀ w2 N2, GraphNodes w2 !! This = Some N2 →
         bNeedsFullReconstruction N2 = true → needs_rebuild T N2 w2 = true)
  ∧ (CanReconstructNode_call w N = Some true →
     ∃ w' N', OnExternalChange T This w = Some w'
       ∧ GraphNodes w' !! This = Some N'
       ∧ bNeedsFullReconstruction N' = false ∧ bIsReconstructingNode N' = false
       ∧ ∀ p, p ∈ Pins N' →
           (heap_next (PinObjects w) ≤ p ∧ (p ∉ Pins N)
            ∧ pin_orphaned (PinObjects w') p = false)
           ∨ (p ∈ Pins N ∧ pin_orphaned (PinObjects w') p = true))
  ∧ (bIsReconstructingNode N = false →
     Graph N = None ∨ CanReconstructNode_call w N = None →
     OnExternalChange T This w = None).
Proof.
  intros HN Hwf. unfold OnExternalChange. rewrite HN. simpl.
  split; [by intros ->|].
  set (Nf := set_bNeedsFullReconstruction true N).
  set (wf := set_GraphNode This Nf w).
  assert (GraphNodes wf !! This = Some Nf) as HNf by apply lookup_insert_eq.
  assert (CanReconstructNode wf Nf = CanReconstructNode w N) as Hcan
    by (by apply CanReconstructNode_reads).
  assert (CanReconstructNode_call wf Nf = CanReconstructNode_call w N) as Hcall
    by (by apply CanReconstructNode_call_reads).
  assert (ReconstructNode_call T This wf
          = CanReconstructNode_call w N ≫= λ _, Some (ReconstructNode T This wf)) as Hrc.
  { unfold ReconstructNode_call. rewrite HNf. simpl. by rewrite Hcall. }
  split; [|split].
  - intros Hr Hc [G HG]. rewrite Hr, Hrc, Hc, HG. simpl.
    split; [|intros w2 N2 _; apply needs_rebuild_pending].
    f_equal. unfold ReconstructNode. rewrite HNf, Hcan.
    unfold CanReconstructNode. by rewrite Hc.
  - intros Hcs. pose proof (proj1 (CanReconstructNode_call_true w N) Hcs) as Hc.
    assert (bIsReconstructingNode N = false) as ->.
    { rewrite CanReconstructNode_eq in Hc. destruct (bIsReconstructingNode N); [|done].
      by rewrite orb_true_r in Hc. }
    assert (is_Some (Graph N)) as [G HG].
    { rewrite CanReconstructNode_eq in Hc. unfold IsValid_Graph in Hc.
      destruct (Graph N); [by eexists|]. by repeat case_match. }
    rewrite Hrc, Hcs, HG. simpl.
    assert (node_pins_wf Nf (PinObjects wf)) as Hwff by (by destruct N).
    destruct (ReconstructNode_arrays T This wf Nf HNf)
      as [(Hno & _)|(N1 & h' & rw & _ & _ & Heq & HN1 & Hh)].
    { rewrite (needs_rebuild_pending T Nf wf eq_refl), Hcan, Hc in Hno. done. }
    eexists _, _. split; [done|]. split; [exact HN1|]. split; [done|]. split; [done|]. simpl.
    pose proof (node_pins_wf_reconstructing true Nf _ Hwff) as Hwf1.
    destruct (RebuildPinArrays_spec _ _ _ _ _ _ _ Hwf1 Heq)
      as (HP & _ & Horph & Hold & Hnew & _).
    rewrite Hh. simpl in HP.
    intros p Hp. rewrite HP, elem_of_app in Hp. destruct Hp as [Hp|Hp].
    + left. apply elem_of_seq in Hp.
      assert (∀ o, o ∈ Pins N → o < heap_next (PinObjects w)) as Hlow.
      { intros o Ho. destruct Hwf as (_ & Hb & Hl). destruct (Hl o Ho) as (r & Hr & _).
        by eapply Hb. }
      split; [simpl in Hp; lia|]. split; [intros Hc'; apply Hlow in Hc'; simpl in Hp; lia|].
      match type of Hp with _ ≤ _ < _ + length ?D' => set (D := D') in * end.
      destruct (lookup_lt_is_Some_2 D (p - heap_next (PinObjects w))) as [d Hd];
        [simpl in Hp; lia|].
      destruct (Hnew _ _ Hd) as (r' & Hr' & Hforget). simpl in Hr'.
      replace (heap_next (PinObjects w) + (p - heap_next (PinObjects w))) with p in Hr'
        by (simpl in Hp; lia).
      unfold pin_orphaned. rewrite Hr'. simpl.
      apply (f_equal bOrphanedPin) in Hforget. simpl in Hforget. rewrite Hforget.
      by destruct (new_pin_objects_fresh _ d (list_elem_of_lookup_2 _ _ _ Hd)) as (_ & ? & _).
    + right. apply list_elem_of_filter in Hp as [_ Hp].
      apply list_elem_of_filter in Hp as [Hpo Hp]. simpl in Hp. split; [done|].
      destruct Hwf as (_ & _ & Hl). destruct (Hl p Hp) as (r0 & Hr0 & _).
      unfold pin_orphaned. rewrite (Hold p r0 Hp Hr0). by rewrite decide_True.
  - intros Hr [HG|Hc]; rewrite Hr, Hrc.
    + rewrite HG. by destruct (CanReconstructNode_call w N).
    + by rewrite Hc.
Qed.

Lemma OnExternalChange_forces_rebuild_witness :
  let w := ex_scenario_world [12] false in
  (bIsReconstructingNode ex_scenario_node = true →
   OnExternalChange NoManagedPins 0 w = Some w)
  ∧ (bIsReconstructingNode ex_scenario_node = false →
     CanReconstructNode_call w ex_scenario_node = Some false →
     is_Some (Graph ex_scenario_node) →
     OnExternalChange NoManagedPins 0 w
     = Some (set_GraphNode 0 (set_bNeedsFullReconstruction true ex_scenario_node) w)
     ∧ ∀ w2 N2, GraphNodes w2 !! 0 = Some N2 →
         bNeedsFullReconstruction N2 = true → needs_rebuild NoManagedPins N2 w2 = true)
  ∧ (CanReconstructNode_call w ex_scenario_node = Some true →
     ∃ w' N', OnExternalChange NoManagedPins 0 w = Some w'
       ∧ GraphNodes w' !! 0 = Some N'
       ∧ bNeedsFullReconstruction N' = false ∧ bIsReconstructingNode N' = false
       ∧ ∀ p, p ∈ Pins N' →
           (heap_next (PinObjects w) ≤ p ∧ (p ∉ Pins ex_scenario_node)
            ∧ pin_orphaned (PinObjects w') p = false)
           ∨ (p ∈ Pins ex_scenario_node ∧ pin_orphaned (PinObjects w') p = true))
  ∧ (bIsReconstructingNode ex_scenario_node = false →
     Graph ex_scenario_node = None ∨ CanReconstructNode_call w ex_scenario_node = None →
     OnExternalChange NoManagedPins 0 w = None).
Proof.
  apply (OnExternalChange_forces_rebuild NoManagedPins 0 (ex_scenario_world [12] false)
           ex_scenario_node).
  - reflexivity.
  - apply node_pins_wf_b_sound. vm_compute. reflexivity.
Defined.

(** * Pins added on the instance *)

Lemma CreatePin_at (Dir : EEdGraphPinDirection) (Cat : EFlowPinType) (Name : FName)
    (k : nat) (N : UFlowGraphNode) (h : PinHeap) :
  k ≤ length (Pins N) →
  CreatePin Dir Cat Name (Some k) (N, h)
  = (set_PinArrays (take k (Pins N) ++ heap_next h :: drop k (Pins N))
       (InputPins N) (OutputPins N) N,
     (heap_alloc (NewPinObject Dir Cat Name) h).1, heap_next h).
Proof.
  intros Hk. unfold CreatePin. simpl. destruct (decide (k < length (Pins N))); [done|].
  assert (k = length (Pins N)) as -> by lia. by rewrite firstn_all, drop_all.
Qed.

Lemma Insert_or_Add {A : Type} (x : A) (k : nat) (l : list A) :
  k ≤ length l →
  (if decide (k < length l) then Insert x k l else l ++ [x]) = take k l ++ x :: drop k l.
Proof.
  intros Hk. destruct (decide (k < length l)); [done|].
  assert (k = length l) as -> by lia. by rewrite firstn_all, drop_all.
Qed.

Lemma pin_name_new_pin (f : UEdGraphPin → UEdGraphPin) (r : UEdGraphPin) (h : PinHeap)
    (l : list pin_ptr) :
  (∀ x, PinName (f x) = PinName x) → (∀ p, p ∈ l → p < heap_next h) →
  pin_name (heap_alter f (heap_next h) (heap_alloc r h).1) (heap_next h) = PinName r
  ∧ pin_name (heap_alter f (heap_next h) (heap_alloc r h).1) <$> l = pin_name h <$> l.
Proof.
  intros Hf Hl. split.
  - unfold pin_name. rewrite lookup_heap_alter, decide_True by done. simpl.
    rewrite lookup_insert_eq. simpl. apply Hf.
  - apply list_fmap_ext. intros j p Hp. apply list_elem_of_lookup_2, Hl in Hp.
    unfold pin_name. rewrite lookup_heap_alter, decide_False by lia. simpl.
    rewrite lookup_insert_ne by lia. done.
Qed.

(** X22. [AddInstancePin] keeps the graph pins in step with the
    descriptors of the flow node: on a node that has a graph, when the
    names of [Pins] are those of the input descriptors followed by those of
    the output descriptors, and the number passed is at most the number of
    descriptors of the direction (as the count of the numbered pins that
    the callers pass is), the new descriptor and the new pin land at
    matching places and the names still agree in order afterwards. The new
    pin goes to the end of [InputPins] (or [OutputPins]) wherever it lands
    in [Pins]. *)
Theorem AddInstancePin_keeps_order (FlowPin_FromInt : nat → FFlowPin)
    (Dir : EEdGraphPinDirection) (NumberedPinsAmount : uint8) (This : node_ptr) (w : World)
    (N : UFlowGraphNode) (i : inst_ptr) (X : UFlowNodeBase) :
  let k := uint8_val NumberedPinsAmount in
  GraphNodes w !! This = Some N → NodeInstance N = Some i →
  NodeInstances w !! i = Some X → Inst_Class X = Class_FlowNode →
  is_Some (Graph N) →
  FlowPin_IsValid (FlowPin_FromInt k) = true →
  (∀ p, p ∈ Pins N → p < heap_next (PinObjects w)) →
  pins_mirror_descriptors N (PinObjects w) X →
  k ≤ length (if decide (Dir = EGPD_Input) then Inst_InputPins X else Inst_OutputPins X) →
  let new := FlowPin_FromInt k in
  let NewPin := heap_next (PinObjects w) in
  ∃ w' N' X',
    AddInstancePin FlowPin_FromInt Dir NumberedPinsAmount This w = Some w'
    ∧ GraphNodes w' !! This = Some N' ∧ NodeInstances w' !! i = Some X'
    ∧ pins_mirror_descriptors N' (PinObjects w') X'
    ∧ length (Pins N') = S (length (Pins N))
    ∧ heap_pins (PinObjects w') !! NewPin
      = Some (fresh_pin (if decide (Dir = EGPD_Input) then EGPD_Input else EGPD_Output) new)
    ∧ (Dir = EGPD_Input →
       Inst_InputPins X' = take k (Inst_InputPins X) ++ new :: drop k (Inst_InputPins X)
       ∧ Inst_OutputPins X' = Inst_OutputPins X
       ∧ Pins N' !! k = Some NewPin
       ∧ InputPins N' = InputPins N ++ [NewPin] ∧ OutputPins N' = OutputPins N)
    ∧ (Dir ≠ EGPD_Input →
       Inst_OutputPins X' = take k (Inst_OutputPins X) ++ new :: drop k (Inst_OutputPins X)
       ∧ Inst_InputPins X' = Inst_InputPins X
       ∧ Pins N' !! (length (Inst_InputPins X) + k) = Some NewPin
       ∧ OutputPins N' = OutputPins N ++ [NewPin] ∧ InputPins N' = InputPins N).
Proof.
  intros k HN Hi HX Hclass [G HG] Hvalid Hlow Hmirror Hk new NewPin.
  assert (FName_IsNone (FlowPin_PinName new) = false) as Hname.
  { unfold FlowPin_IsValid in Hvalid. by apply negb_true_iff in Hvalid. }
  assert (length (Pins N) = length (Inst_InputPins X) + length (Inst_OutputPins X)) as Hlen.
  { apply (f_equal length) in Hmirror. by rewrite !length_fmap, length_app in Hmirror. }
  unfold pins_mirror_descriptors in Hmirror.
  assert (∀ Dir' m,
    pin_name (heap_alter (set_FriendlyName_ToolTip new) NewPin
               (heap_alloc (NewPinObject Dir' (GetPinType new) (FlowPin_PinName new))
                  (PinObjects w)).1)
      <$> (take m (Pins N) ++ NewPin :: drop m (Pins N))
    = take m (FlowPin_PinName <$> Inst_InputPins X ++ Inst_OutputPins X)
      ++ FlowPin_PinName new
      :: drop m (FlowPin_PinName <$> Inst_InputPins X ++ Inst_OutputPins X)) as Hnames.
  { intros Dir' m. unfold NewPin. rewrite <- Hmirror, fmap_app, fmap_cons.
    destruct (pin_name_new_pin (set_FriendlyName_ToolTip new)
                (NewPinObject Dir' (GetPinType new) (FlowPin_PinName new))
                (PinObjects w) (take m (Pins N))) as [-> ->]; [done| |].
    { intros p Hp. apply Hlow. by apply (subseteq_take m). }
    destruct (pin_name_new_pin (set_FriendlyName_ToolTip new)
                (NewPinObject Dir' (GetPinType new) (FlowPin_PinName new))
                (PinObjects w) (drop m (Pins N))) as [_ ->]; [done| |].
    { intros p Hp. apply Hlow.
      by apply (sublist_subseteq _ _ (sublist_drop (Pins N) m)). }
    by rewrite fmap_take, fmap_drop. }
  assert (∀ Dir',
    heap_pins (heap_alter (set_FriendlyName_ToolTip new) NewPin
               (heap_alloc (NewPinObject Dir' (GetPinType new) (FlowPin_PinName new))
                  (PinObjects w)).1) !! NewPin = Some (fresh_pin Dir' new)) as Hfresh.
  { intros Dir'. simpl. unfold heap_alter. simpl. rewrite lookup_alter_eq.
    by rewrite lookup_insert_eq. }
  unfold AddInstancePin. rewrite HN. simpl. rewrite Hi. simpl.
  unfold Cast_UFlowNode, deref_Instance. simpl. rewrite HX, decide_True by done. simpl.
  rewrite HG. simpl. fold k new. destruct (decide (Dir = EGPD_Input)) as [->|HDir].
  - simpl in Hk. rewrite Insert_or_Add by done.
    unfold CreateInputPin. rewrite Hname. rewrite CreatePin_at by (simpl; lia).
    fold NewPin.
    eexists _, _, _. split; [done|]. cbn [GraphNodes NodeInstances PinObjects set_GraphNode set_PinObjects set_NodeInstance
         Pins InputPins OutputPins set_PinArrays].
    rewrite !lookup_insert_eq.
    split; [done|]. split; [done|]. split; [|split; [|split; [|split]]].
    + unfold pins_mirror_descriptors.
      cbn [Pins set_PinArrays Inst_InputPins Inst_OutputPins set_Inst_InputPins].
      rewrite Hnames, !fmap_app, fmap_cons.
      rewrite take_app_le by (rewrite length_fmap; lia).
      rewrite drop_app_le by (rewrite length_fmap; lia).
      rewrite fmap_take, fmap_drop, <- !app_assoc. done.
    + cbn [Pins set_PinArrays]. rewrite length_app. simpl.
      rewrite length_take, length_drop. lia.
    + apply Hfresh.
    + intros _. split; [done|]. split; [done|]. split; [|done].
      cbn [Pins set_PinArrays].
      rewrite lookup_app_r by (rewrite length_take; lia).
      rewrite length_take. by replace (k - k `min` length (Pins N)) with 0 by lia.
    + done.
  - simpl in Hk. rewrite Insert_or_Add by done.
    unfold CreateOutputPin. rewrite Hname. rewrite CreatePin_at by (simpl; lia).
    fold NewPin. set (m := length (Inst_InputPins X) + k).
    eexists _, _, _. split; [done|]. cbn [GraphNodes NodeInstances PinObjects set_GraphNode set_PinObjects set_NodeInstance
         Pins InputPins OutputPins set_PinArrays].
    rewrite !lookup_insert_eq.
    split; [done|]. split; [done|]. split; [|split; [|split; [|split]]].
    + unfold pins_mirror_descriptors.
      cbn [Pins set_PinArrays Inst_InputPins Inst_OutputPins set_Inst_OutputPins].
      rewrite Hnames, !fmap_app, fmap_cons. unfold m.
      rewrite take_app_ge by (rewrite length_fmap; lia).
      rewrite drop_app_ge by (rewrite length_fmap; lia).
      rewrite !length_fmap.
      replace (length (Inst_InputPins X) + k - length (Inst_InputPins X)) with k by lia.
      rewrite fmap_take, fmap_drop, <- !app_assoc. done.
    + cbn [Pins set_PinArrays]. rewrite length_app. simpl.
      rewrite length_take, length_drop. lia.
    + apply Hfresh.
    + done.
    + intros _. split; [done|]. split; [done|]. split; [|done].
      cbn [Pins set_PinArrays].
      rewrite lookup_app_r by (rewrite length_take; lia).
      rewrite length_take. by replace (m - m `min` length (Pins N)) with 0 by lia.
Qed.

Lemma AddInstancePin_keeps_order_witness :
  ∃ w' N' X',
    AddInstancePin ex_FromInt EGPD_Input (mk_uint8 1 I) 0 ex_numbered_world = Some w'
    ∧ GraphNodes w' !! 0 = Some N' ∧ NodeInstances w' !! 0 = Some X'
    ∧ pins_mirror_descriptors N' (PinObjects w') X'
    ∧ Inst_InputPins X' = [pinIn; ex_FromInt 1; ex_FromInt 0]
    ∧ Pins N' !! 1 = Some 3
    ∧ InputPins N' = [0; 1; 3].
Proof.
  destruct (AddInstancePin_keeps_order ex_FromInt EGPD_Input (mk_uint8 1 I) 0
              ex_numbered_world ex_numbered_node 0
              (ex_flow_node [pinIn; ex_FromInt 0] [pinOut]))
    as (w' & N' & X' & Hw & HN & HX & Hm & _ & _ & Hin & _).
  - reflexivity.
  - reflexivity.
  - reflexivity.
  - reflexivity.
  - by eexists.
  - reflexivity.
  - intros p Hp. simpl.
    repeat (apply elem_of_cons in Hp as [->|Hp]; [lia|]). by apply elem_of_nil in Hp.
  - reflexivity.
  - simpl. lia.
  - destruct (Hin eq_refl) as (HI & _ & HP & HIn & _).
    exists w', N', X'. repeat split; done.
Defined.
